(* ===== verification/_CoqProject ===== *)
-Q . S2P
Prelude.v
GoStrings.v
GoTime.v
Sha256.v
X509.v
Verify.v
Inventory.v
Storage.v
Concurrent.v
Files.v
CertStore.v
FileBackend.v
FileSafety.v
Overlay.v
KeyPerms.v
Signer.v
RedisLock.v
Records.v
InventorySpec.v
Numbered.v
BulkImport.v
Migrate.v
Etcd.v
EtcdPrune.v
EtcdSpec.v
EtcdLegacy.v
Redis.v
RedisSpec.v
RedisLegacy.v
Policy.v
Autosign.v
CAState.v
CRLChain.v
CRL.v
OCSP.v
CRLSafety.v
Supersede.v
Signing.v
Lifecycle.v
Import.v
ManagedCert.v
CertConfig.v
System.v
Growth.v
Generate.v
ManagedSafety.v
Process.v
KeyCustody.v
OpenBao.v
Bootstrap.v
BootSafety.v
BootAgree.v
CAImport.v
ClientCRL.v
Auth.v
ClientReload.v
RateLimit.v
Status.v
Handlers.v
HandlerSafety.v
Witnesses.v
