(* ===== verification/Prelude.v ===== *)
(** * openvox-ca: a verification of the certificate authority's core

    openvox-ca is the certificate authority of an OpenVox or Puppet fleet.  Any
    number of replicas serve one fleet over one shared store.  This library
    models the replicas' operations on that store and on their own memory, and
    the HTTP interface in front of them, and proves what keeps the CA
    trustworthy: what it issues and to whom, that what it revokes stays revoked
    and is answered as revoked everywhere, who can change anything, and that
    the inventory is an append-only record whose tampering shows.

    ** The program and the files that model it

    Storage (src/internal/storage).  A [Backend] holds blobs under logical
    keys; the SQL, etcd and Redis backends also keep the inventory as records.
    [StorageService] adds the inventory with its integrity value, the
    certificate index and named locks.
    - Inventory: the line formats, canonical serials and HMAC schemes of
      storage.go; Sha256 is the executable hash under them.
    - Storage: backend.go, the semantics of filesystem.go, sql.go and
      sql_inventory.go, and the operations of storage.go, as actions of the
      monad [MS] on a [Store].
    - Files: system calls on directories, files and links, any of which may
      fail, and the atomic replacement of a file (filesystem.go).
    - FileBackend and FileSafety: the filesystem backend as programs of system
      calls (filesystem.go), and that it is the backend Storage assumes.
    - Overlay: single blobs in local files over another backend (overlay.go).
    - KeyPerms: the check of key files' permissions at start-up (storage.go).
    - InventorySpec: the inventory operations against an abstract list.
    - Migrate: copying a CA from one store to another (migrate.go).
    - Records: the record format the etcd and Redis backends share
      (inventory_records.go).
    - Concurrent: programs whose requests to a shared service interleave with
      those of other clients, and how to reason about them.
    - Numbered: what an inventory of numbered records with two indices is, and
      how appends and prunes act on it; shared by etcd and Redis.
    - Etcd, EtcdPrune and EtcdSpec: the etcd inventory and certificate index
      (etcd_inventory.go, etcd_certindex.go) as such programs.
    - Redis and RedisSpec: the Lua scripts and programs of the Redis inventory
      and index (redis_inventory.go, redis_certindex.go).
    - BulkImport, EtcdLegacy and RedisLegacy: replacing the whole inventory in
      batches, and the conversion of a legacy text at start-up.
    - RedisLock: the distributed lock in Redis (redis.go), in time.

    The CA (src/internal/ca).  One [CA] object per replica: configuration,
    certificate and key, the CRL in memory, an index of issued serials, a cache
    of OCSP answers.
    - Policy: certnames, alternative names, extensions and key rules
      (signing.go, generate.go, oids.go, authgrant.go, reservedsubject.go,
      keys.go).
    - Autosign: the policy that signs requests without an operator, and the
      judgement of the path of its program (autosign.go, autosignpath.go).
    - CAState: the [CA] record (ca.go) and the [World] of one replica; its
      methods are actions of the monad [MW].
    - CRLChain: the stored chain of CRLs and the operator's chain file
      (crlchain.go, crlchainfile.go, cabundle.go, [ownCRLIn] of caImport.go).
    - CRL: signing, installing, refreshing and reloading the CRL, and revoking
      one serial (crl.go, crlsync.go, [loadCRLCache] of init.go, revoke.go).
    - OCSP: the responder and the serial index (ocsp.go, serialsync.go).
    - CRLSafety: every way of rewriting the stored CRL only adds to it.
    - Supersede: certificates replaced by a renewal and awaiting revocation,
      and revocation by certname (supersede.go, revoke.go).
    - Signing: requests, signing, both renewals, cleaning (signing.go).
    - Lifecycle: removal of expired certificates, server-side generation and
      index repair (cleanup.go, generate.go, certindex.go).
    - Import: taking certificates issued elsewhere on record (importcert.go).
    - ManagedCert and ManagedSafety: certificates the CA keeps current by itself
      in stores outside its own (managedcert.go).
    - CertStore: those stores, a file pair or a Kubernetes Secret
      (internal/certstore/file.go, secret.go).
    - CertConfig: their configuration and its checks (certconfig.go).
    - System and Growth: replicas taking steps in any order on one store.
    - Generate: what server-side generation hands out.
    - Process: calls of several processes interleaving over a shared state with
      one lock, and how to reason about them.
    - KeyCustody: the CA key at rest, encrypted or at a key provider (keyenc.go,
      keyprovider.go, keys.go).
    - Signer: the process that holds the key apart from the server, its secret,
      handshake and requests (internal/signer/signer.go).
    - OpenBao: the CA key in a transit engine, a key provider with logins of its
      own (internal/signer/openbao).
    - Bootstrap, BootSafety and BootAgree: starting a replica, as such a process
      (init.go).
    - CAImport: replacing the CA by given material (caImport.go, cabundle.go).

    The API (src/internal/api).  A middleware decides from the method, the path
    and the client's certificate whether a request reaches its handler; the
    handlers call the CA and turn its results into answers.
    - Auth: route tiers and trust domains (auth.go, trustdomain.go).
    - ClientCRL: the revocation check of foreign clients (clientcrl.go).
    - ClientReload: setting up foreign trust domains and reloading their CRLs
      (cmd/openvox-ca/clientca.go).
    - RateLimit: the limiter of the public route (ratelimit.go).
    - Status: status documents and their listing (serial.go, handlers.go).
    - Handlers: routes and handlers (handlers.go, ocsp_handler.go,
      health_handler.go, principal.go).
    - HandlerSafety: what requests can do and what answers mean.

    - Witnesses: a concrete CA, cluster and server on which the theorems are
      applied; the files on storage, keys and autosigning carry their own.

    GoStrings, GoTime, X509 and Verify model what the sources use of Go's
    strings, math/big, time, crypto/x509 and encoding/pem.  This file holds the errors,
    the result type, the state monad, its rules and the shared tactics.

    ** Reading the model

    An operation is a function from a state to a result and a state.  Recursion
    is over lists, with these exceptions.  Path building in Verify has one more
    unit of fuel than there are intermediates; more never changes the outcome
    ([buildChains_fuel]).  The walk of an autosign path has one unit per
    component it may visit, counting the 40 symbolic links the code allows.
    The etcd and Redis programs have the code's own bounds: 16 attempts of a
    contended transaction or script and 30 batches of 30 records in an etcd
    prune.  A symbolic link is followed 40 times, as the system does.  Signing in
    batches has one unit per request.  A start-up makes at most 29
    actions, each one request or none but for four, whose requests are bounded
    separately ([Init_terminates]).

    Everything the program does not decide is a script in the state, and
    theorems quantify over all scripts: each backend call, lock or signature
    succeeds, fails before its effect, or fails after it (a lost
    acknowledgement); the clock advances by scripted steps; random numbers,
    chain-file contents and autosign verdicts are scripted.  An exhausted script
    means no more failures, a clock that stands still, a random source that
    fails, a missing chain file and no autosigning.

    The mutex of a CA object is not represented: a locked section is one
    uninterrupted action.  [AnswerOCSP] and [SyncSerialIndex] release it
    midway and are split into one action per section.  A storage lock is an
    action that may fail; operations that hold one are single steps of the
    cluster.  The etcd and Redis operations, which rely on transactions and
    scripts instead of a lock, interleave request by request.  Operations on
    files are programs of system calls: [upto] is every moment a program may be
    at, after any failures, so a theorem about it speaks of crashes too.  Start-ups interleave call by call: a process
    holds the bootstrap lock alone, and its death frees it.  Key derivation, the
    cipher of a stored key and key providers are interfaces with their laws.

    A notion used throughout: [mono R m] says that running [m] relates the
    states before and after by the preorder [R], whatever the outcome.  The
    rules for [mono] are in the hint database [mono], and [mono_tac] walks an
    operation with them.  Frames, invariants and monotonicity ([same_data],
    [frame], [keeps_coherent], [crl_grows], [keeps_store]) are all proved this
    way.

    ** What the theorems show

    - Revocation: the published CRL only gains entries and its number only
      rises, across every interleaving and every failure, expired entries apart
      ([published_crl_grows], [CleanupExpiredCerts_keeps_revocations]); a
      replica that reloads the CRL answers a published revocation
      ([revocation_reaches_replica]); revoking publishes the serial
      ([revokeSerialLocked_publishes]); no supersession is forgotten
      ([ReconcileSuperseded_accounts]).
    - OCSP: answers agree with index and CRL, cached answers never contradict
      them, and an index refresh neither loses nor revives a serial under races
      ([AnswerOCSP_correct], [replicas_coherent], [reconcileSerialIndex_sound]).
    - Issuance: bounds on every leaf, what a request can and cannot obtain,
      agreement with the inventory, what generation and import record, and what
      a failure leaves ([issueLeafLocked_bounds], [signWithDuration_authority],
      [issueLeafLocked_recorded], [GenerateWithOptions_sound],
      [ImportCertificate_recorded], [issueLeafLocked_failure],
      [leaf_validity_range]).
    - Managed certificates: what a pass hands out, that passes come to rest, and
      how seldom a store that refuses its writes is tried
      ([managed_certificate_sound], [managed_certificate_settles],
      [managed_write_backoff]).
    - Start-up: replicas starting together, with failures and deaths anywhere,
      end up with one CA, and nothing stored is destroyed
      ([starting_replicas_agree], [startup_never_destroys], [Init_terminates],
      [ca_key_roundtrip]).
    - Import of a CA: the published CRL never goes back, and one way a revocation
      made during an import is lost all the same ([import_never_rolls_back],
      [forced_import_races_with_revocation]).
    - Migration: an exact copy after any number of failed runs, a source that is
      never changed, and what is refused ([MigrateService_copies],
      [MigrateService_protects]).
    - Renewal: only for unrevoked certificates of this CA, and nothing new is
      handed out ([revoked_cannot_renew], [Renew_sound]).
    - Authorisation: who gets past the middleware, that a revoked client of
      this CA does not, what a configuration grants, that a replayed CRL re-admits nobody
      ([authMiddleware_admits], [revoked_client_refused],
      [buildTrustDomains_grants], [reload_cannot_readmit]).
    - The API as a whole: which requests can change what is stored
      ([requests_cannot_write]), what the answers mean ([put_status_answers],
      [renewal_request_sound], [list_statuses_truthful]), that batching is
      invisible ([signInBatches_equiv]) and what the limiter admits, also
      when calls wait for its lock ([rate_limit_bound]).
    - Autosigning: what signs a request without an operator, and that the
      program's path cannot be subverted unless unsafe paths are allowed ([CheckAutosign_sound],
      [autosign_path_stable]).
    - Keys: what the handshake with the isolated signer establishes under an
      active attacker and what it will sign ([handshake_authenticates],
      [Service_Sign_digests]); that the OpenBao provider keeps the laws start-up
      relies on, checks each signature, and how often it logs in
      ([openbao_laws], [Signer_Sign_verified], [reauth_bounded]); that open key
      files are reported ([CheckKeyPermissions_reports]).
    - Files: the filesystem backend and the overlay implement the backend, under
      failures and crashes, a CA directory stays well-formed, and one directory
      in which a failed write loses the CA key ([filesystem_refines],
      [overlay_refines], [cadir_well_formed], [ca_key_conflict_refused],
      [linked_ca_key_lost]).
    - Stores of managed certificates: a crash never leaves a certificate without
      its key, a Secret of another owner is not taken, accepted entries do not
      interfere ([FileStore_Save_crash], [SecretStore_Save_always],
      [accepted_entries_apart]).
    - Inventory: refinement of an append-only list with unique serials, tamper
      evidence, exact pruning, refusal of duplicates, round trips
      ([AppendInventoryRecord_refines], [AppendInventoryRecord_duplicate],
      [PruneInventory_refines], [InventoryEntries_tamper_evident],
      [openVox_line_roundtrip]).
    - The inventory in etcd and Redis: the same refinements, consistency of records,
      indices and integrity head under any interleaving of replicas and any
      lost requests, and that repeated prunes finish
      ([etcd_AppendEntry_refines], [etcd_PruneEntries_refines],
      [etcd_replicas_consistent], [etcd_prunes_finish],
      [redis_AppendEntry_refines], [redis_PruneEntries_refines],
      [redis_replicas_consistent]); conversions of a legacy text that are cut off
      anywhere are completed exactly ([etcd_conversion_resumable],
      [redis_conversion_resumable]); when the Redis lock excludes
      ([redis_lock_excludes]).
    - Upstream CRLs: a chain file cannot roll an ancestor's CRL back
      ([upstreamCRLs_monotone]).
    - Certnames: an accepted name is safe as a key and as a field
      ([ValidateSubject_safe]).

    ** Abstractions

    Signatures and key identifiers are symbolic: an object records the key that
    signed it, and a check compares keys after the constraint tests of Go's
    library.  Equality of encoded objects is equality of their records.  Stored
    bytes are represented by what the decoders find in them, and so are the
    bodies of requests.  Sorting with [sort.Slice] is modelled as a stable sort.
    Log lines are not modelled; the counters behind the metrics are.
    Cancellation of a context is one of the scripted failures.  White space is
    that of ASCII.  Patterns match rune by rune, which is what Go does for every
    pattern that is valid UTF-8.

    ** What is not modelled

    The blobs of the etcd and Redis backends and the SQL schema: each call is a
    request to a service, whose effect is the one [Backend] states.  The etcd,
    file and instance locks: leases and flock are the operating system's or the
    service's.  Of the isolated signer and OpenBao, inherited descriptors, the
    RPC library, the client's configuration and the loop that renews a lease.
    Kubernetes export, settings, metrics, the HTTP server's set-up and the
    command line programs: parsing, reporting and timers around the operations
    modelled here. *)

From stdpp Require Export base gmap strings list fin_maps sorting.
From Stdlib Require Export ZArith Lia.

#[global] Open Scope Z_scope.

(** ** Go errors

    An [error] value is a sentinel (a package-level [errors.New] value the
    code compares with [errors.Is]), a plain message, or a message wrapping
    one or more errors with [%w] (also [errors.Join]). *)

Inductive sentinel :=
  | FsErrNotExist
  | ErrDuplicateSerial | ErrMalformedSerial | ErrInventoryTampered
  | ErrDestinationNotEmpty | ErrSourceUnverified
  | ErrReservedSubject | ErrInvalidAuthGrant | ErrKeyPolicy | ErrCAKeyType
  | ErrCertExists | ErrCertRevoked | ErrCertSuperseded | ErrNotInitialized
  | ErrForeignCertificate | ErrRenewalSubjectMismatch
  | ErrDisallowedSubjectAltNames | ErrDisallowedExtensions
  | ErrNotFound | ErrNoCSR | ErrSubjectUnknown | ErrSerialUnknown
  | ErrSerialIsCurrent | ErrSerialStateUnknown | ErrForeignStoredCRL
  | ErrSigningBusy | ErrInternal | ErrNotAuthoritative
  | ErrInvalidDNSAltName | ErrChainFileFault | ErrNoUsableCRL
  | ErrImportInvalid | ErrSerialExists
  | ErrKeyProviderKeyNotFound | ErrCACertExists | ErrCACertWrite
  | ErrCAKeyConflict | ErrCAKeyLinkBroken
  | ErrSameHostLockingUnsupported | ErrReauthThrottled.

#[global] Instance sentinel_eq_dec : EqDecision sentinel.
Proof. solve_decision. Defined.

Inductive error :=
  | Sentinel (s : sentinel)
  | DuplicateCertError (subject state : string)
  | Msg (m : string)
  | Wrap (m : string) (causes : list error).

(** [errors.Is]: does the error, or anything it wraps, equal the sentinel?
    [ErrCertSuperseded] is itself declared as wrapping [ErrCertRevoked]. *)
Fixpoint errors_Is (e : error) (s : sentinel) : bool :=
  match e with
  | Sentinel s' =>
      bool_decide (s' = s) ||
      (bool_decide (s' = ErrCertSuperseded) && bool_decide (s = ErrCertRevoked))
  | DuplicateCertError _ _ => false
  | Msg _ => false
  | Wrap _ es => existsb (fun e' => errors_Is e' s) es
  end.

(** ** Results and the state-and-error monad *)

Inductive result (A : Type) :=
  | Ok (a : A)
  | Err (e : error).
Arguments Ok {A} a.
Arguments Err {A} e.

Definition is_ok {A} (r : result A) : bool :=
  match r with Ok _ => true | Err _ => false end.

(** A Go function with receiver state [S] and results [(A, error)]: the state
    reached is kept on the error path too, as in the source. *)
Definition M (S A : Type) : Type := S -> result A * S.

#[global] Instance M_ret S : MRet (M S) := fun A a s => (Ok a, s).
#[global] Instance M_bind S : MBind (M S) := fun A B k m s =>
  match m s with
  | (Ok a, s') => k a s'
  | (Err e, s') => (Err e, s')
  end.

Section MonadOps.
Context {S : Type}.

Definition fail {A} (e : error) : M S A := fun s => (Err e, s).
Definition gets {A} (f : S -> A) : M S A := fun s => (Ok (f s), s).
Definition modify (f : S -> S) : M S unit := fun s => (Ok tt, f s).

(** [try m] hands the error to the caller as a value: the Go idiom
    [x, err := m()] where the caller inspects [err] itself. *)
Definition try {A} (m : M S A) : M S (result A) := fun s =>
  let '(r, s') := m s in (Ok r, s').

(** [of_result r]: return a result computed elsewhere. *)
Definition of_result {A} (r : result A) : M S A := fun s => (r, s).

(** [check e]: [if err := e; err != nil { return err }]. *)
Definition check (e : option error) : M S unit :=
  match e with None => mret tt | Some e => fail e end.

(** [when b m]: [if b { m }]. *)
Definition when (b : bool) (m : M S unit) : M S unit := if b then m else mret tt.

(** [ignore m]: run [m] and only log its error. *)
Definition ignore {A} (m : M S A) : M S unit := _ ← try m; mret tt.

(** [wrapping msg m]: [if err != nil { return fmt.Errorf("msg: %w", err) }]. *)
Definition wrapping {A} (msg : string) (m : M S A) : M S A := fun s =>
  match m s with
  | (Ok a, s') => (Ok a, s')
  | (Err e, s') => (Err (Wrap msg [e]), s')
  end.

(** A [for _, x := range l] loop whose body may return early with an error. *)
Fixpoint for_each {A} (f : A -> M S unit) (l : list A) : M S unit :=
  match l with
  | [] => mret tt
  | x :: l => _ ← f x; for_each f l
  end.

Definition exec {A} (m : M S A) (s : S) : S := (m s).2.
Definition run {A} (m : M S A) (s : S) : result A := (m s).1.
End MonadOps.

(** ** Relational frame reasoning

    [mono R m] says that every run of [m], whether it returns a value or an
    error, moves the state along the preorder [R].  Invariants
    ([fun s s' => I s -> I s']), frames ([fun s s' => f s = f s']) and
    monotonicity properties are all instances. *)

Section Mono.
Context {S : Type} (R : relation S) `{!PreOrder R}.

Definition mono {A} (m : M S A) : Prop := forall s, R s (exec m s).

Lemma mono_ret {A} (a : A) : mono (mret a).
Proof. intros s. unfold exec. simpl. reflexivity. Qed.

Lemma mono_bind {A B} (m : M S A) (k : A -> M S B) :
  mono m -> (forall a, mono (k a)) -> mono (m ≫= k).
Proof.
  intros Hm Hk s. unfold mono, exec in *. specialize (Hm s).
  unfold mbind, M_bind. destruct (m s) as [[a|e] s']; simpl in *; [|done].
  etrans; [exact Hm|apply Hk].
Qed.

(** The continuation may use that its argument came out of [m]. *)
Lemma mono_bind_run {A B} (m : M S A) (k : A -> M S B) :
  mono m -> (forall s a s', m s = (Ok a, s') -> R s' (exec (k a) s')) -> mono (m ≫= k).
Proof.
  intros Hm Hk s. unfold mono, exec in *. specialize (Hm s). specialize (Hk s).
  unfold mbind, M_bind. destruct (m s) as [[a|e] s']; simpl in *; [|done].
  etrans; [exact Hm|by apply Hk].
Qed.

Lemma mono_fail {A} e : mono (@fail S A e).
Proof. intros s. unfold exec. simpl. reflexivity. Qed.

Lemma mono_gets {A} (f : S -> A) : mono (gets f).
Proof. intros s. unfold exec. simpl. reflexivity. Qed.

Lemma mono_modify f : (forall s, R s (f s)) -> mono (modify f).
Proof. intros H s. apply H. Qed.

Lemma mono_of_result {A} (r : result A) : mono (of_result r).
Proof. intros s. unfold exec. simpl. reflexivity. Qed.

Lemma mono_try {A} (m : M S A) : mono m -> mono (try m).
Proof. intros H s. specialize (H s). unfold exec, try in *. by destruct (m s). Qed.

Lemma mono_wrapping {A} msg (m : M S A) : mono m -> mono (wrapping msg m).
Proof.
  intros H s. specialize (H s). unfold exec, wrapping in *.
  by destruct (m s) as [[]].
Qed.

Lemma mono_check e : mono (check e).
Proof. destruct e; [apply mono_fail|apply mono_ret]. Qed.

Lemma mono_when b m : mono m -> mono (when b m).
Proof. destruct b; [done|]. intros _. apply mono_ret. Qed.

Lemma mono_ignore {A} (m : M S A) : mono m -> mono (ignore m).
Proof. intros H. apply mono_bind; [by apply mono_try|]. intros. apply mono_ret. Qed.

Lemma mono_for_each {A} (f : A -> M S unit) l :
  (forall x, mono (f x)) -> mono (for_each f l).
Proof.
  intros H. induction l as [|x l IH]; simpl; [apply mono_ret|].
  apply mono_bind; auto.
Qed.
End Mono.

Lemma mono_run {S A} (R : relation S) (m : M S A) s r s' : mono R m -> m s = (r, s') -> R s s'.
Proof. intros H E. specialize (H s). unfold exec in H. by rewrite E in H. Qed.

Create HintDb mono discriminated.
#[export] Hint Resolve mono_ret mono_fail mono_gets mono_of_result mono_check : mono.
#[export] Hint Resolve mono_try mono_wrapping mono_for_each mono_when mono_ignore : mono.

(** [mono_tac] walks through a monadic body, splitting binds and case
    analyses, and closes the leaves with the [mono] hint database. *)
Ltac mono_step :=
  first
    [ solve [eauto with mono typeclass_instances]
    | match goal with
      | |- mono _ (match ?x with _ => _ end) => destruct x eqn:?
      | |- mono _ (@mbind _ _ _ _ _ _) => eapply mono_bind; [typeclasses eauto| |intros ?]
      | |- mono _ (try _) => eapply mono_try
      | |- mono _ (ignore _) => eapply mono_ignore; [typeclasses eauto|]
      | |- mono _ (when _ _) => eapply mono_when; [typeclasses eauto|]
      | |- mono _ (modify _) => eapply mono_modify; intros ?
      | |- mono _ (wrapping _ _) => eapply mono_wrapping
      | |- mono _ (for_each _ _) => eapply mono_for_each; [typeclasses eauto|intros ?]
      end ].
Ltac mono_tac := repeat mono_step.

(** ** Inversion of successful runs *)

Section Inversion.
Context {S : Type}.

Lemma bind_Ok {A B} (m : M S A) (k : A -> M S B) s b s' :
  (m ≫= k) s = (Ok b, s') -> exists a s1, m s = (Ok a, s1) /\ k a s1 = (Ok b, s').
Proof. unfold mbind, M_bind. destruct (m s) as [[a|e] s1]; naive_solver. Qed.

Lemma bind_run {A B} (m : M S A) (k : A -> M S B) s r s' :
  (m ≫= k) s = (r, s') ->
  (exists e, m s = (Err e, s') /\ r = Err e) \/ (exists a s1, m s = (Ok a, s1) /\ k a s1 = (r, s')).
Proof. unfold mbind, M_bind. destruct (m s) as [[a|e] s1]; naive_solver. Qed.

Lemma ret_Ok {A} (a b : A) (s s' : S) : (mret a : M S A) s = (Ok b, s') -> b = a /\ s' = s.
Proof. unfold mret, M_ret. naive_solver. Qed.

Lemma try_Ok {A} (m : M S A) r s s' : try m s = (Ok r, s') -> m s = (r, s').
Proof. unfold try. destruct (m s). naive_solver. Qed.

Lemma wrapping_Ok {A} msg (m : M S A) s a s' :
  wrapping msg m s = (Ok a, s') -> m s = (Ok a, s').
Proof. unfold wrapping. destruct (m s) as [[]]; naive_solver. Qed.

Lemma gets_Ok {A} (f : S -> A) s a s' : gets f s = (Ok a, s') -> a = f s /\ s' = s.
Proof. unfold gets. naive_solver. Qed.

Lemma modify_Ok (f : S -> S) s u s' : modify f s = (Ok u, s') -> s' = f s.
Proof. unfold modify. destruct u. naive_solver. Qed.

Lemma of_result_Ok {A} (r : result A) (s : S) a s' :
  of_result r s = (Ok a, s') -> r = Ok a /\ s' = s.
Proof. unfold of_result. naive_solver. Qed.

Lemma fail_Ok {A} e (s : S) (a : A) s' : fail e s = (Ok a, s') -> False.
Proof. unfold fail. naive_solver. Qed.

Lemma check_Ok e (s : S) u s' : check e s = (Ok u, s') -> e = None /\ s' = s.
Proof. unfold check. destruct e; [by intros ?%fail_Ok|]. by intros [_ ?]%ret_Ok. Qed.

Lemma ignore_Ok {A} (m : M S A) s u s' : ignore m s = (Ok u, s') -> s' = exec m s.
Proof.
  unfold ignore, exec. intros (r & s1 & Hm & H)%bind_Ok. apply try_Ok in Hm.
  apply ret_Ok in H as [_ ->]. by rewrite Hm.
Qed.

Lemma ignore_Err {A} (m : M S A) s e s' : ignore m s = (Err e, s') -> False.
Proof.
  unfold ignore, mbind, M_bind, try. destruct (m s). done.
Qed.

(** A run that always hands its outcome over as a value cannot fail. *)
Lemma try_Err {A} (m : M S A) e s s' : try m s = (Err e, s') -> False.
Proof. unfold try. destruct (m s). naive_solver. Qed.
End Inversion.

(** [minv]: invert every hypothesis that says a monadic body returned [Ok],
    naming intermediate states and splitting the case analyses. *)
Ltac minv1 :=
  match goal with
  | H : @mbind _ _ _ _ _ _ _ = (Ok _, _) |- _ => apply bind_Ok in H as (? & ? & ? & H)
  | H : @mret _ _ _ _ _ = (Ok _, _) |- _ => apply ret_Ok in H as [? ?]
  | H : try _ _ = (Ok _, _) |- _ => apply try_Ok in H
  | H : wrapping _ _ _ = (Ok _, _) |- _ => apply wrapping_Ok in H
  | H : gets _ _ = (Ok _, _) |- _ => apply gets_Ok in H as [? ?]
  | H : modify _ _ = (Ok _, _) |- _ => apply modify_Ok in H
  | H : of_result _ _ = (Ok _, _) |- _ => apply of_result_Ok in H as [? ?]
  | H : fail _ _ = (Ok _, _) |- _ => apply fail_Ok in H as []
  | H : check _ _ = (Ok _, _) |- _ => apply check_Ok in H as [? ?]
  | H : ignore _ _ = (Ok _, _) |- _ => apply ignore_Ok in H
  | H : (match ?x with _ => _ end) _ = (Ok _, _) |- _ => destruct x eqn:?
  end; simplify_eq/=.
Ltac minv := repeat minv1.

(** ** Symbolic execution *)

(** Unfold one layer of the monad in a hypothesis about a run. *)
Ltac munfold :=
  cbv [mbind M_bind mret M_ret fail gets modify try of_result wrapping exec run] in *.

(** Split on the scrutinee of every match in the hypotheses. *)
Ltac case_hyp :=
  repeat match goal with
  | H : context [match ?x with _ => _ end] |- _ => destruct x eqn:?; simplify_eq/=
  end.

Ltac case_goal :=
  repeat match goal with
  | |- context [match ?x with _ => _ end] => destruct x eqn:?; simplify_eq/=
  end.

(** Boolean conjunction/disjunction facts to [Prop]. *)
Ltac bool_hyps :=
  repeat match goal with
  | H : (_ && _) = true |- _ => apply andb_true_iff in H as [? ?]
  | H : (_ || _) = false |- _ => apply orb_false_iff in H as [? ?]
  | H : negb _ = true |- _ => apply negb_true_iff in H
  | H : negb _ = false |- _ => apply negb_false_iff in H
  | H : bool_decide _ = true |- _ => apply bool_decide_eq_true in H
  | H : bool_decide _ = false |- _ => apply bool_decide_eq_false in H
  end.

(** [lia] over goals with divisions by constants. *)
Ltac dlia := Z.to_euclidean_division_equations; lia.

(** ** Machine integers *)

Definition int64_min : Z := - 2 ^ 63.
Definition int64_max : Z := 2 ^ 63 - 1.

(** Go's [int64] arithmetic wraps around. *)
Definition wrap64 (z : Z) : Z := (z + 2 ^ 63) mod 2 ^ 64 - 2 ^ 63.

Lemma wrap64_range z : int64_min <= wrap64 z <= int64_max.
Proof.
  unfold wrap64, int64_min, int64_max.
  pose proof (Z.mod_pos_bound (z + 2 ^ 63) (2 ^ 64)). lia.
Qed.

Lemma wrap64_id z : int64_min <= z <= int64_max -> wrap64 z = z.
Proof.
  unfold wrap64, int64_min, int64_max. intros. rewrite Z.mod_small; lia.
Qed.

(** ** Lists *)

(** Last element satisfying a predicate, scanning in order as a Go loop that
    overwrites its result variable does. *)
Definition last_match {A} (p : A -> bool) (l : list A) : option A :=
  last (base.filter (fun x => p x = true) l).

Lemma existsb_exists_elem {A} (f : A -> bool) l :
  existsb f l = true <-> exists x, x ∈ l /\ f x = true.
Proof. rewrite existsb_exists. by setoid_rewrite list_elem_of_In. Qed.

Lemma existsb_false_elem {A} (f : A -> bool) l :
  existsb f l = false <-> forall x, x ∈ l -> f x = false.
Proof.
  split.
  - intros H x Hx. destruct (f x) eqn:E; [|done].
    assert (existsb f l = true) by (apply existsb_exists_elem; eauto). congruence.
  - intros H. destruct (existsb f l) eqn:E; [|done].
    apply existsb_exists_elem in E as (x & Hx & Hf). by rewrite (H x Hx) in Hf.
Qed.

Lemma last_match_app {A} (p : A -> bool) l1 l2 :
  last_match p (l1 ++ l2) =
    match last_match p l2 with Some x => Some x | None => last_match p l1 end.
Proof. unfold last_match. by rewrite filter_app, last_app. Qed.

Lemma list_omap_cons {A B} (f : A -> option B) x l :
  omap f (x :: l) = match f x with Some y => y :: omap f l | None => omap f l end.
Proof. done. Qed.

Lemma filter_none {A} (P : A -> Prop) `{!forall x, Decision (P x)} (l : list A) :
  (forall x, x ∈ l -> ~ P x) -> base.filter P l = [].
Proof.
  induction l as [|x l IH]; intros Hn; [done|]. rewrite filter_cons_False.
  - apply IH. intros. apply Hn. by right.
  - apply Hn. by left.
Qed.

Lemma filter_all {A} (P : A -> Prop) `{!forall x, Decision (P x)} (l : list A) :
  (forall x, x ∈ l -> P x) -> base.filter P l = l.
Proof.
  induction l as [|x l IH]; intros Hn; [done|]. rewrite filter_cons_True.
  - f_equal. apply IH. intros. apply Hn. by right.
  - apply Hn. by left.
Qed.

Lemma filter_length_le {A} (P Q : A -> Prop) `{!forall x, Decision (P x)} `{!forall x, Decision (Q x)} (l : list A) :
  (forall x, x ∈ l -> P x -> Q x) -> (length (base.filter P l) <= length (base.filter Q l))%nat.
Proof.
  induction l as [|x l IH]; intros HPQ; [done|]. rewrite !filter_cons.
  assert (length (base.filter P l) <= length (base.filter Q l))%nat by (apply IH; intros y Hy; apply HPQ; by right).
  destruct (decide (P x)) as [HP|]; [|destruct (decide (Q x)); cbn; lia].
  rewrite (decide_True (P := Q x)) by (apply HPQ; [by left|done]). cbn. lia.
Qed.

Lemma filter_ext_elem {A} (P Q : A -> Prop) `{!forall x, Decision (P x)} `{!forall x, Decision (Q x)} (l : list A) :
  (forall x, x ∈ l -> (P x <-> Q x)) -> base.filter P l = base.filter Q l.
Proof.
  induction l as [|x l IH]; intros Hpq; [done|]. rewrite !filter_cons, IH.
  - destruct (Hpq x) as [H1 H2]; [by left|]. repeat case_decide; naive_solver.
  - intros y Hy. apply Hpq. by right.
Qed.
