(* ===== verification/GoStrings.v ===== *)
(** * The parts of Go's [strings], [strconv] and [math/big] the sources use

    Strings are byte strings.  White space and letter case are the ASCII
    ones: the subjects, serials and inventory lines this program parses are
    ASCII, and no non-ASCII byte is white space or a hexadecimal digit here.

    The second half models [big.Int.SetString(s, 16)] and the [%X] verb (with
    and without a minimum width) and proves the round trip between them. *)

From S2P Require Import Prelude.
From Stdlib Require Import Ascii.

#[global] Arguments String.append : simpl nomatch.

#[global] Open Scope string_scope.
#[global] Open Scope list_scope.
#[global] Open Scope Z_scope.

Definition code (c : ascii) : Z := Z.of_nat (nat_of_ascii c).
Definition chr (z : Z) : ascii := ascii_of_nat (Z.to_nat z).

(** ** Predicates on bytes *)

(** [unicode.IsSpace] on ASCII: tab, LF, VT, FF, CR and space. *)
Definition isSpace (c : ascii) : bool :=
  ((9 <=? code c) && (code c <=? 13)) || (code c =? 32).

Definition between (lo hi : Z) (c : ascii) : bool := (lo <=? code c) && (code c <=? hi).
Definition isDigit : ascii -> bool := between 48 57.
Definition isLower : ascii -> bool := between 97 122.
Definition isUpper : ascii -> bool := between 65 90.

(** ** Strings as lists of bytes *)

Fixpoint to_list (s : string) : list ascii :=
  match s with "" => [] | String c s => c :: to_list s end.
Fixpoint of_list (l : list ascii) : string :=
  match l with [] => "" | c :: l => String c (of_list l) end.

Fixpoint all_bytes (p : ascii -> bool) (s : string) : bool :=
  match s with "" => true | String c s => p c && all_bytes p s end.
Fixpoint any_byte (p : ascii -> bool) (s : string) : bool :=
  match s with "" => false | String c s => p c || any_byte p s end.
Fixpoint map_bytes (f : ascii -> ascii) (s : string) : string :=
  match s with "" => "" | String c s => String (f c) (map_bytes f s) end.

Definition asciiUpper (c : ascii) : ascii := if isLower c then chr (code c - 32) else c.
Definition toLowerByte (c : ascii) : ascii := if isUpper c then chr (code c + 32) else c.
Definition ToUpper : string -> string := map_bytes asciiUpper.
Definition ToLower : string -> string := map_bytes toLowerByte.

(** ** [strings.HasPrefix], [CutPrefix], [TrimPrefix], [Contains] *)

(** [strings.CutPrefix]: the rest of the string when it starts with [p]. *)
Fixpoint CutPrefix (s p : string) {struct p} : option string :=
  match p, s with
  | "", _ => Some s
  | String a p, String b s => if Ascii.eqb a b then CutPrefix s p else None
  | String _ _, "" => None
  end.

Definition HasPrefix (s p : string) : bool :=
  match CutPrefix s p with Some _ => true | None => false end.
Definition TrimPrefix (s p : string) : string :=
  match CutPrefix s p with Some r => r | None => s end.

(** [strings.Contains] for a non-empty needle. *)
Fixpoint Contains (s sub : string) : bool :=
  HasPrefix s sub || match s with "" => false | String _ s => Contains s sub end.

Definition ContainsAny (s chars : string) : bool :=
  any_byte (fun c => any_byte (Ascii.eqb c) chars) s.

(** ** [strings.TrimSpace], [Fields], [Split], [Join] *)

Fixpoint TrimLeftSpace (s : string) : string :=
  match s with
  | "" => ""
  | String c s' => if isSpace c then TrimLeftSpace s' else s
  end.

Fixpoint TrimRightSpace (s : string) : string :=
  match s with
  | "" => ""
  | String c s' =>
      match TrimRightSpace s' with
      | "" => if isSpace c then "" else String c ""
      | r => String c r
      end
  end.

Definition TrimSpace (s : string) : string := TrimRightSpace (TrimLeftSpace s).

(** [strings.Fields]: the maximal runs of non-space bytes.  [cur] is the field
    being read, if any. *)
Fixpoint fields_aux (cur : string) (s : string) : list string :=
  match s with
  | "" => if bool_decide (cur = "") then [] else [cur]
  | String c s =>
      if isSpace c
      then if bool_decide (cur = "") then fields_aux "" s else cur :: fields_aux "" s
      else fields_aux (cur +:+ String c "") s
  end.
Definition Fields (s : string) : list string := fields_aux "" s.

Definition newline : ascii := chr 10.

(** [strings.Split(s, "\n")]: always at least one element. *)
Fixpoint split_lines_aux (cur : string) (s : string) : list string :=
  match s with
  | "" => [cur]
  | String c s =>
      if Ascii.eqb c newline then cur :: split_lines_aux "" s
      else split_lines_aux (cur +:+ String c "") s
  end.
Definition SplitLines (s : string) : list string := split_lines_aux "" s.

(** [strings.SplitAfter(s, "\n")]: the pieces keep their separator. *)
Fixpoint split_after_aux (cur : string) (s : string) : list string :=
  match s with
  | "" => [cur]
  | String c s =>
      if Ascii.eqb c newline
      then (cur +:+ String c "") :: split_after_aux "" s
      else split_after_aux (cur +:+ String c "") s
  end.
Definition SplitAfterLines (s : string) : list string := split_after_aux "" s.

Fixpoint Join (sep : string) (l : list string) : string :=
  match l with
  | [] => ""
  | [x] => x
  | x :: l => x +:+ sep +:+ Join sep l
  end.

Definition nl : string := String newline "".

(** ** Hexadecimal *)

Definition hex_val (c : ascii) : option Z :=
  if between 48 57 c then Some (code c - 48)
  else if between 65 70 c then Some (code c - 55)
  else if between 97 102 c then Some (code c - 87)
  else None.

(** The upper-case digit of a value below 16. *)
Definition hex_digit (d : Z) : ascii := if d <? 10 then chr (48 + d) else chr (55 + d).

Fixpoint hex_acc (acc : Z) (s : string) : option Z :=
  match s with
  | "" => Some acc
  | String c s => v ← hex_val c; hex_acc (16 * acc + v) s
  end.

(** [new(big.Int).SetString(s, 16)]: an optional sign, then at least one
    digit of either case, and nothing else. *)
Definition SetString16 (s : string) : option Z :=
  let magnitude t := if bool_decide (t = "") then None else hex_acc 0 t in
  match s with
  | String c t =>
      if Ascii.eqb c "-"%char then Z.opp <$> magnitude t
      else if Ascii.eqb c "+"%char then magnitude t
      else magnitude s
  | "" => None
  end.

(** Digits of a positive number, most significant first.  [fuel] bounds the
    number of digits; [Z.log2 n + 1] of them are enough. *)
Fixpoint hex_digits (fuel : nat) (n : Z) (acc : string) : string :=
  match fuel with
  | O => acc
  | S fuel =>
      if n =? 0 then acc
      else hex_digits fuel (n / 16) (String (hex_digit (n mod 16)) acc)
  end.

Definition hex_nat (n : Z) : string :=
  if n =? 0 then "0" else hex_digits (Z.to_nat (Z.log2 n + 1)) n "".

(** [fmt.Sprintf("%X", n)] and [strings.ToUpper(n.Text(16))] for a [big.Int]. *)
Definition hexX (n : Z) : string :=
  if n <? 0 then String "-" (hex_nat (- n)) else hex_nat n.

Fixpoint zeros (k : nat) : string :=
  match k with O => "" | S k => String "0" (zeros k) end.

(** [fmt.Sprintf("%0wX", n)]: zero padding after the sign up to width [w]. *)
Definition hexXpad (w : nat) (n : Z) : string :=
  let d := hex_nat (Z.abs n) in
  if n <? 0
  then String "-" (zeros (w - 1 - String.length d) +:+ d)
  else zeros (w - String.length d) +:+ d.

(** ** Lemmas on strings *)

Lemma app_empty_r s : s +:+ "" = s.
Proof. induction s; simpl; congruence. Qed.

Lemma str_app_assoc a b c : (a +:+ b) +:+ c = a +:+ (b +:+ c).
Proof. induction a; simpl; congruence. Qed.

Lemma length_str_app a b : String.length (a +:+ b) = (String.length a + String.length b)%nat.
Proof. induction a; simpl; congruence. Qed.

Lemma str_app_inj_l a b c : a +:+ b = a +:+ c -> b = c.
Proof. induction a; simpl; intros; simplify_eq; auto. Qed.

Lemma str_app_inj_len a b c d :
  String.length a = String.length c -> a +:+ b = c +:+ d -> a = c /\ b = d.
Proof.
  revert c. induction a as [|x a IH]; intros [|y c]; simpl; intros Hl He; try done.
  injection He as -> He. apply IH in He as [-> ->]; auto.
Qed.

Lemma all_bytes_app p a b : all_bytes p (a +:+ b) = all_bytes p a && all_bytes p b.
Proof. induction a; simpl; [done|]. rewrite IHa. by rewrite andb_assoc. Qed.

Lemma any_byte_app p a b : any_byte p (a +:+ b) = any_byte p a || any_byte p b.
Proof. induction a; simpl; [done|]. rewrite IHa. by rewrite orb_assoc. Qed.

Lemma all_bytes_impl (p q : ascii -> bool) s :
  (forall c, p c = true -> q c = true) -> all_bytes p s = true -> all_bytes q s = true.
Proof.
  intros H. induction s as [|c s IH]; simpl; [done|].
  rewrite !andb_true_iff. naive_solver.
Qed.

Lemma any_byte_false p s : any_byte p s = false <-> all_bytes (fun c => negb (p c)) s = true.
Proof.
  induction s as [|c s IH]; simpl; [done|].
  rewrite orb_false_iff, andb_true_iff, negb_true_iff. naive_solver.
Qed.

Lemma CutPrefix_app p s : CutPrefix (p +:+ s) p = Some s.
Proof. induction p; simpl; [done|]. by rewrite Ascii.eqb_refl. Qed.

Lemma CutPrefix_Some s p r : CutPrefix s p = Some r <-> s = p +:+ r.
Proof.
  split.
  - revert s. induction p as [|a p IH]; intros s; simpl; [by intros [=->]|].
    destruct s as [|b s]; [done|]. destruct (Ascii.eqb_spec a b) as [->|]; [|done].
    intros H%IH. by subst.
  - intros ->. apply CutPrefix_app.
Qed.

Lemma HasPrefix_true s p : HasPrefix s p = true <-> exists r, s = p +:+ r.
Proof.
  unfold HasPrefix. destruct (CutPrefix s p) as [r|] eqn:E.
  - apply CutPrefix_Some in E. naive_solver.
  - split; [done|]. intros [r ->]. by rewrite CutPrefix_app in E.
Qed.

(** ** Lemmas on bytes and hexadecimal *)

Lemma code_range c : 0 <= code c <= 255.
Proof. unfold code. pose proof (nat_ascii_bounded c). lia. Qed.

Lemma code_chr z : 0 <= z <= 255 -> code (chr z) = z.
Proof. intros. unfold code, chr. rewrite nat_ascii_embedding; lia. Qed.

Lemma chr_code c : chr (code c) = c.
Proof. unfold code, chr. by rewrite Nat2Z.id, ascii_nat_embedding. Qed.

Lemma code_inj c d : code c = code d -> c = d.
Proof. intros H. by rewrite <- (chr_code c), H, chr_code. Qed.

Lemma hex_digit_code d :
  0 <= d < 16 -> code (hex_digit d) = if d <? 10 then 48 + d else 55 + d.
Proof. intros. unfold hex_digit. destruct (Z.ltb_spec d 10); rewrite code_chr; lia. Qed.

Lemma hex_val_digit d : 0 <= d < 16 -> hex_val (hex_digit d) = Some d.
Proof.
  intros Hd. unfold hex_val, between. rewrite hex_digit_code by done.
  destruct (Z.ltb_spec d 10).
  - rewrite (proj2 (Z.leb_le 48 (48 + d))), (proj2 (Z.leb_le (48 + d) 57)) by lia.
    simpl. f_equal. lia.
  - rewrite (proj2 (Z.leb_nle (55 + d) 57)) by lia. rewrite andb_false_r.
    rewrite (proj2 (Z.leb_le 65 (55 + d))), (proj2 (Z.leb_le (55 + d) 70)) by lia.
    simpl. f_equal. lia.
Qed.

(** An upper-case hexadecimal digit. *)
Definition isHexX (c : ascii) : bool := between 48 57 c || between 65 70 c.

Lemma hex_digit_isHexX d : 0 <= d < 16 -> isHexX (hex_digit d) = true.
Proof.
  intros Hd. unfold isHexX, between. rewrite hex_digit_code by done.
  destruct (Z.ltb_spec d 10); apply orb_true_iff; rewrite !andb_true_iff, !Z.leb_le; lia.
Qed.

Lemma hex_digits_bytes fuel n acc :
  0 <= n -> all_bytes isHexX acc = true -> all_bytes isHexX (hex_digits fuel n acc) = true.
Proof.
  revert n acc. induction fuel as [|fuel IH]; intros n acc Hn Hacc; simpl; [done|].
  destruct (n =? 0); [done|]. apply IH; [apply Z.div_pos; lia|].
  simpl. rewrite Hacc, hex_digit_isHexX; [done|]. apply Z.mod_pos_bound. lia.
Qed.

Lemma hex_nat_bytes n : 0 <= n -> all_bytes isHexX (hex_nat n) = true.
Proof.
  intros. unfold hex_nat. case_match; [done|]. by apply hex_digits_bytes.
Qed.

Lemma hex_acc_app a b s : hex_acc a (s +:+ b) = (x ← hex_acc a s; hex_acc x b).
Proof.
  revert a. induction s as [|c s IH]; intros a; simpl; [done|].
  destruct (hex_val c); simpl; [apply IH|done].
Qed.

Lemma log2_div16 n : 16 <= n -> Z.log2 (n / 16) = Z.log2 n - 4.
Proof.
  intros Hn. replace 16 with (2 ^ 4) by done. rewrite <- Z.shiftr_div_pow2 by lia.
  rewrite Z.log2_shiftr by lia. pose proof (Z.log2_le_mono 16 n Hn).
  change (Z.log2 16) with 4 in *. lia.
Qed.

Lemma log2_small n : 0 <= n < 16 -> 0 <= Z.log2 n <= 3.
Proof.
  intros. split; [apply Z.log2_nonneg|].
  pose proof (Z.log2_le_mono n 15). change (Z.log2 15) with 3 in *. lia.
Qed.

(** With enough fuel the digits denote the number. *)
Lemma hex_digits_value fuel n acc a :
  0 <= n -> Z.log2 n < Z.of_nat fuel -> n <> 0 ->
  hex_acc a (hex_digits fuel n acc) =
    hex_acc (a * 16 ^ (Z.log2 n / 4 + 1) + n) acc.
Proof.
  revert n acc. induction fuel as [|fuel IH]; intros n acc Hn Hf Hnz.
  { pose proof (Z.log2_nonneg n). lia. }
  cbn [hex_digits]. destruct (Z.eqb_spec n 0); [done|].
  pose proof (Z.div_mod n 16). pose proof (Z.mod_pos_bound n 16).
  destruct (Z.lt_ge_cases n 16) as [Hlt|Hge].
  - assert (n / 16 = 0) as Hz by (apply Z.div_small; lia).
    assert (n mod 16 = n) as Hm by (apply Z.mod_small; lia).
    pose proof (log2_small n). rewrite Hz, Hm.
    rewrite (Z.div_small (Z.log2 n) 4) by lia.
    assert (hex_digits fuel 0 (String (hex_digit n) acc) = String (hex_digit n) acc) as ->
      by (destruct fuel; done).
    simpl. rewrite hex_val_digit by lia. simpl. f_equal. lia.
  - pose proof (log2_div16 n Hge) as Hlog.
    rewrite IH; [|apply Z.div_pos; lia|lia|].
    2:{ intros Hz. assert (n / 16 >= 1); [|lia].
        apply Z.le_ge, Z.div_le_lower_bound; lia. }
    simpl. rewrite hex_val_digit by lia. simpl. rewrite Hlog.
    replace ((Z.log2 n - 4) / 4) with (Z.log2 n / 4 - 1).
    2:{ replace (Z.log2 n - 4) with (Z.log2 n + (-1) * 4) by lia. rewrite Z.div_add; lia. }
    f_equal. replace (Z.log2 n / 4 - 1 + 1) with (Z.log2 n / 4) by lia.
    rewrite Z.pow_add_r; [lia| |lia].
    apply Z.div_pos; [apply Z.log2_nonneg|lia].
Qed.

Lemma hex_nat_value n : 0 <= n -> hex_acc 0 (hex_nat n) = Some n.
Proof.
  intros Hn. unfold hex_nat. destruct (Z.eqb_spec n 0) as [->|]; [done|].
  rewrite hex_digits_value; [simpl; f_equal; lia|done| |done].
  pose proof (Z.log2_nonneg n). lia.
Qed.

Lemma hex_nat_nonempty n : 0 <= n -> hex_nat n <> "".
Proof.
  intros Hn He. pose proof (hex_nat_value n Hn) as H. rewrite He in H.
  injection H as <-. done.
Qed.

Lemma hex_acc_zeros k s : hex_acc 0 (zeros k +:+ s) = hex_acc 0 s.
Proof. induction k as [|k IH]; simpl; [done|]. apply IH. Qed.

(** A non-empty run of upper-case hex digits is read as its value: no sign is
    mistaken for a digit. *)
Lemma SetString16_digits s :
  s <> "" -> all_bytes isHexX s = true -> SetString16 s = hex_acc 0 s.
Proof.
  destruct s as [|c t]; [done|]. intros _ [Hc _]%andb_true_iff.
  unfold SetString16.
  destruct (Ascii.eqb_spec c "-"%char) as [->|]; [done|].
  destruct (Ascii.eqb_spec c "+"%char) as [->|]; [done|].
  case_bool_decide; done.
Qed.

Lemma SetString16_hexX n : 0 <= n -> SetString16 (hexX n) = Some n.
Proof.
  intros Hn. unfold hexX. rewrite (proj2 (Z.ltb_ge n 0)) by done.
  rewrite SetString16_digits; auto using hex_nat_value, hex_nat_nonempty, hex_nat_bytes.
Qed.

Lemma SetString16_hexX_neg n : n < 0 -> SetString16 (hexX n) = Some n.
Proof.
  intros Hn. unfold hexX. rewrite (proj2 (Z.ltb_lt n 0)) by done.
  cbn [SetString16]. change (Ascii.eqb "-" "-"%char) with true. cbv iota.
  rewrite bool_decide_eq_false_2 by (apply hex_nat_nonempty; lia).
  rewrite hex_nat_value by lia. simpl. f_equal. lia.
Qed.

(** [%X] determines the number, negative ones included. *)
Lemma hexX_inj m n : hexX m = hexX n -> m = n.
Proof.
  intros H.
  assert (forall k, SetString16 (hexX k) = Some k) as R.
  { intros k. destruct (Z.lt_ge_cases k 0);
      [by apply SetString16_hexX_neg|by apply SetString16_hexX]. }
  pose proof (R m) as Hm. rewrite H, R in Hm. congruence.
Qed.

(** ** UTF-8 *)

(** UTF-8, as [utf8.DecodeRuneInString] reads it; a byte that is part of no
    valid sequence is kept apart from every rune as a negative number. *)
Definition cont (lo hi : Z) (b : Z) : bool := (lo <=? b) && (b <=? hi).
Fixpoint runes_of (l : list Z) : list Z :=
  match l with
  | [] => []
  | b0 :: l0 =>
      let bad := - (b0 + 1) :: runes_of l0 in
      if b0 <? 128 then b0 :: runes_of l0
      else match l0 with
           | [] => bad
           | b1 :: l1 =>
               if cont 194 223 b0 && cont 128 191 b1 then
                 ((b0 - 192) * 64 + (b1 - 128)) :: runes_of l1
               else match l1 with
                    | [] => bad
                    | b2 :: l2 =>
                        let lo := if b0 =? 224 then 160 else 128 in
                        let hi := if b0 =? 237 then 159 else 191 in
                        if cont 224 239 b0 && cont lo hi b1 && cont 128 191 b2 then
                          ((b0 - 224) * 4096 + (b1 - 128) * 64 + (b2 - 128)) :: runes_of l2
                        else match l2 with
                             | [] => bad
                             | b3 :: l3 =>
                                 let lo := if b0 =? 240 then 144 else 128 in
                                 let hi := if b0 =? 244 then 143 else 191 in
                                 if cont 240 244 b0 && cont lo hi b1 && cont 128 191 b2 && cont 128 191 b3 then
                                   ((b0 - 240) * 262144 + (b1 - 128) * 4096 + (b2 - 128) * 64 + (b3 - 128))
                                   :: runes_of l3
                                 else bad
                             end
                    end
           end
  end.
Definition runes (s : string) : list Z := runes_of (map code (to_list s)).

Definition ValidString (s : string) : bool := forallb (fun r => 0 <=? r) (runes s).

Lemma runes_ascii s : all_bytes (fun c => code c <? 128) s = true -> runes s = map code (to_list s).
Proof.
  unfold runes. induction s as [|c s IH]; [done|]. cbn [all_bytes to_list map runes_of].
  intros [Hc Hs]%andb_true_iff. rewrite Hc. f_equal. by apply IH.
Qed.
