(* ===== verification/GoTime.v ===== *)
(** * The parts of Go's [time] package the sources use

    A [time.Time] is a number of nanoseconds since 0001-01-01T00:00:00Z, so
    the zero [time.Time{}] is [0]; a [time.Duration] is an [int64] number of
    nanoseconds, whose products wrap and whose differences ([Time.Sub])
    saturate.  The inventory's time layout is formatted and parsed over the
    proleptic Gregorian calendar, and the round trip is proved. *)

From S2P Require Import Prelude GoStrings.
From Stdlib Require Import Ascii.

Definition Time := Z.
Definition Duration := Z.

Definition zero_time : Time := 0.
Definition IsZero (t : Time) : bool := t =? 0.

Definition Nanosecond : Duration := 1.
Definition Second : Duration := 1000000000.
Definition Minute : Duration := 60 * Second.
Definition Hour : Duration := 60 * Minute.

(** [time.Duration(days) * 24 * time.Hour]: both products are [int64]. *)
Definition days_duration (days : Z) : Duration := wrap64 (wrap64 (days * 24) * Hour).

(** [Time.Sub] saturates at the ends of [int64]. *)
Definition time_Sub (t u : Time) : Duration :=
  Z.max int64_min (Z.min int64_max (t - u)).

(** X.509 and the inventory keep whole seconds. *)
Definition trunc_sec (t : Time) : Time := t - t mod Second.

Lemma time_Sub_le t u : u <= t -> time_Sub t u <= t - u.
Proof. unfold time_Sub, int64_min, int64_max. lia. Qed.

Lemma time_Sub_pos t u : 0 < time_Sub t u <-> u < t.
Proof. unfold time_Sub, int64_min, int64_max. lia. Qed.

Lemma trunc_sec_le t : trunc_sec t <= t.
Proof. unfold trunc_sec, Second. pose proof (Z.mod_pos_bound t 1000000000). lia. Qed.

Lemma trunc_sec_mono t u : t <= u -> trunc_sec t <= trunc_sec u.
Proof.
  unfold trunc_sec, Second. intros.
  pose proof (Z.div_mod t 1000000000 ltac:(lia)).
  pose proof (Z.div_mod u 1000000000 ltac:(lia)).
  pose proof (Z.div_le_mono t u 1000000000 ltac:(lia) ltac:(lia)). lia.
Qed.

Lemma trunc_sec_idemp t : trunc_sec (trunc_sec t) = trunc_sec t.
Proof.
  unfold trunc_sec, Second. replace (t - t mod 1000000000) with (t / 1000000000 * 1000000000).
  - rewrite Z.mod_mul; lia.
  - pose proof (Z.div_mod t 1000000000 ltac:(lia)). lia.
Qed.

(** ** The proleptic Gregorian calendar *)

Definition is_leap (y : Z) : bool :=
  (y mod 4 =? 0) && (negb (y mod 100 =? 0) || (y mod 400 =? 0)).

Definition days_before_year (y : Z) : Z :=
  let p := y - 1 in 365 * p + p / 4 - p / 100 + p / 400.

Definition month_lengths (leap : bool) : list Z :=
  [31; (if leap then 29 else 28); 31; 30; 31; 30; 31; 31; 30; 31; 30; 31].

Fixpoint sum_list (l : list Z) : Z := match l with [] => 0 | x :: l => x + sum_list l end.

(** Days of the year before the first of month [m] (1..12). *)
Definition days_before_month (leap : bool) (m : Z) : Z :=
  sum_list (take (Z.to_nat (m - 1)) (month_lengths leap)).

Definition days_in_month (leap : bool) (m : Z) : Z :=
  nth (Z.to_nat (m - 1)) (month_lengths leap) 0.

(** Day number (0 = 0001-01-01) of a date. *)
Definition days_of_date (y m d : Z) : Z :=
  days_before_year y + days_before_month (is_leap y) m + (d - 1).

Fixpoint month_of_yday (ls : list Z) (m yday : Z) : Z * Z :=
  match ls with
  | [] => (m, yday + 1)
  | l :: ls => if yday <? l then (m, yday + 1) else month_of_yday ls (m + 1) (yday - l)
  end.

(** The year and the day of that year, by the 400/100/4/1-year cycles. *)
Definition year_of_days (n : Z) : Z * Z :=
  let n400 := n / 146097 in
  let d1 := n mod 146097 in
  let n100 := Z.min (d1 / 36524) 3 in
  let d2 := d1 - n100 * 36524 in
  let n4 := d2 / 1461 in
  let d3 := d2 mod 1461 in
  let n1 := Z.min (d3 / 365) 3 in
  (400 * n400 + 100 * n100 + 4 * n4 + n1 + 1, d3 - n1 * 365).

Definition date_of_days (n : Z) : Z * Z * Z :=
  let '(y, yday) := year_of_days n in
  let '(m, d) := month_of_yday (month_lengths (is_leap y)) 1 yday in
  (y, m, d).

Lemma euclid_split n k : 0 < k -> exists q r, n / k = q /\ n mod k = r /\ n = k * q + r /\ 0 <= r < k.
Proof.
  intros. exists (n / k), (n mod k).
  pose proof (Z.div_mod n k ltac:(lia)). pose proof (Z.mod_pos_bound n k ltac:(lia)). auto.
Qed.

Lemma year_of_days_spec n :
  let '(y, yday) := year_of_days n in
  days_before_year y + yday = n /\
  0 <= yday < (if is_leap y then 366 else 365).
Proof.
  unfold year_of_days.
  destruct (euclid_split n 146097) as (a & d1 & -> & -> & -> & Hd1); [lia|].
  set (b := Z.min (d1 / 36524) 3).
  assert (0 <= b <= 3 /\ 0 <= d1 - b * 36524 <= 36524 /\ (b < 3 -> d1 - b * 36524 < 36524))
    as (Hb & Hd2 & Hb3) by (subst b; dlia).
  clearbody b. remember (d1 - b * 36524) as d2 eqn:Ed2. assert (d1 = b * 36524 + d2) by lia. subst d1. clear Ed2.
  destruct (euclid_split d2 1461) as (c & d3 & -> & -> & -> & Hd3); [lia|].
  assert (0 <= c <= 24) as Hc by lia.
  set (e := Z.min (d3 / 365) 3).
  assert (0 <= e <= 3 /\ 0 <= d3 - e * 365 <= 365 /\ (e < 3 -> d3 - e * 365 < 365))
    as (He & Hyd & He3) by (subst e; dlia).
  clearbody e. remember (d3 - e * 365) as yd eqn:Eyd. assert (d3 = e * 365 + yd) by lia. subst d3. clear Eyd.
  remember (400 * a + 100 * b + 4 * c + e + 1) as y eqn:Ey.
  assert (Hp : y - 1 = 400 * a + 100 * b + 4 * c + e) by lia.
  assert ((y - 1) / 4 = 100 * a + 25 * b + c) as H4 by dlia.
  assert ((y - 1) / 100 = 4 * a + b) as H100 by dlia.
  assert ((y - 1) / 400 = a) as H400 by dlia.
  split.
  - unfold days_before_year. rewrite H4, H100, H400, Hp. lia.
  - split; [lia|]. destruct (is_leap y) eqn:L; [lia|].
    unfold is_leap in L.
    assert (yd <> 365); [|lia]. intros ->.
    assert (e = 3) as -> by lia.
    assert (y mod 4 = 0) as M4 by dlia. rewrite M4 in L. simpl in L.
    apply orb_false_iff in L as [L1 L2].
    apply negb_false_iff, Z.eqb_eq in L1. apply Z.eqb_neq in L2.
    assert (c = 24) as -> by dlia. assert (b = 3) as -> by lia. dlia.
Qed.

Lemma month_of_yday_spec (leap : bool) (yday : Z) :
  0 <= yday < (if leap then 366 else 365) ->
  let '(m, d) := month_of_yday (month_lengths leap) 1 yday in
  1 <= m <= 12 /\ 1 <= d <= days_in_month leap m /\
  days_before_month leap m + (d - 1) = yday.
Proof.
  intros H. destruct leap; cbn [month_of_yday month_lengths];
  repeat match goal with
  | |- context [if ?a <? ?b then _ else _] => destruct (Z.ltb_spec a b); cbv beta iota zeta
  end;
  match goal with |- context [days_before_month ?l ?e] =>
    let u := eval vm_compute in (days_before_month l e) in
    let v := eval vm_compute in (days_in_month l e) in
    change (days_before_month l e) with u; change (days_in_month l e) with v
  end; lia.
Qed.

Lemma date_of_days_spec n :
  let '(y, m, d) := date_of_days n in
  days_of_date y m d = n /\ 1 <= m <= 12 /\ 1 <= d <= days_in_month (is_leap y) m.
Proof.
  unfold date_of_days. pose proof (year_of_days_spec n) as H.
  destruct (year_of_days n) as [y yday]. destruct H as [Hy Hyd].
  pose proof (month_of_yday_spec (is_leap y) yday Hyd) as H.
  destruct (month_of_yday _ 1 yday) as [m d]. destruct H as (Hm & Hd & Hs).
  unfold days_of_date. split; [lia|auto].
Qed.

(** ** The inventory layout "2006-01-02T15:04:05UTC" *)

Definition digit (d : Z) : ascii := chr (48 + d).
Definition dec2 (n : Z) : string := String (digit (n / 10)) (String (digit (n mod 10)) "").
Definition dec4 (n : Z) : string :=
  String (digit (n / 1000)) (String (digit (n / 100 mod 10)) (dec2 (n mod 100))).

Definition SecondsPerDay : Z := 86400.

(** Date and time in UTC, for a year of four digits, then the name of the zone. *)
Definition format_stamp (zone : string) (t : Time) : string :=
  let secs := t / Second in
  let '(y, m, d) := date_of_days (secs / SecondsPerDay) in
  let sod := secs mod SecondsPerDay in
  dec4 y +:+ "-" +:+ dec2 m +:+ "-" +:+ dec2 d +:+ "T" +:+
  dec2 (sod / 3600) +:+ ":" +:+ dec2 (sod / 60 mod 60) +:+ ":" +:+ dec2 (sod mod 60) +:+ zone.
(** [t.UTC().Format(InventoryTimeFormat)]. *)
Definition format_time : Time -> string := format_stamp "UTC".

(** Exactly [k] decimal digits. *)
Fixpoint take_digits (k : nat) (acc : Z) (s : string) : option (Z * string) :=
  match k, s with
  | O, _ => Some (acc, s)
  | S k, String c s => if isDigit c then take_digits k (10 * acc + (code c - 48)) s else None
  | S _, "" => None
  end.

(** Go's [getnum] without the fixed width: one digit, or two. *)
Definition take_digits12 (s : string) : option (Z * string) :=
  match take_digits 2 0 s with Some r => Some r | None => take_digits 1 0 s end.

(** Any number of further digits; the first nine count as nanoseconds. *)
Fixpoint take_fraction (scale acc : Z) (s : string) : Z * string :=
  match s with
  | String c s' =>
      if isDigit c then take_fraction (scale / 10) (acc + (code c - 48) * scale) s' else (acc, s)
  | "" => (acc, "")
  end.

(** The parser accepts a fraction after the seconds even though the layout
    has none. *)
Definition parse_fraction (s : string) : Z * string :=
  match s with
  | String p (String c s') =>
      if (Ascii.eqb p "."%char || Ascii.eqb p ","%char) && isDigit c
      then take_fraction 100000000 0 (String c s') else (0, s)
  | _ => (0, s)
  end.

(** [time.Parse(InventoryTimeFormat, s)]. *)
Definition parse_time (s : string) : option Time :=
  '(y, s) ← take_digits 4 0 s; s ← CutPrefix s "-";
  '(m, s) ← take_digits 2 0 s; s ← CutPrefix s "-";
  '(d, s) ← take_digits 2 0 s; s ← CutPrefix s "T";
  '(hh, s) ← take_digits12 s; s ← CutPrefix s ":";
  '(mi, s) ← take_digits 2 0 s; s ← CutPrefix s ":";
  '(ss, s) ← take_digits 2 0 s;
  let '(ns, s) := parse_fraction s in
  s ← CutPrefix s "UTC";
  if bool_decide (s = "") && (1 <=? m) && (m <=? 12)
     && (1 <=? d) && (d <=? days_in_month (is_leap y) m)
     && (hh <? 24) && (mi <? 60) && (ss <? 60)
  then Some (((days_of_date y m d * SecondsPerDay + hh * 3600 + mi * 60 + ss) * Second) + ns)
  else None.

Lemma digit_code d : 0 <= d < 10 -> code (digit d) = 48 + d.
Proof. intros. unfold digit. rewrite code_chr; lia. Qed.

Lemma digit_isDigit d : 0 <= d < 10 -> isDigit (digit d) = true.
Proof.
  intros. unfold isDigit, between. rewrite digit_code by done.
  apply andb_true_iff. rewrite !Z.leb_le. lia.
Qed.

Lemma take_digits_cons k acc d s :
  0 <= d < 10 ->
  take_digits (S k) acc (String (digit d) s) = take_digits k (10 * acc + d) s.
Proof.
  intros. cbn [take_digits]. rewrite digit_isDigit, digit_code by done. f_equal. lia.
Qed.

Lemma take_dec2 n s : 0 <= n < 100 -> take_digits 2 0 (dec2 n +:+ s) = Some (n, s).
Proof.
  intros. unfold dec2. cbn [String.append].
  rewrite take_digits_cons by dlia. rewrite take_digits_cons by dlia.
  cbn [take_digits]. do 2 f_equal. dlia.
Qed.

Lemma take_dec4 n s : 0 <= n < 10000 -> take_digits 4 0 (dec4 n +:+ s) = Some (n, s).
Proof.
  intros. unfold dec4, dec2. cbn [String.append].
  do 4 rewrite take_digits_cons by dlia.
  cbn [take_digits]. do 2 f_equal. dlia.
Qed.

Lemma take_dec12 n s : 0 <= n < 100 -> take_digits12 (dec2 n +:+ s) = Some (n, s).
Proof. intros. unfold take_digits12. by rewrite take_dec2. Qed.

(** The first instant of year 10000. *)
Definition year_10000 : Time := days_before_year 10000 * SecondsPerDay * Second.

Lemma year_of_days_bounds n :
  0 <= n < days_before_year 10000 -> 0 <= (year_of_days n).1 < 10000.
Proof.
  intros Hn. pose proof (year_of_days_spec n) as H.
  destruct (year_of_days n) as [y yd]. simpl. destruct H as [H1 H2].
  change (days_before_year 10000) with 3652059 in Hn.
  unfold days_before_year in H1.
  split; apply Z.nlt_ge || apply Z.nle_gt; intros Hc; destruct (is_leap y); dlia.
Qed.

Lemma days_in_month_le leap m : days_in_month leap m <= 31.
Proof.
  unfold days_in_month. generalize (Z.to_nat (m - 1)). intros k.
  destruct leap; do 12 (destruct k as [|k]; [simpl; lia|]); destruct k; simpl; lia.
Qed.

(** The date and the second of the day of an instant of the years 1 to 9999. *)
Lemma date_of_time_bounds t :
  0 <= t < year_10000 ->
  let '(y, m, d) := date_of_days (t / Second / SecondsPerDay) in
  days_of_date y m d = t / Second / SecondsPerDay /\
  0 <= y < 10000 /\ 1 <= m <= 12 /\ 1 <= d <= days_in_month (is_leap y) m /\ d <= 31 /\
  0 <= (t / Second) mod SecondsPerDay < 86400.
Proof.
  intros Ht.
  pose proof (date_of_days_spec (t / Second / SecondsPerDay)) as Hd.
  assert (Hr : 0 <= t / Second / SecondsPerDay < days_before_year 10000).
  { unfold year_10000, Second, SecondsPerDay in *.
    change (days_before_year 10000) with 3652059 in *. dlia. }
  pose proof (year_of_days_bounds _ Hr) as Hy. unfold date_of_days in *.
  destruct (year_of_days (t / Second / SecondsPerDay)) as [y yday]. simpl in Hy.
  destruct (month_of_yday _ 1 yday) as [m d]. destruct Hd as (Hd & Hm & Hday).
  pose proof (days_in_month_le (is_leap y) m).
  split_and!; try lia. all: unfold SecondsPerDay; dlia.
Qed.

(** Formatting then parsing an instant of the years 1 to 9999 gives the
    instant back at whole-second precision. *)
Lemma parse_format_time t :
  0 <= t < year_10000 -> parse_time (format_time t) = Some (trunc_sec t).
Proof.
  intros Ht. unfold format_time, format_stamp. pose proof (date_of_time_bounds t Ht) as H.
  destruct (date_of_days _) as [[y m] d]. destruct H as (Hd & Hy & Hm & Hday & Hd31 & Hs).
  set (sod := (t / Second) mod SecondsPerDay) in *.
  unfold parse_time. cbv [mbind option_bind].
  rewrite take_dec4, CutPrefix_app by lia. cbv beta iota.
  rewrite take_dec2, CutPrefix_app by lia. cbv beta iota.
  rewrite take_dec2, CutPrefix_app by lia. cbv beta iota.
  rewrite take_dec12, CutPrefix_app by dlia. cbv beta iota.
  rewrite take_dec2, CutPrefix_app by dlia. cbv beta iota.
  rewrite take_dec2 by dlia. cbv beta iota.
  change (parse_fraction "UTC") with (0, "UTC"). cbv beta iota.
  change (CutPrefix "UTC" "UTC") with (Some ""). cbv beta iota.
  rewrite !(proj2 (Z.leb_le _ _)), !(proj2 (Z.ltb_lt _ _)) by dlia. simpl.
  f_equal. rewrite Hd. unfold trunc_sec, SecondsPerDay, Second in *. subst sod. dlia.
Qed.
