(* ===== verification/Sha256.v ===== *)
(** * HMAC-SHA-256 (crypto/hmac over crypto/sha256)

    The inventory's integrity value is an HMAC-SHA-256; the functions here are
    FIPS 180-4 and RFC 2104 over byte strings, checked on published test
    vectors.  Everything else in the development treats them as opaque: the
    only fact used is that a MAC is 32 bytes long. *)

From S2P Require Import Prelude GoStrings.
From Stdlib Require Import Ascii.

Definition word : Type := Z.
Definition w32 (z : Z) : word := Z.land z 4294967295.
Definition rotr (n : Z) (x : word) : word :=
  Z.lor (Z.shiftr x n) (w32 (Z.shiftl x (32 - n))).
Definition xor3 (a b c : Z) : Z := Z.lxor a (Z.lxor b c).
Definition bsig0 x := xor3 (rotr 2 x) (rotr 13 x) (rotr 22 x).
Definition bsig1 x := xor3 (rotr 6 x) (rotr 11 x) (rotr 25 x).
Definition ssig0 x := xor3 (rotr 7 x) (rotr 18 x) (Z.shiftr x 3).
Definition ssig1 x := xor3 (rotr 17 x) (rotr 19 x) (Z.shiftr x 10).
Definition Ch x y z := Z.lxor (Z.land x y) (Z.land (Z.lxor x 4294967295) z).
Definition Maj x y z := xor3 (Z.land x y) (Z.land x z) (Z.land y z).

(** The constants are the first 32 bits of the fractional parts of the cube
    roots of the first 64 primes, and of the square roots of the first 8. *)
Definition is_prime (n : Z) : bool :=
  forallb (fun d => negb (n mod (Z.of_nat d) =? 0)) (seq 2 (Z.to_nat (Z.sqrt n) - 1)).
Definition primes (below : nat) : list Z :=
  List.filter is_prime (map Z.of_nat (seq 2 (below - 2))).

(** The integer cube root, one bit of the root at a time. *)
Fixpoint cube_root (bits : nat) (root n : Z) : Z :=
  match bits with
  | O => root
  | S b => let r := root + 2 ^ Z.of_nat b in cube_root b (if r * r * r <=? n then r else root) n
  end.

Definition K256 : list word :=
  Eval vm_compute in map (fun p => w32 (cube_root 40 0 (p * 2 ^ 96))) (primes 312).

Record hstate := HS { h0 : word; h1 : word; h2 : word; h3 : word;
                      h4 : word; h5 : word; h6 : word; h7 : word }.

Definition H256 : hstate :=
  Eval vm_compute in
    match map (fun p => w32 (Z.sqrt (p * 2 ^ 64))) (primes 20) with
    | [a; b; c; d; e; f; g; h] => HS a b c d e f g h
    | _ => HS 0 0 0 0 0 0 0 0
    end.

(** The message schedule, most recent word first, extended to 64 words. *)
Fixpoint schedule (n : nat) (ws : list word) : list word :=
  match n with
  | O => ws
  | S n =>
      let w k := nth (k - 1) ws 0 in
      schedule n (w32 (ssig1 (w 2%nat) + w 7%nat + ssig0 (w 15%nat) + w 16%nat) :: ws)
  end.

Definition round (h : hstate) (kw : word * word) : hstate :=
  let '(HS a b c d e f g hh) := h in
  let t1 := hh + bsig1 e + Ch e f g + kw.1 + kw.2 in
  let t2 := bsig0 a + Maj a b c in
  HS (w32 (t1 + t2)) a b c (w32 (d + t1)) e f g.

Definition compress (h : hstate) (block : list word) : hstate :=
  let ws := rev (schedule 48 (rev block)) in
  let '(HS a b c d e f g hh) := fold_left round (zip K256 ws) h in
  HS (w32 (h0 h + a)) (w32 (h1 h + b)) (w32 (h2 h + c)) (w32 (h3 h + d))
     (w32 (h4 h + e)) (w32 (h5 h + f)) (w32 (h6 h + g)) (w32 (h7 h + hh)).

Fixpoint words_of (bs : list Z) : list word :=
  match bs with
  | a :: b :: c :: d :: bs => (a * 16777216 + b * 65536 + c * 256 + d) :: words_of bs
  | _ => []
  end.

Definition bytes_of_word (w : word) : list Z :=
  [Z.shiftr w 24 mod 256; Z.shiftr w 16 mod 256; Z.shiftr w 8 mod 256; w mod 256].

Definition bytes_of_hstate (h : hstate) : list Z :=
  mjoin (map bytes_of_word [h0 h; h1 h; h2 h; h3 h; h4 h; h5 h; h6 h; h7 h]).

(** One bit, zeros up to 56 modulo 64, and the bit length in 8 bytes. *)
Definition pad (bs : list Z) : list Z :=
  let n := Z.of_nat (length bs) in
  let k := (55 - n) mod 64 in
  let len := 8 * n in
  bs ++ [128] ++ replicate (Z.to_nat k) 0 ++
  bytes_of_word (Z.shiftr len 32) ++ bytes_of_word (w32 len).

Fixpoint blocks (fuel : nat) (ws : list word) (h : hstate) : hstate :=
  match fuel with
  | O => h
  | S fuel => match ws with [] => h | _ => blocks fuel (drop 16 ws) (compress h (take 16 ws)) end
  end.

Definition sha256 (bs : list Z) : list Z :=
  let ws := words_of (pad bs) in
  bytes_of_hstate (blocks (length ws) ws H256).

Definition xor_pad (v : Z) (key : list Z) : list Z :=
  map (Z.lxor v) (take 64 (key ++ replicate 64 0)).

Definition hmac_bytes (key msg : list Z) : list Z :=
  let key := if (64 <? Z.of_nat (length key)) then sha256 key else key in
  sha256 (xor_pad 92 key ++ sha256 (xor_pad 54 key ++ msg)).

Definition bytes_of_string (s : string) : list Z := map code (to_list s).
Definition string_of_bytes (bs : list Z) : string := of_list (map chr bs).

(** [mac := hmac.New(sha256.New, key); mac.Write(msg); mac.Sum(nil)]. *)
Definition hmac_sha256 (key msg : string) : string :=
  string_of_bytes (hmac_bytes (bytes_of_string key) (bytes_of_string msg)).

Definition hex_of_bytes (bs : list Z) : string :=
  of_list (mjoin (map (fun b => [hex_digit (b / 16); hex_digit (b mod 16)]) bs)).

(** FIPS 180-4 "abc", the empty message, and a two-block message. *)
Example sha256_abc :
  hex_of_bytes (sha256 (bytes_of_string "abc")) =
  "BA7816BF8F01CFEA414140DE5DAE2223B00361A396177A9CB410FF61F20015AD".
Proof. vm_compute. reflexivity. Qed.

Example sha256_two_blocks :
  hex_of_bytes (sha256 (bytes_of_string "abcdbcdecdefdefgefghfghighijhijkijkljklmklmnlmnomnopnopq")) =
  "248D6A61D20638B8E5C026930C3E6039A33CE45964FF2167F6ECEDD419DB06C1".
Proof. vm_compute. reflexivity. Qed.

(** RFC 4231 test case 2. *)
Example hmac_rfc4231 :
  hex_of_bytes (bytes_of_string (hmac_sha256 "Jefe" "what do ya want for nothing?")) =
  "5BDCC146BF60754E6A042426089575C75A003F089D2739839DEC58B964EC3843".
Proof. vm_compute. reflexivity. Qed.

Lemma length_of_list l : String.length (of_list l) = length l.
Proof. induction l; simpl; congruence. Qed.

Lemma hmac_length key msg : String.length (hmac_sha256 key msg) = 32%nat.
Proof.
  unfold hmac_sha256, string_of_bytes. rewrite length_of_list, length_map.
  unfold hmac_bytes, sha256 at 1. reflexivity.
Qed.

#[global] Opaque hmac_sha256.
