(* ===== verification/X509.v ===== *)
(** * The parts of Go's [crypto/x509] and [encoding/pem] the sources use

    Certificates, CRLs and CSRs are records of the fields the program reads;
    extensions keep their decoded ASN.1 value.  Signatures are symbolic: an
    object carries the public key whose private half signed it, and a check
    against a parent compares that key with the parent's, after the same
    constraint tests as [CheckSignatureFrom].  Issuing functions apply the
    same argument checks as the library and store times in whole seconds.

    A byte string read from storage is represented by what Go's decoders find
    in it: plain text, a sequence of PEM blocks followed by trailing bytes, or
    a JSON list of pending supersessions. *)

From S2P Require Import Prelude GoStrings GoTime.

(** ** Keys and names *)

Inductive curve := P224 | P256 | P384 | P521 | CurveOther.

(** [id] tells apart keys of the same shape. *)
Inductive PublicKey :=
  | RSAKey (bits : Z) (id : Z)
  | ECDSAKey (c : curve) (id : Z)
  | Ed25519Key (id : Z)
  | OtherKey (id : Z).

#[global] Instance curve_eq_dec : EqDecision curve.
Proof. solve_decision. Defined.
#[global] Instance PublicKey_eq_dec : EqDecision PublicKey.
Proof. solve_decision. Defined.

#[global] Instance curve_countable : Countable curve.
Proof.
  refine (inj_countable' (fun c => match c with P224 => 0 | P256 => 1 | P384 => 2 | P521 => 3 | CurveOther => 4 end)
    (fun n => if n =? 0 then P224 else if n =? 1 then P256 else if n =? 2 then P384
              else if n =? 3 then P521 else CurveOther) _). by intros [].
Defined.
#[global] Instance PublicKey_countable : Countable PublicKey.
Proof.
  refine (inj_countable'
    (fun k => match k with
              | RSAKey bits id => inl (inl (bits, id))
              | ECDSAKey c id => inl (inr (c, id))
              | Ed25519Key id => inr (inl id)
              | OtherKey id => inr (inr id)
              end)
    (fun s => match s with
              | inl (inl (bits, id)) => RSAKey bits id
              | inl (inr (c, id)) => ECDSAKey c id
              | inr (inl id) => Ed25519Key id
              | inr (inr id) => OtherKey id
              end) _). by intros [].
Defined.

(** [pkix.Name]: the common name and the remaining attributes. *)
Record Name := mkName { CommonName : string; OtherAttrs : list (string * string) }.
#[global] Instance Name_eq_dec : EqDecision Name.
Proof. solve_decision. Defined.

(** ** Extensions *)

Definition OID := list Z.

Record subjectAltNames := SANs {
  DNSNames : list string;
  IPAddresses : list string;
  EmailAddresses : list string;
  URIs : list string }.
#[global] Instance subjectAltNames_eq_dec : EqDecision subjectAltNames.
Proof. solve_decision. Defined.

Definition no_sans : subjectAltNames := SANs [] [] [] [].
Definition sans_empty (s : subjectAltNames) : bool :=
  bool_decide (s = no_sans).

(** A SubjectKeyIdentifier: SHA-1 of a public key, or foreign bytes. *)
Inductive keyid := KeyIdNone | KeyIdSha1 (k : PublicKey) | KeyIdRaw (s : string).
#[global] Instance keyid_eq_dec : EqDecision keyid.
Proof. solve_decision. Defined.

Inductive ExtKeyUsage := EKUServerAuth | EKUClientAuth | EKUOther (n : Z).
#[global] Instance ExtKeyUsage_eq_dec : EqDecision ExtKeyUsage.
Proof. solve_decision. Defined.

(** The decoded value of an extension. *)
Inductive asn1 :=
  | AString (s : string)
  | ABasicConstraints (isCA : bool) (maxPathLen : Z)
  | AKeyUsage (bits : Z)
  | AExtKeyUsage (l : list ExtKeyUsage)
  | AKeyId (k : keyid)
  | ASubjectAltNames (s : subjectAltNames)
  | AURLs (l : list string)
  | ARaw (s : string).
#[global] Instance asn1_eq_dec : EqDecision asn1.
Proof. solve_decision. Defined.

Record Extension := Ext { ext_Id : OID; ext_Critical : bool; ext_Value : asn1 }.
#[global] Instance Extension_eq_dec : EqDecision Extension.
Proof. solve_decision. Defined.

Definition oidSubjectKeyId : OID := [2; 5; 29; 14].
Definition oidKeyUsage : OID := [2; 5; 29; 15].
Definition oidSubjectAltName : OID := [2; 5; 29; 17].
Definition oidBasicConstraints : OID := [2; 5; 29; 19].
Definition oidCRLDistributionPoints : OID := [2; 5; 29; 31].
Definition oidAuthorityKeyId : OID := [2; 5; 29; 35].
Definition oidExtKeyUsage : OID := [2; 5; 29; 37].

Definition find_ext (oid : OID) (l : list Extension) : option asn1 :=
  ext_Value <$> head (base.filter (fun e => ext_Id e = oid) l).

Definition has_ext (oid : OID) (l : list Extension) : bool :=
  existsb (fun e => bool_decide (ext_Id e = oid)) l.

(** The parsers refuse a certificate or CSR with two extensions of one OID. *)
Definition duplicate_exts (l : list Extension) : bool :=
  negb (bool_decide (NoDup (map ext_Id l))).

(** ** Certificates *)

Record Certificate := mkCert {
  Version : Z;
  SerialNumber : Z;
  Subject : Name;
  Issuer : Name;
  NotBefore : Time;
  NotAfter : Time;
  PubKey : PublicKey;
  Extensions : list Extension;
  SignedBy : PublicKey }.
#[global] Instance Certificate_eq_dec : EqDecision Certificate.
Proof. solve_decision. Defined.

Definition BasicConstraintsValid (c : Certificate) : bool :=
  has_ext oidBasicConstraints (Extensions c).
Definition IsCA (c : Certificate) : bool :=
  match find_ext oidBasicConstraints (Extensions c) with
  | Some (ABasicConstraints b _) => b
  | _ => false
  end.
(** Zero when the certificate has no KeyUsage extension. *)
Definition KeyUsage (c : Certificate) : Z :=
  match find_ext oidKeyUsage (Extensions c) with Some (AKeyUsage b) => b | _ => 0 end.
Definition cert_sans (c : Certificate) : subjectAltNames :=
  match find_ext oidSubjectAltName (Extensions c) with
  | Some (ASubjectAltNames s) => s
  | _ => no_sans
  end.
Definition SubjectKeyId (c : Certificate) : keyid :=
  match find_ext oidSubjectKeyId (Extensions c) with Some (AKeyId k) => k | _ => KeyIdNone end.

Definition KeyUsageDigitalSignature : Z := 1.
Definition KeyUsageKeyEncipherment : Z := 4.
Definition KeyUsageCertSign : Z := 32.
Definition KeyUsageCRLSign : Z := 64.

(** The constraint half of [CheckSignatureFrom]: [usage] is keyCertSign for
    certificates and cRLSign for CRLs. *)
Definition parent_may_sign (usage : Z) (parent : Certificate) : bool :=
  negb (((Version parent =? 3) && negb (BasicConstraintsValid parent))
        || (BasicConstraintsValid parent && negb (IsCA parent)))
  && ((KeyUsage parent =? 0) || negb (Z.land (KeyUsage parent) usage =? 0)).

(** [cert.CheckSignatureFrom(parent) == nil]. *)
Definition CheckSignatureFrom (cert parent : Certificate) : bool :=
  parent_may_sign KeyUsageCertSign parent && bool_decide (SignedBy cert = PubKey parent).

(** ** Certificate revocation lists *)

Record RevocationListEntry := RLE { rle_SerialNumber : Z; RevocationTime : Time }.
#[global] Instance RevocationListEntry_eq_dec : EqDecision RevocationListEntry.
Proof. solve_decision. Defined.

Record RevocationList := mkCRL {
  Number : option Z;
  RevokedCertificateEntries : list RevocationListEntry;
  ThisUpdate : Time;
  NextUpdate : Time;
  crl_Issuer : Name;
  crl_Extensions : list OID;
  crl_SignedBy : PublicKey }.
#[global] Instance RevocationList_eq_dec : EqDecision RevocationList.
Proof. solve_decision. Defined.

(** [crl.CheckSignatureFrom(parent) == nil]. *)
Definition crl_CheckSignatureFrom (crl : RevocationList) (parent : Certificate) : bool :=
  parent_may_sign KeyUsageCRLSign parent && bool_decide (crl_SignedBy crl = PubKey parent).

(** The CRL-number bound of [CreateRevocationList]: at most 20 octets with
    the top bit clear. *)
Definition crl_number_ok (n : Z) : bool := (0 <=? n) && (n <? 2 ^ 159).

(** [x509.CreateRevocationList] followed by [x509.ParseRevocationList] of the
    bytes it made. *)
Definition CreateRevocationList (number : option Z) (revoked : list RevocationListEntry)
    (thisUpdate nextUpdate : Time) (issuer : Certificate) (priv : PublicKey)
    : result RevocationList :=
  if Z.land (KeyUsage issuer) KeyUsageCRLSign =? 0 then
    Err (Msg "x509: issuer must have the crlSign key usage bit set")
  else if bool_decide (SubjectKeyId issuer = KeyIdNone) then
    Err (Msg "x509: issuer certificate doesn't contain a subject key identifier")
  else if nextUpdate <? thisUpdate then
    Err (Msg "x509: template.ThisUpdate is after template.NextUpdate")
  else match number with
  | None => Err (Msg "x509: template contains nil Number field")
  | Some n =>
      if negb (crl_number_ok n) then Err (Msg "x509: CRL number exceeds 20 octets")
      else if existsb (fun e => IsZero (RevocationTime e)) revoked then
        Err (Msg "x509: template contains entry with zero RevocationTime field")
      else Ok (mkCRL (Some n)
                 (map (fun e => RLE (rle_SerialNumber e) (trunc_sec (RevocationTime e))) revoked)
                 (trunc_sec thisUpdate) (trunc_sec nextUpdate) (Subject issuer) [] priv)
  end.

(** ** Certificate signing requests *)

Record CertificateRequest := mkCSR {
  csr_Subject : Name;
  csr_PublicKey : PublicKey;
  csr_Extensions : list Extension;
  csr_SignedBy : PublicKey }.
#[global] Instance CertificateRequest_eq_dec : EqDecision CertificateRequest.
Proof. solve_decision. Defined.

(** A CSR proves possession of the key it asks to have certified. *)
Definition csr_CheckSignature (csr : CertificateRequest) : bool :=
  bool_decide (csr_SignedBy csr = csr_PublicKey csr).

Definition csr_sans (csr : CertificateRequest) : subjectAltNames :=
  match find_ext oidSubjectAltName (csr_Extensions csr) with
  | Some (ASubjectAltNames s) => s
  | _ => no_sans
  end.

(** ** Issuing certificates *)

Record Template := mkTemplate {
  t_SerialNumber : Z;
  t_Subject : Name;
  t_NotBefore : Time;
  t_NotAfter : Time;
  t_KeyUsage : Z;
  t_ExtKeyUsage : list ExtKeyUsage;
  t_BasicConstraintsValid : bool;
  t_IsCA : bool;
  t_SubjectKeyId : keyid;
  t_AuthorityKeyId : keyid;
  t_SANs : subjectAltNames;
  t_CRLDistributionPoints : list string;
  t_ExtraExtensions : list Extension;
  t_MaxPathLen : Z;
  t_MaxPathLenZero : bool }.

(** A zero [MaxPathLen] without [MaxPathLenZero] means no constraint. *)
Definition encoded_path_len (t : Template) : Z :=
  if (t_MaxPathLen t =? 0) && negb (t_MaxPathLenZero t) then -1 else t_MaxPathLen t.

(** [buildCertExtensions]: each extension derived from the template is left
    out when [ExtraExtensions] carries the same OID, and the extras follow. *)
Definition buildCertExtensions (t : Template) (aki : keyid) : list Extension :=
  let unless_extra (oid : OID) (present crit : bool) (v : asn1) : list Extension :=
    if present && negb (has_ext oid (t_ExtraExtensions t)) then [Ext oid crit v] else [] in
  unless_extra oidKeyUsage (negb (t_KeyUsage t =? 0)) true (AKeyUsage (t_KeyUsage t))
  ++ unless_extra oidExtKeyUsage (negb (bool_decide (t_ExtKeyUsage t = []))) false
       (AExtKeyUsage (t_ExtKeyUsage t))
  ++ unless_extra oidBasicConstraints (t_BasicConstraintsValid t) true
       (ABasicConstraints (t_IsCA t) (encoded_path_len t))
  ++ unless_extra oidSubjectKeyId (negb (bool_decide (t_SubjectKeyId t = KeyIdNone))) false
       (AKeyId (t_SubjectKeyId t))
  ++ unless_extra oidAuthorityKeyId (negb (bool_decide (aki = KeyIdNone))) false (AKeyId aki)
  ++ unless_extra oidSubjectAltName (negb (sans_empty (t_SANs t)))
       (bool_decide (t_Subject t = mkName "" [])) (ASubjectAltNames (t_SANs t))
  ++ unless_extra oidCRLDistributionPoints (negb (bool_decide (t_CRLDistributionPoints t = [])))
       false (AURLs (t_CRLDistributionPoints t))
  ++ t_ExtraExtensions t.

(** The checks [x509.CreateCertificate] makes on a template. *)
Definition template_fault (t : Template) : option error :=
  if t_SerialNumber t <? 0 then Some (Msg "x509: serial number must be positive")
  else if t_BasicConstraintsValid t && (t_MaxPathLen t <? -1) then
    Some (Msg "x509: invalid MaxPathLen, must be greater or equal to -1")
  else if t_BasicConstraintsValid t && negb (t_IsCA t) && negb (encoded_path_len t =? -1) then
    Some (Msg "x509: only CAs are allowed to specify MaxPathLen")
  else None.

(** [x509.CreateCertificate(template, template, pub, priv)]: a self-signed
    certificate; subject and issuer agree, so no authority key identifier is
    derived from the parent. *)
Definition CreateSelfSigned (t : Template) (priv : PublicKey) : result Certificate :=
  match template_fault t with
  | Some e => Err e
  | None =>
      Ok (mkCert 3 (t_SerialNumber t) (t_Subject t) (t_Subject t)
            (trunc_sec (t_NotBefore t)) (trunc_sec (t_NotAfter t)) priv
            (buildCertExtensions t (t_AuthorityKeyId t)) priv)
  end.

(** [x509.CreateCertificate(template, parent, pub, priv)] for a parent other
    than the template; [priv] is named by its public half. *)
Definition CreateCertificate (t : Template) (parent : Certificate) (pub priv : PublicKey)
    : result Certificate :=
  match template_fault t with
  | Some e => Err e
  | None =>
  if negb (bool_decide (priv = PubKey parent)) then
    Err (Msg "x509: provided PrivateKey doesn't match parent's PublicKey")
  else
    let aki :=
      if negb (bool_decide (Subject parent = t_Subject t))
         && negb (bool_decide (SubjectKeyId parent = KeyIdNone))
      then SubjectKeyId parent else t_AuthorityKeyId t in
    Ok (mkCert 3 (t_SerialNumber t) (t_Subject t) (Subject parent)
          (trunc_sec (t_NotBefore t)) (trunc_sec (t_NotAfter t)) pub
          (buildCertExtensions t aki) priv)
  end.

(** ** PEM and stored byte strings *)

(** How a private key is encoded. *)
Inductive keyfmt := PKCS1 | SEC1 | PKCS8.
#[global] Instance keyfmt_eq_dec : EqDecision keyfmt.
Proof. solve_decision. Defined.

Inductive der :=
  | DerCert (c : Certificate)
  | DerCRL (c : RevocationList)
  | DerCSR (c : CertificateRequest)
  | DerPublicKey (k : PublicKey)
  | DerPrivateKey (f : keyfmt) (k : PublicKey)
  (** an encrypted key, as the bytes of its envelope *)
  | DerEnvelope (bytes : string)
  | DerBad.
#[global] Instance der_eq_dec : EqDecision der.
Proof. solve_decision. Defined.

Record pem_block := mkBlock { Type_ : string; Bytes : der }.
#[global] Instance pem_block_eq_dec : EqDecision pem_block.
Proof. solve_decision. Defined.

(** A pending supersession as stored in JSON (internal/ca/supersede.go). *)
Record supersededEntry := mkSuperseded {
  se_Serial : string; se_Subject : string; RevokeAt : Time }.
#[global] Instance supersededEntry_eq_dec : EqDecision supersededEntry.
Proof. solve_decision. Defined.

Inductive blob :=
  | BText (s : string)
  | BPem (blocks : list pem_block) (trailing : string)
  (** JSON of a list of supersessions; [wellformed = false] is a document
      [json.Unmarshal] reports an error on after recovering [es]. *)
  | BSuperseded (wellformed : bool) (es : list supersededEntry).
#[global] Instance blob_eq_dec : EqDecision blob.
Proof. solve_decision. Defined.

Definition empty_blob : blob := BText "".

(** The blob seen as text: PEM armour lines without their base64 bodies, which
    hold no white space and are never inventory lines. *)
Definition blob_text (b : blob) : string :=
  match b with
  | BText s => s
  | BPem bs t =>
      foldr (fun blk acc => "-----BEGIN " +:+ Type_ blk +:+ "-----" +:+ nl
                       +:+ "-----END " +:+ Type_ blk +:+ "-----" +:+ nl +:+ acc) t bs
  | BSuperseded _ _ => "[]"
  end.

(** [pem.Decode]: the first block and the rest. *)
Definition pem_Decode (b : blob) : option pem_block * blob :=
  match b with
  | BPem (blk :: bs) t => (Some blk, BPem bs t)
  | _ => (None, b)
  end.

(** All the blocks a [pem.Decode] loop visits, and what remains. *)
Definition pem_blocks (b : blob) : list pem_block :=
  match b with BPem bs _ => bs | _ => [] end.
Definition pem_rest (b : blob) : string :=
  match b with BPem _ t => t | _ => blob_text b end.

(** [pem.EncodeToMemory] of a list of blocks, one after the other. *)
Definition pem_encode (bs : list pem_block) : blob :=
  match bs with [] => empty_blob | _ => BPem bs "" end.

Definition ParseCertificate (d : der) : result Certificate :=
  match d with
  | DerCert c =>
      if duplicate_exts (Extensions c)
      then Err (Msg "x509: certificate contains duplicate extensions") else Ok c
  | _ => Err (Msg "x509: malformed certificate")
  end.

Definition ParseRevocationList (d : der) : result RevocationList :=
  match d with DerCRL c => Ok c | _ => Err (Msg "x509: malformed crl") end.

Definition ParseCertificateRequest (d : der) : result CertificateRequest :=
  match d with
  | DerCSR c =>
      if duplicate_exts (csr_Extensions c)
      then Err (Msg "x509: certificate request contains duplicate requested extensions")
      else Ok c
  | _ => Err (Msg "asn1: structure error")
  end.

(** The first PEM block of a blob parsed as a certificate, as the many
    [pem.Decode] / [x509.ParseCertificate] pairs of the sources do. *)
Definition decode_cert (b : blob) : option Certificate :=
  match pem_Decode b with
  | (Some blk, _) => match ParseCertificate (Bytes blk) with Ok c => Some c | Err _ => None end
  | (None, _) => None
  end.

Definition encode_cert (c : Certificate) : blob := pem_encode [mkBlock "CERTIFICATE" (DerCert c)].

Lemma decode_encode_cert c :
  duplicate_exts (Extensions c) = false -> decode_cert (encode_cert c) = Some c.
Proof. intros H. cbn. by rewrite H. Qed.

(** ** Lemmas *)

Lemma CreateRevocationList_Ok n revoked t1 t2 issuer priv crl :
  CreateRevocationList n revoked t1 t2 issuer priv = Ok crl ->
  Number crl = n /\ is_Some n /\
  map rle_SerialNumber (RevokedCertificateEntries crl) = map rle_SerialNumber revoked /\
  ThisUpdate crl = trunc_sec t1 /\ NextUpdate crl = trunc_sec t2 /\ crl_SignedBy crl = priv.
Proof.
  unfold CreateRevocationList. intros H. repeat case_match; simplify_eq; simpl.
  rewrite map_map. naive_solver.
Qed.

Lemma CreateCertificate_Ok t parent pub priv c :
  CreateCertificate t parent pub priv = Ok c ->
  SerialNumber c = t_SerialNumber t /\ Subject c = t_Subject t /\ PubKey c = pub /\
  NotBefore c = trunc_sec (t_NotBefore t) /\ NotAfter c = trunc_sec (t_NotAfter t) /\
  SignedBy c = PubKey parent /\ Version c = 3 /\
  exists aki, Extensions c = buildCertExtensions t aki.
Proof.
  unfold CreateCertificate. intros H. repeat case_match; simplify_eq; simpl; bool_hyps;
    naive_solver.
Qed.

Lemma has_ext_true oid l : has_ext oid l = true <-> exists e, e ∈ l /\ ext_Id e = oid.
Proof.
  unfold has_ext. rewrite existsb_exists_elem.
  by setoid_rewrite bool_decide_eq_true.
Qed.

Lemma has_ext_false oid l : has_ext oid l = false <-> forall e, e ∈ l -> ext_Id e <> oid.
Proof.
  unfold has_ext. rewrite existsb_false_elem.
  by setoid_rewrite bool_decide_eq_false.
Qed.
