(* ===== verification/Verify.v ===== *)
(** * Path validation (Go's [x509.Certificate.Verify])

    What internal/api/trustdomain.go relies on: candidate parents by issuer
    name, ordered by key identifier; depth-first search through the root pool
    and then the intermediates, with the bound on signature checks; the
    validity tests of each certificate; the extended key usage filter.  Name
    constraints, certificate policies and unhandled critical extensions, which
    can only reject more, are left out. *)

From S2P Require Import Prelude GoStrings GoTime X509.

Definition EKUAny : ExtKeyUsage := EKUOther 0.
Definition cert_EKU (c : Certificate) : list ExtKeyUsage :=
  match find_ext oidExtKeyUsage (Extensions c) with Some (AExtKeyUsage l) => l | _ => [] end.
Definition AuthorityKeyId (c : Certificate) : keyid :=
  match find_ext oidAuthorityKeyId (Extensions c) with Some (AKeyId k) => k | _ => KeyIdNone end.
(** -1 when the certificate states no limit. *)
Definition MaxPathLen (c : Certificate) : Z :=
  match find_ext oidBasicConstraints (Extensions c) with
  | Some (ABasicConstraints _ n) => n
  | _ => -1
  end.

Inductive certType := leafCertificate | intermediateCertificate | rootCertificate.

(** [chain] runs from the leaf to the child of [c]. *)
Definition isValid (t : certType) (now : Time) (chain : list Certificate) (c : Certificate) : bool :=
  match last chain with
  | Some child => bool_decide (Issuer child = Subject c)
  | None => true
  end
  && (NotBefore c <=? now) && (now <=? NotAfter c)
  && match t with
     | intermediateCertificate => BasicConstraintsValid c && IsCA c
     | _ => true
     end
  && negb (BasicConstraintsValid c && (0 <=? MaxPathLen c)
           && (MaxPathLen c <? Z.of_nat (length chain) - 1)).

(** [CertPool.findPotentialParents]. *)
Definition findPotentialParents (pool : list Certificate) (c : Certificate) : list Certificate :=
  let named := base.filter (fun p => Subject p = Issuer c) pool in
  let matching := base.filter (fun p => SubjectKeyId p = AuthorityKeyId c) named in
  let one_missing (p : Certificate) : bool :=
    xorb (bool_decide (SubjectKeyId p = KeyIdNone)) (bool_decide (AuthorityKeyId c = KeyIdNone)) in
  let rest := base.filter (fun p => SubjectKeyId p <> AuthorityKeyId c) named in
  matching ++ base.filter (fun p => one_missing p = true) rest
           ++ base.filter (fun p => one_missing p = false) rest.

(** Same subject, key and alternative names as a certificate of the chain. *)
Definition alreadyInChain (cand : Certificate) (chain : list Certificate) : bool :=
  existsb (fun c => bool_decide (Subject c = Subject cand) && bool_decide (PubKey c = PubKey cand)
                    && bool_decide (find_ext oidSubjectAltName (Extensions c)
                                    = find_ext oidSubjectAltName (Extensions cand))) chain.

Definition maxChainSignatureChecks : nat := 100.

Definition search := (list (list Certificate) * nat)%type.

(** One candidate: [extend] is what to do with a chain that ends in it. *)
Definition considerCandidate (t : certType) (now : Time) (chain : list Certificate) (c : Certificate)
    (extend : list Certificate -> Certificate -> nat -> search) (acc : search) (cand : Certificate)
    : search :=
  let '(chains, sigChecks) := acc in
  if alreadyInChain cand chain then acc
  else
    let sigChecks := S sigChecks in
    if bool_decide (maxChainSignatureChecks < sigChecks)%nat then (chains, sigChecks)
    else if negb (CheckSignatureFrom c cand) then (chains, sigChecks)
    else if negb (isValid t now chain cand) then (chains, sigChecks)
    else
      let '(more, sigChecks) := extend (chain ++ [cand]) cand sigChecks in
      (chains ++ more, sigChecks).

Section Search.
Context (roots intermediates : list Certificate) (now : Time).

Definition consider_roots (chain : list Certificate) (c : Certificate) (acc : search) : search :=
    fold_left (considerCandidate rootCertificate now chain c (fun chain' _ n => ([chain'], n)))
      (findPotentialParents roots c) acc.

Fixpoint buildChains (fuel : nat) (chain : list Certificate) (c : Certificate) (sigChecks : nat)
      : search :=
    match fuel with
    | O => ([], sigChecks)
    | S fuel =>
        fold_left (considerCandidate intermediateCertificate now chain c (buildChains fuel))
          (findPotentialParents intermediates c)
          (consider_roots chain c ([], sigChecks))
    end.
End Search.

(** A usage restriction anywhere in the chain applies. *)
Definition checkChainForKeyUsage (chain : list Certificate) (usage : ExtKeyUsage) : bool :=
  forallb (fun c => bool_decide (cert_EKU c = []) || bool_decide (EKUAny ∈ cert_EKU c)
                    || bool_decide (usage ∈ cert_EKU c)) chain.

(** The chains found, or none: the search goes at most one certificate deeper
    than the intermediates there are. *)
Definition cert_Verify (roots intermediates : list Certificate) (usage : ExtKeyUsage) (now : Time)
    (c : Certificate) : list (list Certificate) :=
  if negb (isValid leafCertificate now [] c) then []
  else
    let candidates :=
      if bool_decide (c ∈ roots) then [[c]]
      else (buildChains roots intermediates now (S (length intermediates)) [c] c 0).1 in
    List.filter (fun chain => checkChainForKeyUsage chain usage) candidates.

(** ** Soundness: what a chain that comes out looks like *)

Fixpoint linked (chain : list Certificate) : Prop :=
  match chain with
  | child :: (parent :: _) as rest => CheckSignatureFrom child parent = true /\ linked rest
  | _ => True
  end.
Definition valid_at (now : Time) (c : Certificate) : Prop := NotBefore c <= now <= NotAfter c.

Lemma linked_snoc chain c p :
  last chain = Some c -> linked chain -> CheckSignatureFrom c p = true -> linked (chain ++ [p]).
Proof.
  induction chain as [|a [|b chain] IH]; intros Hl Hk Hs; [done| |].
  - injection Hl as ->. done.
  - destruct Hk as [Hab Hk]. split; [done|]. by apply IH.
Qed.

Lemma isValid_at t now chain c : isValid t now chain c = true -> valid_at now c.
Proof.
  unfold isValid, valid_at. intros H. repeat apply andb_true_iff in H as [H ?].
  split; by apply Z.leb_le.
Qed.

Lemma parents_in pool c p : p ∈ findPotentialParents pool c -> p ∈ pool.
Proof.
  unfold findPotentialParents. rewrite !elem_of_app, !list_elem_of_filter. naive_solver.
Qed.

(** What holds of every chain found so far holds after another candidate. *)
Lemma consider_inv (P : list Certificate -> Prop) t now chain c extend acc cand :
  (forall x, x ∈ acc.1 -> P x) ->
  (alreadyInChain cand chain = false -> CheckSignatureFrom c cand = true ->
   valid_at now cand -> forall n x, x ∈ (extend (chain ++ [cand]) cand n).1 -> P x) ->
  forall x, x ∈ (considerCandidate t now chain c extend acc cand).1 -> P x.
Proof.
  intros Hacc Hext x. unfold considerCandidate. destruct acc as [chains n]. cbn [fst] in *.
  destruct (alreadyInChain cand chain) eqn:Ha; [by apply Hacc|].
  case_bool_decide; [by apply Hacc|]. destruct (CheckSignatureFrom c cand) eqn:Hs; [|by apply Hacc].
  destruct (isValid t now chain cand) eqn:Hv; [|by apply Hacc]. cbn [negb].
  specialize (Hext eq_refl eq_refl (isValid_at _ _ _ _ Hv) (S n) x).
  destruct (extend _ cand (S n)) as [more m]. cbn [fst] in *. rewrite elem_of_app. naive_solver.
Qed.

Lemma consider_fold_inv (P : list Certificate -> Prop) t now chain c extend l acc :
  (forall x, x ∈ acc.1 -> P x) ->
  (forall cand, cand ∈ l -> CheckSignatureFrom c cand = true -> valid_at now cand ->
   forall n x, x ∈ (extend (chain ++ [cand]) cand n).1 -> P x) ->
  forall x, x ∈ (fold_left (considerCandidate t now chain c extend) l acc).1 -> P x.
Proof.
  revert acc. induction l as [|a l IH]; intros acc Hacc Hext; [exact Hacc|]. cbn [fold_left]. apply IH.
  - apply consider_inv; [done|]. intros _. by apply Hext; left.
  - intros cand Hc. apply Hext. by right.
Qed.

Definition path_ok (roots : list Certificate) (now : Time) (chain : list Certificate) : Prop :=
  linked chain /\ Forall (valid_at now) chain /\
  exists root, last chain = Some root /\ root ∈ roots.

Lemma buildChains_sound roots intermediates now fuel chain c n :
  last chain = Some c -> linked chain -> Forall (valid_at now) chain ->
  forall x, x ∈ (buildChains roots intermediates now fuel chain c n).1 ->
  path_ok roots now x /\ exists ext, x = chain ++ ext.
Proof.
  revert chain c n. induction fuel as [|fuel IH]; intros chain c n Hl Hk Hv; [by intros x ?%elem_of_nil|].
  cbn [buildChains]. apply consider_fold_inv.
  - apply consider_fold_inv; [by intros x ?%elem_of_nil|].
    intros cand Hin%parents_in Hs Hc m x. cbn [fst]. rewrite list_elem_of_singleton. intros ->.
    split; [|by eexists]. split; [by eapply linked_snoc|]. split; [by apply Forall_app; auto|].
    exists cand. by rewrite last_snoc.
  - intros cand _ Hs Hc m x Hx. apply IH in Hx as [Hp [ext ->]].
    + split; [done|]. exists (cand :: ext). by rewrite <- app_assoc.
    + by rewrite last_snoc.
    + by eapply linked_snoc.
    + apply Forall_app; auto.
Qed.

Lemma cert_Verify_sound roots intermediates usage now c chain :
  chain ∈ cert_Verify roots intermediates usage now c ->
  head chain = Some c /\ path_ok roots now chain /\ checkChainForKeyUsage chain usage = true.
Proof.
  unfold cert_Verify. destruct (isValid _ now [] c) eqn:Hv; [|by intros ?%elem_of_nil].
  apply isValid_at in Hv. cbn [negb]. intros Hin%list_elem_of_In%filter_In.
  destruct Hin as [Hin%list_elem_of_In Hu]. case_bool_decide as Hr.
  - apply list_elem_of_singleton in Hin as ->. split; [done|]. split; [|done].
    split; [done|]. split; [by constructor|]. by exists c.
  - apply buildChains_sound in Hin as [Hp [ext ->]]; [done|done|done|]. by constructor.
Qed.

(** ** Enough fuel

    Every step of the search takes an intermediate that is not in the chain
    yet, so more fuel than there are such intermediates changes nothing. *)

Definition remaining (intermediates chain : list Certificate) : nat :=
  length (base.filter (fun i => alreadyInChain i chain = false) intermediates).

Lemma remaining_snoc intermediates chain cand :
  cand ∈ intermediates -> alreadyInChain cand chain = false ->
  (remaining intermediates (chain ++ [cand]) < remaining intermediates chain)%nat.
Proof.
  intros Hin Hnew. unfold remaining.
  assert (forall i, alreadyInChain i (chain ++ [cand]) = false -> alreadyInChain i chain = false) as Hmono.
  { intros i. unfold alreadyInChain. rewrite existsb_app. by intros [? _]%orb_false_iff. }
  assert (alreadyInChain cand (chain ++ [cand]) = true) as Hself.
  { unfold alreadyInChain. rewrite existsb_app. apply orb_true_iff. right. simpl.
    by rewrite !bool_decide_eq_true_2. }
  induction intermediates as [|a l IH]; [by apply elem_of_nil in Hin|]. rewrite !filter_cons.
  pose proof (filter_length_le (fun i => alreadyInChain i (chain ++ [cand]) = false)
                (fun i => alreadyInChain i chain = false) l (fun i _ => Hmono i)).
  destruct (decide (a = cand)) as [->|Hne].
  - rewrite decide_False by congruence. rewrite decide_True by done. simpl. lia.
  - apply elem_of_cons in Hin as [->|Hin]; [done|]. specialize (IH Hin).
    repeat case_decide; simpl; try lia. naive_solver.
Qed.

Lemma consider_fold_ext t now chain c f g l acc :
  (forall cand n, cand ∈ l -> alreadyInChain cand chain = false ->
     f (chain ++ [cand]) cand n = g (chain ++ [cand]) cand n) ->
  fold_left (considerCandidate t now chain c f) l acc =
  fold_left (considerCandidate t now chain c g) l acc.
Proof.
  revert acc. induction l as [|a l IH]; intros acc H; [done|]. cbn [fold_left]. rewrite IH.
  - f_equal. unfold considerCandidate. destruct acc as [chains n].
    destruct (alreadyInChain a chain) eqn:E; [done|]. by rewrite H by (done || left).
  - intros cand n Hc. apply H. by right.
Qed.

Lemma buildChains_fuel roots intermediates now fuel fuel' chain c n :
  (remaining intermediates chain < fuel)%nat -> (remaining intermediates chain < fuel')%nat ->
  buildChains roots intermediates now fuel chain c n =
  buildChains roots intermediates now fuel' chain c n.
Proof.
  revert fuel' chain c n. induction fuel as [|fuel IH]; intros fuel' chain c n H1 H2; [lia|].
  destruct fuel' as [|fuel']; [lia|]. cbn [buildChains]. apply consider_fold_ext.
  intros cand m Hin%parents_in Hnew. pose proof (remaining_snoc _ _ _ Hin Hnew). apply IH; lia.
Qed.

(** The fuel of [cert_Verify] is enough: any larger amount finds the same. *)
Lemma cert_Verify_complete roots intermediates now c n fuel :
  (length intermediates < fuel)%nat ->
  buildChains roots intermediates now fuel [c] c n =
  buildChains roots intermediates now (S (length intermediates)) [c] c n.
Proof.
  intros H. pose proof (length_filter (fun i => alreadyInChain i [c] = false) intermediates).
  apply buildChains_fuel; unfold remaining; lia.
Qed.
