(* ===== verification/Inventory.v ===== *)
(** * The inventory: text format, canonical serials, integrity value

    Models the inventory codec of internal/storage/storage.go
    ([FormatInventoryLine], [parseInventoryEntry], [parseBlobInventoryEntry],
    [openVoxInventoryLine], [NormaliseSerial], [latestSerialFromBlob], ...),
    the entry type of internal/storage/backend.go and the two integrity
    schemes ([wholeBlobInventoryMAC], [chainInventoryMAC]). *)

From S2P Require Import Prelude GoStrings GoTime Sha256.
From Stdlib Require Import Ascii.

(** ** Data *)

Record InventoryEntry := mkEntry {
  ie_Serial : string;
  ie_NotBefore : string;
  ie_NotAfter : string;
  ie_Subject : string }.
#[global] Instance InventoryEntry_eq_dec : EqDecision InventoryEntry.
Proof. solve_decision. Defined.

(** ** Operations *)

(** The canonical spelling of a serial: upper-case hex, no prefix, no leading
    zeros.  Accepts white space, a [0x] or [0X] prefix and either case;
    refuses the empty string and negative numbers. *)
Definition NormaliseSerial (serial : string) : result string :=
  let trimmed := TrimSpace serial in
  let trimmed :=
    match CutPrefix trimmed "0x" with
    | Some rest => rest
    | None => match CutPrefix trimmed "0X" with Some rest => rest | None => trimmed end
    end in
  match SetString16 trimmed with
  | Some n =>
      if bool_decide (trimmed = "") || (n <? 0)
      then Err (Wrap "not a hexadecimal serial number" [Sentinel ErrMalformedSerial])
      else Ok (hexX n)
  | None => Err (Wrap "not a hexadecimal serial number" [Sentinel ErrMalformedSerial])
  end.

Definition canonicalInventoryLine (e : InventoryEntry) : string :=
  ie_Serial e +:+ " " +:+ ie_NotBefore e +:+ " " +:+ ie_NotAfter e +:+ " /" +:+ ie_Subject e.

Definition FormatInventoryLine (serial : string) (notBefore notAfter : Time) (subject : string)
    : string :=
  canonicalInventoryLine (mkEntry serial (format_time notBefore) (format_time notAfter) subject).

(** Four or more white-space-separated fields; the subject is everything from
    the fourth on, joined by single spaces, less one leading slash. *)
Definition parseInventoryEntry (line : string) : option InventoryEntry :=
  match Fields line with
  | serial :: notBefore :: notAfter :: subj :: more =>
      Some (mkEntry serial notBefore notAfter (TrimPrefix (Join " " (subj :: more)) "/"))
  | _ => None
  end.

(** A serial in canonical form, or unchanged when it does not parse. *)
Definition inventorySerial (raw : string) : string :=
  match NormaliseSerial raw with Ok n => n | Err _ => raw end.

(** ["CN=x"] for a plain [x] is the certname [x]; anything else is kept. *)
Definition inventorySubject (subject : string) : string :=
  match CutPrefix subject "CN=" with
  | Some cn =>
      if negb (bool_decide (cn = "")) && negb (ContainsAny cn (",+=/\ "))
      then cn else subject
  | None => subject
  end.

Definition parseBlobInventoryEntry (line : string) : option InventoryEntry :=
  match parseInventoryEntry line with
  | Some e => Some (mkEntry (inventorySerial (ie_Serial e)) (ie_NotBefore e) (ie_NotAfter e)
                      (inventorySubject (ie_Subject e)))
  | None => None
  end.

(** The line OpenVox Server itself writes: [0x%04X] and a distinguished name. *)
Definition openVoxInventoryLine (e : InventoryEntry) (raw : string) : string :=
  match SetString16 (inventorySerial (ie_Serial e)) with
  | None => raw
  | Some n =>
      let subject := if Contains (ie_Subject e) "=" then ie_Subject e else "CN=" +:+ ie_Subject e in
      "0x" +:+ hexXpad 4 n +:+ " " +:+ ie_NotBefore e +:+ " " +:+ ie_NotAfter e +:+ " /" +:+ subject
  end.

Definition is_blank (line : string) : bool := bool_decide (TrimSpace line = "").

(** Entries of an inventory text, with the count of lines that do not parse. *)
Fixpoint parse_lines (lines : list string) : list InventoryEntry * nat :=
  match lines with
  | [] => ([], O)
  | line :: lines =>
      let '(es, bad) := parse_lines lines in
      if is_blank line then (es, bad)
      else match parseBlobInventoryEntry line with
           | Some e => (e :: es, bad)
           | None => (es, S bad)
           end
  end.
Definition parseInventoryBlobCounting (data : string) : list InventoryEntry * nat :=
  parse_lines (SplitLines data).
Definition parseInventoryBlob (data : string) : list InventoryEntry :=
  (parseInventoryBlobCounting data).1.

(** The last entry of a subject wins; its serial is the latest one. *)
Fixpoint latest_scan (subject : string) (lst : string) (lines : list string) : string :=
  match lines with
  | [] => lst
  | line :: lines =>
      if is_blank line then latest_scan subject lst lines
      else match parseBlobInventoryEntry line with
           | Some e =>
               if bool_decide (ie_Subject e = subject)
               then latest_scan subject (ie_Serial e) lines
               else latest_scan subject lst lines
           | None => latest_scan subject lst lines
           end
  end.
Definition latestSerialFromBlob (data subject : string) : result string :=
  let lst := latest_scan subject "" (SplitLines data) in
  if bool_decide (lst = "")
  then Err (Wrap "subject not found in inventory" [Sentinel FsErrNotExist])
  else Ok lst.

(** ** Integrity value *)

Definition wholeBlobInventoryMAC (key blob : string) : string := hmac_sha256 key blob.

Definition chainInventoryMAC (key prev line : string) : string :=
  hmac_sha256 key (prev +:+ line).

Definition chain_from (key head : string) (entries : list InventoryEntry) : string :=
  fold_left (fun h e => chainInventoryMAC key h (canonicalInventoryLine e)) entries head.

(** The nil head of an empty chain is the empty byte string. *)
Definition foldInventoryHead (key : string) (entries : list InventoryEntry) (blob : string)
    (chained : bool) : string :=
  if negb chained then wholeBlobInventoryMAC key blob else chain_from key "" entries.

(** ** Lemmas: white space, fields and lines *)

Definition nospace (s : string) : bool := all_bytes (fun c => negb (isSpace c)) s.

Lemma trim_left_nospace s : nospace s = true -> TrimLeftSpace s = s.
Proof.
  destruct s as [|c s]; [done|]. intros [H _]%andb_true_iff.
  simpl. by apply negb_true_iff in H as ->.
Qed.

Lemma trim_right_nospace s : nospace s = true -> TrimRightSpace s = s.
Proof.
  induction s as [|c s IH]; [done|]. intros [Hc Hs]%andb_true_iff.
  simpl. rewrite IH by done. apply negb_true_iff in Hc as ->. by destruct s.
Qed.

Lemma TrimSpace_nospace s : nospace s = true -> TrimSpace s = s.
Proof. intros. unfold TrimSpace. by rewrite trim_left_nospace, trim_right_nospace. Qed.

Lemma fields_aux_word cur w s :
  nospace w = true -> fields_aux cur (w +:+ s) = fields_aux (cur +:+ w) s.
Proof.
  revert cur. induction w as [|c w IH]; intros cur; simpl.
  - by rewrite app_empty_r.
  - intros [Hc Hw]%andb_true_iff. apply negb_true_iff in Hc. rewrite Hc, IH by done.
    by rewrite str_app_assoc.
Qed.

(** A field followed by a space. *)
Lemma Fields_cons w s :
  w <> "" -> nospace w = true -> Fields (w +:+ String " " s) = w :: Fields s.
Proof.
  intros Hne Hw. unfold Fields. rewrite fields_aux_word by done.
  cbn [fields_aux String.append]. change (isSpace " ") with true. cbv iota.
  by rewrite bool_decide_eq_false_2.
Qed.

Lemma Fields_one w : w <> "" -> nospace w = true -> Fields w = [w].
Proof.
  intros Hne Hw. unfold Fields. rewrite <- (app_empty_r w), fields_aux_word by done.
  cbn. by rewrite app_empty_r, bool_decide_eq_false_2.
Qed.

Lemma fields_aux_nonempty cur s : Forall (fun w => w <> "") (fields_aux cur s).
Proof.
  revert cur. induction s as [|c s IH]; intros cur; simpl.
  - case_bool_decide; auto.
  - case_match; [case_bool_decide|]; auto.
Qed.

Lemma Fields_nonempty s : Forall (fun w => w <> "") (Fields s).
Proof. apply fields_aux_nonempty. Qed.

Lemma nospace_app a b : nospace (a +:+ b) = nospace a && nospace b.
Proof. apply all_bytes_app. Qed.

Lemma isHexX_nospace c : isHexX c = true -> negb (isSpace c) = true.
Proof.
  unfold isHexX, between, isSpace. rewrite negb_true_iff, !orb_true_iff, !andb_true_iff.
  rewrite orb_false_iff, andb_false_iff, !Z.leb_le, !Z.leb_gt, Z.eqb_neq. lia.
Qed.

Lemma nospace_hex_nat n : 0 <= n -> nospace (hex_nat n) = true.
Proof.
  intros. eapply all_bytes_impl; [apply isHexX_nospace|]. by apply hex_nat_bytes.
Qed.

Lemma split_lines_aux_newline cur d s :
  split_lines_aux cur (d +:+ String newline s) = split_lines_aux cur d ++ split_lines_aux "" s.
Proof.
  revert cur. induction d as [|c d IH]; intros cur; simpl.
  - reflexivity.
  - case_match; simpl; by rewrite IH.
Qed.

Lemma split_lines_aux_one cur w :
  all_bytes (fun c => negb (Ascii.eqb c newline)) w = true -> split_lines_aux cur w = [cur +:+ w].
Proof.
  revert cur. induction w as [|c w IH]; intros cur; simpl.
  - by rewrite app_empty_r.
  - intros [Hc Hw]%andb_true_iff. apply negb_true_iff in Hc as ->.
    rewrite IH by done. by rewrite str_app_assoc.
Qed.

Definition no_newline (s : string) : bool := all_bytes (fun c => negb (Ascii.eqb c newline)) s.

(** Every line of the text is complete. *)
Definition terminated (data : string) : Prop := data = "" \/ exists d, data = d +:+ nl.

Lemma SplitLines_append data line :
  terminated data -> no_newline line = true ->
  exists pre, SplitLines data = pre ++ [""] /\
         SplitLines (data +:+ line +:+ nl) = pre ++ [line; ""].
Proof.
  intros [->|[d ->]] Hl.
  - exists []. split; [done|]. unfold SplitLines, nl. cbn [String.append].
    rewrite split_lines_aux_newline, split_lines_aux_one by done. done.
  - exists (SplitLines d). unfold SplitLines, nl. split.
    + by rewrite split_lines_aux_newline.
    + rewrite str_app_assoc. cbn [String.append]. rewrite split_lines_aux_newline. f_equal.
      rewrite split_lines_aux_newline, split_lines_aux_one by done. done.
Qed.

Lemma parse_lines_app a b :
  parse_lines (a ++ b) =
    ((parse_lines a).1 ++ (parse_lines b).1, ((parse_lines a).2 + (parse_lines b).2)%nat).
Proof.
  induction a as [|l a IH]; simpl; [by destruct (parse_lines b)|].
  rewrite IH. destruct (parse_lines a) as [es bad]. simpl.
  repeat case_match; done.
Qed.

Lemma latest_scan_spec subject lst lines :
  latest_scan subject lst lines =
    match last_match (fun e => bool_decide (ie_Subject e = subject)) (parse_lines lines).1 with
    | Some e => ie_Serial e
    | None => lst
    end.
Proof.
  revert lst. induction lines as [|l lines IH]; intros lst; [done|].
  simpl. destruct (parse_lines lines) as [es bad] eqn:E. simpl in IH.
  destruct (is_blank l); [apply IH|].
  destruct (parseBlobInventoryEntry l) as [e|]; [|apply IH]. simpl.
  change (e :: es) with ([e] ++ es). rewrite last_match_app.
  unfold last_match at 2. rewrite filter_cons.
  case_bool_decide; rewrite IH.
  - rewrite decide_True by done. by destruct (last_match _ es).
  - rewrite decide_False by done. by destruct (last_match _ es).
Qed.

(** Every parsed entry has a non-empty serial. *)
Lemma hexX_nonempty n : hexX n <> "".
Proof.
  unfold hexX. case_match; [done|]. apply hex_nat_nonempty. by apply Z.ltb_ge.
Qed.

Lemma NormaliseSerial_value s t :
  NormaliseSerial s = Ok t -> exists n, 0 <= n /\ t = hexX n.
Proof.
  unfold NormaliseSerial. intros H. repeat case_match; simplify_eq; bool_hyps;
    rewrite Z.ltb_ge in *; eauto.
Qed.

Lemma parse_entry_serial_nonempty l e : parseBlobInventoryEntry l = Some e -> ie_Serial e <> "".
Proof.
  unfold parseBlobInventoryEntry, parseInventoryEntry.
  pose proof (Fields_nonempty l) as HF. destruct (Fields l) as [|s [|? [|? [|? ?]]]]; try done.
  intros [= <-]. simpl. unfold inventorySerial.
  destruct (NormaliseSerial s) eqn:E; [|by apply Forall_cons in HF as [? _]].
  apply NormaliseSerial_value in E as (n & _ & ->). apply hexX_nonempty.
Qed.

Lemma parse_lines_serials lines : Forall (fun e => ie_Serial e <> "") (parse_lines lines).1.
Proof.
  induction lines as [|l lines IH]; simpl; [done|].
  destruct (parse_lines lines). simpl in *. repeat case_match; simpl; auto.
  constructor; [by eapply parse_entry_serial_nonempty|done].
Qed.

Lemma last_match_Some {A} (p : A -> bool) l x : last_match p l = Some x -> x ∈ l /\ p x = true.
Proof.
  unfold last_match. intros H%last_Some_elem_of. by apply list_elem_of_filter in H as [? ?].
Qed.

(** ** Canonical serials *)

Lemma CutPrefix_hex_nat n p :
  0 <= n -> CutPrefix (hex_nat n) (String "0" (String p "")) = None \/ isHexX p = true.
Proof.
  intros Hn. destruct (CutPrefix _ _) as [r|] eqn:E; [|by left]. right.
  apply CutPrefix_Some in E. pose proof (hex_nat_bytes n Hn) as H. rewrite E in H.
  cbn in H. bool_hyps. done.
Qed.

(** A canonical serial is its own normal form. *)
Lemma NormaliseSerial_hexX n : 0 <= n -> NormaliseSerial (hexX n) = Ok (hexX n).
Proof.
  intros Hn. assert (hexX n = hex_nat n) as E by (unfold hexX; by rewrite (proj2 (Z.ltb_ge n 0))).
  unfold NormaliseSerial. rewrite E, TrimSpace_nospace by by apply nospace_hex_nat.
  destruct (CutPrefix_hex_nat n "x" Hn) as [->|]; [|done].
  destruct (CutPrefix_hex_nat n "X" Hn) as [->|]; [|done].
  rewrite <- E at 1. rewrite SetString16_hexX by done.
  rewrite bool_decide_eq_false_2 by by apply hex_nat_nonempty.
  rewrite (proj2 (Z.ltb_ge n 0)) by done. simpl. by rewrite E.
Qed.

Lemma inventorySerial_hexX n : 0 <= n -> inventorySerial (hexX n) = hexX n.
Proof. intros. unfold inventorySerial. by rewrite NormaliseSerial_hexX. Qed.

Lemma zeros_hex k : all_bytes isHexX (zeros k) = true.
Proof. induction k; simpl; auto. Qed.

Lemma hexXpad_bytes w n : 0 <= n -> all_bytes isHexX (hexXpad w n) = true.
Proof.
  intros. unfold hexXpad. rewrite (proj2 (Z.ltb_ge n 0)), Z.abs_eq by done.
  by rewrite all_bytes_app, zeros_hex, hex_nat_bytes.
Qed.

Lemma hexXpad_nonempty w n : 0 <= n -> hexXpad w n <> "".
Proof.
  intros Hn. unfold hexXpad. rewrite (proj2 (Z.ltb_ge n 0)), Z.abs_eq by done.
  destruct (zeros _); simpl; [by apply hex_nat_nonempty|done].
Qed.

Lemma SetString16_pad w n : 0 <= n -> SetString16 (hexXpad w n) = Some n.
Proof.
  intros Hn. rewrite SetString16_digits by auto using hexXpad_bytes, hexXpad_nonempty.
  unfold hexXpad. rewrite (proj2 (Z.ltb_ge n 0)), Z.abs_eq by done.
  by rewrite hex_acc_zeros, hex_nat_value.
Qed.

(** OpenVox Server's padded [0x] spelling normalises to the canonical one. *)
Lemma NormaliseSerial_0x w n : 0 <= n -> NormaliseSerial ("0x" +:+ hexXpad w n) = Ok (hexX n).
Proof.
  intros Hn. unfold NormaliseSerial. rewrite TrimSpace_nospace.
  2:{ rewrite nospace_app. simpl. eapply all_bytes_impl; [apply isHexX_nospace|].
      by apply hexXpad_bytes. }
  rewrite CutPrefix_app, SetString16_pad by done.
  rewrite bool_decide_eq_false_2 by by apply hexXpad_nonempty.
  by rewrite (proj2 (Z.ltb_ge n 0)).
Qed.

(** A serial accepted in any spelling is rewritten to one canonical
    string, and normalising is idempotent: applying it to its own result
    changes nothing. *)
Theorem NormaliseSerial_idempotent s t :
  NormaliseSerial s = Ok t -> NormaliseSerial t = Ok t /\ inventorySerial s = t.
Proof.
  intros H. split; [|by unfold inventorySerial; rewrite H].
  apply NormaliseSerial_value in H as (n & Hn & ->). by apply NormaliseSerial_hexX.
Qed.

Lemma NormaliseSerial_idempotent_witness :
  NormaliseSerial " 0x00aBc " = Ok "ABC" /\ NormaliseSerial "ABC" = Ok "ABC".
Proof.
  split; [vm_compute; reflexivity|].
  exact (proj1 (NormaliseSerial_idempotent " 0x00aBc " "ABC" ltac:(vm_compute; reflexivity))).
Defined.

(** ** Entries that survive a round trip *)

(** A field of an inventory line: non-empty, no white space. *)
Definition wf_field (s : string) : Prop := s <> "" /\ nospace s = true.

Lemma parse_canonical e :
  wf_field (ie_Serial e) -> wf_field (ie_NotBefore e) -> wf_field (ie_NotAfter e) ->
  nospace (ie_Subject e) = true ->
  parseInventoryEntry (canonicalInventoryLine e) = Some e.
Proof.
  destruct e as [s nb na sub]. simpl. intros [? ?] [? ?] [? ?] Hsub.
  unfold parseInventoryEntry, canonicalInventoryLine. simpl.
  do 3 rewrite Fields_cons by done. rewrite Fields_one by done.
  done.
Qed.

Lemma digit_nospace d : 0 <= d < 10 -> isSpace (digit d) = false.
Proof.
  intros. unfold isSpace. rewrite digit_code by done.
  rewrite orb_false_iff, andb_false_iff, !Z.leb_gt, Z.eqb_neq. lia.
Qed.

Lemma dec2_nospace n : 0 <= n < 100 -> nospace (dec2 n) = true.
Proof.
  intros. unfold dec2, nospace. cbn [all_bytes]. rewrite !digit_nospace by dlia. done.
Qed.

Lemma format_time_wf t : 0 <= t < year_10000 -> wf_field (format_time t).
Proof.
  intros Ht. pose proof (parse_format_time t Ht) as HP. split.
  { intros E. by rewrite E in HP. }
  unfold format_time, format_stamp. pose proof (date_of_time_bounds t Ht) as H.
  destruct (date_of_days _) as [[y m] d]. destruct H as (Hd & Hy & Hm & Hday & Hd31 & Hs).
  rewrite !nospace_app. unfold dec4.
  change (nospace (String ?a (String ?b ?s))) with
    (negb (isSpace a) && (negb (isSpace b) && nospace s)).
  rewrite !digit_nospace, !dec2_nospace by dlia. done.
Qed.

(** A certname as [ValidateSubject] accepts it and the distinguished name
    codec expects it: plain characters only. *)
Definition plain_certname (s : string) : Prop :=
  s <> "" /\ nospace s = true /\ ContainsAny s ",+=/\ " = false.

Lemma ContainsAny_char s chars c :
  ContainsAny s chars = false -> any_byte (Ascii.eqb c) chars = true ->
  any_byte (Ascii.eqb c) s = false.
Proof.
  unfold ContainsAny. induction s as [|d s IH]; simpl; [done|].
  intros [Hd Hs]%orb_false_iff Hc. rewrite IH by done.
  destruct (Ascii.eqb_spec c d) as [->|]; [congruence|done].
Qed.

Lemma Contains_char s c :
  any_byte (Ascii.eqb c) s = false -> Contains s (String c "") = false.
Proof.
  induction s as [|d s IH]; simpl; [done|]. intros [Hd Hs]%orb_false_iff.
  rewrite IH by done. unfold HasPrefix. simpl. by rewrite Hd.
Qed.

Lemma plain_certname_no_eq s : plain_certname s -> Contains s "=" = false.
Proof.
  intros (_ & _ & H). apply Contains_char. by eapply ContainsAny_char.
Qed.

Lemma inventorySubject_plain s : plain_certname s -> inventorySubject ("CN=" +:+ s) = s.
Proof.
  intros (Hne & _ & Hc). unfold inventorySubject. rewrite CutPrefix_app.
  rewrite bool_decide_eq_false_2 by done. by rewrite Hc.
Qed.

(** An inventory entry as issuance writes it. *)
Record wf_entry (e : InventoryEntry) : Prop := {
  wf_serial : exists n, 0 <= n /\ ie_Serial e = hexX n;
  wf_notBefore : wf_field (ie_NotBefore e);
  wf_notAfter : wf_field (ie_NotAfter e);
  wf_subject : plain_certname (ie_Subject e) }.

Lemma wf_field_hexX n : 0 <= n -> wf_field (hexX n).
Proof.
  intros. split; [apply hexX_nonempty|]. unfold hexX. rewrite (proj2 (Z.ltb_ge n 0)) by done.
  by apply nospace_hex_nat.
Qed.

Lemma openVox_line_parse e raw :
  wf_entry e -> parseBlobInventoryEntry (openVoxInventoryLine e raw) = Some e.
Proof.
  destruct e as [s nb na sub]. intros [(n & Hn & Hs) [Hb1 Hb2] [Ha1 Ha2] Hp]. simpl in *.
  assert (nospace ("0x" +:+ hexXpad 4 n) = true) as Hx.
  { rewrite nospace_app. simpl. eapply all_bytes_impl; [apply isHexX_nospace|].
    by apply hexXpad_bytes. }
  assert (Fields (openVoxInventoryLine (mkEntry s nb na sub) raw) =
          ["0x" +:+ hexXpad 4 n; nb; na; "/CN=" +:+ sub]) as HF.
  { unfold openVoxInventoryLine. cbn [ie_Serial ie_Subject ie_NotBefore ie_NotAfter].
    rewrite Hs, inventorySerial_hexX, SetString16_hexX, plain_certname_no_eq by done.
    transitivity (Fields (("0x" +:+ hexXpad 4 n) +:+ String " " (nb +:+ String " "
      (na +:+ String " " ("/CN=" +:+ sub))))); [reflexivity|].
    do 3 rewrite Fields_cons by done.
    rewrite Fields_one; [done|done|]. rewrite nospace_app. apply Hp. }
  unfold parseBlobInventoryEntry, parseInventoryEntry. rewrite HF.
  change (TrimPrefix (Join " " ["/CN=" +:+ sub]) "/") with ("CN=" +:+ sub).
  cbn [ie_Serial ie_Subject ie_NotBefore ie_NotAfter].
  unfold inventorySerial. rewrite NormaliseSerial_0x, inventorySubject_plain by done.
  by rewrite Hs.
Qed.

(** An inventory entry survives being written in either line format.  The
    line of an OpenVox-compatible inventory file and the canonical line of the
    structured store both read back as exactly the entry they were written
    from, for every entry issuance can produce (canonical serial, formatted
    times, plain certname). *)
Theorem openVox_line_roundtrip e raw :
  wf_entry e ->
  parseBlobInventoryEntry (openVoxInventoryLine e raw) = Some e /\
  parseInventoryEntry (canonicalInventoryLine e) = Some e.
Proof.
  intros He. split; [by apply openVox_line_parse|].
  destruct He as [(n & Hn & Hs) ? ? (? & ? & ?)]. apply parse_canonical; try done.
  rewrite Hs. by apply wf_field_hexX.
Qed.

Lemma openVox_line_roundtrip_witness :
  let e := mkEntry "2A" "2026-01-02T03:04:05UTC" "2031-01-01T00:00:00UTC" "web01.example.com" in
  openVoxInventoryLine e "" =
    "0x002A 2026-01-02T03:04:05UTC 2031-01-01T00:00:00UTC /CN=web01.example.com" /\
  parseBlobInventoryEntry (openVoxInventoryLine e "") = Some e /\
  parseInventoryEntry (canonicalInventoryLine e) = Some e.
Proof.
  split; [vm_compute; reflexivity|].
  apply (openVox_line_roundtrip
    (mkEntry "2A" "2026-01-02T03:04:05UTC" "2031-01-01T00:00:00UTC" "web01.example.com") "").
  constructor; simpl.
  - exists 42. split; [lia|vm_compute; reflexivity].
  - split; [discriminate|vm_compute; reflexivity].
  - split; [discriminate|vm_compute; reflexivity].
  - split; [discriminate|split; vm_compute; reflexivity].
Defined.

(** ** The hash chain *)

Lemma chain_from_app key h a b : chain_from key h (a ++ b) = chain_from key (chain_from key h a) b.
Proof. unfold chain_from. by rewrite fold_left_app. Qed.

Lemma chain_snoc key es e :
  chain_from key "" (es ++ [e]) =
    hmac_sha256 key (chain_from key "" es +:+ canonicalInventoryLine e).
Proof. by rewrite chain_from_app. Qed.

Lemma chain_length key es :
  String.length (chain_from key "" es) = match es with [] => 0%nat | _ => 32%nat end.
Proof.
  destruct es as [|e es _] using rev_ind; [done|].
  rewrite chain_snoc, hmac_length. by destruct es.
Qed.

(** The messages a chain over [es] authenticates, one per entry. *)
Definition chain_message (key : string) (es : list InventoryEntry) (m : string) : Prop :=
  exists pre e post, es = pre ++ e :: post /\
    m = chain_from key "" pre +:+ canonicalInventoryLine e.

(** Two different messages, one authenticated by each chain, with one MAC. *)
Definition mac_collision (key : string) (es fs : list InventoryEntry) : Prop :=
  exists m1 m2, chain_message key es m1 /\ chain_message key fs m2 /\
    m1 <> m2 /\ hmac_sha256 key m1 = hmac_sha256 key m2.

(** Some entry's line starts with the 32 bytes of a head of the chain of
    [fs]: the only way the unframed concatenation [prev ++ line] can be read
    in two ways. *)
Definition head_shaped_line (key : string) (es fs : list InventoryEntry) : Prop :=
  exists e pre post, e ∈ es /\ pre <> [] /\ fs = pre ++ post /\
    HasPrefix (canonicalInventoryLine e) (chain_from key "" pre) = true.

Definition chain_forgery (key : string) (es fs : list InventoryEntry) : Prop :=
  mac_collision key es fs \/ head_shaped_line key es fs \/ head_shaped_line key fs es.

Lemma chain_message_snoc key es e m : chain_message key es m -> chain_message key (es ++ [e]) m.
Proof.
  intros (pre & x & post & -> & ->). exists pre, x, (post ++ [e]). by rewrite <- app_assoc.
Qed.

Lemma head_shaped_snoc key es fs e f :
  head_shaped_line key es fs -> head_shaped_line key (es ++ [e]) (fs ++ [f]).
Proof.
  intros (x & pre & post & Hx & Hne & -> & Hp). exists x, pre, (post ++ [f]).
  rewrite elem_of_app, <- app_assoc. auto.
Qed.

Lemma chain_forgery_snoc key es fs e f :
  chain_forgery key es fs -> chain_forgery key (es ++ [e]) (fs ++ [f]).
Proof.
  intros [(m1 & m2 & ? & ? & ? & ?)|[H|H]].
  - left. exists m1, m2. auto using chain_message_snoc.
  - right. left. by apply head_shaped_snoc.
  - right. right. by apply head_shaped_snoc.
Qed.

Lemma chain_eq_cases key es fs :
  chain_from key "" es = chain_from key "" fs ->
  map canonicalInventoryLine es = map canonicalInventoryLine fs \/ chain_forgery key es fs.
Proof.
  revert fs. induction es as [|e es IH] using rev_ind; intros fs.
  { intros H. left. destruct fs as [|f fs _] using rev_ind; [done|].
    apply (f_equal String.length) in H. rewrite !chain_length in H. by destruct fs. }
  destruct fs as [|f fs _] using rev_ind; intros H.
  { apply (f_equal String.length) in H. rewrite !chain_length in H. by destruct es. }
  rewrite !chain_snoc in H.
  destruct (decide (chain_from key "" es +:+ canonicalInventoryLine e =
                    chain_from key "" fs +:+ canonicalInventoryLine f)) as [E|]; cycle 1.
  { right. left. eexists _, _. split; [by exists es, e, []|]. split; [by exists fs, f, []|]. done. }
  destruct (decide (es = [])) as [->|Hes], (decide (fs = [])) as [->|Hfs].
  - left. simpl in *. by rewrite E.
  - right. right. left. exists e, fs, [f]. rewrite elem_of_app, list_elem_of_singleton.
    split; [by right|]. split; [done|]. split; [done|]. apply HasPrefix_true. eauto.
  - right. right. right. exists f, es, [e]. rewrite elem_of_app, list_elem_of_singleton.
    split; [by right|]. split; [done|]. split; [done|]. apply HasPrefix_true. simpl in E. eauto.
  - apply str_app_inj_len in E as [Hh Hl].
    2:{ rewrite !chain_length. by destruct es, fs. }
    rewrite !map_app. simpl. rewrite Hl. destruct (IH fs Hh) as [->|?]; auto using chain_forgery_snoc.
Qed.

(** ** Blank lines and newlines *)

Lemma trim_right_empty s : TrimRightSpace s = "" -> all_bytes isSpace s = true.
Proof.
  induction s as [|c s IH]; simpl; [done|].
  destruct (TrimRightSpace s) eqn:E; [|done].
  destruct (isSpace c); [|done]. intros _. by apply IH.
Qed.

Lemma trim_left_empty s : TrimRightSpace (TrimLeftSpace s) = "" -> all_bytes isSpace s = true.
Proof.
  induction s as [|c s IH]; [done|]. cbn [TrimLeftSpace all_bytes].
  destruct (isSpace c) eqn:E; [exact IH|].
  intros H%trim_right_empty. simpl in H. by rewrite E in H.
Qed.

Lemma fields_all_space s : all_bytes isSpace s = true -> Fields s = [].
Proof.
  unfold Fields. induction s as [|c s IH]; simpl; [done|].
  intros [-> Hs]%andb_true_iff. by apply IH.
Qed.

Lemma blank_no_entry l : is_blank l = true -> parseInventoryEntry l = None.
Proof.
  unfold is_blank. rewrite bool_decide_eq_true. intros H%trim_left_empty.
  unfold parseInventoryEntry. by rewrite fields_all_space.
Qed.

Lemma parse_not_blank l e : parseBlobInventoryEntry l = Some e -> is_blank l = false.
Proof.
  intros H. destruct (is_blank l) eqn:E; [|done].
  apply blank_no_entry in E. unfold parseBlobInventoryEntry in H. by rewrite E in H.
Qed.

Lemma nospace_no_newline s : nospace s = true -> no_newline s = true.
Proof.
  apply all_bytes_impl. intros c Hc. apply negb_true_iff in Hc. apply negb_true_iff.
  destruct (Ascii.eqb_spec c newline) as [->|]; done.
Qed.

Lemma no_newline_app a b : no_newline (a +:+ b) = no_newline a && no_newline b.
Proof. apply all_bytes_app. Qed.

Lemma openVox_line_no_newline e raw : wf_entry e -> no_newline (openVoxInventoryLine e raw) = true.
Proof.
  destruct e as [s nb na sub]. intros [(n & Hn & Hs) [_ Hb] [_ Ha] Hp]. simpl in *.
  unfold openVoxInventoryLine. cbn [ie_Serial ie_Subject ie_NotBefore ie_NotAfter].
  rewrite Hs, inventorySerial_hexX, SetString16_hexX, plain_certname_no_eq by done.
  destruct Hp as (_ & Hp & _). cbv iota zeta.
  assert (nospace (hexXpad 4 n) = true)
    by (eapply all_bytes_impl; [apply isHexX_nospace|by apply hexXpad_bytes]).
  rewrite !no_newline_app, (nospace_no_newline nb), (nospace_no_newline na),
    (nospace_no_newline sub), (nospace_no_newline (hexXpad 4 n)) by done.
  done.
Qed.

(** Appending one complete line to complete lines adds its entry at the end. *)
Lemma parse_blob_append data e raw :
  terminated data -> wf_entry e ->
  parseInventoryBlob (data +:+ openVoxInventoryLine e raw +:+ nl) = parseInventoryBlob data ++ [e].
Proof.
  intros Ht He. unfold parseInventoryBlob, parseInventoryBlobCounting.
  destruct (SplitLines_append data (openVoxInventoryLine e raw)) as (pre & -> & ->);
    [done|by apply openVox_line_no_newline|].
  rewrite !parse_lines_app. simpl.
  pose proof (openVox_line_parse e raw He) as HR.
  rewrite (parse_not_blank _ _ HR), HR. simpl. by rewrite app_nil_r.
Qed.

Lemma terminated_append data line : terminated (data +:+ line +:+ nl).
Proof. right. exists (data +:+ line). by rewrite str_app_assoc. Qed.

(** ** Rewriting an inventory text line by line *)

Lemma parse_lines_omap lines : (parse_lines lines).1 = omap parseBlobInventoryEntry lines.
Proof.
  induction lines as [|l lines IH]; simpl; [done|].
  destruct (parse_lines lines) as [es bad]. simpl in IH. subst es.
  destruct (is_blank l) eqn:B.
  - destruct (parseBlobInventoryEntry l) eqn:P; [|done]. apply parse_not_blank in P. congruence.
  - by destruct (parseBlobInventoryEntry l).
Qed.

Lemma fields_aux_nl cur s : fields_aux cur (s +:+ nl) = fields_aux cur s.
Proof.
  revert cur. induction s as [|c s IH]; intros cur.
  - cbn. destruct cur; reflexivity.
  - simpl. destruct (isSpace c); rewrite ?IH; done.
Qed.

Lemma parse_line_nl w : parseBlobInventoryEntry (w +:+ nl) = parseBlobInventoryEntry w.
Proof. unfold parseBlobInventoryEntry, parseInventoryEntry, Fields. by rewrite fields_aux_nl. Qed.

(** A line with its separator. *)
Definition full_line (l : string) : Prop := exists w, l = w +:+ nl /\ no_newline w = true.

Definition str_concat (l : list string) : string := foldr String.append "" l.

Lemma str_concat_app a b : str_concat (a ++ b) = str_concat a +:+ str_concat b.
Proof. induction a as [|x a IH]; simpl; [done|]. by rewrite IH, str_app_assoc. Qed.

Lemma split_after_form cur s :
  no_newline cur = true ->
  exists init w, split_after_aux cur s = init ++ [w] /\ Forall full_line init /\
    no_newline w = true /\ str_concat (init ++ [w]) = cur +:+ s.
Proof.
  revert cur. induction s as [|c s IH]; intros cur Hcur; simpl.
  - exists [], cur. repeat split; auto.
  - destruct (Ascii.eqb_spec c newline) as [->|Hc].
    + destruct (IH "" eq_refl) as (init & w & -> & Hi & Hw & Hcat).
      exists ((cur +:+ nl) :: init), w. repeat split; auto.
      * constructor; [by exists cur|done].
      * cbn [app str_concat foldr]. change (foldr String.append "" (init ++ [w])) with
          (str_concat (init ++ [w])). rewrite Hcat, str_app_assoc. reflexivity.
    + destruct (IH (cur +:+ String c "")) as (init & w & -> & Hi & Hw & Hcat).
      { rewrite no_newline_app, Hcur. unfold no_newline. simpl. by destruct (Ascii.eqb_spec c newline). }
      exists init, w. repeat split; auto. rewrite Hcat, str_app_assoc. reflexivity.
Qed.

Lemma parse_concat init w :
  Forall full_line init -> no_newline w = true ->
  parseInventoryBlob (str_concat (init ++ [w])) = omap parseBlobInventoryEntry (init ++ [w]).
Proof.
  unfold parseInventoryBlob, parseInventoryBlobCounting. rewrite parse_lines_omap.
  intros Hi Hw. induction Hi as [|l init (v & -> & Hv) _ IH].
  - cbn [app str_concat foldr]. rewrite app_empty_r. unfold SplitLines.
    rewrite split_lines_aux_one by done. done.
  - cbn [app str_concat foldr]. rewrite str_app_assoc. unfold SplitLines in *.
    change (nl +:+ foldr String.append "" (init ++ [w])) with
      (String newline (str_concat (init ++ [w]))).
    rewrite split_lines_aux_newline, split_lines_aux_one by done.
    cbn [app]. rewrite !list_omap_cons, parse_line_nl. cbn [String.append] in IH |- *.
    rewrite IH. reflexivity.
Qed.

Lemma parse_blob_split_after data :
  parseInventoryBlob data = omap parseBlobInventoryEntry (SplitAfterLines data).
Proof.
  destruct (split_after_form "" data eq_refl) as (init & w & E & Hi & Hw & Hcat).
  unfold SplitAfterLines. rewrite E, <- parse_concat by done. by rewrite Hcat.
Qed.
