(* ===== verification/Storage.v ===== *)
(** * Storage: backends and the StorageService

    Models internal/storage/backend.go (keys, [validateKey], record types),
    the blob semantics of internal/storage/filesystem.go, the row semantics of
    internal/storage/sql.go and sql_inventory.go, and the StorageService of
    internal/storage/storage.go.

    A backend is a finite map from logical keys to blobs.  A structured (SQL)
    backend also keeps the inventory as rows in insertion order; reading or
    writing the inventory key then goes through those rows.

    Every backend call, lock acquisition and signature can fail.  The pattern
    of failures is a script in the state, so a theorem about an operation
    quantifies over all of them: an entry [FBefore] makes the call fail with no
    effect, [FAfter] makes it report an error after the effect took place (a
    lost acknowledgement), and an exhausted script means no further failure.
    Clock readings and random numbers come from scripts in the same way. *)

From S2P Require Import Prelude GoStrings GoTime Sha256 X509 Inventory.
From Stdlib Require Import Ascii.

(** ** Records (backend.go) *)

(** The certificate facts cached beside an inventory row.  The fingerprint is
    symbolic: the certificate it was computed from, [None] for "". *)
Record CertProjection := mkProj {
  Fingerprint : option Certificate;
  DNSAltNames : list string;
  IPAltNames : list string;
  AuthExtensions : gmap string string }.

Definition no_proj : CertProjection := mkProj None [] [] ∅.

Inductive CertState := CertStateSigned | CertStateRevoked | CertStateUnknown.
#[global] Instance CertState_eq_dec : EqDecision CertState.
Proof. solve_decision. Defined.

Record CertRecord := mkRecord {
  cr_entry : InventoryEntry;
  cr_proj : CertProjection;
  State : CertState;
  RevokedAt : option Time }.

(** ** Keys (backend.go) *)

Definition KeyCACert := "ca_cert".
Definition KeyCAPubKey := "ca_pubkey".
Definition KeyCAKey := "ca_key".
Definition KeyCRL := "crl".
Definition KeySerial := "serial".
Definition KeyInventory := "inventory".
Definition KeyInventoryHMAC := "inventory_hmac".
Definition KeyHMACKey := "hmac_key".
Definition KeySuperseded := "superseded".
Definition csrPrefix := "csr/".
Definition certPrefix := "cert/".

Definition CSRKey (subject : string) : string := csrPrefix +:+ subject.
Definition CertKey (subject : string) : string := certPrefix +:+ subject.

(** [unicode.IsControl]: the C0 and C1 control characters and DEL. *)
Definition isControl (r : Z) : bool := (r <? 32) || (127 <=? r) && (r <? 160).

Definition validateKeyName (name : string) : option error :=
  if bool_decide (name = "") then Some (Msg "empty name")
  else if Contains name ".." then Some (Msg "contains '..'")
  else if Contains name "/" then Some (Msg "contains '/'")
  else if negb (ValidString name) then Some (Msg "not valid UTF-8")
  else if existsb isControl (runes name) then Some (Msg "contains control character")
  else None.

Definition validateKey (key : string) : option error :=
  if bool_decide (key = "") then Some (Msg "empty key")
  else
    let name :=
      match CutPrefix key csrPrefix with
      | Some rest => rest
      | None => match CutPrefix key certPrefix with Some rest => rest | None => key end
      end in
    match validateKeyName name with
    | Some e => Some (Wrap "invalid key" [e])
    | None => None
    end.

(** ** Backends *)

(** Whether a blob is written readable by others. *)
Inductive BlobKind := BlobPublic | BlobPrivate.

Record Backend := mkBackend {
  structured : bool;
  blobs : gmap string blob;
  rows : list CertRecord }.

Definition set_blobs (m : gmap string blob) (b : Backend) : Backend :=
  mkBackend (structured b) m (rows b).
Definition set_rows (l : list CertRecord) (b : Backend) : Backend :=
  mkBackend (structured b) (blobs b) l.

Definition not_exist (op : string) : error := Wrap op [Sentinel FsErrNotExist].

(** A backend operation: a result and the backend it leaves. *)
Definition BOp (A : Type) : Type := Backend -> result A * Backend.

Definition guarded {A} (key : string) (op : BOp A) : BOp A := fun b =>
  match validateKey key with Some e => (Err e, b) | None => op b end.

(** The text [getInventory] renders from the rows. *)
Definition render_rows (l : list CertRecord) : string :=
  foldr (fun r acc => canonicalInventoryLine (cr_entry r) +:+ nl +:+ acc) "" l.

Definition on_rows (b : Backend) (key : string) : bool :=
  structured b && bool_decide (key = KeyInventory).

Definition be_Get (key : string) : BOp blob := guarded key (fun b =>
  match blobs b !! key with
  | None => (Err (not_exist "get"), b)
  | Some v => if on_rows b key then (Ok (BText (render_rows (rows b))), b) else (Ok v, b)
  end).

Definition row_of_entry (e : InventoryEntry) : CertRecord :=
  mkRecord e no_proj CertStateSigned None.

Definition unique_violation : error := Msg "UNIQUE constraint failed: puppet_ca_inventory.serial".
Definition isUniqueSerialViolation (e : error) : bool :=
  match e with Msg m => bool_decide (m = "UNIQUE constraint failed: puppet_ca_inventory.serial")
  | _ => false end.

Definition has_serial (serial : string) (l : list CertRecord) : bool :=
  existsb (fun r => bool_decide (ie_Serial (cr_entry r) = serial)) l.

(** Insert a row: the serial column is unique. *)
Definition insert_row (r : CertRecord) (l : list CertRecord) : result (list CertRecord) :=
  if has_serial (ie_Serial (cr_entry r)) l then Err unique_violation else Ok (l ++ [r]).

Fixpoint insertInventoryLines (lines : list string) (l : list CertRecord)
    : result (list CertRecord) :=
  match lines with
  | [] => Ok l
  | line :: lines =>
      if is_blank line then insertInventoryLines lines l
      else match parseInventoryEntry line with
           | None => Err (Msg "malformed inventory line")
           | Some e =>
               match insert_row (row_of_entry e) l with
               | Ok l => insertInventoryLines lines l
               | Err e => Err e
               end
           end
  end.

Definition be_Put (key : string) (data : blob) : BOp unit := guarded key (fun b =>
  if on_rows b key then
    match insertInventoryLines (SplitLines (blob_text data)) [] with
    | Ok l => (Ok tt, set_rows l (set_blobs (<[key := empty_blob]> (blobs b)) b))
    | Err e => (Err e, b)
    end
  else (Ok tt, set_blobs (<[key := data]> (blobs b)) b)).

Definition be_Delete (key : string) : BOp unit := guarded key (fun b =>
  match blobs b !! key with
  | None => (Err (not_exist "delete"), b)
  | Some _ =>
      let b' := set_blobs (delete key (blobs b)) b in
      (Ok tt, if on_rows b key then set_rows [] b' else b')
  end).

Definition be_Exists (key : string) : BOp bool := guarded key (fun b =>
  (Ok (bool_decide (is_Some (blobs b !! key))), b)).

Definition be_AppendLine (key : string) (data : string) : BOp unit := guarded key (fun b =>
  if on_rows b key then
    match insertInventoryLines (SplitLines data) (rows b) with
    | Ok l => (Ok tt, set_rows l (set_blobs (<[key := empty_blob]> (blobs b)) b))
    | Err e => (Err e, b)
    end
  else
    let old := match blobs b !! key with Some v => blob_text v | None => "" end in
    (Ok tt, set_blobs (<[key := BText (old +:+ data)]> (blobs b)) b)).

(** Directory entries are listed in file-name order (["x.pem"]), SQL keys in
    key order. *)
Definition list_order (b : Backend) (s : string) : string :=
  if structured b then s else s +:+ ".pem".
Definition be_List (prefix : string) : BOp (list string) := fun b =>
  if bool_decide (prefix = csrPrefix) || bool_decide (prefix = certPrefix) then
    let subjects := omap (fun kv => CutPrefix kv.1 prefix) (map_to_list (blobs b)) in
    (Ok (map (String.append prefix)
           (merge_sort (fun x y => String.le (list_order b x) (list_order b y)) subjects)), b)
  else (Err (Msg "unsupported list prefix"), b).

(** *** Structured inventory operations (sql_inventory.go) *)

(** One transaction: insert the row, advance the head, mark the inventory key
    present. *)
Definition sql_AppendEntry (rec : CertRecord) (newHead : option (string -> string)) : BOp unit :=
  fun b =>
  match insert_row rec (rows b) with
  | Err e => (Err e, b)
  | Ok l =>
      let m :=
        match newHead with
        | None => blobs b
        | Some f =>
            let prev := match blobs b !! KeyInventoryHMAC with Some v => blob_text v | None => "" end in
            <[KeyInventoryHMAC := BText (f prev)]> (blobs b)
        end in
      (Ok tt, set_rows l (set_blobs (<[KeyInventory := empty_blob]> m) b))
  end.

Definition sql_Entries : BOp (list InventoryEntry) := fun b => (Ok (map cr_entry (rows b)), b).

Definition sql_LatestSerialForSubject (subject : string) : BOp string := fun b =>
  match last_match (fun r => bool_decide (ie_Subject (cr_entry r) = subject)) (rows b) with
  | Some r => (Ok (ie_Serial (cr_entry r)), b)
  | None => (Err (not_exist "latest-serial"), b)
  end.

(** One transaction: delete the rows not kept and recompute the head over the
    survivors; nothing is written when every row is kept. *)
Definition sql_PruneEntries (keep : InventoryEntry -> bool)
    (advanceHead : option (string -> InventoryEntry -> string)) : BOp (list InventoryEntry) :=
  fun b =>
  let survivors := base.filter (fun r => keep (cr_entry r) = true) (rows b) in
  let removed := base.filter (fun r => keep (cr_entry r) = false) (rows b) in
  if bool_decide (length removed = 0%nat) then (Ok [], b)
  else
    let m :=
      match advanceHead with
      | None => blobs b
      | Some f => <[KeyInventoryHMAC := BText (fold_left f (map cr_entry survivors) "")]> (blobs b)
      end in
    (Ok (map cr_entry removed), set_rows survivors (set_blobs m b)).

(** Latest row per subject that still has a stored certificate, by subject. *)
Definition latest_rows (l : list CertRecord) : list CertRecord :=
  omap (fun subject => last_match (fun r => bool_decide (ie_Subject (cr_entry r) = subject)) l)
    (merge_sort String.le (remove_dups (map (fun r => ie_Subject (cr_entry r)) l))).

Definition sql_Statuses (stateFilter : option CertState) : BOp (list CertRecord) := fun b =>
  (Ok (base.filter (fun r =>
        (match stateFilter with None => true | Some st => bool_decide (State r = st) end)
        && bool_decide (is_Some (blobs b !! CertKey (ie_Subject (cr_entry r)))) = true)
      (latest_rows (rows b))), b).

Definition update_rows (serial : string) (f : CertRecord -> CertRecord) : BOp unit := fun b =>
  (Ok tt, set_rows (map (fun r =>
     if bool_decide (ie_Serial (cr_entry r) = serial) then f r else r) (rows b)) b).

(** Only a row not yet revoked is updated: the first revocation time stays. *)
Definition sql_SetRevoked (serial : string) (at_ : Time) : BOp unit :=
  update_rows serial (fun r =>
    if bool_decide (State r = CertStateRevoked) then r
    else mkRecord (cr_entry r) (cr_proj r) CertStateRevoked (Some at_)).

Definition sql_ClearRevoked (serial : string) : BOp unit :=
  update_rows serial (fun r => mkRecord (cr_entry r) (cr_proj r) CertStateSigned None).

Definition sql_SetProjection (serial : string) (p : CertProjection) : BOp unit :=
  update_rows serial (fun r => mkRecord (cr_entry r) p (State r) (RevokedAt r)).

(** ** The service state and its environment *)

Inductive fault := FOk | FBefore | FAfter.

Record Store := mkStore {
  be : Backend;
  hmacKey : option string;
  keyfiles : gmap string blob;
  faults : list fault;
  clock : Time;
  ticks : list Z;
  rands : list Z }.

Definition set_be (b : Backend) (s : Store) : Store :=
  mkStore b (hmacKey s) (keyfiles s) (faults s) (clock s) (ticks s) (rands s).
Definition set_hmacKey (k : option string) (s : Store) : Store :=
  mkStore (be s) k (keyfiles s) (faults s) (clock s) (ticks s) (rands s).
Definition set_keyfiles (k : gmap string blob) (s : Store) : Store :=
  mkStore (be s) (hmacKey s) k (faults s) (clock s) (ticks s) (rands s).
Definition set_faults (f : list fault) (s : Store) : Store :=
  mkStore (be s) (hmacKey s) (keyfiles s) f (clock s) (ticks s) (rands s).
Definition set_time (c : Time) (t : list Z) (s : Store) : Store :=
  mkStore (be s) (hmacKey s) (keyfiles s) (faults s) c t (rands s).
Definition set_rands (r : list Z) (s : Store) : Store :=
  mkStore (be s) (hmacKey s) (keyfiles s) (faults s) (clock s) (ticks s) r.

Definition MS := M Store.

Definition io_error : error := Msg "input/output error".

(** Take the next entry of the failure script. *)
Definition pop_fault (s : Store) : fault * Store :=
  match faults s with [] => (FOk, s) | f :: fs => (f, set_faults fs s) end.

(** Run a backend operation under the failure script. *)
Definition backend {A} (op : BOp A) : MS A := fun s =>
  match pop_fault s with
  | (FOk, s) => let '(r, b) := op (be s) in (r, set_be b s)
  | (FBefore, s) => (Err io_error, s)
  | (FAfter, s) => let '(r, b) := op (be s) in
      (match r with Ok _ => Err io_error | Err e => Err e end, set_be b s)
  end.

(** An environment action with no state of its own (a lock, a signature, a
    signing slot): it succeeds or reports an error. *)
Definition external (e : error) : MS unit := fun s =>
  match pop_fault s with
  | (FOk, s) => (Ok tt, s)
  | (_, s) => (Err e, s)
  end.

(** [time.Now()]: the clock never runs backwards. *)
Definition time_Now : MS Time := fun s =>
  match ticks s with
  | [] => (Ok (clock s), s)
  | d :: ds => let c := clock s + Z.max 0 d in (Ok c, set_time c ds s)
  end.

(** [rand.Int(rand.Reader, max)]; an exhausted script is a read error. *)
Definition rand_Int (max : Z) : MS Z := fun s =>
  match rands s with
  | [] => (Err (Msg "rand: entropy source failed"), s)
  | r :: rs => (Ok (r mod max), set_rands rs s)
  end.

(** ** StorageService: locks *)

(** [WithLock]: acquiring the lock can fail, the body runs only under it, and
    a failed release is only logged. *)
Definition WithLock {A} (name : string) (fn : MS A) : MS A :=
  _ ← external (Wrap ("acquiring lock " +:+ name) [io_error]); fn.

(** ** StorageService: blobs *)

Definition UpdateCRL (pem : blob) : MS unit := backend (be_Put KeyCRL pem).
Definition GetCRL : MS blob := backend (be_Get KeyCRL).
Definition GetSuperseded : MS blob := backend (be_Get KeySuperseded).
Definition SaveSuperseded (data : blob) : MS unit := backend (be_Put KeySuperseded data).
Definition GetCACert : MS blob := backend (be_Get KeyCACert).
Definition SaveCACert (data : blob) : MS unit := backend (be_Put KeyCACert data).
Definition HasCACert : MS bool := backend (be_Exists KeyCACert).
Definition SaveCAPubKey (data : blob) : MS unit := backend (be_Put KeyCAPubKey data).
Definition WriteSerial (val : string) : MS unit := backend (be_Put KeySerial (BText val)).
Definition HasSerial : MS bool := backend (be_Exists KeySerial).

Definition SaveCSR (subject : string) (pem : blob) : MS unit := backend (be_Put (CSRKey subject) pem).
Definition GetCSR (subject : string) : MS blob := backend (be_Get (CSRKey subject)).
Definition DeleteCSR (subject : string) : MS unit := backend (be_Delete (CSRKey subject)).
Definition SaveCert (subject : string) (pem : blob) : MS unit := backend (be_Put (CertKey subject) pem).
Definition GetCert (subject : string) : MS blob := backend (be_Get (CertKey subject)).
Definition DeleteCert (subject : string) : MS unit := backend (be_Delete (CertKey subject)).
Definition CertExists (subject : string) : MS bool := backend (be_Exists (CertKey subject)).
Definition CSRExists (subject : string) : MS bool := backend (be_Exists (CSRKey subject)).

(** An unreadable backend counts as "not there". *)
Definition HasCert (subject : string) : MS bool :=
  r ← try (CertExists subject); mret (match r with Ok b => b | Err _ => false end).
Definition HasCSR (subject : string) : MS bool :=
  r ← try (CSRExists subject); mret (match r with Ok b => b | Err _ => false end).

Definition ListCSRs : MS (list string) :=
  keys ← backend (be_List csrPrefix); mret (map (fun k => TrimPrefix k csrPrefix) keys).
Definition ListCerts : MS (list string) :=
  keys ← backend (be_List certPrefix); mret (map (fun k => TrimPrefix k certPrefix) keys).

(** A generated private key goes to a local file, never to the backend. *)
Definition SavePrivateKey (subject : string) (pem : blob) : MS unit :=
  match validateKeyName subject with
  | Some e => fail (Wrap "invalid private key subject" [e])
  | None =>
      _ ← external io_error;
      modify (fun s => set_keyfiles (<[subject +:+ "_key.pem" := pem]> (keyfiles s)) s)
  end.

(** ** StorageService: the inventory and its integrity value *)

Definition is_structured : MS bool := gets (fun s => structured (be s)).

(** A missing inventory reads as empty. *)
Definition readInventoryForHMAC : MS string :=
  r ← try (backend (be_Get KeyInventory));
  match r with
  | Ok d => mret (blob_text d)
  | Err e => if errors_Is e FsErrNotExist then mret "" else fail e
  end.

Definition computeInventoryHMAC (key : string) : MS string :=
  st ← is_structured;
  if (st : bool) then
    entries ← backend sql_Entries; mret (foldInventoryHead key entries "" true)
  else
    data ← readInventoryForHMAC; mret (foldInventoryHead key [] data false).

Definition updateInventoryHMACLocked (key : string) : MS unit :=
  sum ← wrapping "computing inventory HMAC" (computeInventoryHMAC key);
  backend (be_Put KeyInventoryHMAC (BText sum)).

(** With no stored value, adopt the inventory as it stands. *)
Definition baselineInventoryHMACLocked (key : string) : MS unit :=
  chained ← is_structured;
  '(entries, data) ←
    (if (chained : bool) then
       es ← wrapping "computing inventory HMAC" (backend sql_Entries); mret (es, "")
     else
       d ← wrapping "computing inventory HMAC" readInventoryForHMAC; mret ([], d));
  _ ← wrapping "checking for a CRL before establishing the inventory baseline"
        (backend (be_Exists KeyCRL));
  backend (be_Put KeyInventoryHMAC (BText (foldInventoryHead key entries data chained))).

Definition verifyInventoryHMACLocked (key : string) : MS unit :=
  r ← try (backend (be_Get KeyInventoryHMAC));
  match r with
  | Err e =>
      if errors_Is e FsErrNotExist then baselineInventoryHMACLocked key
      else fail (Wrap "reading inventory HMAC" [e])
  | Ok stored =>
      computed ← wrapping "computing inventory HMAC for verification" (computeInventoryHMAC key);
      if bool_decide (blob_text stored = computed) then mret tt
      else fail (Sentinel ErrInventoryTampered)
  end.

Definition compareInventoryMACLocked (computed : string) : MS unit :=
  r ← try (backend (be_Get KeyInventoryHMAC));
  match r with
  | Err e =>
      if errors_Is e FsErrNotExist then mret tt
      else fail (Wrap "reading inventory HMAC" [e])
  | Ok stored =>
      if bool_decide (blob_text stored = computed) then mret tt
      else fail (Sentinel ErrInventoryTampered)
  end.

(** [AppendInventoryRecord]: refuse a malformed or non-canonical line and a
    serial already present; append; advance the integrity value. *)
Definition AppendInventoryRecord (entry : string) (proj : option CertProjection) : MS unit :=
  match parseInventoryEntry entry with
  | None => fail (Msg "malformed inventory entry")
  | Some parsed =>
      let canonical := canonicalInventoryLine parsed in
      if negb (bool_decide (entry = canonical)) then fail (Msg "non-canonical inventory entry")
      else
        st ← is_structured; key ← gets hmacKey;
        if (st : bool) then
          let rec := mkRecord parsed (match proj with Some p => p | None => no_proj end)
                       CertStateSigned None in
          let newHead := (fun k prev => chainInventoryMAC k prev canonical) <$> key in
          r ← try (backend (sql_AppendEntry rec newHead));
          match r with
          | Ok _ => mret tt
          | Err e =>
              if negb (errors_Is e ErrDuplicateSerial) && isUniqueSerialViolation e
              then fail (Wrap (ie_Serial parsed) [Sentinel ErrDuplicateSerial])
              else fail e
          end
        else
          data ← readInventoryForHMAC;
          let want := inventorySerial (ie_Serial parsed) in
          if existsb (fun line =>
               negb (is_blank line) &&
               match parseBlobInventoryEntry line with
               | Some e => bool_decide (ie_Serial e = want)
               | None => false
               end) (SplitLines data)
          then fail (Wrap (ie_Serial parsed) [Sentinel ErrDuplicateSerial])
          else
            let line := openVoxInventoryLine parsed entry in
            _ ← backend (be_AppendLine KeyInventory (line +:+ nl));
            match key with
            | None => mret tt
            | Some k =>
                wrapping "updating inventory HMAC after append"
                  (backend (be_Put KeyInventoryHMAC
                     (BText (wholeBlobInventoryMAC k (data +:+ line +:+ nl)))))
            end
  end.

Definition inventoryEntriesLocked : MS (list InventoryEntry) :=
  st ← is_structured;
  if (st : bool) then backend sql_Entries
  else data ← readInventoryForHMAC; mret (parseInventoryBlob data).

Definition SerialExists (serial : string) : MS bool :=
  entries ← inventoryEntriesLocked;
  mret (existsb (fun e => bool_decide (ie_Serial e = serial)) entries).

(** The subject of the first entry whose serial normalises to the same number. *)
Fixpoint subject_for (want : string) (entries : list InventoryEntry) : option string :=
  match entries with
  | [] => None
  | e :: entries =>
      match NormaliseSerial (ie_Serial e) with
      | Err _ => subject_for want entries
      | Ok got => if bool_decide (got = want) then Some (ie_Subject e) else subject_for want entries
      end
  end.

Definition SubjectForSerial (serial : string) : MS string :=
  want ← of_result (NormaliseSerial serial);
  st ← is_structured; key ← gets hmacKey;
  _ ← (match key with
       | Some k => if (st : bool) then mret tt else verifyInventoryHMACLocked k
       | None => mret tt
       end);
  entries ← inventoryEntriesLocked;
  match subject_for want entries with
  | Some subject => mret subject
  | None => fail (Wrap "serial not found in inventory" [Sentinel FsErrNotExist])
  end.

Definition ReadInventory : MS blob :=
  key ← gets hmacKey;
  _ ← (match key with Some k => verifyInventoryHMACLocked k | None => mret tt end);
  backend (be_Get KeyInventory).

Definition LatestSerialForSubject (subject : string) : MS string :=
  st ← is_structured;
  if (st : bool) then backend (sql_LatestSerialForSubject subject)
  else data ← ReadInventory; of_result (latestSerialFromBlob (blob_text data) subject).

(** [InventoryEntries]: the entries, checked against the stored value in the
    same read. *)
Definition InventoryEntries : MS (list InventoryEntry) :=
  st ← is_structured; key ← gets hmacKey;
  if (st : bool) then
    entries ← backend sql_Entries;
    _ ← (match key with
         | Some k => compareInventoryMACLocked (chain_from k "" entries)
         | None => mret tt
         end);
    mret entries
  else
    data ← readInventoryForHMAC;
    _ ← (match key with
         | Some k => compareInventoryMACLocked (wholeBlobInventoryMAC k data)
         | None => mret tt
         end);
    mret (parseInventoryBlob data).

(** Split an inventory text into the entries to drop and the text to keep;
    a line that does not parse is always kept. *)
Fixpoint prune_lines (keep : InventoryEntry -> bool) (lines : list string)
    : string * list InventoryEntry :=
  match lines with
  | [] => ("", [])
  | line :: lines =>
      let '(text, removed) := prune_lines keep lines in
      match parseBlobInventoryEntry line with
      | Some e => if keep e then (line +:+ text, removed) else (text, e :: removed)
      | None => (line +:+ text, removed)
      end
  end.

(** The result pairs the removed entries with the error, as the Go function
    does: entries are removed even when refreshing the integrity value then
    fails. *)
Definition PruneInventory (keep : InventoryEntry -> bool)
    : MS (list InventoryEntry * option error) :=
  key ← gets hmacKey; st ← is_structured;
  v ← try (match key with Some k => verifyInventoryHMACLocked k | None => mret tt end);
  match v with
  | Err e => mret ([], Some e)
  | Ok _ =>
      if (st : bool) then
        let advance := (fun k prev e => chainInventoryMAC k prev (canonicalInventoryLine e)) <$> key in
        r ← try (backend (sql_PruneEntries keep advance));
        match r with Ok removed => mret (removed, None) | Err e => mret ([], Some e) end
      else
        d ← try readInventoryForHMAC;
        match d with
        | Err e => mret ([], Some e)
        | Ok data =>
            let '(text, removed) := prune_lines keep (SplitAfterLines data) in
            if bool_decide (length removed = 0%nat) then mret ([], None)
            else
              w ← try (backend (be_Put KeyInventory (BText text)));
              match w with
              | Err e => mret ([], Some (Wrap "rewriting inventory" [e]))
              | Ok _ =>
                  match key with
                  | None => mret (removed, None)
                  | Some k =>
                      u ← try (updateInventoryHMACLocked k);
                      match u with
                      | Ok _ => mret (removed, None)
                      | Err e => mret (removed, Some (Wrap "updating inventory HMAC after prune" [e]))
                      end
                  end
              end
        end
  end.

(** The certificate index exists on structured backends only. *)
Definition CertStatuses (stateFilter : option CertState) : MS (option (list CertRecord)) :=
  st ← is_structured;
  if (st : bool) then l ← backend (sql_Statuses stateFilter); mret (Some l) else mret None.
Definition on_index (op : BOp unit) : MS unit :=
  st ← is_structured; if (st : bool) then backend op else mret tt.
Definition MarkCertRevoked (serial : string) (at_ : Time) : MS unit := on_index (sql_SetRevoked serial at_).
Definition ClearCertRevoked (serial : string) : MS unit := on_index (sql_ClearRevoked serial).
Definition SetCertProjection (serial : string) (p : CertProjection) : MS unit :=
  on_index (sql_SetProjection serial p).

Definition TouchInventory : MS unit :=
  ok ← backend (be_Exists KeyInventory);
  if (ok : bool) then mret tt else backend (be_Put KeyInventory empty_blob).

(** ** StorageService: the HMAC key *)

Definition hmacKeyLen : nat := 32.

(** [(key, stored, err)]: a usable key, and the stored bytes when there are
    any, whatever their length. *)
Definition loadHMACKey : MS (option string * option string) :=
  r ← try (backend (be_Get KeyHMACKey));
  match r with
  | Ok d =>
      if bool_decide (String.length (blob_text d) = hmacKeyLen)
      then mret (Some (blob_text d), Some (blob_text d))
      else mret (None, Some (blob_text d))
  | Err e =>
      if errors_Is e FsErrNotExist then mret (None, None)
      else fail (Wrap "reading HMAC key" [e])
  end.

(** [k] bytes of a random number, most significant last. *)
Fixpoint random_bytes (k : nat) (n : Z) : string :=
  match k with O => "" | S k => String (chr (n mod 256)) (random_bytes k (n / 256)) end.

(** An existing key of the right length is kept; otherwise a fresh one is
    generated under the lock, unless another replica did so first. *)
Definition EnsureHMACKey : MS string :=
  '(key, _) ← loadHMACKey;
  match key with
  | Some k => mret k
  | None =>
      WithLock "hmac-key"
        ('(key, _) ← loadHMACKey;
         match key with
         | Some k => mret k
         | None =>
             n ← wrapping "generating HMAC key" (rand_Int (2 ^ 256));
             let fresh := random_bytes hmacKeyLen n in
             _ ← wrapping "writing HMAC key" (backend (be_Put KeyHMACKey (BText fresh)));
             mret fresh
         end)
  end.

Definition InitHMAC : MS unit :=
  key ← EnsureHMACKey;
  _ ← modify (set_hmacKey (Some key));
  verifyInventoryHMACLocked key.

(** Re-assert integrity over the inventory as it stands; no key, no action. *)
Definition RebuildInventoryHMAC : MS unit :=
  hasKey ← wrapping "checking inventory HMAC key" (backend (be_Exists KeyHMACKey));
  if (hasKey : bool) then key ← EnsureHMACKey; updateInventoryHMACLocked key else mret tt.

Inductive HMACKeyState := HMACKeyUnknown | HMACKeyUsable | HMACKeyAbsent | HMACKeyWrongLength.

Record InventoryIntegrityReport := mkReport {
  rep_Scheme : string;
  rep_Entries : nat;
  rep_KeyState : HMACKeyState;
  rep_StoredHead : option string;
  rep_ComputedHead : option string;
  rep_LegacyUndecomposed : bool;
  rep_UnparseableLines : nat;
  rep_Verifies : bool }.

Definition integrity_report : MS InventoryIntegrityReport :=
  chained ← is_structured;
  '(entries, data, bad) ←
    (if (chained : bool) then
       es ← wrapping "reading inventory entries" (backend sql_Entries); mret (es, "", O)
     else
       d ← wrapping "reading inventory" readInventoryForHMAC;
       let '(es, bad) := parseInventoryBlobCounting d in mret (es, d, bad));
  legacy ←
    (if (chained : bool) && bool_decide (length entries = 0%nat) then
       l ← wrapping "reading the inventory blob to detect a legacy store" readInventoryForHMAC;
       mret (negb (bool_decide (length (parseInventoryBlob l) = 0%nat)))
     else mret false);
  '(key, stored) ← wrapping "reading inventory HMAC key" loadHMACKey;
  r ← try (backend (be_Get KeyInventoryHMAC));
  head ←
    (match r with
     | Ok h => mret (Some (blob_text h))
     | Err e => if errors_Is e FsErrNotExist then mret None
                else fail (Wrap "reading inventory HMAC" [e])
     end);
  let state := match key, stored with
               | Some _, _ => HMACKeyUsable
               | None, Some _ => HMACKeyWrongLength
               | None, None => HMACKeyAbsent
               end in
  let computed := (fun k => foldInventoryHead k entries data chained) <$> key in
  mret (mkReport (if (chained : bool) then "hash-chain" else "whole-blob-hmac") (length entries) state head computed legacy bad
          (match head, computed with
           | Some h, Some c => bool_decide (h = c)
           | _, _ => false
           end)).

(** ** Lemmas: what a call leaves in place *)

(** Same backend contents, key and key files; the scripts may have moved. *)
Definition same_data : relation Store := fun s s' =>
  be s' = be s /\ hmacKey s' = hmacKey s /\ keyfiles s' = keyfiles s.

#[global] Instance same_data_preorder : PreOrder same_data.
Proof. split; [done|]. intros ? ? ? (?&?&?) (?&?&?). repeat split; congruence. Qed.

Lemma pop_fault_same s f s' : pop_fault s = (f, s') -> same_data s s'.
Proof. unfold pop_fault. case_match; intros; simplify_eq; done. Qed.

(** Only blobs outside [K] are guaranteed unchanged. *)
Definition frame (K : string -> Prop) : relation Store := fun s s' =>
  structured (be s') = structured (be s) /\ hmacKey s' = hmacKey s /\
  forall k, ~ K k -> blobs (be s') !! k = blobs (be s) !! k.

#[global] Instance frame_preorder K : PreOrder (frame K).
Proof.
  split; [done|]. intros s1 s2 s3 (A1&A2&A3) (B1&B2&B3). repeat split; [congruence..|].
  intros k Hk. by rewrite B3, A3.
Qed.

Lemma same_data_frame K s s' : same_data s s' -> frame K s s'.
Proof. intros (E1 & E2 & _). unfold frame. by rewrite E1, E2. Qed.

(** A backend call reports the outcome of the operation or an error, and
    leaves the data either untouched or as the operation left them. *)
Lemma backend_cases {A} (op : BOp A) s r s' :
  backend op s = (r, s') ->
  hmacKey s' = hmacKey s /\ keyfiles s' = keyfiles s /\
  ((r = (op (be s)).1 /\ be s' = (op (be s)).2) \/
   (exists e, r = Err e /\ (be s' = be s \/ be s' = (op (be s)).2))).
Proof.
  unfold backend. destruct (pop_fault s) as [f s1] eqn:E.
  apply pop_fault_same in E as (E1 & E2 & E3). rewrite E1.
  destruct f; [| |]; destruct (op (be s)) as [r0 b0]; intros; simplify_eq/=;
    repeat case_match; simplify_eq/=; naive_solver.
Qed.

Lemma backend_Ok {A} (op : BOp A) s a s' :
  backend op s = (Ok a, s') ->
  op (be s) = (Ok a, be s') /\ hmacKey s' = hmacKey s /\ keyfiles s' = keyfiles s.
Proof.
  intros H%backend_cases. destruct (op (be s)) as [r b]. naive_solver.
Qed.

(** A recognisable error comes from the operation itself, never from the
    failure script. *)
Lemma backend_Err_is {A} (op : BOp A) s e s' sn :
  backend op s = (Err e, s') -> errors_Is e sn = true ->
  (op (be s)).1 = Err e /\ be s' = (op (be s)).2.
Proof.
  unfold backend. destruct (pop_fault s) as [f s1] eqn:P.
  apply pop_fault_same in P as [P _]. rewrite P.
  destruct f, (op (be s)) as [[a|e0] b']; intros; simplify_eq/=; done.
Qed.

(** A read-only operation. *)
Definition reads {A} (op : BOp A) : Prop := forall b, (op b).2 = b.

Lemma backend_reads {A} (op : BOp A) : reads op -> mono same_data (backend op).
Proof.
  intros H s. unfold exec. destruct (backend op s) as [r s'] eqn:E.
  apply backend_cases in E as (? & ? & E).
  unfold same_data. simpl. destruct E as [[_ ?]|(? & _ & [?|?])]; rewrite ?H in *; auto.
Qed.

Lemma guarded_reads {A} key (op : BOp A) : reads op -> reads (guarded key op).
Proof. intros H b. unfold guarded. destruct (validateKey key); [done|apply H]. Qed.

Lemma reads_Get key : reads (be_Get key).
Proof. apply guarded_reads. intros b. simpl. repeat case_match; done. Qed.
Lemma reads_Exists key : reads (be_Exists key).
Proof. by apply guarded_reads. Qed.
Lemma reads_List prefix : reads (be_List prefix).
Proof. intros b. unfold be_List. by case_match. Qed.
Lemma reads_Entries : reads sql_Entries.
Proof. done. Qed.
Lemma reads_Latest subject : reads (sql_LatestSerialForSubject subject).
Proof. intros b. unfold sql_LatestSerialForSubject. by case_match. Qed.
Lemma reads_Statuses f : reads (sql_Statuses f).
Proof. done. Qed.

Lemma same_data_external e : mono same_data (external e).
Proof.
  intros s. unfold exec, external. destruct (pop_fault s) as [f s1] eqn:E.
  apply pop_fault_same in E. by destruct f.
Qed.
Lemma same_data_time_Now : mono same_data time_Now.
Proof. intros s. unfold exec, time_Now. by case_match. Qed.
Lemma same_data_rand_Int n : mono same_data (rand_Int n).
Proof. intros s. unfold exec, rand_Int. by case_match. Qed.

#[export] Hint Resolve backend_reads reads_Get reads_Exists reads_List reads_Entries
  reads_Latest reads_Statuses same_data_external same_data_time_Now same_data_rand_Int : mono.

Lemma mono_weaken {S A} (R R' : relation S) (m : M S A) :
  (forall s s', R s s' -> R' s s') -> mono R m -> mono R' m.
Proof. intros HR Hm s. apply HR, Hm. Qed.

Lemma frame_of_same K {A} (m : MS A) : mono same_data m -> mono (frame K) m.
Proof. apply mono_weaken. intros. by apply same_data_frame. Qed.

(** Writes touch their own key only. *)
Lemma backend_frame {A} K (op : BOp A) :
  (forall b, structured (op b).2 = structured b /\
        forall k, ~ K k -> blobs (op b).2 !! k = blobs b !! k) ->
  mono (frame K) (backend op).
Proof.
  intros H s. unfold exec. destruct (backend op s) as [r s'] eqn:E.
  apply backend_cases in E as (E1 & _ & E2). simpl. destruct (H (be s)) as [H1 H2].
  unfold frame. rewrite E1.
  destruct E2 as [[_ ->]|(e & _ & [->| ->])]; naive_solver.
Qed.

Lemma frame_Put (K : string -> Prop) key d : K key -> mono (frame K) (backend (be_Put key d)).
Proof.
  intros HK. apply backend_frame. intros b. unfold be_Put, guarded.
  repeat case_match; simpl; split; auto; intros k Hk;
    rewrite lookup_insert_ne; naive_solver.
Qed.

Lemma frame_Delete (K : string -> Prop) key : K key -> mono (frame K) (backend (be_Delete key)).
Proof.
  intros HK. apply backend_frame. intros b. unfold be_Delete, guarded.
  repeat case_match; simpl; split; auto; intros k Hk;
    rewrite lookup_delete_ne; naive_solver.
Qed.

Lemma frame_AppendLine (K : string -> Prop) key d :
  K key -> mono (frame K) (backend (be_AppendLine key d)).
Proof.
  intros HK. apply backend_frame. intros b. unfold be_AppendLine, guarded.
  repeat case_match; simpl; split; auto; intros k Hk;
    rewrite lookup_insert_ne; naive_solver.
Qed.

Lemma random_bytes_length k n : String.length (random_bytes k n) = k.
Proof. revert n. induction k as [|k IH]; intros n; simpl; [done|]. by rewrite IH. Qed.

(** ** The abstract inventory

    Whatever the backend, the inventory is a list of entries in insertion
    order; the service's operations are those of [spec_append], [last_match]
    and [filter] on it. *)

Definition inventory_text (b : Backend) : string :=
  match blobs b !! KeyInventory with Some v => blob_text v | None => "" end.

Definition inv_view (b : Backend) : list InventoryEntry :=
  if structured b then map cr_entry (rows b) else parseInventoryBlob (inventory_text b).

(** The integrity value the backend ought to hold under a key. *)
Definition integrity_value (key : string) (b : Backend) : string :=
  foldInventoryHead key (map cr_entry (rows b)) (inventory_text b) (structured b).

(** The stored integrity value is the one of the stored inventory. *)
Definition integrity (s : Store) : Prop :=
  forall k, hmacKey s = Some k ->
  exists v, blobs (be s) !! KeyInventoryHMAC = Some v /\ blob_text v = integrity_value k (be s).

(** A blob inventory holds complete lines. *)
Definition inventory_ok (b : Backend) : Prop :=
  structured b = false -> terminated (inventory_text b).

(** Exec lemmas for the read-only service calls. *)
Lemma mono_same_data {A} (m : MS A) s r s' :
  mono same_data m -> m s = (r, s') -> same_data s s'.
Proof. intros H E. specialize (H s). unfold exec in H. by rewrite E in H. Qed.

Lemma readInventory_same : mono same_data readInventoryForHMAC.
Proof. unfold readInventoryForHMAC. mono_tac. Qed.
#[export] Hint Resolve readInventory_same : mono.

Lemma on_rows_other key b : key <> KeyInventory -> on_rows b key = false.
Proof. intros H. unfold on_rows. by rewrite bool_decide_eq_false_2, andb_false_r. Qed.

Lemma be_Get_Ok key b v b' :
  be_Get key b = (Ok v, b') -> on_rows b key = false -> blobs b !! key = Some v /\ b' = b.
Proof.
  unfold be_Get, guarded. intros H Hr. repeat case_match; simplify_eq; try done; congruence.
Qed.

Lemma be_Get_missing key b e b' :
  be_Get key b = (Err e, b') -> errors_Is e FsErrNotExist = true -> blobs b !! key = None.
Proof.
  unfold be_Get, guarded, validateKey, validateKeyName. intros H He.
  repeat case_match; simplify_eq/=; done.
Qed.

Lemma readInventory_text s d s' :
  readInventoryForHMAC s = (Ok d, s') -> structured (be s) = false ->
  d = inventory_text (be s) /\ same_data s s'.
Proof.
  intros H Hst. split; [|by eapply mono_same_data; [apply readInventory_same|]].
  unfold readInventoryForHMAC in H. minv.
  - apply backend_Ok in H0 as [H0 _]. apply be_Get_Ok in H0 as [H0 _].
    + unfold inventory_text. by rewrite H0.
    + unfold on_rows. by rewrite Hst.
  - apply backend_Err_is with (sn := FsErrNotExist) in H0 as [H0 _]; [|done].
    destruct (be_Get KeyInventory (be s)) as [r b'] eqn:G. simpl in H0. subst r.
    eapply be_Get_missing in G; [|done]. unfold inventory_text. by rewrite G.
Qed.
