(* ===== verification/Concurrent.v ===== *)
(** * Programs that share a store

    A client of a key-value service is a sequence of atomic requests, each a
    transaction or a server-side script, with local computation in between.
    Other clients' requests may be served between any two of its own, and any
    request may be lost before it is served, or its reply after.

    [prog] represents such a client; [steps] runs any number of them in any
    order; [wp] is the rely-guarantee reading of a client's contract, and
    [steps_keep] is its soundness. *)

From S2P Require Import Prelude.

Section Prog.
Context {S : Type}.

Inductive prog (A : Type) : Type :=
  | Ret (r : result A)
  | Call {B : Type} (f : S -> result B * S) (k : result B -> prog A).
Arguments Ret {A} r.
Arguments Call {A B} f k.

Fixpoint prog_bind {A B} (k : A -> prog B) (p : prog A) : prog B :=
  match p with
  | Ret (Ok a) => k a
  | Ret (Err e) => Ret (Err e)
  | Call f c => Call f (fun b => prog_bind k (c b))
  end.

(** The requests of a program served one after the other, without loss. *)
Fixpoint run_prog {A} (p : prog A) (s : S) : result A * S :=
  match p with
  | Ret r => (r, s)
  | Call f k => let '(b, s') := f s in run_prog (k b) s'
  end.

Lemma run_bind {A B} (p : prog A) (k : A -> prog B) s :
  run_prog (prog_bind k p) s =
  match run_prog p s with
  | (Ok a, s') => run_prog (k a) s'
  | (Err e, s') => (Err e, s')
  end.
Proof.
  revert s. induction p as [[a|e]|C f c IH]; intros s; simpl; [done|done|]. destruct (f s). apply IH.
Qed.

(** What a client may observe of a request, and the store it leaves. *)
Inductive served {B} (f : S -> result B * S) (s : S) : result B -> S -> Prop :=
  | served_ok : served f s (f s).1 (f s).2
  | served_lost e : served f s (Err e) s
  | served_unheard e : served f s (Err e) (f s).2.

(** ** Contracts *)

Section Rely.
Context (rely : relation S) `{!PreOrder rely}.

(** Whatever others do within [rely], each request of [p] is within [rely]
    too, and [p] ends in [Q]. *)
Fixpoint wp {A} (p : prog A) (Q : result A -> S -> Prop) (s : S) : Prop :=
  match p with
  | Ret r => Q r s
  | Call f k => forall s', rely s s' -> forall b s'', served f s' b s'' -> rely s' s'' /\ wp (k b) Q s''
  end.

Lemma wp_mono {A} (p : prog A) (Q Q' : result A -> S -> Prop) s :
  (forall r s', Q r s' -> Q' r s') -> wp p Q s -> wp p Q' s.
Proof.
  intros HQ. revert s. induction p as [r|B f k IH]; intros s; simpl; [apply HQ|].
  intros H s' Hs b s'' Hb. destruct (H s' Hs b s'' Hb). split; [done|]. by apply IH.
Qed.

Lemma wp_bind {A B} (p : prog A) (k : A -> prog B) (Q : result B -> S -> Prop) s :
  wp p (fun r s' => match r with Ok a => wp (k a) Q s' | Err e => Q (Err e) s' end) s ->
  wp (prog_bind k p) Q s.
Proof.
  revert s. induction p as [[a|e]|C f c IH]; intros s; simpl; [done|done|].
  intros H s' Hs b s'' Hb. destruct (H s' Hs b s'' Hb). split; [done|]. by apply IH.
Qed.

(** A contract for the state at some moment is one for every later moment. *)
Lemma wp_later {A} (p : prog A) s s' :
  rely s s' -> wp p (fun _ _ => True) s -> wp p (fun _ _ => True) s'.
Proof.
  destruct p as [r|B f k]; simpl; [done|]. intros Hs H t Ht. apply H. by etrans.
Qed.

Lemma wp_run {A} (p : prog A) (Q : result A -> S -> Prop) s r s' :
  wp p Q s -> run_prog p s = (r, s') -> Q r s'.
Proof.
  revert s. induction p as [r0|B f k IH]; intros s; simpl; [by intros ? [= -> ->]|].
  intros H Hr. destruct (f s) as [b t] eqn:E. eapply IH; [|exact Hr].
  apply (H s); [reflexivity|]. rewrite (surjective_pairing (f s)) in E. injection E as <- <-. constructor.
Qed.

(** ** Many clients *)

Context (allowed : prog unit -> Prop).

Inductive step : relation (S * list (prog unit)) :=
  | step_start s ps p : allowed p -> step (s, ps) (s, ps ++ [p])
  | step_serve s ps i B (f : S -> result B * S) k b s' :
      ps !! i = Some (Call f k) -> served f s b s' -> step (s, ps) (s', <[i := k b]> ps).

Lemma steps_keep (I : S -> Prop) x y :
  (forall s s', rely s s' -> I s -> I s') ->
  (forall p s, allowed p -> I s -> wp p (fun _ _ => True) s) ->
  rtc step x y ->
  I x.1 -> (forall p, p ∈ x.2 -> wp p (fun _ _ => True) x.1) ->
  rely x.1 y.1 /\ I y.1 /\ forall p, p ∈ y.2 -> wp p (fun _ _ => True) y.1.
Proof.
  intros HI Hallowed. induction 1 as [x|x y z Hstep _ IH]; [done|]. intros Hx Hps.
  assert (rely x.1 y.1 /\ I y.1 /\ forall p, p ∈ y.2 -> wp p (fun _ _ => True) y.1) as (R & Hy & Hps').
  { destruct Hstep as [s ps p Hp|s ps i B f k b s' Hi Hb]; cbn [fst snd] in *.
    - split; [done|]. split; [done|]. intros q [Hq|Hq]%elem_of_app; [by apply Hps|].
      apply list_elem_of_singleton in Hq as ->. by apply Hallowed.
    - pose proof (Hps _ (list_elem_of_lookup_2 _ _ _ Hi)) as Hk. cbn [wp] in Hk.
      destruct (Hk s (reflexivity s) b s' Hb) as [R Hk']. split; [done|]. split; [by eapply HI|].
      intros q Hq. apply list_elem_of_lookup in Hq as [j Hj].
      apply list_lookup_insert_Some in Hj as [(_ & <- & _)|[_ Hj]]; [done|].
      eapply wp_later; [exact R|]. by eapply Hps, list_elem_of_lookup_2. }
  destruct (IH Hy Hps') as (R' & Hz & Hps''). split; [by etrans|]. done.
Qed.
End Rely.
End Prog.

Arguments prog S A : clear implicits.
Arguments Ret {S A} r.
Arguments Call {S A B} f k.

#[global] Instance prog_ret S : MRet (prog S) := fun A a => Ret (Ok a).
#[global] Instance prog_mbind S : MBind (prog S) := fun A B => prog_bind.

Definition request {S B} (f : S -> result B * S) : prog S B := Call f Ret.
Definition abort_with {S A} (e : error) : prog S A := Ret (Err e).

(** The wait between two attempts, which ends early with the context. *)
Definition backoff {S} : prog S unit := request (fun s => (Ok tt, s)).

Lemma run_mbind {S A B} (p : prog S A) (k : A -> prog S B) s :
  run_prog (p ≫= k) s =
  match run_prog p s with
  | (Ok a, s') => run_prog (k a) s'
  | (Err e, s') => (Err e, s')
  end.
Proof. apply run_bind. Qed.

Section Rules.
Context {S : Type} (rely : relation S) `{!PreOrder rely}.

Lemma wp_mbind {A B} (p : prog S A) (k : A -> prog S B) (Q : result B -> S -> Prop) s :
  wp rely p (fun r s' => match r with Ok a => wp rely (k a) Q s' | Err e => Q (Err e) s' end) s ->
  wp rely (p ≫= k) Q s.
Proof. apply wp_bind. Qed.

(** A request that reads. *)
Lemma wp_read {A} (f : S -> A) (Q : result A -> S -> Prop) s :
  (forall s', rely s s' -> Q (Ok (f s')) s' /\ forall e, Q (Err e) s') ->
  wp rely (request (fun s => (Ok (f s), s))) Q s.
Proof.
  intros H s' Hs b s'' Hb. destruct (H s' Hs) as [H1 H2].
  destruct Hb; cbn [fst snd wp]; (split; [reflexivity|]); auto.
Qed.

(** A request that writes within [rely]. *)
Lemma wp_request {A} (f : S -> result A * S) (Q : result A -> S -> Prop) s :
  (forall s', rely s s' -> rely s' (f s').2 /\ Q (f s').1 (f s').2 /\
     forall e, Q (Err e) s' /\ Q (Err e) (f s').2) ->
  wp rely (request f) Q s.
Proof.
  intros H s' Hs b s'' Hb. destruct (H s' Hs) as (H1 & H2 & H3).
  destruct Hb; cbn [wp]; split; try done; apply H3.
Qed.
End Rules.
