(* ===== verification/Files.v ===== *)
(** * Files and crashes

    The part of a file system that the filesystem backend and the file stores
    use, and the atomic replacement of a file (AtomicWriteFile in
    internal/storage/filesystem.go).  A program is a sequence of system calls;
    any call may fail, with or without its effect, and the process may stop
    between any two of them.  [always] states what holds at every such moment.

    A path is represented by its directory and its name in it, and the contents
    of a file by the whole of what was written, or [None] while only part of it
    is there.  What a power loss may undo of the writes that were not flushed is
    not modelled. *)

From S2P Require Import Prelude GoStrings X509 Storage Concurrent.

(** ** What holds at every moment of a run *)

Section Crash.
Context {S : Type}.

(** What a caller may observe of a call, and the state it leaves: the call was
    served, or failed before or after its effect.  A failure is not an answer:
    it does not say that something is absent. *)
Definition io_error (e : error) : Prop := errors_Is e FsErrNotExist = false.
Inductive attempted {B} (f : S -> result B * S) (s : S) : result B -> S -> Prop :=
  | attempted_ok : attempted f s (f s).1 (f s).2
  | attempted_not e : io_error e -> attempted f s (Err e) s
  | attempted_unheard e : io_error e -> attempted f s (Err e) (f s).2.

(** [p], started in [s], has become [p'] and left [s'] so far. *)
Inductive upto {A} : prog S A -> S -> prog S A -> S -> Prop :=
  | upto_here p s : upto p s p s
  | upto_call B (f : S -> result B * S) k s b s' p' s'' :
      attempted f s b s' -> upto (k b) s' p' s'' -> upto (Call f k) s p' s''.

(** [I] holds before, between and after the calls of [p], and [Q] at its end. *)
Fixpoint always {A} (I : S -> Prop) (p : prog S A) (Q : result A -> S -> Prop) (s : S) : Prop :=
  I s /\ match p with
         | Ret r => Q r s
         | Call f k => forall b s', attempted f s b s' -> always I (k b) Q s'
         end.

Lemma always_now {A} I (p : prog S A) Q s : always I p Q s -> I s.
Proof. destruct p; by intros [? _]. Qed.

Lemma always_upto {A} I (p : prog S A) Q s p' s' :
  always I p Q s -> upto p s p' s' -> I s' /\ forall r, p' = Ret r -> Q r s'.
Proof.
  intros H Hu. induction Hu as [p s|B f k s b s' p' s'' Hb _ IH].
  - split; [by eapply always_now|]. intros r ->. by destruct H.
  - destruct H as [_ H]. apply IH. by apply H.
Qed.

Lemma always_mono {A} (I J : S -> Prop) (p : prog S A) (Q R : result A -> S -> Prop) s :
  (forall s, I s -> J s) -> (forall r s, I s -> Q r s -> R r s) -> always I p Q s -> always J p R s.
Proof.
  intros HI HQ. revert s. induction p as [r|B f k IH]; intros s [H1 H2]; split; auto.
Qed.

Lemma always_bind {A B} I (p : prog S A) (k : A -> prog S B) Q s :
  always I p (fun r s' => match r with Ok a => always I (k a) Q s' | Err e => Q (Err e) s' end) s ->
  always I (p ≫= k) Q s.
Proof.
  revert s. induction p as [[a|e]|C f c IH]; intros s [H1 H2]; [done|by split|].
  split; [done|]. intros b s' Hb. apply IH. by apply H2.
Qed.

(** A call that reads. *)
Lemma always_read {A B} I (f : S -> result B) (k : result B -> prog S A) Q s :
  I s -> always I (k (f s)) Q s -> (forall e, io_error e -> always I (k (Err e)) Q s) ->
  always I (Call (fun s => (f s, s)) k) Q s.
Proof. intros H1 H2 H3. split; [done|]. intros b s' Hb. destruct Hb; cbn; auto. Qed.

Lemma upto_bind {A B} (p : prog S A) (k : A -> prog S B) s a s1 p' s' :
  run_prog p s = (Ok a, s1) -> upto (k a) s1 p' s' -> upto (p ≫= k) s p' s'.
Proof.
  revert s. induction p as [r|C f c IH]; intros s; cbn [run_prog]; [by intros [= -> ->]|].
  destruct (f s) as [b s2] eqn:E. intros Hr Hk. change (Call f c ≫= k) with (Call f (fun x => c x ≫= k)).
  eapply upto_call; [apply attempted_ok|]. rewrite E. by apply IH.
Qed.

Lemma upto_run {A} (p : prog S A) s : upto p s (Ret (run_prog p s).1) (run_prog p s).2.
Proof.
  revert s. induction p as [r|B f k IH]; intros s; [constructor|]. cbn [run_prog].
  destruct (f s) as [b s'] eqn:E. eapply upto_call; [|apply IH].
  rewrite (surjective_pairing (f s)) in E. injection E as <- <-. constructor.
Qed.
End Crash.

(** ** The file system *)

Notation path := (string * string)%type.
Inductive dirstate := DirWritable | DirReadOnly | NotADir.
Inductive node := NFile (data : option blob) (mode : Z) | NLink (target : path).

Record FS := mkFS { fs_dirs : gmap string dirstate; fs_nodes : gmap path node }.
Definition put_nodes (m : gmap path node) (s : FS) : FS := mkFS (fs_dirs s) m.

Notation files := (prog FS).

Definition permission : error := Msg "permission denied".
Definition file_exists : error := Msg "file exists".

Definition os_Lstat (p : path) (s : FS) : result node :=
  match fs_nodes s !! p with None => Err (not_exist "lstat") | Some n => Ok n end.

(** Links are followed forty times at most. *)
Fixpoint follow (fuel : nat) (s : FS) (p : path) : option node :=
  match fs_nodes s !! p with
  | Some (NLink t) => match fuel with O => Some (NLink t) | S fuel => follow fuel s t end
  | x => x
  end.
Definition max_links : nat := 40.
Definition os_Stat (p : path) (s : FS) : result node :=
  match follow max_links s p with
  | None => Err (not_exist "stat")
  | Some (NLink _) => Err (Msg "too many levels of symbolic links")
  | Some n => Ok n
  end.
(** Nothing reads a file that is being written. *)
Definition os_ReadFile (p : path) (s : FS) : result blob :=
  match os_Stat p s with
  | Err e => Err e
  | Ok (NFile (Some data) _) => Ok data
  | Ok _ => Err (Msg "partly written")
  end.

(** Whether a name can be made or removed in a directory. *)
Definition dir_open (dir : string) (s : FS) : option error :=
  match fs_dirs s !! dir with
  | None => Some (not_exist "open")
  | Some NotADir => Some (Msg "not a directory")
  | Some DirReadOnly => Some permission
  | Some DirWritable => None
  end.

Definition os_MkdirAll (dir : string) (s : FS) : result unit * FS :=
  match fs_dirs s !! dir with
  | None => (Ok tt, mkFS (<[dir := DirWritable]> (fs_dirs s)) (fs_nodes s))
  | Some NotADir => (Err (Msg "not a directory"), s)
  | Some _ => (Ok tt, s)
  end.

(** A new file; [os.CreateTemp] has found a name that was free. *)
Definition os_CreateTemp (p : path) (s : FS) : result unit * FS :=
  match dir_open p.1 s with
  | Some e => (Err e, s)
  | None => match fs_nodes s !! p with
            | Some _ => (Err file_exists, s)
            | None => (Ok tt, put_nodes (<[p := NFile (Some empty_blob) 384]> (fs_nodes s)) s)
            end
  end.

(** A write to an open file, which goes through a part of the data. *)
Definition file_set (p : path) (data : option blob) (s : FS) : result unit * FS :=
  match fs_nodes s !! p with
  | Some (NFile _ mode) => (Ok tt, put_nodes (<[p := NFile data mode]> (fs_nodes s)) s)
  | _ => (Ok tt, s)
  end.
Definition file_chmod (p : path) (mode : Z) (s : FS) : result unit * FS :=
  match fs_nodes s !! p with
  | Some (NFile data _) => (Ok tt, put_nodes (<[p := NFile data mode]> (fs_nodes s)) s)
  | _ => (Ok tt, s)
  end.
(** [Sync] and [Close], which change nothing a reader sees. *)
Definition file_flush (s : FS) : result unit * FS := (Ok tt, s).

Definition os_Rename (from to : path) (s : FS) : result unit * FS :=
  match dir_open to.1 s, fs_nodes s !! from with
  | Some e, _ => (Err e, s)
  | None, None => (Err (not_exist "rename"), s)
  | None, Some n => (Ok tt, put_nodes (<[to := n]> (delete from (fs_nodes s))) s)
  end.
Definition os_Remove (p : path) (s : FS) : result unit * FS :=
  match fs_nodes s !! p, fs_dirs s !! p.1 with
  | None, _ => (Err (not_exist "remove"), s)
  | Some _, Some NotADir => (Err (Msg "not a directory"), s)
  | Some _, Some DirReadOnly => (Err permission, s)
  | Some _, _ => (Ok tt, put_nodes (delete p (fs_nodes s)) s)
  end.

(** Where a chain of links ends, whether or not something is there. *)
Fixpoint resolve (fuel : nat) (s : FS) (p : path) : path :=
  match fs_nodes s !! p, fuel with Some (NLink t), S fuel => resolve fuel s t | _, _ => p end.

(** [os.OpenFile] for appending: with [O_EXCL] only a new file, without it
    through links and creating what is missing.  The path is the descriptor. *)
Definition os_OpenExcl (umask : Z) (p : path) (perm : Z) (s : FS) : result path * FS :=
  match dir_open p.1 s with
  | Some e => (Err e, s)
  | None => match fs_nodes s !! p with
            | Some _ => (Err file_exists, s)
            | None => (Ok p, put_nodes (<[p := NFile (Some empty_blob) (Z.ldiff perm umask)]> (fs_nodes s)) s)
            end
  end.
Definition os_OpenAppend (umask : Z) (p : path) (perm : Z) (s : FS) : result path * FS :=
  let q := resolve max_links s p in
  match fs_nodes s !! q with
  | Some (NFile _ _) => (Ok q, s)
  | Some (NLink _) => (Err (Msg "too many levels of symbolic links"), s)
  | None => match dir_open q.1 s with
            | Some e => (Err e, s)
            | None => (Ok q, put_nodes (<[q := NFile (Some empty_blob) (Z.ldiff perm umask)]> (fs_nodes s)) s)
            end
  end.
Definition file_append (p : path) (data : string) (s : FS) : result unit * FS :=
  match fs_nodes s !! p with
  | Some (NFile (Some old) mode) => (Ok tt, put_nodes (<[p := NFile (Some (BText (blob_text old +:+ data))) mode]> (fs_nodes s)) s)
  | _ => (Ok tt, s)
  end.

(** The names in a directory, in order.  A subdirectory is not a node. *)
Definition os_ReadDir (dir : string) (s : FS) : result (list string) :=
  match fs_dirs s !! dir with
  | None => Err (not_exist "open")
  | Some NotADir => Err (Msg "not a directory")
  | Some _ => Ok (merge_sort String.le (omap (fun kv : path * node => if bool_decide (kv.1.1 = dir) then Some kv.1.2 else None)
                                          (map_to_list (fs_nodes s))))
  end.

(** ** Atomic replacement of a file *)

(** After a failure the temporary file is removed, if it can be. *)
Definition or_discard {A} (tmp : path) (what : string) (f : FS -> result unit * FS) (k : files A) : files A :=
  Call f (fun r => match r with
                   | Ok _ => k
                   | Err e => Call (os_Remove tmp) (fun _ => Ret (Err (Wrap what [e])))
                   end).

Definition temp_of (temp : string) (target : path) : path := (target.1, ".tmp-" +:+ temp).

Definition AtomicWriteFile (temp : string) (target : path) (data : blob) (perm : Z) : files unit :=
  let tmp := temp_of temp target in
  Call (os_CreateTemp tmp) (fun r =>
    match r with
    | Err e => Ret (Err (Wrap "creating a temporary file" [e]))
    | Ok _ =>
        or_discard tmp "writing" (file_set tmp None)
        (or_discard tmp "writing" (file_set tmp (Some data))
        (or_discard tmp "setting permissions" (file_chmod tmp perm)
        (or_discard tmp "flushing" file_flush
        (or_discard tmp "writing" file_flush
        (or_discard tmp "writing" (os_Rename tmp target)
        (** the directory is flushed too; a failure is only logged *)
        (Call file_flush (fun _ => mret tt)))))))
    end).

(** *** What a replacement does *)

Section Atomic.
Context (temp : string) (target : path) (data : blob) (perm : Z) (s0 : FS).
Notation tmp := (temp_of temp target).
Context (Htmp : tmp <> target).

(** The target is as it was, or whole and new; nothing but it and the
    temporary file has changed. *)
Record replaced_or_not (s : FS) : Prop := ReplacedOrNot {
  ron_dirs : fs_dirs s = fs_dirs s0;
  ron_others : forall p, p <> target -> p <> tmp -> fs_nodes s !! p = fs_nodes s0 !! p;
  ron_target : fs_nodes s !! target = fs_nodes s0 !! target \/
               fs_nodes s !! target = Some (NFile (Some data) perm) }.

(** The temporary file holds [c]; all else is as it was. *)
Definition staged (c : option blob) (m : Z) (s : FS) : Prop :=
  s = put_nodes (<[tmp := NFile c m]> (fs_nodes s0)) s0.

Lemma staged_ok c m s : staged c m s -> replaced_or_not s.
Proof.
  intros ->. split; [done| |left; cbn; by rewrite lookup_insert_ne].
  intros p H1 H2. cbn. by rewrite lookup_insert_ne.
Qed.

Lemma unchanged_ok : replaced_or_not s0.
Proof. split; auto. Qed.

(** Giving up keeps what was there. *)
Lemma discard_ok {A} what e (Q : result A -> FS -> Prop) s :
  replaced_or_not s -> (forall s' e, replaced_or_not s' -> Q (Err e) s') ->
  always replaced_or_not (Call (os_Remove tmp) (fun _ => Ret (Err (Wrap what [e])))) Q s.
Proof.
  intros Hs HQ. split; [done|]. intros b s' Hb.
  assert (replaced_or_not (os_Remove tmp s).2) as Hr.
  { unfold os_Remove. repeat case_match; cbn; try done; destruct Hs as [D O T].
    all: split; [done|intros p Hp1 Hp2; cbn; rewrite lookup_delete_ne by done; by apply O|cbn; by rewrite lookup_delete_ne]. }
  destruct Hb; cbn; auto.
Qed.

(** One step on the temporary file. *)
Lemma step_ok {A} what (f : FS -> result unit * FS) (k : files A) (Q : result A -> FS -> Prop) s :
  replaced_or_not s -> replaced_or_not (f s).2 -> (forall s' e, replaced_or_not s' -> Q (Err e) s') ->
  ((f s).1 = Ok tt -> always replaced_or_not k Q (f s).2) ->
  always replaced_or_not (or_discard tmp what f k) Q s.
Proof.
  intros Hs Hf HQ Hk. split; [done|]. intros b s' Hb.
  destruct Hb as [|e He|e He]; [|by apply discard_ok..].
  destruct (f s) as [[[]|e] s1]; cbn [fst snd] in *; [by apply Hk|by apply discard_ok].
Qed.

Lemma set_staged c m c' :
  file_set tmp c' (put_nodes (<[tmp := NFile c m]> (fs_nodes s0)) s0) = (Ok tt, put_nodes (<[tmp := NFile c' m]> (fs_nodes s0)) s0).
Proof. unfold file_set. cbn. rewrite lookup_insert_eq. cbn. unfold put_nodes. cbn. by rewrite insert_insert_eq. Qed.
Lemma chmod_staged c m m' :
  file_chmod tmp m' (put_nodes (<[tmp := NFile c m]> (fs_nodes s0)) s0) = (Ok tt, put_nodes (<[tmp := NFile c m']> (fs_nodes s0)) s0).
Proof. unfold file_chmod. cbn. rewrite lookup_insert_eq. cbn. unfold put_nodes. cbn. by rewrite insert_insert_eq. Qed.

Lemma AtomicWriteFile_always :
  always replaced_or_not (AtomicWriteFile temp target data perm)
    (fun r s => replaced_or_not s /\ (r = Ok tt -> fs_nodes s !! target = Some (NFile (Some data) perm))) s0.
Proof.
  assert (forall (s : FS) (e : error), replaced_or_not s ->
    replaced_or_not s /\ (@Err unit e = Ok tt -> fs_nodes s !! target = Some (NFile (Some data) perm))) as HQ by done.
  split; [apply unchanged_ok|]. intros b s' Hb.
  assert (forall m c, replaced_or_not (put_nodes (<[tmp := NFile c m]> (fs_nodes s0)) s0)) as Hst
    by (intros; by eapply staged_ok).
  assert (replaced_or_not (os_CreateTemp tmp s0).2 /\
    ((os_CreateTemp tmp s0).1 = Ok tt -> staged (Some empty_blob) 384 (os_CreateTemp tmp s0).2)) as [Hc Hc'].
  { unfold os_CreateTemp. destruct (dir_open _ _); [by split; [apply unchanged_ok|]|].
    destruct (fs_nodes s0 !! tmp); [by split; [apply unchanged_ok|]|]. split; [apply Hst|done]. }
  destruct Hb as [|e He|e He]; [|by split; [apply unchanged_ok|]; split; [apply unchanged_ok|]|by split].
  destruct (os_CreateTemp tmp s0) as [[[]|e] s1]; cbn [fst snd] in *; [|by split].
  rewrite (Hc' eq_refl). set (s2 := put_nodes _ s0).
  unfold s2. apply step_ok; rewrite ?set_staged; [apply Hst..|exact HQ|intros _]. cbn [snd].
  apply step_ok; rewrite ?set_staged; [apply Hst..|exact HQ|intros _]. cbn [snd].
  apply step_ok; rewrite ?chmod_staged; [apply Hst..|exact HQ|intros _]. cbn [snd].
  apply step_ok; [apply Hst..|exact HQ|intros _]. cbn [file_flush snd].
  apply step_ok; [apply Hst..|exact HQ|intros _]. cbn [file_flush snd].
  set (s3 := put_nodes _ s0).
  assert (replaced_or_not (os_Rename tmp target s3).2 /\ ((os_Rename tmp target s3).1 = Ok tt ->
    fs_nodes (os_Rename tmp target s3).2 !! target = Some (NFile (Some data) perm))) as [Hr Hr'].
  { unfold os_Rename. destruct (dir_open _ _); [split; [apply Hst|done]|]. unfold s3. cbn [put_nodes fs_nodes fs_dirs]. rewrite lookup_insert_eq. cbn [fst snd].
    split; [|cbn [put_nodes fs_nodes]; by rewrite lookup_insert_eq]. split; [done| |right; cbn [put_nodes fs_nodes]; by rewrite lookup_insert_eq].
    intros p H1 H2. cbn [put_nodes fs_nodes]. by rewrite lookup_insert_ne, lookup_delete_ne, lookup_insert_ne. }
  apply step_ok; [apply Hst|done|exact HQ|]. intros Hok. specialize (Hr' Hok).
  split; [done|]. intros b s' Hb. destruct Hb; cbn; auto.
Qed.

Lemma run_or_discard {A} what f (k : files A) s s' :
  f s = (Ok tt, s') -> run_prog (or_discard tmp what f k) s = run_prog k s'.
Proof. intros E. unfold or_discard. cbn. by rewrite E. Qed.

(** When nothing fails, it succeeds. *)
Lemma AtomicWriteFile_run :
  fs_dirs s0 !! target.1 = Some DirWritable -> fs_nodes s0 !! tmp = None ->
  (run_prog (AtomicWriteFile temp target data perm) s0).1 = Ok tt.
Proof.
  intros Hd Hn. unfold AtomicWriteFile. cbn [run_prog].
  assert (os_CreateTemp tmp s0 = (Ok tt, put_nodes (<[tmp := NFile (Some empty_blob) 384]> (fs_nodes s0)) s0)) as ->
    by (unfold os_CreateTemp, dir_open; cbn; by rewrite Hd, Hn).
  erewrite run_or_discard by apply set_staged. erewrite run_or_discard by apply set_staged.
  erewrite run_or_discard by apply chmod_staged. do 2 erewrite run_or_discard by done.
  erewrite run_or_discard; [done|]. unfold os_Rename, dir_open. cbn [put_nodes fs_dirs fs_nodes]. by rewrite Hd, lookup_insert_eq.
Qed.
End Atomic.
