(* ===== verification/CertStore.v ===== *)
(** * Stores of certificates and keys

    Models internal/certstore/file.go and secret.go: where the material of a
    managed certificate is kept.  A file store replaces three files one after
    the other; [FileStore_Save_crash] says what a reader can meet in between,
    wherever the process stops.  A Secret store makes one server-side apply
    request; the API server is a parameter of the model. *)

From S2P Require Import Prelude GoStrings X509 Storage Concurrent Files.

(** ** Files (file.go) *)

Definition keyFileMode : Z := 384.
Definition certFileMode : Z := 420.

Record FilesConfig := mkFilesConfig { fc_Cert : path; fc_Key : path; fc_CA : option path }.

Definition readIfPresent (p : path) : files blob :=
  Call (fun s => (os_ReadFile p s, s)) (fun r =>
    match r with
    | Ok data => mret data
    | Err e => if errors_Is e FsErrNotExist then mret empty_blob else Ret (Err (Wrap "reading" [e]))
    end).

Definition FileStore_Load (cfg : FilesConfig) : files (blob * blob) :=
  certPEM ← readIfPresent (fc_Cert cfg);
  keyPEM ← readIfPresent (fc_Key cfg);
  mret (certPEM, keyPEM).

Definition store_paths (cfg : FilesConfig) : list path :=
  [fc_Key cfg; fc_Cert cfg] ++ match fc_CA cfg with Some p => [p] | None => [] end.

(** The probe is a file made and removed in the directory. *)
Definition probe_of (probe : string) (p : path) : path := (p.1, ".openvox-ca-writable-" +:+ probe).
Definition checkDir (probe : string) (p : path) : files unit :=
  Call (fun s => (Ok (fs_dirs s !! p.1), s)) (fun r =>
    match r with
    | Err e => Ret (Err (Wrap "checking the directory" [e]))
    | Ok None => Ret (Err (Msg "the directory does not exist"))
    | Ok (Some NotADir) => Ret (Err (Msg "the directory is not a directory"))
    | Ok (Some _) =>
        Call (os_CreateTemp (probe_of probe p)) (fun r =>
          match r with
          | Err e => Ret (Err (Wrap "the directory is not writable by this process" [e]))
          | Ok _ =>
              Call file_flush (fun _ =>
              Call (os_Remove (probe_of probe p)) (fun r =>
                match r with
                | Err e => Ret (Err (Wrap "removing the write probe" [e]))
                | Ok _ => mret tt
                end))
          end)
    end).

Fixpoint check_dirs (probe : string) (paths : list path) : files unit :=
  match paths with
  | [] => mret tt
  | p :: paths => _ ← checkDir probe p; check_dirs probe paths
  end.

(** The chain is read first, and only if it is to be written. *)
Definition chain_for (cfg : FilesConfig) (caCert : result blob) : files blob :=
  match fc_CA cfg, caCert with
  | None, _ => mret empty_blob
  | Some _, Err e => abort_with (Wrap "reading the CA certificate chain" [e])
  | Some _, Ok caPEM =>
      if bool_decide (blob_text caPEM = "") then abort_with (Msg "refusing to write an empty CA certificate chain")
      else mret caPEM
  end.

(** The key first, the certificate last. *)
Definition FileStore_Save (temp probe : string) (cfg : FilesConfig) (caCert : result blob)
    (certPEM keyPEM : blob) : files unit :=
  caPEM ← chain_for cfg caCert;
  _ ← check_dirs probe (store_paths cfg);
  _ ← AtomicWriteFile temp (fc_Key cfg) keyPEM keyFileMode;
  _ ← match fc_CA cfg with
      | Some p => AtomicWriteFile temp p caPEM certFileMode
      | None => mret tt
      end;
  AtomicWriteFile temp (fc_Cert cfg) certPEM certFileMode.

(** ** What a reader can meet *)

Section Save.
Context (temp probe : string) (cfg : FilesConfig) (caCert : result blob) (certPEM keyPEM : blob) (s0 : FS).

(** The names that only this call uses. *)
Definition scratch : list path :=
  map (temp_of temp) (store_paths cfg) ++ map (probe_of probe) (store_paths cfg).

(** The three files are different files, and none has a scratch name. *)
Record separate : Prop := Separate {
  sep_files : NoDup (store_paths cfg);
  sep_scratch : forall p, p ∈ store_paths cfg -> p ∉ scratch }.
Context (Hsep : separate).

(** The store as everyone but this call sees it. *)
Definition looks (m : gmap path node) (s : FS) : Prop :=
  fs_dirs s = fs_dirs s0 /\ forall p, p ∉ scratch -> fs_nodes s !! p = m !! p.

Definition with_key : gmap path node := <[fc_Key cfg := NFile (Some keyPEM) keyFileMode]> (fs_nodes s0).
Definition with_chain : gmap path node :=
  match fc_CA cfg, caCert with
  | Some p, Ok caPEM => <[p := NFile (Some caPEM) certFileMode]> with_key
  | _, _ => with_key
  end.
Definition with_cert : gmap path node := <[fc_Cert cfg := NFile (Some certPEM) certFileMode]> with_chain.

(** Each file is old or new, in the order they are written. *)
Definition save_progress (s : FS) : Prop :=
  looks (fs_nodes s0) s \/ looks with_key s \/ looks with_chain s \/ looks with_cert s.

Lemma looks_node m s p data mode :
  looks m s -> p ∉ scratch -> m !! p = Some (NFile data mode) -> fs_nodes s !! p = Some (NFile data mode).
Proof. intros [_ H] Hp Hm. by rewrite H. Qed.

Lemma write_file m data perm p s (I : FS -> Prop) :
  p ∈ store_paths cfg -> looks m s ->
  (forall s, looks m s -> I s) -> (forall s, looks (<[p := NFile (Some data) perm]> m) s -> I s) ->
  always I (AtomicWriteFile temp p data perm)
    (fun r s' => r = Ok tt -> looks (<[p := NFile (Some data) perm]> m) s') s.
Proof.
  intros Hp Hm I1 I2.
  assert (temp_of temp p ∈ scratch) as Ht.
  { apply elem_of_app. left. by apply (list_elem_of_fmap_2 (temp_of temp)). }
  assert (temp_of temp p <> p) as Hne by (intros E; rewrite E in Ht; by apply (sep_scratch Hsep p)).
  assert (forall s', replaced_or_not temp p data perm s s' ->
    looks m s' \/ looks (<[p := NFile (Some data) perm]> m) s') as Hcase.
  { intros s' [D O T]. destruct Hm as [Dm Nm]. destruct T as [E|E].
    - left. split; [congruence|]. intros q Hq. destruct (decide (q = p)) as [->|]; [by rewrite E, Nm by (by apply (sep_scratch Hsep))|].
      rewrite O by (done || intros ->; done). by apply Nm.
    - right. split; [congruence|]. intros q Hq. destruct (decide (q = p)) as [->|Hqp].
      + by rewrite lookup_insert_eq.
      + rewrite lookup_insert_ne by done. rewrite O by (done || intros ->; done). by apply Nm. }
  eapply always_mono; [| |by apply AtomicWriteFile_always].
  - intros s' H. destruct (Hcase s' H); auto.
  - intros r s' _ [H Hok] ->. specialize (Hok eq_refl). destruct H as [D O _]. destruct Hm as [Dm Nm].
    split; [congruence|]. intros q Hq. destruct (decide (q = p)) as [->|Hqp]; [by rewrite lookup_insert_eq|].
    rewrite lookup_insert_ne by done. rewrite O by (done || intros ->; done). by apply Nm.
Qed.

Lemma probe_looks m p s (f : FS -> result unit * FS) :
  p ∈ store_paths cfg -> looks m s ->
  (f = os_CreateTemp (probe_of probe p) \/ f = os_Remove (probe_of probe p)) -> looks m (f s).2.
Proof.
  intros Hp [D N] Hf. assert (probe_of probe p ∈ scratch) as Ht.
  { apply elem_of_app. right. by apply (list_elem_of_fmap_2 (probe_of probe)). }
  destruct Hf as [-> | ->]; unfold os_CreateTemp, os_Remove; repeat case_match; cbn; try done;
    (split; [done|]); intros q Hq; cbn [put_nodes fs_nodes].
  all: rewrite ?lookup_insert_ne, ?lookup_delete_ne by (intros <-; done); by apply N.
Qed.

Lemma checkDir_looks m p s :
  p ∈ store_paths cfg -> looks m s ->
  always (looks m) (checkDir probe p)
    (fun r s' => looks m s' /\ (r = Ok tt -> fs_dirs s0 !! p.1 = Some DirWritable)) s.
Proof.
  intros Hp Hs. unfold checkDir. apply always_read; [done| |intros e; by split].
  assert (forall s', looks m s' -> forall e, looks m s' /\ (@Err unit e = Ok tt -> fs_dirs s0 !! p.1 = Some DirWritable)) as Hend
    by done.
  destruct (fs_dirs s !! p.1) as [[]|] eqn:Ed; try (split; [done|by apply Hend]).
  all: split; [done|]; intros b s' Hb.
  all: pose proof (probe_looks m p s _ Hp Hs (or_introl eq_refl)) as Hc.
  all: assert ((os_CreateTemp (probe_of probe p) s).1 = Ok tt -> fs_dirs s0 !! p.1 = Some DirWritable) as Hok
         by (unfold os_CreateTemp, dir_open; cbn [fst probe_of]; rewrite Ed; destruct Hs as [<- _]; by rewrite Ed).
  all: destruct Hb as [|e He|e He]; [|by split..].
  all: destruct (os_CreateTemp _ s) as [[[]|e] s1]; cbn [fst snd] in *; [|by split].
  all: specialize (Hok eq_refl); split; [done|]; intros b s' Hb.
  all: assert (looks m s') as Hs' by (by destruct Hb).
  all: split; [done|]; intros b2 s2 Hb2.
  all: pose proof (probe_looks m p s' _ Hp Hs' (or_intror eq_refl)) as Hr.
  all: destruct Hb2; [|by split..].
  all: destruct (os_Remove _ s') as [[[]|e] s2]; cbn [fst snd] in *; by split.
Qed.

Lemma check_dirs_looks m paths : forall s,
  (forall p, p ∈ paths -> p ∈ store_paths cfg) -> looks m s ->
  always (looks m) (check_dirs probe paths)
    (fun r s' => looks m s' /\ (r = Ok tt -> forall p, p ∈ paths -> fs_dirs s0 !! p.1 = Some DirWritable)) s.
Proof.
  induction paths as [|p paths IH]; intros s Hin Hs.
  { split; [done|]. split; [done|]. by intros _ p ?%not_elem_of_nil. }
  cbn [check_dirs]. apply always_bind. eapply always_mono; [done| |apply (checkDir_looks m p); [apply Hin; by left|done]].
  intros [[]|e] s' _ [Hs' Hd]; [|done]. specialize (Hd eq_refl).
  eapply always_mono; [done| |apply IH; [intros q Hq; apply Hin; by right|done]].
  intros r s2 _ [Hs2 Hr]. split; [done|]. intros Hok q [->|Hq]%elem_of_cons; [done|]. by apply Hr.
Qed.

Lemma key_listed : fc_Key cfg ∈ store_paths cfg.
Proof. by left. Qed.
Lemma cert_listed : fc_Cert cfg ∈ store_paths cfg.
Proof. right. by left. Qed.

Lemma FileStore_Save_always :
  always save_progress (FileStore_Save temp probe cfg caCert certPEM keyPEM)
    (fun r s => (r = Ok tt -> looks with_cert s) /\
       ((exists p, p ∈ store_paths cfg /\ fs_dirs s0 !! p.1 <> Some DirWritable) -> looks (fs_nodes s0) s)) s0.
Proof.
  assert (looks (fs_nodes s0) s0) as H0 by done.
  unfold FileStore_Save. apply always_bind. unfold chain_for.
  assert (forall caPEM, (forall p, fc_CA cfg = Some p -> caCert = Ok caPEM) ->
    always save_progress (_ ← check_dirs probe (store_paths cfg);
      _ ← AtomicWriteFile temp (fc_Key cfg) keyPEM keyFileMode;
      _ ← match fc_CA cfg with Some p => AtomicWriteFile temp p caPEM certFileMode | None => mret tt end;
      AtomicWriteFile temp (fc_Cert cfg) certPEM certFileMode)
    (fun r s => (r = Ok tt -> looks with_cert s) /\
       ((exists p, p ∈ store_paths cfg /\ fs_dirs s0 !! p.1 <> Some DirWritable) -> looks (fs_nodes s0) s)) s0) as Hmain.
  2:{ destruct (fc_CA cfg) as [p|] eqn:Ep; [destruct caCert as [caPEM|e]; [case_bool_decide|]|].
      - split; [by left|]. by split.
      - split; [by left|]. apply (Hmain caPEM). by intros ? [= <-].
      - split; [by left|]. by split.
      - split; [by left|]. by apply (Hmain empty_blob). }
  intros caPEM Hca. apply always_bind.
  eapply always_mono; [intros s H; left; exact H| |by apply check_dirs_looks].
  intros [[]|e] s1 _ [Hs1 Hd]; [|by split]. specialize (Hd eq_refl).
  assert (~ (exists p, p ∈ store_paths cfg /\ fs_dirs s0 !! p.1 <> Some DirWritable)) as Hno.
  { intros (p & Hp & Hn). by apply Hn, Hd. }
  apply always_bind. eapply always_mono; [done| |apply (write_file (fs_nodes s0) keyPEM keyFileMode (fc_Key cfg));
    [apply key_listed|done|intros; by left|intros; right; by left]].
  intros [[]|e] s2 _ Hk; [|by split]. specialize (Hk eq_refl). fold with_key in Hk.
  apply always_bind.
  assert (forall s, looks with_chain s -> always save_progress (AtomicWriteFile temp (fc_Cert cfg) certPEM certFileMode)
    (fun r s => (r = Ok tt -> looks with_cert s) /\
       ((exists p, p ∈ store_paths cfg /\ fs_dirs s0 !! p.1 <> Some DirWritable) -> looks (fs_nodes s0) s)) s) as Hlast.
  { intros s Hs. eapply always_mono; [done| |apply (write_file with_chain certPEM certFileMode (fc_Cert cfg));
      [apply cert_listed|done|intros; right; right; by left|intros; right; right; by right]].
    intros r s' _ Hr. split; [exact Hr|]. intros Hb. by destruct Hno. }
  unfold with_chain in Hlast. destruct (fc_CA cfg) as [p|] eqn:Ep; [|split; [right; by left|by apply Hlast]].
  rewrite (Hca p eq_refl) in Hlast.
  eapply always_mono; [done| |apply (write_file with_key caPEM certFileMode p)].
  - intros [[]|e] s3 _ Hc; [|by split]. apply Hlast. by apply Hc.
  - unfold store_paths. rewrite Ep. apply elem_of_app. right. by left.
  - done.
  - intros. right. by left.
  - intros s Hs. right. right. left. unfold with_chain. by rewrite Ep, (Hca p eq_refl).
Qed.

(** Reading the files back. *)
Lemma load_run m s cert key :
  looks m s -> m !! fc_Cert cfg = Some (NFile (Some cert) certFileMode) ->
  m !! fc_Key cfg = Some (NFile (Some key) keyFileMode) ->
  run_prog (FileStore_Load cfg) s = (Ok (cert, key), s).
Proof.
  intros Hs Hc Hk.
  assert (fs_nodes s !! fc_Cert cfg = Some (NFile (Some cert) certFileMode)) as Ec
    by (eapply looks_node; [done|apply (sep_scratch Hsep), cert_listed|done]).
  assert (fs_nodes s !! fc_Key cfg = Some (NFile (Some key) keyFileMode)) as Ek
    by (eapply looks_node; [done|apply (sep_scratch Hsep), key_listed|done]).
  assert (forall p d m', fs_nodes s !! p = Some (NFile (Some d) m') -> os_ReadFile p s = Ok d) as Hread.
  { intros p d m' E. unfold os_ReadFile, os_Stat, max_links. cbn [follow]. by rewrite E. }
  unfold FileStore_Load. rewrite run_mbind. unfold readIfPresent. cbn [run_prog]. rewrite (Hread _ _ _ Ec).
  cbn [run_prog mret prog_ret]. rewrite run_mbind. cbn [run_prog]. by rewrite (Hread _ _ _ Ek).
Qed.
End Save.

(** C27: A write of a file store, stopped anywhere and with any call failing, leaves
    each of its files whole, old or new; the certificate is new only if the key
    and the chain are; and no other file is touched, its scratch names apart.  A
    directory that is missing or not writable is refused before the first write.
    A write that succeeds is read back. *)
Theorem FileStore_Save_crash temp probe cfg caCert certPEM keyPEM s p' s' :
  separate temp probe cfg ->
  upto (FileStore_Save temp probe cfg caCert certPEM keyPEM) s p' s' ->
  save_progress temp probe cfg caCert certPEM keyPEM s s' /\
  ((exists p, p ∈ store_paths cfg /\ fs_dirs s !! p.1 <> Some DirWritable) ->
     forall r, p' = Ret r -> looks temp probe cfg s (fs_nodes s) s') /\
  (p' = Ret (Ok tt) -> run_prog (FileStore_Load cfg) s' = (Ok (certPEM, keyPEM), s')).
Proof.
  intros Hsep Hu. destruct (always_upto _ _ _ _ _ _ (FileStore_Save_always temp probe cfg caCert certPEM keyPEM s Hsep) Hu) as [HI HQ].
  split; [done|]. split; [intros Hb r ->; by apply (HQ r)|]. intros ->. destruct (HQ _ eq_refl) as [Hok _]. specialize (Hok eq_refl).
  eapply load_run; [done|exact Hok|unfold with_cert; by rewrite lookup_insert_eq|].
  destruct Hsep as [Hnd _]. unfold store_paths in Hnd. cbn [app] in Hnd. apply NoDup_cons in Hnd as [Hk Hnd].
  rewrite elem_of_cons in Hk. unfold with_cert, with_chain, with_key. rewrite lookup_insert_ne by naive_solver.
  destruct (fc_CA cfg) as [p|]; [destruct caCert|]; rewrite ?lookup_insert_eq; try done.
  rewrite lookup_insert_ne, lookup_insert_eq; [done|]. rewrite list_elem_of_singleton in Hk. naive_solver.
Qed.

(** Renewing a pair whose certificate directory has become read-only changes
    nothing, and renewing one that is writable replaces both files. *)
Definition demo_files : FilesConfig :=
  mkFilesConfig ("/etc/tls", "tls.crt") ("/etc/keys", "tls.key") (Some ("/etc/tls", "ca.crt")).
Definition demo_disk (certs : dirstate) : FS :=
  mkFS {["/etc/tls" := certs; "/etc/keys" := DirWritable]}
    {[("/etc/tls", "tls.crt") := NFile (Some (BText "cert 1")) 420;
      ("/etc/keys", "tls.key") := NFile (Some (BText "key 1")) 384]}.
Definition demo_save : files unit :=
  FileStore_Save "17" "23" demo_files (Ok (BText "chain")) (BText "cert 2") (BText "key 2").

Lemma demo_separate : separate "17" "23" demo_files.
Proof.
  split; [by apply (bool_decide_eq_true_1 _); vm_compute|].
  intros p Hp. repeat (apply elem_of_cons in Hp as [->|Hp]; [by apply (bool_decide_eq_true_1 _); vm_compute|]).
  by apply not_elem_of_nil in Hp.
Qed.

Example demo_read_only :
  (run_prog demo_save (demo_disk DirReadOnly)).2 = demo_disk DirReadOnly /\
  match (run_prog demo_save (demo_disk DirReadOnly)).1 with Ok _ => False | Err _ => True end.
Proof. by vm_compute. Qed.

Lemma FileStore_Save_crash_witness :
  run_prog (FileStore_Load demo_files) (run_prog demo_save (demo_disk DirWritable)).2 =
  (Ok (BText "cert 2", BText "key 2"), (run_prog demo_save (demo_disk DirWritable)).2).
Proof.
  refine (proj2 (proj2 (FileStore_Save_crash "17" "23" demo_files (Ok (BText "chain")) (BText "cert 2") (BText "key 2")
    (demo_disk DirWritable) _ _ demo_separate (upto_run _ _))) _).
  by vm_compute.
Defined.

(** ** Kubernetes Secrets (secret.go) *)

Definition secretKeyCert := "tls.crt".
Definition secretKeyKey := "tls.key".
Definition secretKeyCACert := "ca.crt".
Definition secretType := "kubernetes.io/tls".
Definition managedCertFieldManager := "openvox-ca-managed-certs".
Definition ManagedByLabelKey := "app.kubernetes.io/managed-by".
Definition ManagedByLabelValue := "openvox-ca".

Record SecretConfig := mkSecretConfig {
  sc_Name : string; sc_Labels : gmap string string; sc_Annotations : gmap string string; sc_AdoptExisting : bool }.

Inductive ManagedFieldsOperation := OperationApply | OperationUpdate.
#[global] Instance operation_eq_dec : EqDecision ManagedFieldsOperation.
Proof. solve_decision. Defined.
Record ManagedFieldsEntry := mkManaged { mf_Manager : string; mf_Operation : ManagedFieldsOperation }.

Record Secret := mkSecret { sec_Data : gmap string blob; sec_ManagedFields : list ManagedFieldsEntry }.
Record SecretApply := mkSecretApply {
  sa_Name : string; sa_Type : string; sa_Labels : gmap string string;
  sa_Annotations : gmap string string; sa_Data : gmap string blob }.

Definition WithManagedByLabel (configured : gmap string string) : gmap string string :=
  <[ManagedByLabelKey := ManagedByLabelValue]> configured.

Definition ownedByUs (sec : option Secret) : bool :=
  match sec with
  | None => false
  | Some sec =>
      existsb (fun f => bool_decide (mf_Manager f = managedCertFieldManager) &&
                        bool_decide (mf_Operation f = OperationApply)) (sec_ManagedFields sec)
  end.

Definition apply_config (cfg : SecretConfig) (certPEM keyPEM caPEM : blob) : SecretApply :=
  mkSecretApply (sc_Name cfg) secretType (WithManagedByLabel (sc_Labels cfg)) (sc_Annotations cfg)
    (<[secretKeyCert := certPEM]> (<[secretKeyKey := keyPEM]> {[secretKeyCACert := caPEM]})).

Section SecretStore.
(** The API server: the Secret it holds under the configured name, and what a
    server-side apply of [(request, field manager, force)] does to it. *)
Context {K : Type} (api_Get : K -> option Secret)
  (api_Apply : SecretApply -> string -> bool -> K -> result unit * K).
Context (cfg : SecretConfig) (caCert : result blob).

Definition SecretStore_get : prog K (option Secret) :=
  Call (fun k => (Ok (api_Get k), k)) (fun r =>
    match r with Ok sec => mret sec | Err e => Ret (Err (Wrap "reading" [e])) end).

Definition SecretStore_Load : prog K (blob * blob) :=
  sec ← SecretStore_get;
  mret match sec with
       | None => (empty_blob, empty_blob)
       | Some sec => (default empty_blob (sec_Data sec !! secretKeyCert), default empty_blob (sec_Data sec !! secretKeyKey))
       end.

Definition SecretStore_Save (certPEM keyPEM : blob) : prog K unit :=
  match caCert with
  | Err e => Ret (Err (Wrap "reading the CA certificate chain" [e]))
  | Ok caPEM =>
      if bool_decide (blob_text caPEM = "") then Ret (Err (Msg "refusing to write an empty CA certificate chain"))
      else
        existing ← SecretStore_get;
        let force := sc_AdoptExisting cfg || ownedByUs existing in
        Call (api_Apply (apply_config cfg certPEM keyPEM caPEM) managedCertFieldManager force) (fun r =>
          match r with Ok _ => mret tt | Err e => Ret (Err (Wrap "writing" [e])) end)
  end.

(** A Secret that is not ours to write: we never applied to it, we are not told
    to adopt it, and an unforced apply conflicts, which changes nothing. *)
Definition others_secret (k : K) : Prop :=
  sc_AdoptExisting cfg = false /\ ownedByUs (api_Get k) = false /\
  forall ac, exists e, api_Apply ac managedCertFieldManager false k = (Err e, k).

(** A write either leaves the Secret alone or applies a certificate, its key and
    a chain in one request, forced only on a Secret that is ours or adopted; and
    a Secret that is someone else's is left alone, with an error. *)
Lemma SecretStore_Save_always certPEM keyPEM k0 :
  always (fun k => k = k0 \/ exists caPEM, caCert = Ok caPEM /\ blob_text caPEM <> "" /\
            k = (api_Apply (apply_config cfg certPEM keyPEM caPEM) managedCertFieldManager
                   (sc_AdoptExisting cfg || ownedByUs (api_Get k0)) k0).2)
    (SecretStore_Save certPEM keyPEM)
    (fun r k => others_secret k0 -> k = k0 /\ exists e, r = Err e) k0.
Proof.
  unfold SecretStore_Save. destruct caCert as [caPEM|e]; [|split; [by left|]; eauto].
  case_bool_decide as Hca; [split; [by left|]; eauto|].
  apply always_bind. apply always_read; [by left| |intros e; split; [by left|]; eauto].
  split; [by left|]. split; [by left|]. intros b k Hb.
  set (force := sc_AdoptExisting cfg || ownedByUs (api_Get k0)) in *.
  assert (others_secret k0 -> exists e,
    api_Apply (apply_config cfg certPEM keyPEM caPEM) managedCertFieldManager force k0 = (Err e, k0)) as Ho.
  { intros (E1 & E2 & H). unfold force. rewrite E1, E2. apply H. }
  destruct Hb as [|e He|e He].
  - destruct (api_Apply _ _ _ k0) as [[[]|e] k1] eqn:E; cbn [fst snd].
    + split; [right; exists caPEM; by rewrite E|]. by intros [e' [=]]%Ho.
    + split; [right; exists caPEM; by rewrite E|]. intros [e' He]%Ho. injection He as -> ->. eauto.
  - split; [by left|]. eauto.
  - split; [right; by exists caPEM|]. intros [e' He']%Ho. rewrite He'. eauto.
Qed.
End SecretStore.

(** The managed-by label cannot be masked by configuration. *)
Lemma managed_by_wins configured : WithManagedByLabel configured !! ManagedByLabelKey = Some ManagedByLabelValue.
Proof. apply lookup_insert_eq. Qed.
