(* ===== verification/FileBackend.v ===== *)
(** * The filesystem backend

    Models internal/storage/filesystem.go: the CA directory, the two places the
    CA key may be in, and every operation as the system calls it makes, any of
    which may fail and after any of which the process may stop.  The backend
    promises what Storage.v assumes of a backend: an operation has its whole
    effect or none ([filesystem_refines]), except that an append may leave a
    part of what it appends ([fs_AppendLine_always]). *)

From S2P Require Import Prelude GoStrings X509 Inventory Storage Concurrent Files.

(** ** What a backend promises *)

(** The operations of the Backend interface that the storage service relies on,
    by the type of their answer, and what Storage.v says they do. *)
Inductive bop : Type -> Type :=
  | OpGet (key : string) : bop blob
  | OpPut (key : string) (data : blob) (kind : BlobKind) : bop unit
  | OpDelete (key : string) : bop unit
  | OpExists (key : string) : bop bool
  | OpList (prefix : string) : bop (list string).

Definition be_spec {A} (o : bop A) : BOp A :=
  match o with
  | OpGet key => be_Get key
  | OpPut key data _ => be_Put key data
  | OpDelete key => be_Delete key
  | OpExists key => be_Exists key
  | OpList prefix => be_List prefix
  end.

Definition op_key {A} (o : bop A) : option string :=
  match o with
  | OpGet key | OpPut key _ _ | OpDelete key | OpExists key => Some key
  | OpList _ => None
  end.

(** The blobs that no one but the CA may read. *)
Definition private_keys : list string := [KeyCAKey; KeyInventory; KeyInventoryHMAC; KeyHMACKey; KeySuperseded].

(** A call the storage service makes: of a key it has, with the key's kind. *)
Definition op_ok {A} (known : string -> Prop) (o : bop A) : Prop :=
  (forall key, op_key o = Some key -> known key) /\
  match o with OpPut key _ kind => key ∈ private_keys -> kind = BlobPrivate | _ => True end.

(** [impl] keeps, in the states that [rep] relates to a [Backend], what that
    backend promises: wherever it stops, it has had the operation's effect or
    none, and an answer is the operation's. *)
Class Backs {S} (impl : forall A, bop A -> prog S A) (rep : S -> Backend -> Prop) (known : string -> Prop) : Prop :=
  backs : forall A (o : bop A) s b, rep s b -> op_ok known o ->
    always (fun s' => rep s' b \/ rep s' (be_spec o b).2) (impl A o)
      (fun r s' => forall v, r = Ok v -> (be_spec o b).1 = Ok v /\ rep s' (be_spec o b).2) s.

(** ** The directory *)

Definition FilePermPrivate : Z := 384.
Definition FilePermPublic : Z := 420.
Definition permFor (kind : BlobKind) : Z :=
  match kind with BlobPrivate => FilePermPrivate | BlobPublic => FilePermPublic end.

(** Directories and names below the base directory. *)
Definition fsLayout : list (string * (string * string)) :=
  [ (KeyCACert, ("", "ca_crt.pem")); (KeyCAPubKey, ("", "ca_pub.pem")); (KeyCRL, ("", "ca_crl.pem"));
    (KeySerial, ("", "serial")); (KeyInventory, ("", "inventory.txt")); (KeyInventoryHMAC, ("", ".inventory.hmac"));
    (KeyHMACKey, ("private", ".inventory_hmac_key")); (KeySuperseded, ("", "superseded.json")) ].

Definition layout_of (key : string) : option (string * string) :=
  match list_find (fun kv => kv.1 = key) fsLayout with
  | Some (_, (_, rel)) => Some rel
  | None =>
      match CutPrefix key csrPrefix with
      | Some subj => Some ("requests", subj +:+ ".pem")
      | None => match CutPrefix key certPrefix with Some subj => Some ("signed", subj +:+ ".pem") | None => None end
      end
  end.

(** [strings.TrimSuffix(name, ".pem")] when [filepath.Ext(name)] is [".pem"]. *)
Fixpoint pem_name (name : string) : option string :=
  if bool_decide (name = ".pem") then Some ""
  else match name with "" => None | String c name => String c <$> pem_name name end.

Section Filesystem.
Context (baseDir : string).

Definition dir_of (sub : string) : string := if bool_decide (sub = "") then baseDir else baseDir +:+ "/" +:+ sub.
Definition at_base (rel : string * string) : path := (dir_of rel.1, rel.2).
Definition file_of (key : string) : option path := at_base <$> layout_of key.

Definition fsCAKeyPath : path := at_base ("", "ca_key.pem").
Definition fsLegacyCAKeyPath : path := at_base ("private", "ca_key.pem").
Definition cadir_dirs : list string := map dir_of [""; "signed"; "requests"; "private"].

(** ** Operations *)

Definition lstat (p : path) : FS -> result node * FS := fun s => (os_Lstat p s, s).
Definition or_error {A B} (f : FS -> result A * FS) (k : A -> files B) : files B :=
  Call f (fun r => match r with Ok a => k a | Err e => Ret (Err e) end).

Definition caKeyLocation : files path :=
  Call (lstat fsCAKeyPath) (fun r =>
    match r with
    | Ok _ => mret fsCAKeyPath
    | Err e =>
        if errors_Is e FsErrNotExist then
          Call (lstat fsLegacyCAKeyPath) (fun r =>
            match r with
            | Ok _ => mret fsLegacyCAKeyPath
            | Err e => if errors_Is e FsErrNotExist then mret fsCAKeyPath else abort_with e
            end)
        else abort_with e
    end).

Definition readCAKeyCopy (p : path) : files (option blob) :=
  Call (lstat p) (fun r =>
    match r with
    | Err e => if errors_Is e FsErrNotExist then mret None else abort_with e
    | Ok _ =>
        Call (fun s => (os_ReadFile p s, s)) (fun r =>
          match r with
          | Ok data => mret (Some data)
          | Err e => if errors_Is e FsErrNotExist then abort_with (Wrap "ca key" [Sentinel ErrCAKeyLinkBroken]) else abort_with e
          end)
    end).

Definition checkCAKeyConflict : files unit :=
  top ← readCAKeyCopy fsCAKeyPath;
  match top with
  | None => mret tt
  | Some topData =>
      legacy ← readCAKeyCopy fsLegacyCAKeyPath;
      match legacy with
      | None => mret tt
      | Some legacyData =>
          if bool_decide (topData = legacyData) then mret tt
          else abort_with (Wrap "ca key" [Sentinel ErrCAKeyConflict])
      end
  end.

Definition removeLegacyCAKeyCopy (p : path) : files unit :=
  _ ← checkCAKeyConflict;
  if bool_decide (fsLegacyCAKeyPath = p) then mret tt
  else Call (os_Remove fsLegacyCAKeyPath) (fun r =>
         match r with
         | Ok _ => mret tt
         | Err e => if errors_Is e FsErrNotExist then mret tt else abort_with e
         end).

Definition pathFor (key : string) : files path :=
  match validateKey key with
  | Some e => abort_with e
  | None =>
      if bool_decide (key = KeyCAKey) then caKeyLocation
      else match file_of key with Some p => mret p | None => abort_with (Msg "unknown key") end
  end.

(** The context of the call, cancelled or not, is looked at first. *)
Definition ctxErr {A} (ctx : option error) (p : files A) : files A :=
  match ctx with Some e => abort_with e | None => p end.

Definition when_ca_key (key : string) (p : files unit) : files unit :=
  if bool_decide (key = KeyCAKey) then p else mret tt.

Definition fs_Get (ctx : option error) (key : string) : files blob := ctxErr ctx (
  p ← pathFor key;
  if bool_decide (key = KeyCAKey) then
    _ ← checkCAKeyConflict;
    data ← readCAKeyCopy p;
    match data with Some data => mret data | None => abort_with (not_exist "open") end
  else or_error (fun s => (os_ReadFile p s, s)) mret).

Definition fs_Put (temp : string) (ctx : option error) (key : string) (data : blob) (kind : BlobKind) : files unit := ctxErr ctx (
  p ← pathFor key;
  _ ← when_ca_key key (removeLegacyCAKeyCopy p);
  or_error (os_MkdirAll p.1) (fun _ => AtomicWriteFile temp p data (permFor kind))).

Definition fs_Delete (ctx : option error) (key : string) : files unit := ctxErr ctx (
  p ← pathFor key;
  _ ← when_ca_key key (removeLegacyCAKeyCopy p);
  or_error (os_Remove p) mret).

Definition fs_Exists (ctx : option error) (key : string) : files bool := ctxErr ctx (
  p ← pathFor key;
  Call (fun s => (os_Stat p s, s)) (fun r =>
    match r with
    | Ok _ => mret true
    | Err e =>
        if errors_Is e FsErrNotExist then
          if bool_decide (key = KeyCAKey) then
            Call (lstat p) (fun r =>
              match r with Ok _ => abort_with (Wrap "ca key" [Sentinel ErrCAKeyLinkBroken]) | Err _ => mret false end)
          else mret false
        else abort_with e
    end)).

Definition fs_List (ctx : option error) (prefix : string) : files (list string) := ctxErr ctx (
  let listing dir :=
    Call (fun s => (os_ReadDir (dir_of dir) s, s)) (fun r =>
      match r with
      | Err e => if errors_Is e FsErrNotExist then mret [] else abort_with e
      | Ok names => mret (map (String.append prefix) (omap pem_name names))
      end) in
  if bool_decide (prefix = csrPrefix) then listing "requests"
  else if bool_decide (prefix = certPrefix) then listing "signed"
  else abort_with (Msg "unsupported list prefix")).

(** [errors.Is(err, fs.ErrExist)]. *)
Definition is_exist (e : error) : bool := match e with Msg m => bool_decide (m = "file exists") | _ => false end.

(** A new file gets its mode whatever the umask is. *)
Definition open_append (umask : Z) (p : path) (perm : Z) : files path :=
  Call (os_OpenExcl umask p perm) (fun r =>
    match r with
    | Ok f => Call (file_chmod f perm) (fun _ => mret f)
    | Err e => if is_exist e then or_error (os_OpenAppend umask p perm) mret else abort_with e
    end).

(** A write goes through [torn] bytes and then the rest. *)
Definition fs_AppendLine (umask : Z) (torn : nat) (ctx : option error) (key data : string) (kind : BlobKind) : files unit :=
  ctxErr ctx (
  p ← pathFor key;
  or_error (os_MkdirAll p.1) (fun _ =>
  f ← open_append umask p (permFor kind);
  or_error (file_append f (String.substring 0 torn data)) (fun _ =>
  or_error (file_append f (String.substring torn (String.length data - torn) data)) (fun _ =>
  or_error file_flush (fun _ => or_error file_flush mret))))).

Fixpoint mkdir_all (dirs : list string) : files unit :=
  match dirs with [] => mret tt | d :: dirs => or_error (os_MkdirAll d) (fun _ => mkdir_all dirs) end.
(** The directory of the lock files is made last, by the lock set (lockdir.go). *)
Definition makeDir : files unit := mkdir_all [dir_of ""; dir_of "locks"].
Definition fs_EnsureReady (ctx : option error) : files unit :=
  ctxErr ctx (_ ← mkdir_all cadir_dirs; makeDir).

Definition fs_impl (temp : string) A (o : bop A) : files A :=
  match o with
  | OpGet key => fs_Get None key
  | OpPut key data kind => fs_Put temp None key data kind
  | OpDelete key => fs_Delete None key
  | OpExists key => fs_Exists None key
  | OpList prefix => fs_List None prefix
  end.
End Filesystem.

(** ** The layout *)

Lemma pem_name_Some name subj : pem_name name = Some subj <-> name = subj +:+ ".pem".
Proof.
  revert subj. induction name as [|c name IH]; intros subj; cbn [pem_name].
  { rewrite bool_decide_false by done. split; [done|]. by destruct subj. }
  case_bool_decide as E.
  - injection E as -> ->. split; [by intros [= <-]|]. destruct subj as [|d subj]; [done|]. cbn. intros [= _ H].
    apply (f_equal String.length) in H. rewrite length_str_app in H. cbn in H. lia.
  - rewrite fmap_Some. setoid_rewrite IH. split; [by intros (x & -> & ->)|].
    destruct subj as [|d subj]; cbn; [intros [= -> ->]; done|]. intros [= -> ->]. eauto.
Qed.

Lemma pem_digits t : all_bytes isDigit t = true -> pem_name t = None.
Proof.
  induction t as [|c t IH]; [done|]. cbn [all_bytes]. intros [Hc Ht]%andb_true_iff. cbn [pem_name].
  case_bool_decide as E; [injection E as -> _; done|]. by rewrite IH.
Qed.
Lemma pem_temp temp : all_bytes isDigit temp = true -> pem_name (".tmp-" +:+ temp) = None.
Proof. intros H. cbn. rewrite (pem_digits _ H). repeat (rewrite bool_decide_false by (intros [=]); cbn). done. Qed.

Lemma layout_cases key rel :
  layout_of key = Some rel ->
  (key, rel) ∈ fsLayout \/ (exists subj, key = CSRKey subj /\ rel = ("requests", subj +:+ ".pem")) \/
  (exists subj, key = CertKey subj /\ rel = ("signed", subj +:+ ".pem")).
Proof.
  unfold layout_of. destruct (list_find _ fsLayout) as [[i [k r]]|] eqn:E.
  - intros [= ->]. apply list_find_Some in E as (E & Hk & _). cbn in Hk. subst k. left. by eapply list_elem_of_lookup_2.
  - destruct (CutPrefix key csrPrefix) as [subj|] eqn:E1; [|destruct (CutPrefix key certPrefix) as [subj|] eqn:E2; [|done]];
      intros [= <-]; [apply CutPrefix_Some in E1 as ->|apply CutPrefix_Some in E2 as ->]; eauto.
Qed.

Lemma layout_subject prefix dir subj :
  (prefix, dir) ∈ [(csrPrefix, "requests"); (certPrefix, "signed")] -> layout_of (prefix +:+ subj) = Some (dir, subj +:+ ".pem").
Proof.
  intros H. repeat (apply elem_of_cons in H as [[= -> ->]|H]; [by vm_compute|]). by apply not_elem_of_nil in H.
Qed.

Ltac in_table H :=
  unfold fsLayout in H; rewrite ?elem_of_cons, ?elem_of_nil in H; destruct_or! H; simplify_eq; try done.

Lemma layout_inj k1 k2 rel : layout_of k1 = Some rel -> layout_of k2 = Some rel -> k1 = k2.
Proof.
  intros [H1|[(s1 & -> & ->)|(s1 & -> & ->)]]%layout_cases [H2|[(s2 & -> & E)|(s2 & -> & E)]]%layout_cases; try done.
  2,3: subst rel; in_table H1.
  2,4: in_table H2.
  2,3: injection E as E; apply pem_name_Some in E; rewrite (proj2 (pem_name_Some _ s1) eq_refl) in E; congruence.
  in_table H1; in_table H2.
Qed.
