(* ===== verification/FileSafety.v ===== *)
(** * What the filesystem backend keeps

    The relation between a CA directory and the backend it represents
    ([cadir]), that every operation keeps it wherever it stops, and what is
    special about the CA key: it is in one of two places, and a directory with
    two different keys is refused. *)

From S2P Require Import Prelude GoStrings X509 Inventory Storage Concurrent Files FileBackend.

(** Choosing from a list with at most one element for each choice. *)
Lemma NoDup_omap {A B} (f : A -> option B) (l : list A) :
  NoDup l -> (forall x y z, x ∈ l -> y ∈ l -> f x = Some z -> f y = Some z -> x = y) -> NoDup (omap f l).
Proof.
  intros Hd. induction Hd as [|x l Hx Hd IH]; intros Hf; [constructor|]. cbn.
  assert (NoDup (omap f l)) as Hl by (apply IH; intros ???? ?; apply Hf; by right).
  destruct (f x) as [z|] eqn:E; [|done]. constructor; [|done].
  intros (y & Hy & Ey)%list_elem_of_omap. apply Hx. by rewrite (Hf x y z); [|left|right|..].
Qed.
Lemma NoDup_omap_keys {A B} (f : string * A -> option B) (m : gmap string A) :
  (forall x y z, f x = Some z -> f y = Some z -> x.1 = y.1) -> NoDup (omap f (map_to_list m)).
Proof.
  intros Hf. apply NoDup_omap; [apply NoDup_map_to_list|]. intros [k1 v1] [k2 v2] z H1 H2 E1 E2.
  pose proof (Hf _ _ _ E1 E2) as E. cbn in E. subst k2. apply elem_of_map_to_list in H1, H2. congruence.
Qed.

(** File names are ordered as the subjects are listed. *)
Definition pem_le (x y : string) : Prop := String.le (x +:+ ".pem") (y +:+ ".pem").
Lemma pem_names_sorted names : StronglySorted String.le names -> StronglySorted pem_le (omap pem_name names).
Proof.
  induction 1 as [|n names _ IH Hn]; cbn; [constructor|]. destruct (pem_name n) as [x|] eqn:E; [|done].
  apply pem_name_Some in E as ->. constructor; [done|]. apply Forall_forall.
  intros y (m & Hm & ->%pem_name_Some)%list_elem_of_omap. by eapply Forall_forall in Hn.
Qed.
#[global] Instance pem_le_antisymm : AntiSymm (=) pem_le.
Proof. intros x y H1 H2. pose proof (anti_symm String.le _ _ H1 H2) as E. apply pem_name_Some in E.
  rewrite (proj2 (pem_name_Some _ x) eq_refl) in E. congruence. Qed.

#[global] Instance pem_le_total : Total pem_le.
Proof. intros x y. apply (total String.le). Qed.

Section Cadir.
Context (baseDir temp : string) (Htemp : all_bytes isDigit temp = true).
Notation file_of := (file_of baseDir).
Notation top := (fsCAKeyPath baseDir).
Notation legacy := (fsLegacyCAKeyPath baseDir).
Notation dirs := (cadir_dirs baseDir).

(** ** Names *)

Lemma dir_of_inj a b : dir_of baseDir a = dir_of baseDir b -> a = b.
Proof.
  unfold dir_of. repeat case_bool_decide; subst; try done; intros E.
  - apply (f_equal String.length) in E. rewrite !length_str_app in E. cbn in E. lia.
  - apply (f_equal String.length) in E. rewrite !length_str_app in E. cbn in E. lia.
  - apply str_app_inj_l in E. by injection E.
Qed.

Lemma file_of_inj k1 k2 p : file_of k1 = Some p -> file_of k2 = Some p -> k1 = k2.
Proof.
  intros ([d1 n1] & E1 & ->)%fmap_Some ([d2 n2] & E2 & E)%fmap_Some. injection E as Ed En.
  apply dir_of_inj in Ed. subst. by eapply layout_inj.
Qed.

(** Nothing else is where the CA key may be. *)
Lemma layout_not_key key sub : layout_of key <> Some (sub, "ca_key.pem") \/ sub = "requests" \/ sub = "signed".
Proof.
  destruct (decide (layout_of key = Some (sub, "ca_key.pem"))) as [E|]; [right|by left].
  destruct (layout_cases _ _ E) as [H|[(s & _ & [= ->])|(s & _ & [= ->])]]; [|by left|by right]. in_table H.
Qed.
Lemma file_of_not_key key p : file_of key = Some p -> p <> top /\ p <> legacy.
Proof.
  intros ([d n] & E & ->)%fmap_Some. unfold fsCAKeyPath, fsLegacyCAKeyPath.
  split; intros [= Ed ->]; apply dir_of_inj in Ed; cbn in Ed; subst d; match type of E with layout_of _ = Some (?s, _) => destruct (layout_not_key key s) as [|[|]] end; done.
Qed.
Lemma top_legacy : top <> legacy.
Proof. by intros [= ?%dir_of_inj]. Qed.

(** Nor does a temporary file have the name of anything. *)
Lemma file_of_temp key p q : file_of key = Some p -> p <> temp_of temp q.
Proof.
  intros ([d n] & E & ->)%fmap_Some [= _ ->]. pose proof (pem_temp temp Htemp) as Hpem.
  destruct (layout_cases _ _ E) as [H|[(s & _ & [= _ H])|(s & _ & [= _ H])]].
  2,3: apply pem_name_Some in H; cbn in Hpem, H; congruence.
  in_table H.
Qed.
Lemma key_temp q : top <> temp_of temp q /\ legacy <> temp_of temp q.
Proof. split; by intros [=]. Qed.

Lemma inside_file key p : file_of key = Some p -> p.1 ∈ dirs.
Proof.
  intros ([d n] & E & ->)%fmap_Some. unfold at_base, cadir_dirs. cbn [fst map].
  destruct (layout_cases _ _ E) as [H|[(s & _ & [= -> _])|(s & _ & [= -> _])]]; [|set_solver..].
  in_table H; set_solver.
Qed.
Lemma inside_key : top.1 ∈ dirs /\ legacy.1 ∈ dirs.
Proof. unfold fsCAKeyPath, fsLegacyCAKeyPath, at_base, cadir_dirs. cbn [fst map]. set_solver. Qed.

(** ** The backend a directory represents *)

(** Where a key's blob may be. *)
Definition key_file (key : string) (p : path) : Prop :=
  file_of key = Some p \/ key = KeyCAKey /\ (p = top \/ p = legacy).
Definition known (key : string) : Prop := key = KeyCAKey \/ is_Some (file_of key).

(** A file, or a link out of the directory to one. *)
Definition outside (p : path) : Prop := p.1 ∉ dirs.
Definition copy_at (s : FS) (p : path) (data : blob) : Prop :=
  (exists m, fs_nodes s !! p = Some (NFile (Some data) m)) \/
  exists t m, fs_nodes s !! p = Some (NLink t) /\ outside t /\ fs_nodes s !! t = Some (NFile (Some data) m).

(** The CA key is at the top, perhaps with the same key in private/, or only
    in private/. *)
Definition ca_key_at (s : FS) (v : option blob) : Prop :=
  match v with
  | None => fs_nodes s !! top = None /\ fs_nodes s !! legacy = None
  | Some data =>
      copy_at s top data /\ (fs_nodes s !! legacy = None \/ copy_at s legacy data) \/
      fs_nodes s !! top = None /\ copy_at s legacy data
  end.

Definition held (s : FS) (key : string) (v : option blob) : Prop :=
  if bool_decide (key = KeyCAKey) then ca_key_at s v
  else forall p, file_of key = Some p ->
    match v with
    | None => fs_nodes s !! p = None
    | Some data => (exists m, fs_nodes s !! p = Some (NFile (Some data) m)) /\ is_Some (fs_dirs s !! p.1)
    end.

(** The files of what only the CA may read are closed to others. *)
Definition closed (s : FS) (key : string) : Prop :=
  key ∈ private_keys -> forall p d m, key_file key p -> fs_nodes s !! p = Some (NFile d m) -> Z.ldiff m FilePermPrivate = 0.

Record cadir (s : FS) (b : Backend) : Prop := Cadir {
  cd_plain : structured b = false;
  cd_held : forall key, known key -> held s key (blobs b !! key);
  cd_closed : forall key, closed s key }.

Lemma ca_key_unlisted : file_of KeyCAKey = None.
Proof. done. Qed.

Lemma key_file_inside key p : key_file key p -> p.1 ∈ dirs.
Proof. intros [H|[_ [-> | ->]]]; [by eapply inside_file|apply inside_key..]. Qed.
Lemma key_file_temp key p q : key_file key p -> p <> temp_of temp q.
Proof. intros [H|[_ [-> | ->]]]; [by eapply file_of_temp|apply key_temp..]. Qed.
Lemma key_file_inj k1 k2 p : key_file k1 p -> key_file k2 p -> k1 = k2.
Proof.
  intros [H1|[-> H1]] [H2|[-> H2]]; [by eapply file_of_inj| | |done].
  - destruct (file_of_not_key _ _ H1), H2; done.
  - destruct (file_of_not_key _ _ H2), H1; done.
Qed.

Lemma copy_frame s s' p data :
  fs_nodes s' !! p = fs_nodes s !! p -> (forall x, outside x -> fs_nodes s' !! x = fs_nodes s !! x) ->
  copy_at s p data -> copy_at s' p data.
Proof.
  intros Hp Ho [[m E]|(t & m & E & Ht & Et)]; [left; exists m; congruence|].
  right. exists t, m. rewrite Hp, (Ho t Ht). done.
Qed.

(** Directories are made and never removed. *)
Definition dirs_kept (s s' : FS) : Prop := forall d, is_Some (fs_dirs s !! d) -> is_Some (fs_dirs s' !! d).

Lemma held_frame s s' key v :
  dirs_kept s s' ->
  (forall x, key_file key x \/ outside x -> fs_nodes s' !! x = fs_nodes s !! x) -> held s key v -> held s' key v.
Proof.
  unfold held. intros Hd Hx. case_bool_decide as Hk.
  - assert (fs_nodes s' !! top = fs_nodes s !! top) as Et by (apply Hx; left; right; auto).
    assert (fs_nodes s' !! legacy = fs_nodes s !! legacy) as El by (apply Hx; left; right; auto).
    assert (forall p d, p = top \/ p = legacy -> copy_at s p d -> copy_at s' p d) as Hc.
    { intros p d [-> | ->]; apply copy_frame; auto. }
    destruct v; cbn; rewrite Et, El; naive_solver.
  - intros H p Hp. specialize (H p Hp). rewrite (Hx p) by (left; by left). destruct v; [|done]. destruct H. auto.
Qed.

(** *** Changing one key *)

Definition set_key (key : string) (v : option blob) (b : Backend) : Backend :=
  set_blobs (match v with Some d => <[key := d]> (blobs b) | None => delete key (blobs b) end) b.
Lemma lookup_set_key key v b k : blobs (set_key key v b) !! k = if bool_decide (k = key) then v else blobs b !! k.
Proof.
  unfold set_key. destruct v; cbn; case_bool_decide; subst;
    rewrite ?lookup_insert_eq, ?lookup_delete_eq, ?lookup_insert_ne, ?lookup_delete_ne by done; done.
Qed.

Lemma set_key_id key b : set_key key (blobs b !! key) b = b.
Proof.
  unfold set_key, set_blobs. destruct b as [st m r]. cbn. f_equal.
  destruct (m !! key) eqn:E; [by apply insert_id|by apply delete_id].
Qed.

Lemma cadir_set key v s s' b q :
  cadir s b -> known key -> q.1 ∈ dirs -> dirs_kept s s' ->
  (forall x, ~ key_file key x -> x <> temp_of temp q -> fs_nodes s' !! x = fs_nodes s !! x) ->
  held s' key v -> closed s' key -> cadir s' (set_key key v b).
Proof.
  intros [Hst Hh Hc] Hk Hq Hd Hx Hv Hcl. split; [done| |].
  - intros k Hk'. rewrite lookup_set_key. case_bool_decide as E; [by subst|].
    apply (held_frame s); [done| |by apply Hh]. intros x [H|H].
    + apply Hx; [|by eapply key_file_temp]. intros H'. by destruct E; eapply key_file_inj.
    + apply Hx; [intros H'%key_file_inside; done|]. intros ->. by apply H.
  - intros k. destruct (decide (k = key)) as [->|E]; [done|]. intros Hp p d m Hf Hm. apply (Hc k Hp p d m Hf).
    rewrite <- Hx; [done| |by eapply key_file_temp]. intros H'. by destruct E; eapply key_file_inj.
Qed.

(** Nothing but a temporary file has changed. *)
Lemma cadir_same s s' b q :
  cadir s b -> q.1 ∈ dirs -> dirs_kept s s' -> (forall x, x <> temp_of temp q -> fs_nodes s' !! x = fs_nodes s !! x) -> cadir s' b.
Proof.
  intros [Hst Hh Hc] Hq Hd Hx. split; [done| |].
  - intros k Hk'. apply (held_frame s); [done| |by apply Hh]. intros x [H|H]; apply Hx; [by eapply key_file_temp|].
    intros ->. by apply H.
  - intros k Hp p d m Hf Hm. apply (Hc k Hp p d m Hf). rewrite <- Hx; [done|by eapply key_file_temp].
Qed.
Lemma cadir_nodes s s' b : cadir s b -> dirs_kept s s' -> fs_nodes s' = fs_nodes s -> cadir s' b.
Proof. intros H Hd E. apply (cadir_same s s' b top H); [apply inside_key|done|]. by rewrite E. Qed.

(** ** Looking *)

(** A program that only reads. *)
Definition quiet {A} (p : files A) (s : FS) (R : result A -> Prop) : Prop :=
  forall I : FS -> Prop, I s -> always I p (fun r s' => s' = s /\ R r) s.

Lemma quiet_ret {A} r s (R : result A -> Prop) : R r -> quiet (Ret r) s R.
Proof. by intros H I HI. Qed.
Lemma quiet_read {A B} (f : FS -> result B) (k : result B -> files A) s R :
  quiet (k (f s)) s R -> (forall e, io_error e -> quiet (k (Err e)) s R) -> quiet (Call (fun s => (f s, s)) k) s R.
Proof. intros H1 H2 I HI. apply always_read; [done|by apply H1|intros e He; by apply H2]. Qed.
Lemma quiet_bind {A B} (p : files A) (k : A -> files B) s R R' :
  quiet p s R -> (forall a, R (Ok a) -> quiet (k a) s R') -> (forall e, R' (Err e)) -> quiet (p ≫= k) s R'.
Proof.
  intros H1 H2 H3 I HI. apply always_bind. eapply always_mono; [done| |by apply H1].
  intros [a|e] s' _ [-> HR]; [by apply H2|by split].
Qed.
Lemma quiet_mono {A} (p : files A) s (R R' : result A -> Prop) : (forall r, R r -> R' r) -> quiet p s R -> quiet p s R'.
Proof. intros H1 H2 I HI. eapply always_mono; [done| |by apply H2]. intros r s' _ [? ?]. split; auto. Qed.

(** After a program that only reads. *)
Lemma always_quiet {A B} I (p : files A) (k : A -> files B) Q s R :
  quiet p s R -> I s -> (forall a, R (Ok a) -> always I (k a) Q s) -> (forall e, Q (Err e) s) -> always I (p ≫= k) Q s.
Proof.
  intros H1 HI H2 H3. apply always_bind. eapply always_mono; [done| |by apply H1].
  intros [a|e] s' _ [-> HR]; auto.
Qed.

Definition key_home (s : FS) : path :=
  match fs_nodes s !! top, fs_nodes s !! legacy with None, Some _ => legacy | _, _ => top end.

Lemma caKeyLocation_quiet s : quiet (caKeyLocation baseDir) s (fun r => forall p, r = Ok p -> p = key_home s).
Proof.
  unfold caKeyLocation, lstat, key_home. apply quiet_read; unfold os_Lstat.
  - destruct (fs_nodes s !! top); [apply quiet_ret; by intros ? [= <-]|]. cbn.
    apply quiet_read; unfold os_Lstat.
    + destruct (fs_nodes s !! legacy); cbn; apply quiet_ret; by intros ? [= <-].
    + intros e ->. by apply quiet_ret.
  - intros e ->. by apply quiet_ret.
Qed.

Lemma readCAKeyCopy_quiet p s :
  quiet (readCAKeyCopy p) s (fun r => forall v, r = Ok v ->
    match v with None => fs_nodes s !! p = None | Some d => is_Some (fs_nodes s !! p) /\ os_ReadFile p s = Ok d end).
Proof.
  unfold readCAKeyCopy, lstat. apply quiet_read; unfold os_Lstat; [|intros e ->; by apply quiet_ret].
  destruct (fs_nodes s !! p) eqn:E; [|apply quiet_ret; by intros ? [= <-]].
  apply quiet_read; [|intros e ->; by apply quiet_ret].
  destruct (os_ReadFile p s) as [d|e] eqn:Er; [apply quiet_ret; intros ? [= <-]; eauto|].
  destruct (errors_Is e FsErrNotExist); by apply quiet_ret.
Qed.

Lemma checkCAKeyConflict_quiet s :
  quiet (checkCAKeyConflict baseDir) s (fun r => r = Ok tt ->
    fs_nodes s !! top = None \/ fs_nodes s !! legacy = None \/
    exists d, os_ReadFile top s = Ok d /\ os_ReadFile legacy s = Ok d).
Proof.
  unfold checkCAKeyConflict. eapply quiet_bind; [apply readCAKeyCopy_quiet| |done].
  intros [t|] Ht; specialize (Ht _ eq_refl); [|apply quiet_ret; by left].
  eapply quiet_bind; [apply readCAKeyCopy_quiet| |done].
  intros [l|] Hl; specialize (Hl _ eq_refl); [|apply quiet_ret; right; by left].
  case_bool_decide as E; [|by apply quiet_ret]. apply quiet_ret. intros _. right. right. subst l. exists t. naive_solver.
Qed.

Lemma pathFor_quiet key s :
  quiet (pathFor baseDir key) s (fun r => forall p, r = Ok p ->
    validateKey key = None /\ if bool_decide (key = KeyCAKey) then p = key_home s else file_of key = Some p).
Proof.
  unfold pathFor. destruct (validateKey key); [by apply quiet_ret|]. case_bool_decide.
  - eapply quiet_mono; [|apply caKeyLocation_quiet]. auto.
  - destruct (file_of key) eqn:E; apply quiet_ret; [|done]. by intros ? [= <-].
Qed.

Lemma key_home_file s : key_file KeyCAKey (key_home s).
Proof. right. split; [done|]. unfold key_home. repeat case_match; auto. Qed.

(** What there is of a copy can be read. *)
Lemma copy_reads s p d : copy_at s p d ->
  os_ReadFile p s = Ok d /\ (exists n, os_Stat p s = Ok n) /\ is_Some (fs_nodes s !! p).
Proof.
  unfold os_ReadFile, os_Stat, max_links.
  intros [[m E]|(t & m & E & _ & Et)]; cbn [follow]; rewrite E; [eauto|]. cbn [follow]. rewrite Et. eauto.
Qed.

Lemma ca_key_home s v : ca_key_at s v ->
  match v with None => fs_nodes s !! key_home s = None | Some d => copy_at s (key_home s) d end.
Proof.
  unfold key_home. destruct v as [d|]; cbn.
  - intros [[Ht _]|[Ht Hl]].
    + destruct (copy_reads _ _ _ Ht) as (_ & _ & [n ->]). done.
    + rewrite Ht. by destruct (copy_reads _ _ _ Hl) as (_ & _ & [n ->]).
  - intros [Et El]. by rewrite Et, El.
Qed.

(** ** The CA key before a write *)

Definition without_legacy (s : FS) : FS := put_nodes (delete legacy (fs_nodes s)) s.

Lemma cadir_without s b : cadir s b -> key_home s = top -> cadir (without_legacy s) b.
Proof.
  intros H Hh. pose proof (cd_held _ _ H KeyCAKey (or_introl eq_refl)) as Hk. unfold held in Hk. rewrite bool_decide_true in Hk by done.
  rewrite <- (set_key_id KeyCAKey b).
  assert (forall x, x <> legacy -> fs_nodes (without_legacy s) !! x = fs_nodes s !! x) as Hx
    by (intros x Hx; cbn; by rewrite lookup_delete_ne).
  apply (cadir_set _ _ s _ _ top); [done|by left|apply inside_key|by intros ?| | |].
  - intros x Hn _. apply Hx. intros ->. apply Hn. right. auto.
  - unfold held. rewrite bool_decide_true by done. destruct (blobs b !! KeyCAKey) as [d|]; cbn in *; rewrite lookup_delete_eq.
    + left. split; [|by left]. destruct Hk as [[Ht _]|[Ht Hl]].
      * apply (copy_frame s); [by apply Hx, top_legacy| |done]. intros x Ho. apply Hx. intros ->. apply Ho, inside_key.
      * unfold key_home in Hh. rewrite Ht in Hh. destruct (copy_reads _ _ _ Hl) as (_ & _ & [n E]). rewrite E in Hh.
        by destruct top_legacy.
    + rewrite lookup_delete_ne by (symmetry; apply top_legacy). by destruct Hk.
  - intros Hp p d m Hf. cbn. intros [Hne E]%lookup_delete_Some. by apply (cd_closed _ _ H KeyCAKey Hp p d m).
Qed.

(** Ready for a write at [p]: the key is nowhere else. *)
Definition sole (p : path) (s : FS) : Prop :=
  p = top /\ fs_nodes s !! legacy = None \/ p = legacy /\ fs_nodes s !! top = None.

Lemma remove_cases s p :
  (exists e, os_Remove p s = (Err e, s) /\ (errors_Is e FsErrNotExist = true -> fs_nodes s !! p = None)) \/
  os_Remove p s = (Ok tt, put_nodes (delete p (fs_nodes s)) s) /\ is_Some (fs_nodes s !! p).
Proof.
  unfold os_Remove. destruct (fs_nodes s !! p) eqn:En; [|eauto].
  destruct (fs_dirs s !! p.1) as [[]|] eqn:Ed; eauto; left; eexists; (split; [done|]); by intros [=].
Qed.

Lemma removeLegacy_always s b p :
  cadir s b -> p = key_home s ->
  always (fun s' => cadir s' b) (removeLegacyCAKeyCopy baseDir p)
    (fun r s' => cadir s' b /\ (r = Ok tt -> sole p s' /\ fs_nodes s' !! p = fs_nodes s !! p)) s.
Proof.
  intros H ->. unfold removeLegacyCAKeyCopy. eapply always_quiet; [apply checkCAKeyConflict_quiet|done| |by intros].
  intros [] _. case_bool_decide as Eh.
  - split; [done|]. split; [done|]. intros _. split; [|done]. rewrite <- Eh. right. split; [done|].
    unfold key_home in Eh. repeat case_match; try done; by destruct top_legacy.
  - assert (key_home s = top) as Et by (unfold key_home in *; repeat case_match; done). rewrite Et.
    split; [done|]. intros r s' Hr. pose proof (cadir_without s b H Et) as Hw.
    destruct (remove_cases s legacy) as [(e & E & Hn)|[E _]].
    + destruct Hr as [|e' He|e' He]; rewrite ?E; cbn [fst snd]; [|rewrite He; by split..].
      destruct (errors_Is e FsErrNotExist); [|by split]. split; [done|]. split; [done|]. intros _. split; [left; auto|done].
    + change (put_nodes (delete legacy (fs_nodes s)) s) with (without_legacy s) in E.
      destruct Hr as [|e' He|e' He]; rewrite ?E; cbn [fst snd]; [|rewrite He; by split..].
      split; [done|]. split; [done|]. intros _. unfold sole. cbn [without_legacy put_nodes fs_nodes]. rewrite lookup_delete_eq, lookup_delete_ne by (symmetry; apply top_legacy).
      split; [left; auto|done].
Qed.

(** ** Writing and removing *)

Lemma home_held s p data perm :
  sole p s -> fs_nodes s !! p = Some (NFile (Some data) perm) -> ca_key_at s (Some data).
Proof. intros [[-> Hl]|[-> Ht]] E; [left|right]; (split; [|]); auto; left; eauto. Qed.
Lemma home_gone s p : sole p s -> fs_nodes s !! p = None -> ca_key_at s None.
Proof. by intros [[-> Hl]|[-> Ht]] E. Qed.

(** What a write or a delete of [key] acts on. *)
Definition aimed (key : string) (p : path) (s : FS) : Prop :=
  if bool_decide (key = KeyCAKey) then sole p s else file_of key = Some p.

Lemma aimed_file key p s : aimed key p s -> key_file key p.
Proof. unfold aimed. case_bool_decide; [|by left]. intros [[-> _]|[-> _]]; right; auto. Qed.

Lemma aimed_known key p s : aimed key p s -> known key.
Proof. unfold aimed, known. case_bool_decide; [by left|]. right. eauto. Qed.

Lemma prepare_always {A} key s b (I : FS -> Prop) (k : path -> files A) Q :
  cadir s b -> (forall s', cadir s' b -> I s') -> (forall e s', cadir s' b -> Q (Err e) s') ->
  (forall p s', validateKey key = None -> cadir s' b -> aimed key p s' -> always I (k p) Q s') ->
  always I (p ← pathFor baseDir key; _ ← when_ca_key key (removeLegacyCAKeyCopy baseDir p); k p) Q s.
Proof.
  intros H HI HQ Hk. eapply always_quiet; [apply pathFor_quiet|auto| |auto].
  intros p Hp. destruct (Hp _ eq_refl) as [Hval Hpk]. unfold when_ca_key, aimed in *. case_bool_decide as Ek.
  - apply always_bind. eapply (always_mono (fun s' => cadir s' b)); [exact HI| |by apply (removeLegacy_always s b p)].
    intros [[]|e] s' _ [Hc Hs]; [|by apply HQ]. apply Hk; [done..|]. by apply Hs.
  - apply always_bind. split; [auto|]. by apply Hk.
Qed.

(** A file has been replaced, or nothing has changed. *)
Lemma cadir_written key p data perm s s' b :
  cadir s b -> aimed key p s -> is_Some (fs_dirs s !! p.1) -> (key ∈ private_keys -> perm = FilePermPrivate) ->
  replaced_or_not temp p data perm s s' -> fs_nodes s' !! p = Some (NFile (Some data) perm) ->
  cadir s' (set_key key (Some data) b).
Proof.
  intros H Ha Hdir Hperm [D O _] T. pose proof (aimed_file _ _ _ Ha) as Hf. pose proof (key_file_inside _ _ Hf) as Hin.
  apply (cadir_set key (Some data) s s' b p); [done|by eapply aimed_known|done|intros d; by rewrite D| | |].
  - intros x Hx Ht. apply O; [|done]. by intros ->.
  - unfold held, aimed in *. case_bool_decide as Ek.
    + apply (home_held s' p data perm); [|done].
      destruct Ha as [[-> Hl]|[-> Hl]]; [left|right]; (split; [done|]); rewrite O; try done;
        [symmetry; apply top_legacy|apply top_legacy].
    + intros q Hq. rewrite Ha in Hq. injection Hq as <-. rewrite D. eauto.
  - intros Hp q d m Hq Hm. destruct (decide (q = p)) as [->|Hne]; [rewrite T in Hm; injection Hm as <- <-; by rewrite Hperm|].
    rewrite O in Hm; [|done|by eapply key_file_temp]. by eapply (cd_closed _ _ H key).
Qed.

Lemma cadir_replaced key p data perm s s' b :
  cadir s b -> aimed key p s -> is_Some (fs_dirs s !! p.1) -> (key ∈ private_keys -> perm = FilePermPrivate) ->
  replaced_or_not temp p data perm s s' -> cadir s' b \/ cadir s' (set_key key (Some data) b).
Proof.
  intros H Ha Hdir Hperm HR. destruct (ron_target _ _ _ _ _ _ HR) as [T|T]; [left|right; by eapply cadir_written].
  destruct HR as [D O _].
  apply (cadir_same s s' b p); [done|by eapply key_file_inside, aimed_file|intros d; by rewrite D|].
  intros x Hx. destruct (decide (x = p)) as [->|]; auto.
Qed.

Lemma be_Put_set key data b :
  structured b = false -> validateKey key = None -> be_Put key data b = (Ok tt, set_key key (Some data) b).
Proof. intros E1 E2. unfold be_Put, guarded, on_rows. by rewrite E1, E2. Qed.
Lemma be_Delete_set key b :
  structured b = false -> validateKey key = None -> is_Some (blobs b !! key) -> be_Delete key b = (Ok tt, set_key key None b).
Proof. intros E1 E2 [v E3]. unfold be_Delete, guarded, on_rows. by rewrite E1, E2, E3. Qed.

Lemma mkdir_cases dir s :
  (exists e, os_MkdirAll dir s = (Err e, s)) \/
  exists m, os_MkdirAll dir s = (Ok tt, mkFS m (fs_nodes s)) /\ is_Some (m !! dir) /\
    forall d, is_Some (fs_dirs s !! d) -> is_Some (m !! d).
Proof.
  unfold os_MkdirAll. destruct (fs_dirs s !! dir) as [[]|] eqn:E; eauto; right.
  1,2: exists (fs_dirs s); destruct s; split; [done|]; cbn in *; rewrite E; eauto.
  exists (<[dir := DirWritable]> (fs_dirs s)). split; [done|]. rewrite lookup_insert_eq. split; [eauto|].
  intros d Hd. destruct (decide (d = dir)) as [->|]; [rewrite lookup_insert_eq; eauto|by rewrite lookup_insert_ne].
Qed.

Lemma mkdir_always {A} (I : FS -> Prop) (p : path) s b (k : files A) Q :
  cadir s b -> (forall s', cadir s' b -> I s') -> (forall e s', cadir s' b -> Q (Err e) s') ->
  (forall s', cadir s' b -> fs_nodes s' = fs_nodes s -> is_Some (fs_dirs s' !! p.1) -> always I k Q s') ->
  always I (or_error (os_MkdirAll p.1) (fun _ => k)) Q s.
Proof.
  intros H HI HQ Hk. split; [auto|]. intros r s' Hr.
  destruct (mkdir_cases p.1 s) as [[e E]|(m & E & Hm & Hd)].
  - destruct Hr as [|e' _|e' _]; rewrite ?E; cbn [fst snd]; split; auto.
  - assert (cadir (mkFS m (fs_nodes s)) b) as H' by (by apply (cadir_nodes s)).
    destruct Hr as [|e' _|e' _]; rewrite ?E; cbn [fst snd]; [by apply Hk|split; auto..].
Qed.

Lemma fs_Put_always key data kind s b :
  cadir s b -> (key ∈ private_keys -> kind = BlobPrivate) ->
  always (fun s' => cadir s' b \/ cadir s' (be_Put key data b).2) (fs_Put baseDir temp None key data kind)
    (fun r s' => forall v, r = Ok v -> (be_Put key data b).1 = Ok v /\ cadir s' (be_Put key data b).2) s.
Proof.
  intros H Hkind. assert (key ∈ private_keys -> permFor kind = FilePermPrivate) as Hperm by (intros Hp; by rewrite (Hkind Hp)).
  apply (prepare_always key s b); [done|by left|by intros|].
  intros p s1 Hval H1 Ha. rewrite be_Put_set by (done || apply H).
  apply (mkdir_always _ p s1 b); [done|by left|by intros|]. intros s2 H2 En Hd.
  assert (aimed key p s2) as Ha2 by (unfold aimed, sole in *; by rewrite En).
  eapply always_mono; [| |apply AtomicWriteFile_always; symmetry; eapply key_file_temp, aimed_file, Ha2].
  - intros s3 H3. by eapply cadir_replaced.
  - cbn. intros r s3 _ [H3 Hw] [] ->. split; [done|]. by eapply cadir_written; [..|apply Hw].
Qed.

Lemma aimed_held key p s b :
  cadir s b -> aimed key p s ->
  match blobs b !! key with None => fs_nodes s !! p = None | Some data => copy_at s p data end.
Proof.
  intros H Ha. pose proof (cd_held _ _ H key (aimed_known _ _ _ Ha)) as Hk. unfold held, aimed in *. case_bool_decide.
  - destruct (blobs b !! key) as [d|]; cbn in Hk; [|by destruct Hk, Ha as [[-> _]|[-> _]]].
    assert (forall q, fs_nodes s !! q = None -> copy_at s q d -> copy_at s p d) as Hno.
    { intros q En (_ & _ & [n Eq])%copy_reads. congruence. }
    destruct Ha as [[-> Hl]|[-> Ht]], Hk as [[Hk _]|[_ Hk]]; eauto.
  - specialize (Hk p Ha). destruct (blobs b !! key); [|done]. left. by destruct Hk.
Qed.

Lemma cadir_removed key p s b :
  cadir s b -> aimed key p s -> cadir (put_nodes (delete p (fs_nodes s)) s) (set_key key None b).
Proof.
  intros H Ha. pose proof (aimed_file _ _ _ Ha) as Hf. pose proof (key_file_inside _ _ Hf) as Hin.
  apply (cadir_set key None s _ b p); [done|by eapply aimed_known|done|by intros ?| | |].
  - intros x Hx _. cbn. apply lookup_delete_ne. by intros ->.
  - unfold held, aimed in *. case_bool_decide as Ek.
    + apply (home_gone _ p); [|apply lookup_delete_eq].
      destruct Ha as [[-> Hl]|[-> Hl]]; [left|right]; (split; [done|]); cbn; rewrite lookup_delete_ne; try done;
        [apply top_legacy|symmetry; apply top_legacy].
    + intros q Hq. rewrite Ha in Hq. injection Hq as <-. apply lookup_delete_eq.
  - intros Hp q d m Hq. cbn. intros [_ Hm]%lookup_delete_Some. by eapply (cd_closed _ _ H key).
Qed.

Lemma fs_Delete_always key s b :
  cadir s b ->
  always (fun s' => cadir s' b \/ cadir s' (be_Delete key b).2) (fs_Delete baseDir None key)
    (fun r s' => forall v, r = Ok v -> (be_Delete key b).1 = Ok v /\ cadir s' (be_Delete key b).2) s.
Proof.
  intros H. apply (prepare_always key s b); [done|by left|by intros|].
  intros p s1 Hval H1 Ha. split; [by left|]. intros r s2 Hr.
  destruct (remove_cases s1 p) as [(e & E & _)|[E Hs]].
  - destruct Hr as [|e' _|e' _]; rewrite ?E; cbn [fst snd]; (split; [by left|done]).
  - assert (cadir (put_nodes (delete p (fs_nodes s1)) s1) (be_Delete key b).2 /\ (be_Delete key b).1 = Ok tt) as [Hd Eok].
    { rewrite be_Delete_set; [split; [|done]|apply H|done|].
      - by apply cadir_removed.
      - pose proof (aimed_held _ _ _ _ H1 Ha) as Hh. destruct (blobs b !! key); [eauto|]. rewrite Hh in Hs. by destruct Hs. }
    destruct Hr as [|e' _|e' _]; rewrite ?E; cbn [fst snd]; (split; [auto|try done]).
    intros [] _. done.
Qed.
(** ** Reading *)

(** What is at the place that an operation looks at. *)
Definition found (s : FS) (p : path) (v : option blob) : Prop :=
  match v with None => fs_nodes s !! p = None | Some d => copy_at s p d end.

Lemma found_reads s p v :
  found s p v -> os_ReadFile p s = match v with None => Err (not_exist "stat") | Some d => Ok d end.
Proof.
  destruct v as [d|]; cbn; [by intros (-> & _)%copy_reads|]. intros E. unfold os_ReadFile, os_Stat, max_links.
  cbn [follow]. by rewrite E.
Qed.

Lemma pathFor_found key s b :
  cadir s b -> known key ->
  quiet (pathFor baseDir key) s (fun r => forall p, r = Ok p -> validateKey key = None /\ found s p (blobs b !! key)).
Proof.
  intros H Hk. eapply quiet_mono; [|apply pathFor_quiet]. intros r Hr p ->. destruct (Hr p eq_refl) as [Hv Hp].
  split; [done|]. pose proof (cd_held _ _ H key Hk) as Hh. unfold held in Hh. case_bool_decide.
  - subst p. by apply ca_key_home.
  - specialize (Hh p Hp). destruct (blobs b !! key); [|done]. left. by destruct Hh.
Qed.

(** A reading operation keeps its promise. *)
Lemma quiet_backs {A} (p : files A) s b (op : BOp A) :
  cadir s b -> (op b).2 = b -> quiet p s (fun r => forall v, r = Ok v -> (op b).1 = Ok v) ->
  always (fun s' => cadir s' b \/ cadir s' (op b).2) p (fun r s' => forall v, r = Ok v -> (op b).1 = Ok v /\ cadir s' (op b).2) s.
Proof.
  intros H E Hq. rewrite E. eapply always_mono; [| |apply (Hq (fun s' => cadir s' b) H)]; [by left|].
  intros r s' Hc [-> Hr] v ->. auto.
Qed.

Lemma be_Get_plain key b : structured b = false -> validateKey key = None ->
  be_Get key b = (match blobs b !! key with None => Err (not_exist "get") | Some d => Ok d end, b).
Proof. intros E1 E2. unfold be_Get, guarded, on_rows. rewrite E1, E2. by destruct (blobs b !! key). Qed.

Lemma be_quiet {A} (o : bop A) b :
  match o with OpGet _ | OpExists _ | OpList _ => (be_spec o b).2 = b | _ => True end.
Proof.
  destruct o; try done; cbn; unfold be_Get, be_Exists, be_List, guarded; repeat case_match; done.
Qed.

Lemma fs_Get_quiet key s b :
  cadir s b -> known key -> quiet (fs_Get baseDir None key) s (fun r => forall v, r = Ok v -> (be_Get key b).1 = Ok v).
Proof.
  intros H Hk. eapply quiet_bind; [by apply (pathFor_found key s b)| |done].
  intros p Hp. destruct (Hp p eq_refl) as [Hv Hf]. rewrite be_Get_plain by (done || apply H). cbn [fst].
  pose proof (found_reads _ _ _ Hf) as Hr. case_bool_decide.
  - eapply quiet_bind; [apply checkCAKeyConflict_quiet| |done]. intros [] _.
    eapply quiet_bind; [apply readCAKeyCopy_quiet| |done]. intros [d|] Hd; apply quiet_ret; [|done].
    intros v [= <-]. destruct (Hd _ eq_refl) as [Hs Ed]. rewrite Ed in Hr. by destruct (blobs b !! key); simplify_eq.
  - apply quiet_read; [|intros e _; by apply quiet_ret]. rewrite Hr.
    destruct (blobs b !! key); apply quiet_ret; [|done]. by intros v [= <-].
Qed.

Lemma fs_Exists_quiet key s b :
  cadir s b -> known key -> quiet (fs_Exists baseDir None key) s (fun r => forall v, r = Ok v -> (be_Exists key b).1 = Ok v).
Proof.
  intros H Hk. eapply quiet_bind; [by apply (pathFor_found key s b)| |done].
  intros p Hp. destruct (Hp p eq_refl) as [Hv Hf]. unfold be_Exists, guarded. rewrite Hv. cbn [fst].
  apply quiet_read; [|intros e ->; by apply quiet_ret]. destruct (blobs b !! key) as [d|]; cbn in Hf.
  - destruct (copy_reads _ _ _ Hf) as (_ & [n ->] & _). apply quiet_ret. by intros v [= <-].
  - unfold os_Stat, max_links. cbn [follow]. rewrite Hf. replace (errors_Is (not_exist "stat") FsErrNotExist) with true by done.
    destruct (bool_decide (key = KeyCAKey)).
    + apply quiet_read; unfold os_Lstat; [rewrite Hf|intros e _]; apply quiet_ret; by intros v [= <-].
    + apply quiet_ret. by intros v [= <-].
Qed.
Lemma listed_subject prefix dir s b subj :
  cadir s b -> (prefix, dir) ∈ [(csrPrefix, "requests"); (certPrefix, "signed")] ->
  is_Some (fs_nodes s !! (dir_of baseDir dir, subj +:+ ".pem")) <-> is_Some (blobs b !! (prefix +:+ subj)).
Proof.
  intros H Hp. assert (file_of (prefix +:+ subj) = Some (dir_of baseDir dir, subj +:+ ".pem")) as Ef
    by (unfold FileBackend.file_of; by rewrite (layout_subject _ _ _ Hp)).
  pose proof (cd_held _ _ H (prefix +:+ subj) (or_intror (mk_is_Some _ _ Ef))) as Hh. unfold held in Hh.
  case_bool_decide as Ek; [by rewrite Ek in Ef|]. specialize (Hh _ Ef).
  destruct (blobs b !! (prefix +:+ subj)); [destruct Hh as [[m ->] _]|rewrite Hh]; by split.
Qed.

Lemma listing_agrees prefix dir s b :
  cadir s b -> (prefix, dir) ∈ [(csrPrefix, "requests"); (certPrefix, "signed")] ->
  omap pem_name (merge_sort String.le (omap (fun kv : path * node => if bool_decide (kv.1.1 = dir_of baseDir dir) then Some kv.1.2 else None)
                                          (map_to_list (fs_nodes s)))) =
  merge_sort (fun x y => String.le (list_order b x) (list_order b y)) (omap (fun kv => CutPrefix kv.1 prefix) (map_to_list (blobs b))).
Proof.
  intros H Hp. unfold list_order. rewrite (cd_plain _ _ H). change (fun x y => String.le (x +:+ ".pem") (y +:+ ".pem")) with pem_le.
  apply (StronglySorted_unique pem_le).
  - apply pem_names_sorted, Sorted_StronglySorted; [apply _|]. apply (Sorted_merge_sort String.le).
  - apply Sorted_StronglySorted; [intros x y z; unfold pem_le; apply transitivity|]. apply (Sorted_merge_sort pem_le).
  - rewrite !merge_sort_Permutation. apply NoDup_Permutation.
    + apply NoDup_omap; [|by intros x y z _ _ ->%pem_name_Some ->%pem_name_Some].
      apply NoDup_omap; [apply NoDup_map_to_list|].
      intros [[d1 n1] v1] [[d2 n2] v2] z H1%elem_of_map_to_list H2%elem_of_map_to_list. cbn.
      repeat case_bool_decide; intros; simplify_eq. done.
    + apply NoDup_omap_keys. intros [k1 ?] [k2 ?] z.
      cbn. by intros ->%CutPrefix_Some ->%CutPrefix_Some.
    + intros x. rewrite !list_elem_of_omap.
      assert ((exists kv, kv ∈ map_to_list (blobs b) /\ CutPrefix kv.1 prefix = Some x) <-> is_Some (blobs b !! (prefix +:+ x))) as ->.
      { split; [intros ([k v] & Hv%elem_of_map_to_list & E); cbn in E; apply CutPrefix_Some in E as ->; eauto|].
        intros [v Hv]. exists (prefix +:+ x, v). rewrite elem_of_map_to_list. split; [done|apply CutPrefix_app]. }
      rewrite <- (listed_subject prefix dir s b x H Hp). split.
      * intros (n & Hn & ->%pem_name_Some). rewrite list_elem_of_omap in Hn.
        destruct Hn as ([[d n'] v] & Hv%elem_of_map_to_list & E). cbn in E. case_bool_decide; simplify_eq/=. eauto.
      * intros [v Hv]. exists (x +:+ ".pem"). rewrite pem_name_Some, list_elem_of_omap. split; [|done].
        exists ((dir_of baseDir dir, x +:+ ".pem"), v). rewrite elem_of_map_to_list. cbn. by rewrite bool_decide_true.
Qed.
Lemma no_dir_no_subjects prefix dir s b :
  cadir s b -> (prefix, dir) ∈ [(csrPrefix, "requests"); (certPrefix, "signed")] -> fs_dirs s !! dir_of baseDir dir = None ->
  omap (fun kv => CutPrefix kv.1 prefix) (map_to_list (blobs b)) = [].
Proof.
  intros H Hp Hd. apply elem_of_nil_inv. intros x ([k v] & Hv%elem_of_map_to_list & E)%list_elem_of_omap.
  cbn in E. apply CutPrefix_Some in E as ->.
  assert (file_of (prefix +:+ x) = Some (dir_of baseDir dir, x +:+ ".pem")) as Ef
    by (unfold FileBackend.file_of; by rewrite (layout_subject _ _ _ Hp)).
  pose proof (cd_held _ _ H (prefix +:+ x) (or_intror (mk_is_Some _ _ Ef))) as Hh. unfold held in Hh.
  case_bool_decide as Ek; [by rewrite Ek in Ef|]. specialize (Hh _ Ef). rewrite Hv in Hh. destruct Hh as [_ Hh].
  cbn in Hh. rewrite Hd in Hh. by destruct Hh.
Qed.

Lemma fs_List_quiet prefix s b :
  cadir s b -> quiet (fs_List baseDir None prefix) s (fun r => forall v, r = Ok v -> (be_List prefix b).1 = Ok v).
Proof.
  intros H. unfold fs_List, ctxErr.
  assert (forall dir, (prefix, dir) ∈ [(csrPrefix, "requests"); (certPrefix, "signed")] ->
    quiet (Call (fun s => (os_ReadDir (dir_of baseDir dir) s, s)) (fun r =>
      match r with
      | Err e => if errors_Is e FsErrNotExist then mret [] else abort_with e
      | Ok names => mret (map (String.append prefix) (omap pem_name names))
      end)) s (fun r => forall v, r = Ok v -> (be_List prefix b).1 = Ok v)) as Hl.
  { intros dir Hp. apply quiet_read; [|intros e ->; by apply quiet_ret].
    assert ((be_List prefix b).1 = Ok (map (String.append prefix) (merge_sort (fun x y => String.le (list_order b x) (list_order b y))
      (omap (fun kv => CutPrefix kv.1 prefix) (map_to_list (blobs b)))))) as ->.
    { unfold be_List. assert (prefix = csrPrefix \/ prefix = certPrefix) as Hc by (set_solver +Hp).
      by destruct Hc as [-> | ->]. }
    unfold os_ReadDir. destruct (fs_dirs s !! dir_of baseDir dir) as [[]|] eqn:Ed; apply quiet_ret; try done.
    1,2: intros v [= <-]; by rewrite (listing_agrees prefix dir s b H Hp).
    intros v [= <-]. by rewrite (no_dir_no_subjects prefix dir s b H Hp Ed). }
  destruct (bool_decide_reflect (prefix = csrPrefix)) as [->|]; [apply Hl; set_solver|].
  destruct (bool_decide_reflect (prefix = certPrefix)) as [->|]; [apply Hl; set_solver|]. by apply quiet_ret.
Qed.

#[local] Instance filesystem_backs : Backs (fs_impl baseDir temp) cadir known.
Proof.
  intros A o s b H [Hk Hkind]. destruct o as [key|key data kind|key|key|prefix]; cbn [fs_impl be_spec].
  - apply quiet_backs; [done|apply (be_quiet (OpGet key))|]. apply fs_Get_quiet; auto.
  - by apply fs_Put_always.
  - by apply fs_Delete_always.
  - apply quiet_backs; [done|apply (be_quiet (OpExists key))|]. apply fs_Exists_quiet; auto.
  - apply quiet_backs; [done|apply (be_quiet (OpList prefix))|]. by apply fs_List_quiet.
Qed.
(** ** When nothing fails *)

(** The directories are there and the temporary names are free. *)
Definition ready (s : FS) : Prop :=
  (forall d, d ∈ dirs -> fs_dirs s !! d = Some DirWritable) /\
  forall q, q.1 ∈ dirs -> fs_nodes s !! temp_of temp q = None.

(** The same answer, or an error that says as much of whether the blob is there. *)
Definition answers {A} (r r' : result A) : Prop :=
  match r' with
  | Ok v => r = Ok v
  | Err e' => exists e, r = Err e /\ errors_Is e FsErrNotExist = errors_Is e' FsErrNotExist
  end.

Lemma run_or_error {A B} (f : FS -> result A * FS) (k : A -> files B) s :
  run_prog (or_error f k) s = match f s with (Ok a, s') => run_prog (k a) s' | (Err e, s') => (Err e, s') end.
Proof. unfold or_error. cbn. by destruct (f s) as [[a|e] s']. Qed.

Lemma run_caKeyLocation s : run_prog (caKeyLocation baseDir) s = (Ok (key_home s), s).
Proof.
  unfold caKeyLocation, lstat, key_home, os_Lstat. cbn [run_prog].
  destruct (fs_nodes s !! top); [done|]. change (errors_Is (not_exist "lstat") FsErrNotExist) with true. cbn [run_prog].
  destruct (fs_nodes s !! legacy); [done|]. reflexivity.
Qed.

Lemma run_readCAKeyCopy s p v : found s p v -> run_prog (readCAKeyCopy p) s = (Ok v, s).
Proof.
  intros Hf. pose proof (found_reads _ _ _ Hf) as Hr. unfold readCAKeyCopy, lstat, os_Lstat. cbn [run_prog].
  destruct v as [d|]; cbn in Hf.
  - destruct (copy_reads _ _ _ Hf) as (_ & _ & [n ->]). cbn [run_prog]. by rewrite Hr.
  - by rewrite Hf.
Qed.

Lemma run_checkCAKeyConflict s b : cadir s b -> run_prog (checkCAKeyConflict baseDir) s = (Ok tt, s).
Proof.
  intros H. pose proof (cd_held _ _ H KeyCAKey (or_introl eq_refl)) as Hk. unfold held in Hk. rewrite bool_decide_true in Hk by done.
  unfold checkCAKeyConflict. rewrite run_mbind. destruct (blobs b !! KeyCAKey) as [d|]; cbn in Hk.
  - destruct Hk as [[Ht Hl]|[Ht Hl]].
    + rewrite (run_readCAKeyCopy s top (Some d)) by done. rewrite run_mbind.
      destruct Hl as [Hl|Hl]; [by rewrite (run_readCAKeyCopy s legacy None Hl)|].
      rewrite (run_readCAKeyCopy s legacy (Some d)) by done. by rewrite bool_decide_true.
    + by rewrite (run_readCAKeyCopy s top None Ht).
  - by rewrite (run_readCAKeyCopy s top None (proj1 Hk)).
Qed.

Lemma run_pathFor key s b :
  cadir s b -> known key -> validateKey key = None ->
  exists p, run_prog (pathFor baseDir key) s = (Ok p, s) /\ key_file key p /\ found s p (blobs b !! key).
Proof.
  intros H Hk Hv. assert (exists p, run_prog (pathFor baseDir key) s = (Ok p, s) /\ key_file key p) as (p & E & Hf).
  { unfold pathFor. rewrite Hv. case_bool_decide as Ek.
    - subst key. rewrite run_caKeyLocation. eexists. split; [done|]. apply key_home_file.
    - destruct Hk as [|[p Hp]]; [done|]. rewrite Hp. exists p. split; [done|]. by left. }
  exists p. split; [done|]. split; [done|].
  destruct (always_upto _ _ _ _ _ _ (pathFor_found key s b H Hk (fun _ => True) Logic.I) (upto_run _ s)) as [_ Hq].
  rewrite E in Hq. by destruct (Hq _ eq_refl) as [_ Hr]; apply Hr.
Qed.

Lemma run_removeLegacy s b :
  cadir s b -> ready s -> exists s', run_prog (removeLegacyCAKeyCopy baseDir (key_home s)) s = (Ok tt, s') /\ ready s' /\
    fs_nodes s' !! key_home s = fs_nodes s !! key_home s.
Proof.
  intros H Hr. unfold removeLegacyCAKeyCopy. rewrite run_mbind, (run_checkCAKeyConflict s b H). case_bool_decide as Eh; [by exists s|].
  cbn [run_prog]. unfold os_Remove. rewrite (proj1 Hr) by apply inside_key.
  destruct (fs_nodes s !! legacy) eqn:En; [|by exists s]. eexists. split; [done|]. split.
  - split; [apply Hr|]. intros q Hq. cbn. rewrite lookup_delete_ne by apply key_temp. by apply Hr.
  - cbn. by rewrite lookup_delete_ne.
Qed.

(** The place of a key is ready for a write or a delete. *)
Lemma run_prepare {A} key s b (k : path -> files A) :
  cadir s b -> known key -> validateKey key = None -> ready s -> exists p s',
    run_prog (p ← pathFor baseDir key; _ ← when_ca_key key (removeLegacyCAKeyCopy baseDir p); k p) s = run_prog (k p) s' /\
    key_file key p /\ ready s' /\ (is_Some (fs_nodes s' !! p) <-> is_Some (blobs b !! key)).
Proof.
  intros H Hk Hv Hr. destruct (run_pathFor key s b H Hk Hv) as (p & E & Hf & Hfound). exists p.
  assert (is_Some (fs_nodes s !! p) <-> is_Some (blobs b !! key)) as Hiff.
  { destruct (blobs b !! key) as [d|]; cbn in Hfound; [destruct (copy_reads _ _ _ Hfound) as (_ & _ & [n ->])|rewrite Hfound]; by split. }
  rewrite run_mbind, E. unfold when_ca_key. rewrite run_mbind. case_bool_decide as Ek.
  - subst key. unfold pathFor in E. rewrite Hv, bool_decide_true, run_caKeyLocation in E by done. injection E as <-.
    destruct (run_removeLegacy s b H Hr) as (s' & -> & Hr' & En). exists s'. by rewrite En.
  - by exists s.
Qed.

Lemma run_invalid {A} key e s (k : path -> files A) :
  validateKey key = Some e -> run_prog (p ← pathFor baseDir key; k p) s = (Err e, s).
Proof. intros E. rewrite run_mbind. unfold pathFor. by rewrite E. Qed.

Lemma guarded_invalid {A} key e (op : BOp A) b : validateKey key = Some e -> guarded key op b = (Err e, b).
Proof. intros E. unfold guarded. by rewrite E. Qed.

Lemma fs_Get_serves key s b : cadir s b -> known key -> answers (run_prog (fs_Get baseDir None key) s).1 (be_Get key b).1.
Proof.
  intros H Hk. unfold fs_Get, ctxErr. destruct (validateKey key) as [e|] eqn:Hv.
  { rewrite (run_invalid _ _ _ _ Hv). unfold be_Get. rewrite (guarded_invalid _ _ _ _ Hv). by exists e. }
  rewrite be_Get_plain by (done || apply H). cbn [fst].
  destruct (run_pathFor key s b H Hk Hv) as (p & E & Hf & Hfound). rewrite run_mbind, E. case_bool_decide.
  - rewrite run_mbind, (run_checkCAKeyConflict s b H), run_mbind, (run_readCAKeyCopy _ _ _ Hfound).
    destruct (blobs b !! key); [done|]. by eexists.
  - rewrite run_or_error, (found_reads _ _ _ Hfound). destruct (blobs b !! key); [done|]. by eexists.
Qed.

Lemma fs_Put_serves key data kind s b :
  cadir s b -> known key -> ready s -> answers (run_prog (fs_Put baseDir temp None key data kind) s).1 (be_Put key data b).1.
Proof.
  intros H Hk Hr. unfold fs_Put, ctxErr. destruct (validateKey key) as [e|] eqn:Hv.
  { rewrite (run_invalid _ _ _ _ Hv). unfold be_Put. rewrite (guarded_invalid _ _ _ _ Hv). by exists e. }
  rewrite be_Put_set by (done || apply H).
  destruct (run_prepare key s b (fun p => or_error (os_MkdirAll p.1) (fun _ => AtomicWriteFile temp p data (permFor kind))))
    as (p & s' & -> & Hf & Hr' & _); [done..|]. rewrite run_or_error.
  pose proof (key_file_inside _ _ Hf) as Hin. unfold os_MkdirAll. rewrite (proj1 Hr' _ Hin).
  apply AtomicWriteFile_run; by apply Hr'.
Qed.

Lemma fs_Delete_serves key s b :
  cadir s b -> known key -> ready s -> answers (run_prog (fs_Delete baseDir None key) s).1 (be_Delete key b).1.
Proof.
  intros H Hk Hr. unfold fs_Delete, ctxErr. destruct (validateKey key) as [e|] eqn:Hv.
  { rewrite (run_invalid _ _ _ _ Hv). unfold be_Delete. rewrite (guarded_invalid _ _ _ _ Hv). by exists e. }
  destruct (run_prepare key s b (fun p => or_error (os_Remove p) mret)) as (p & s' & -> & Hf & Hr' & Hiff); [done..|]. rewrite run_or_error.
  pose proof (key_file_inside _ _ Hf) as Hin. unfold os_Remove, be_Delete, guarded. rewrite Hv, (proj1 Hr' _ Hin).
  destruct (blobs b !! key) as [v|] eqn:Eb.
  - destruct (proj2 Hiff) as [n ->]; [eauto|]. done.
  - destruct (fs_nodes s' !! p) eqn:En; [destruct (proj1 Hiff); eauto; done|]. by eexists.
Qed.

Lemma fs_Exists_serves key s b : cadir s b -> known key -> answers (run_prog (fs_Exists baseDir None key) s).1 (be_Exists key b).1.
Proof.
  intros H Hk. unfold fs_Exists, ctxErr. destruct (validateKey key) as [e|] eqn:Hv.
  { rewrite (run_invalid _ _ _ _ Hv). unfold be_Exists. rewrite (guarded_invalid _ _ _ _ Hv). by exists e. }
  unfold be_Exists, guarded. rewrite Hv. cbn [fst].
  destruct (run_pathFor key s b H Hk Hv) as (p & E & Hf & Hfound). rewrite run_mbind, E. cbn [run_prog].
  destruct (blobs b !! key) as [d|]; cbn in Hfound.
  - by destruct (copy_reads _ _ _ Hfound) as (_ & [n ->] & _).
  - unfold os_Stat, max_links. cbn [follow]. rewrite Hfound. replace (errors_Is (not_exist "stat") FsErrNotExist) with true by done.
    destruct (bool_decide (key = KeyCAKey)); [|done]. cbn [run_prog lstat]. unfold os_Lstat. by rewrite Hfound.
Qed.

Lemma fs_List_serves prefix s b :
  cadir s b -> ready s -> answers (run_prog (fs_List baseDir None prefix) s).1 (be_List prefix b).1.
Proof.
  intros H Hr. pose proof (fs_List_quiet prefix s b H) as Hq.
  destruct (always_upto _ _ _ _ _ _ (Hq (fun _ => True) Logic.I) (upto_run _ s)) as [_ Hv].
  destruct (Hv _ eq_refl) as [_ Hok]. clear Hq Hv.
  assert (forall l, (be_List prefix b).1 = Ok l -> exists l', (run_prog (fs_List baseDir None prefix) s).1 = Ok l') as Hex.
  { unfold fs_List, be_List, ctxErr, os_ReadDir. intros l.
    destruct (bool_decide (prefix = csrPrefix)); [cbn [run_prog]|destruct (bool_decide (prefix = certPrefix)); [cbn [run_prog]|done]].
    all: rewrite (proj1 Hr) by (unfold cadir_dirs; cbn [map]; set_solver); eauto. }
  destruct (be_List prefix b).1 as [l|e] eqn:E.
  - destruct (Hex l eq_refl) as [l' El]. rewrite El in *. by rewrite (Hok l' eq_refl).
  - revert E. unfold fs_List, be_List, ctxErr. destruct (bool_decide (prefix = csrPrefix)); [done|].
    destruct (bool_decide (prefix = certPrefix)); [done|]. intros [= <-]. by eexists.
Qed.

Lemma fs_serves A (o : bop A) s b :
  cadir s b -> op_ok known o -> ready s -> answers (run_prog (fs_impl baseDir temp A o) s).1 (be_spec o b).1.
Proof.
  intros H [Hk _] Hr. destruct o; cbn [fs_impl be_spec op_key] in *.
  - apply fs_Get_serves; auto.
  - apply fs_Put_serves; auto.
  - apply fs_Delete_serves; auto.
  - apply fs_Exists_serves; auto.
  - by apply fs_List_serves.
Qed.

(** ** Appending *)

Definition old_text (key : string) (b : Backend) : string :=
  match blobs b !! key with Some v => blob_text v | None => "" end.
Lemma cadir_file_set key p v m s b :
  cadir s b -> file_of key = Some p -> key <> KeyCAKey -> is_Some (fs_dirs s !! p.1) -> (key ∈ private_keys -> Z.ldiff m FilePermPrivate = 0) ->
  cadir (put_nodes (<[p := NFile (Some v) m]> (fs_nodes s)) s) (set_key key (Some v) b).
Proof.
  intros H Hp Hne Hd Hm. apply (cadir_set key (Some v) s _ b p); [done|right; eauto|by eapply inside_file|by intros ?| | |].
  - intros x Hx _. cbn. apply lookup_insert_ne. intros <-. apply Hx. by left.
  - unfold held. rewrite bool_decide_false by done. intros q Hq. rewrite Hp in Hq. injection Hq as <-. cbn.
    rewrite lookup_insert_eq. eauto.
  - intros Hk q d m' [Hq|[? _]]; [|done]. rewrite Hp in Hq. injection Hq as <-. cbn. rewrite lookup_insert_eq.
    intros [= _ <-]. auto.
Qed.

Section Append.
Context (key data : string) (p : path) (b : Backend).
Context (Hp : file_of key = Some p) (Hne : key <> KeyCAKey).

(** The text so far, and where it is. *)
Definition text_now (t : string) (s : FS) : Prop :=
  is_Some (fs_dirs s !! p.1) /\ exists d m, fs_nodes s !! p = Some (NFile (Some d) m) /\ (key ∈ private_keys -> Z.ldiff m FilePermPrivate = 0) /\
    blob_text d = old_text key b +:+ t /\ cadir s (set_key key (Some d) b).
(** Part of [data] may have been appended. *)
Definition torn_append (s : FS) : Prop :=
  cadir s b \/ exists t u d, data = t +:+ u /\ blob_text d = old_text key b +:+ t /\ cadir s (set_key key (Some d) b).

Lemma text_torn t u s : data = t +:+ u -> text_now t s -> torn_append s.
Proof. intros E (_ & d & m & _ & _ & Et & H). right. by exists t, u, d. Qed.

Lemma set_key_twice v w : set_key key (Some w) (set_key key (Some v) b) = set_key key (Some w) b.
Proof. unfold set_key, set_blobs. cbn. by rewrite insert_insert_eq. Qed.

Lemma append_now t x s :
  text_now t s -> (file_append p x s).1 = Ok tt /\ text_now (t +:+ x) (file_append p x s).2 /\
    cadir (file_append p x s).2 (set_key key (Some (BText (old_text key b +:+ t +:+ x))) b).
Proof.
  intros (Hd & d & m & En & Hm & Et & H). unfold file_append. rewrite En. cbn [fst snd].
  assert (cadir (put_nodes (<[p := NFile (Some (BText (blob_text d +:+ x))) m]> (fs_nodes s)) s)
    (set_key key (Some (BText (blob_text d +:+ x))) b)) as H'.
  { rewrite <- (set_key_twice d). by apply cadir_file_set. }
  split; [done|]. rewrite Et, str_app_assoc in *. split; [|done]. split; [done|].
  eexists _, m. cbn. rewrite lookup_insert_eq. done.
Qed.

Lemma exists_now d s : cadir s b -> is_Some (fs_dirs s !! p.1) -> fs_nodes s !! p = Some d -> text_now "" s.
Proof.
  intros H Hd En. pose proof (cd_held _ _ H key (or_intror (mk_is_Some _ _ Hp))) as Hh. unfold held in Hh.
  rewrite bool_decide_false in Hh by done. specialize (Hh p Hp). destruct (blobs b !! key) as [v|] eqn:Eb; [|congruence].
  destruct Hh as [[m Em] _]. split; [done|]. exists v, m. split; [done|]. split; [|split].
  - intros Hk. apply (cd_closed _ _ H key Hk p (Some v) m); [by left|done].
  - unfold old_text. by rewrite Eb, app_empty_r.
  - by rewrite <- Eb, set_key_id.
Qed.

Lemma created_now m s :
  cadir s b -> is_Some (fs_dirs s !! p.1) -> fs_nodes s !! p = None -> (key ∈ private_keys -> Z.ldiff m FilePermPrivate = 0) ->
  text_now "" (put_nodes (<[p := NFile (Some empty_blob) m]> (fs_nodes s)) s).
Proof.
  intros H Hd En Hm. split; [done|]. exists empty_blob, m. cbn. rewrite lookup_insert_eq. split; [done|]. split; [done|]. split.
  - pose proof (cd_held _ _ H key (or_intror (mk_is_Some _ _ Hp))) as Hh. unfold held in Hh.
    rewrite bool_decide_false in Hh by done. specialize (Hh p Hp). unfold old_text.
    destruct (blobs b !! key); [destruct Hh as [[? ?] _]; congruence|done].
  - by apply cadir_file_set.
Qed.

Definition unopened (s : FS) : Prop := cadir s b /\ is_Some (fs_dirs s !! p.1) \/ text_now "" s.
Lemma unopened_torn s : unopened s -> torn_append s.
Proof. intros [[H _]|H]; [by left|by apply (text_torn "" data)]. Qed.

Lemma open_perm umask : (key ∈ private_keys -> Z.ldiff (Z.ldiff FilePermPrivate umask) FilePermPrivate = 0).
Proof.
  intros _. rewrite !Z.ldiff_land, <- Z.land_assoc, (Z.land_comm (Z.lnot umask)), Z.land_assoc, Z.land_lnot_diag. apply Z.land_0_l.
Qed.

Context (umask perm : Z) (Hperm : key ∈ private_keys -> perm = FilePermPrivate).

Lemma excl_now s : unopened s ->
  unopened (os_OpenExcl umask p perm s).2 /\
  forall f, (os_OpenExcl umask p perm s).1 = Ok f -> f = p /\ text_now "" (os_OpenExcl umask p perm s).2.
Proof.
  intros H. unfold os_OpenExcl. destruct (dir_open p.1 s); [done|]. destruct (fs_nodes s !! p) eqn:En; [done|]. cbn [fst snd].
  destruct H as [[H Hd]|(_ & d & m & E & _)]; [|congruence].
  assert (text_now "" (put_nodes (<[p := NFile (Some empty_blob) (Z.ldiff perm umask)]> (fs_nodes s)) s)) as Hc.
  { apply created_now; [done..|]. intros Hk. rewrite (Hperm Hk). by apply open_perm. }
  split; [by right|]. by intros f [= <-].
Qed.

Lemma append_opens s : unopened s ->
  unopened (os_OpenAppend umask p perm s).2 /\
  forall f, (os_OpenAppend umask p perm s).1 = Ok f -> f = p /\ text_now "" (os_OpenAppend umask p perm s).2.
Proof.
  intros H. assert ((exists d m, fs_nodes s !! p = Some (NFile d m)) /\ text_now "" s \/ fs_nodes s !! p = None /\ cadir s b /\ is_Some (fs_dirs s !! p.1)) as Hcase.
  { destruct H as [[H Hd]|H]; [|left; split; [|done]; destruct H as (_ & d & m & E & _); eauto].
    destruct (fs_nodes s !! p) as [n|] eqn:En; [left|by right]. pose proof (exists_now n s H Hd En) as Ht.
    split; [|done]. destruct Ht as (_ & d & m & E & _). rewrite En in E. injection E as ->. eauto. }
  unfold os_OpenAppend, max_links. destruct Hcase as [[(d & m & En) Ht]|(En & Hc & Hd)]; cbn [resolve]; rewrite !En; cbn [fst snd].
  - split; [by right|]. by intros f [= <-].
  - destruct (dir_open p.1 s); [by split; [left|]|]. cbn [fst snd].
    assert (text_now "" (put_nodes (<[p := NFile (Some empty_blob) (Z.ldiff perm umask)]> (fs_nodes s)) s)) as Ht.
    { apply created_now; [done..|]. intros Hk. rewrite (Hperm Hk). by apply open_perm. }
    split; [by right|]. by intros f [= <-].
Qed.

Lemma chmod_now s : text_now "" s -> text_now "" (file_chmod p perm s).2.
Proof.
  intros (Hd & d & m & En & Hm & Et & H). unfold file_chmod. rewrite En. cbn. split; [done|]. exists d, perm.
  cbn. rewrite lookup_insert_eq. split; [done|]. assert (key ∈ private_keys -> Z.ldiff perm FilePermPrivate = 0) as Hp' by (intros Hk; by rewrite (Hperm Hk)).
  split; [done|]. split; [done|]. rewrite <- (set_key_twice d). by apply cadir_file_set.
Qed.

Lemma open_always s :
  unopened s ->
  always torn_append (open_append umask p perm) (fun r s' => torn_append s' /\ forall f, r = Ok f -> f = p /\ text_now "" s') s.
Proof.
  intros H. destruct (excl_now s H) as [H1 H2]. split; [by apply unopened_torn|]. intros r s' Hr.
  assert (forall e s1, unopened s1 -> always torn_append (if is_exist e then or_error (os_OpenAppend umask p perm) mret else abort_with e)
    (fun r s' => torn_append s' /\ forall f, r = Ok f -> f = p /\ text_now "" s') s1) as Herr.
  { intros e s1 Hs1. destruct (is_exist e); [|split; [by apply unopened_torn|]; split; [by apply unopened_torn|done]].
    destruct (append_opens s1 Hs1) as [H3 H4]. split; [by apply unopened_torn|]. intros r2 s2 Hr2.
    destruct Hr2 as [|e' _|e' _]; [|by split; [apply unopened_torn|split; [apply unopened_torn|]]..].
    destruct (os_OpenAppend umask p perm s1) as [[f|e2] s2]; cbn [fst snd] in *; (split; [by apply unopened_torn|]); (split; [by apply unopened_torn|]); auto. }
  destruct Hr as [|e _|e _]; [|by apply Herr..].
  destruct (os_OpenExcl umask p perm s) as [[f|e] s1]; cbn [fst snd] in *; [|by apply Herr].
  destruct (H2 f eq_refl) as [-> Ht]. split; [by apply unopened_torn|]. intros r2 s2 Hr2.
  assert (text_now "" s2) as Ht2 by (destruct Hr2; [by apply chmod_now|done|by apply chmod_now]).
  assert (torn_append s2) as Hto by (by apply (text_torn "" data)). split; [done|]. split; [done|]. by intros f [= <-].
Qed.
End Append.

Lemma substring_split (n : nat) (x : string) : String.substring 0 n x +:+ String.substring n (String.length x - n) x = x.
Proof.
  revert n. induction x as [|c x IH]; intros [|n]; cbn; try done.
  - f_equal. specialize (IH O). by destruct x; cbn in IH |- *; rewrite ?Nat.sub_0_r in IH.
  - f_equal. apply IH.
Qed.

(** An append that stops or fails leaves the old text with a beginning of what
    was to be appended, and one that succeeds leaves both. *)
Lemma fs_AppendLine_always umask torn key data kind s b :
  cadir s b -> key <> KeyCAKey -> (key ∈ private_keys -> kind = BlobPrivate) ->
  always (torn_append key data b) (fs_AppendLine baseDir umask torn None key data kind)
    (fun r s' => r = Ok tt -> cadir s' (be_AppendLine key data b).2) s.
Proof.
  intros H Hne Hkind. assert (key ∈ private_keys -> permFor kind = FilePermPrivate) as Hperm by (intros Hk; by rewrite (Hkind Hk)).
  eapply always_quiet; [apply pathFor_quiet|by left| |done]. intros p Hpk. destruct (Hpk p eq_refl) as [Hv Hp]. clear Hpk.
  rewrite bool_decide_false in Hp by done.
  apply (mkdir_always _ p s b); [done|by left|done|]. intros s2 H2 _ Hd.
  apply always_bind. eapply always_mono; [done| |apply (open_always key data p b Hp Hne); [done|left; by split]].
  intros [f|e] s3 _ [H3 Hf]; [|done]. destruct (Hf f eq_refl) as [-> Ht]. clear Hf.
  split; [done|]. intros r s4 Hr. pose proof (substring_split torn data) as Es.
  set (t := String.substring 0 torn data) in *. set (u := String.substring torn (String.length data - torn) data) in *.
  destruct (append_now key p b Hp Hne "" t s3 Ht) as (E4 & H4 & _). cbn in H4.
  assert (torn_append key data b s4) as Hs4.
  { destruct Hr as [|e' _|e' _]; [|done|]; by apply (text_torn key data p b t u). }
  destruct Hr as [|e' _|e' _]; [rewrite E4|by split..]. split; [done|]. intros r s5 Hr.
  destruct (append_now key p b Hp Hne t u _ H4) as (E5 & H5 & H5').
  rewrite Es in H5'. assert ((be_AppendLine key data b).2 = set_key key (Some (BText (old_text key b +:+ data))) b) as Eb.
  { unfold be_AppendLine, guarded, on_rows. by rewrite Hv, (cd_plain _ _ H). }
  rewrite <- Eb in H5'.
  assert (torn_append key data b s5) as Hs5.
  { destruct Hr as [|e' _|e' _]; [|done|]; apply (text_torn key data p b data ""); by rewrite ?app_empty_r, <- ?Es. }
  destruct Hr as [|e' _|e' _]; [rewrite E5|by split..].
  split; [done|]. intros r s6 Hr. destruct Hr as [|e' _|e' _]; [|by split..].
  split; [done|]. intros r s7 Hr. destruct Hr as [|e' _|e' _]; by split.
Qed.
End Cadir.

(** ** Theorems *)

(** C11: The filesystem backend is a backend as the storage service assumes it.  At
    every moment of an operation on a CA directory, with any of its system calls
    failing, the directory represents the backend before the operation or the
    one after it; an answer is the one the backend gives, with the operation's
    effect in place; and when the directories are writable and nothing fails, an
    answer is given. *)
Theorem filesystem_refines baseDir temp A (o : bop A) s b p' s' :
  all_bytes isDigit temp = true -> cadir baseDir s b -> op_ok (known baseDir) o ->
  upto (fs_impl baseDir temp A o) s p' s' ->
  (cadir baseDir s' b \/ cadir baseDir s' (be_spec o b).2) /\
  (forall v, p' = Ret (Ok v) -> (be_spec o b).1 = Ok v /\ cadir baseDir s' (be_spec o b).2) /\
  (ready baseDir temp s -> answers (run_prog (fs_impl baseDir temp A o) s).1 (be_spec o b).1).
Proof.
  intros Ht H Hok Hu.
  destruct (always_upto _ _ _ _ _ _ (filesystem_backs baseDir temp Ht A o s b H Hok) Hu) as [HI HQ].
  split; [done|]. split; [intros v ->; by apply (HQ (Ok v))|]. by apply fs_serves.
Qed.

(** Any use of a CA directory by any processes, one operation at a time, each of
    which may be cut short. *)
Inductive used (baseDir : string) : FS -> FS -> Prop :=
  | used_none s : used baseDir s s
  | used_op A (o : bop A) temp s p' s1 s2 :
      all_bytes isDigit temp = true -> op_ok (known baseDir) o ->
      upto (fs_impl baseDir temp A o) s p' s1 -> used baseDir s1 s2 -> used baseDir s s2
  | used_append umask torn key data kind s p' s1 s2 :
      key <> KeyCAKey -> (key ∈ private_keys -> kind = BlobPrivate) ->
      upto (fs_AppendLine baseDir umask torn None key data kind) s p' s1 -> used baseDir s1 s2 -> used baseDir s s2
  | used_ready s p' s1 s2 : upto (fs_EnsureReady baseDir None) s p' s1 -> used baseDir s1 s2 -> used baseDir s s2.

Lemma mkdir_all_always baseDir b ds : forall s,
  cadir baseDir s b -> always (fun s' => cadir baseDir s' b) (mkdir_all ds) (fun _ s' => cadir baseDir s' b) s.
Proof.
  induction ds as [|d ds IH]; intros s H; [done|].
  apply (mkdir_always baseDir "" eq_refl _ (d, "") s b); auto.
Qed.

(** C12: A CA directory stays well-formed in any use, failures and crashes included:
    each blob is in its own file, whole, the CA key in one of its two places
    with no other key in the second, and the files of the private blobs are
    closed to other users. *)
Theorem cadir_well_formed baseDir s s' b :
  cadir baseDir s b -> used baseDir s s' -> exists b', cadir baseDir s' b'.
Proof.
  intros H Hu. revert b H.
  induction Hu as [s|A o temp s p' s1 s2 Ht Hok Hu _ IH|umask torn key data kind s p' s1 s2 Hne Hk Hu _ IH|s p' s1 s2 Hu _ IH]; intros b H.
  - eauto.
  - destruct (always_upto _ _ _ _ _ _ (filesystem_backs baseDir temp Ht A o s b H Hok) Hu) as [[H1|H1] _]; eauto.
  - destruct (always_upto _ _ _ _ _ _ (fs_AppendLine_always baseDir "" eq_refl umask torn key data kind s b H Hne Hk) Hu)
      as [[H1|(t & u & d & _ & _ & H1)] _]; eauto.
  - unfold fs_EnsureReady, ctxErr in Hu.
    assert (always (fun s' => cadir baseDir s' b) (_ ← mkdir_all (cadir_dirs baseDir); makeDir baseDir) (fun _ s' => cadir baseDir s' b) s) as Ha.
    { apply always_bind. eapply (always_mono (fun s' => cadir baseDir s' b)); [auto| |by apply mkdir_all_always]. intros [[]|e] s3 _ H3; [|done]. by apply mkdir_all_always. }
    destruct (always_upto _ _ _ _ _ _ Ha Hu) as [H1 _]. eauto.
Qed.

(** Two different keys in the two places of the CA key: it is neither read nor
    replaced nor removed. *)
Theorem ca_key_conflict_refused baseDir temp A (o : bop A) s dt dl p' s' :
  os_ReadFile (fsCAKeyPath baseDir) s = Ok dt -> os_ReadFile (fsLegacyCAKeyPath baseDir) s = Ok dl -> dt <> dl ->
  match o with OpGet key | OpPut key _ _ | OpDelete key => key = KeyCAKey | _ => False end ->
  upto (fs_impl baseDir temp A o) s p' s' -> s' = s /\ forall r, p' = Ret r -> exists e, r = Err e.
Proof.
  intros Et El Hne Ho Hu.
  assert (forall p, os_Stat p s = Err (not_exist "stat") \/ fs_nodes s !! p <> None) as Hst.
  { intros p. destruct (fs_nodes s !! p) eqn:E; [by right|]. left. unfold os_Stat, max_links. cbn [follow]. by rewrite E. }
  assert (quiet (checkCAKeyConflict baseDir) s (fun r => r <> Ok tt)) as Hc.
  { eapply quiet_mono; [|apply checkCAKeyConflict_quiet]. intros r Hr ->. destruct (Hr eq_refl) as [E|[E|(d & E1 & E2)]]; [| |congruence].
    - destruct (Hst (fsCAKeyPath baseDir)) as [E'|?]; [|done]. unfold os_ReadFile in Et. by rewrite E' in Et.
    - destruct (Hst (fsLegacyCAKeyPath baseDir)) as [E'|?]; [|done]. unfold os_ReadFile in El. by rewrite E' in El. }
  assert (always (fun s' => s' = s) (fs_impl baseDir temp A o) (fun r _ => exists e, r = Err e) s) as Ha.
  { destruct o; cbn [fs_impl]; try done; subst key; (eapply always_quiet; [apply pathFor_quiet|done| |eauto]); intros p _.
    - rewrite bool_decide_true by done. eapply always_quiet; [apply Hc|done| |eauto]. by intros [].
    - unfold when_ca_key. rewrite bool_decide_true by done. unfold removeLegacyCAKeyCopy. apply always_bind.
      eapply always_quiet; [apply Hc|done| |eauto]. by intros [].
    - unfold when_ca_key. rewrite bool_decide_true by done. unfold removeLegacyCAKeyCopy. apply always_bind.
      eapply always_quiet; [apply Hc|done| |eauto]. by intros []. }
  exact (always_upto _ _ _ _ _ _ Ha Hu).
Qed.

(** *** A linked key *)

(** A CA directory whose ca_key.pem is a link to the key in private/, as someone
    may make for OpenVox Server to find a key that an earlier version wrote. *)
Record linked_key (baseDir : string) (s : FS) (old : blob) : Prop := {
  lk_link : fs_nodes s !! fsCAKeyPath baseDir = Some (NLink (fsLegacyCAKeyPath baseDir));
  lk_key : exists m, fs_nodes s !! fsLegacyCAKeyPath baseDir = Some (NFile (Some old) m);
  lk_top : fs_dirs s !! (fsCAKeyPath baseDir).1 = Some DirWritable;
  lk_private : fs_dirs s !! (fsLegacyCAKeyPath baseDir).1 = Some DirWritable }.

Lemma run_copy s p d : is_Some (fs_nodes s !! p) -> os_ReadFile p s = Ok d -> run_prog (readCAKeyCopy p) s = (Ok (Some d), s).
Proof. intros [n En] E. unfold readCAKeyCopy, lstat, os_Lstat. cbn [run_prog]. rewrite En. cbn [run_prog]. by rewrite E. Qed.

Lemma linked_reads baseDir s old : linked_key baseDir s old ->
  run_prog (pathFor baseDir KeyCAKey) s = (Ok (fsCAKeyPath baseDir), s) /\
  run_prog (readCAKeyCopy (fsCAKeyPath baseDir)) s = (Ok (Some old), s) /\
  run_prog (checkCAKeyConflict baseDir) s = (Ok tt, s).
Proof.
  intros [H1 [m H2] _ _].
  assert (os_ReadFile (fsLegacyCAKeyPath baseDir) s = Ok old) as E2
    by (unfold os_ReadFile, os_Stat, max_links; cbn [follow]; by rewrite H2).
  assert (os_ReadFile (fsCAKeyPath baseDir) s = Ok old) as E1
    by (unfold os_ReadFile, os_Stat, max_links; cbn [follow]; by rewrite H1, H2).
  split; [|split; [apply run_copy; eauto|]].
  - unfold pathFor. change (validateKey KeyCAKey) with (@None error). rewrite bool_decide_eq_true_2 by done.
    rewrite run_caKeyLocation. unfold key_home. by rewrite H1.
  - unfold checkCAKeyConflict. rewrite run_mbind, (run_copy _ _ old) by eauto.
    rewrite run_mbind, (run_copy _ _ old) by eauto. by rewrite bool_decide_eq_true_2.
Qed.

Lemma linked_removal baseDir s old : linked_key baseDir s old ->
  run_prog (removeLegacyCAKeyCopy baseDir (fsCAKeyPath baseDir)) s = (Ok tt, without_legacy baseDir s).
Proof.
  intros H. destruct (linked_reads _ _ _ H) as (_ & _ & Hc). destruct H as [_ [m H2] _ H4].
  unfold removeLegacyCAKeyCopy. rewrite run_mbind, Hc.
  rewrite bool_decide_eq_false_2 by (intros E; by destruct (top_legacy baseDir)).
  cbn [run_prog]. unfold os_Remove. by rewrite H2, H4.
Qed.


(** One such directory. *)
Definition linked_cadir : FS :=
  mkFS {["/ca" := DirWritable; "/ca/private" := DirWritable]}
    {[("/ca", "ca_key.pem") := NLink ("/ca/private", "ca_key.pem");
      ("/ca/private", "ca_key.pem") := NFile (Some (BText "old key")) FilePermPrivate]}.
Definition no_space : error := Msg "no space left on device".

(** *** Instances *)

Lemma cadir_empty baseDir dirs : cadir baseDir (mkFS dirs ∅) (mkBackend false ∅ []).
Proof.
  split; [done| |].
  - intros key _. unfold held. cbn. case_bool_decide; cbn; by rewrite ?lookup_empty.
  - intros key _ p d m _. cbn. by rewrite lookup_empty.
Qed.

Definition empty_cadir : FS :=
  mkFS {["/ca" := DirWritable; "/ca/signed" := DirWritable; "/ca/requests" := DirWritable; "/ca/private" := DirWritable]} ∅.
Lemma empty_ready temp : ready "/ca" temp empty_cadir.
Proof.
  split; [|intros q _; apply lookup_empty]. intros d Hd. unfold cadir_dirs in Hd. cbn [map] in Hd.
  rewrite !elem_of_cons, elem_of_nil in Hd. by destruct_or! Hd; subst d.
Qed.
Definition demo_put : bop unit := OpPut KeyCAKey (BText "key") BlobPrivate.
Lemma demo_put_ok : op_ok (known "/ca") demo_put.
Proof. split; [|done]. intros key [= <-]. by left. Qed.

Lemma filesystem_refines_witness :
  (run_prog (fs_impl "/ca" "17" unit demo_put) empty_cadir).1 = Ok tt /\
  cadir "/ca" (run_prog (fs_impl "/ca" "17" unit demo_put) empty_cadir).2 (be_spec demo_put (mkBackend false ∅ [])).2.
Proof.
  destruct (filesystem_refines "/ca" "17" unit demo_put empty_cadir (mkBackend false ∅ []) _ _ eq_refl (cadir_empty _ _)
    demo_put_ok (upto_run _ _)) as (_ & H2 & H3).
  pose proof (H3 (empty_ready "17")) as H. split; [exact H|]. apply (H2 tt). by rewrite H.
Defined.

Lemma cadir_well_formed_witness :
  exists b, cadir "/ca" (run_prog (fs_impl "/ca" "17" unit demo_put) empty_cadir).2 b.
Proof.
  apply (cadir_well_formed "/ca" empty_cadir _ _ (cadir_empty _ _)).
  eapply (used_op "/ca" unit demo_put "17"); [reflexivity|apply demo_put_ok|apply upto_run|apply used_none].
Defined.

Definition two_keys : FS :=
  mkFS {["/ca" := DirWritable; "/ca/private" := DirWritable]}
    {[("/ca", "ca_key.pem") := NFile (Some (BText "one")) FilePermPrivate;
      ("/ca/private", "ca_key.pem") := NFile (Some (BText "two")) FilePermPrivate]}.
Lemma ca_key_conflict_refused_witness :
  (run_prog (fs_impl "/ca" "17" unit demo_put) two_keys).2 = two_keys.
Proof.
  exact (proj1 (ca_key_conflict_refused "/ca" "17" unit demo_put two_keys (BText "one") (BText "two") _ _
    eq_refl eq_refl ltac:(discriminate) eq_refl (upto_run _ _))).
Defined.
