(* ===== verification/Overlay.v ===== *)
(** * Local files over another backend

    Models internal/storage/overlay.go: some keys are kept in local files, the
    others in a base backend.  The base is whatever keeps the promise of a
    backend ([Backs]); the overlay then keeps it too. *)

From S2P Require Import Prelude GoStrings X509 Inventory Storage Concurrent Files FileBackend FileSafety.

Lemma merge_sort_perm {A} (R : relation A) `{!RelDecision R} l l' :
  Transitive R -> AntiSymm (=) R -> Total R -> l ≡ₚ l' -> merge_sort R l = merge_sort R l'.
Proof.
  intros HT HA HO Hp. apply (StronglySorted_unique R).
  - apply Sorted_StronglySorted; [done|]. by apply Sorted_merge_sort.
  - apply Sorted_StronglySorted; [done|]. by apply Sorted_merge_sort.
  - by rewrite !merge_sort_Permutation.
Qed.

(** Configured paths that are set, made absolute; at least one. *)
Fixpoint clean_overrides (abs : string -> result path) (l : list (string * string)) : result (gmap string path) :=
  match l with
  | [] => Ok ∅
  | (k, p) :: l =>
      if bool_decide (p = "") then clean_overrides abs l
      else match abs p with
           | Err e => Err (Wrap "resolving override path" [e])
           | Ok p => match clean_overrides abs l with Ok m => Ok (<[k := p]> m) | Err e => Err e end
           end
  end.
Definition NewOverlayBackend (abs : string -> result path) (l : list (string * string)) : result (gmap string path) :=
  match clean_overrides abs l with
  | Err e => Err e
  | Ok m => if bool_decide (m = ∅) then Err (Msg "overlay backend requires at least one non-empty override") else Ok m
  end.

Section Overlay.
Context {S : Type} (base : forall A, bop A -> prog S A) (rep : S -> Backend -> Prop) (known0 : string -> Prop).
Context `{!Backs base rep known0}.
Context (overrides : gmap string path) (temp : string).

(** ** Operations *)

(** The base and the local files are two stores. *)
Fixpoint on_base {A} (p : prog S A) : prog (S * FS) A :=
  match p with
  | Ret r => Ret r
  | Call f k => Call (fun x => ((f x.1).1, ((f x.1).2, x.2))) (fun b => on_base (k b))
  end.
Fixpoint on_local {A} (p : prog FS A) : prog (S * FS) A :=
  match p with
  | Ret r => Ret r
  | Call f k => Call (fun x => ((f x.2).1, (x.1, (f x.2).2))) (fun b => on_local (k b))
  end.

Definition local_Get (p : path) : files blob :=
  Call (fun s => (os_ReadFile p s, s)) (fun r =>
    match r with
    | Ok data => mret data
    | Err e => if errors_Is e FsErrNotExist then abort_with (not_exist "get") else abort_with e
    end).
Definition local_Put (p : path) (data : blob) (kind : BlobKind) : files unit :=
  or_error (os_MkdirAll p.1) (fun _ => AtomicWriteFile temp p data (permFor kind)).
Definition local_Delete (p : path) : files unit :=
  Call (os_Remove p) (fun r =>
    match r with
    | Ok _ => mret tt
    | Err e => if errors_Is e FsErrNotExist then abort_with (not_exist "delete") else abort_with e
    end).
Definition local_Exists (p : path) : files bool :=
  Call (fun s => (os_Stat p s, s)) (fun r =>
    match r with Ok _ => mret true | Err e => if errors_Is e FsErrNotExist then mret false else abort_with e end).

Definition overlay_impl A (o : bop A) : prog (S * FS) A :=
  match o in bop T return prog S T -> prog (S * FS) T with
  | OpGet key => fun p0 => match overrides !! key with Some p => on_local (local_Get p) | None => on_base p0 end
  | OpPut key data kind => fun p0 => match overrides !! key with Some p => on_local (local_Put p data kind) | None => on_base p0 end
  | OpDelete key => fun p0 => match overrides !! key with Some p => on_local (local_Delete p) | None => on_base p0 end
  | OpExists key => fun p0 => match overrides !! key with Some p => on_local (local_Exists p) | None => on_base p0 end
  | OpList prefix => fun p0 => on_base p0
  end (base A o).

(** An overridden key cannot be appended to. *)
Definition overlay_AppendLine (append : string -> string -> BlobKind -> prog S unit) (key data : string) (kind : BlobKind)
    : prog (S * FS) unit :=
  match overrides !! key with
  | Some _ => abort_with (Msg "AppendLine is not supported on an overridden key")
  | None => on_base (append key data kind)
  end.

Definition overlay_EnsureReady (ensure : prog S unit) : prog (S * FS) unit :=
  _ ← on_base ensure;
  on_local (mkdir_all (map (fun kp : string * path => kp.2.1) (map_to_list overrides))).

(** ** Composition *)

(** What the configuration may override: single blobs, each in a file of its
    own.  The inventory and the blobs of subjects stay in the base. *)
Record overridable : Prop := Overridable {
  ov_valid : forall key p, overrides !! key = Some p ->
    validateKey key = None /\ key <> KeyInventory /\ HasPrefix key csrPrefix = false /\ HasPrefix key certPrefix = false;
  ov_inj : forall k1 k2 p, overrides !! k1 = Some p -> overrides !! k2 = Some p -> k1 = k2;
  ov_temp : forall k p q, overrides !! k = Some p -> p <> temp_of temp q }.
Context (Hov : overridable).

(** [b] is [b0] with the local files in place of its own blobs. *)
Record agrees (b b0 : Backend) : Prop := Agrees {
  ag_structured : structured b = structured b0;
  ag_rows : rows b = rows b0;
  ag_blobs : forall key, overrides !! key = None -> blobs b !! key = blobs b0 !! key }.
Definition local (m : FS) (p : path) (v : option blob) : Prop :=
  match v with None => fs_nodes m !! p = None | Some d => exists mode, fs_nodes m !! p = Some (NFile (Some d) mode) end.
Definition overlaid (x : S * FS) (b : Backend) : Prop :=
  (exists b0, rep x.1 b0 /\ agrees b b0) /\ forall key p, overrides !! key = Some p -> local x.2 p (blobs b !! key).
Definition overlay_known (key : string) : Prop := is_Some (overrides !! key) \/ known0 key.

Lemma always_base {A} (I : S -> Prop) (p : prog S A) Q s m :
  always I p Q s -> always (fun x => I x.1 /\ x.2 = m) (on_base p) (fun r x => Q r x.1 /\ x.2 = m) (s, m).
Proof.
  revert s. induction p as [r|B f k IH]; intros s [H1 H2]; [by split|]. split; [done|].
  intros b x Hx. inversion Hx; subst; cbn in *; apply IH, H2; by constructor.
Qed.
Lemma always_local {A} (I : FS -> Prop) (p : prog FS A) Q s m :
  always I p Q m -> always (fun x => I x.2 /\ x.1 = s) (on_local p) (fun r x => Q r x.2 /\ x.1 = s) (s, m).
Proof.
  revert m. induction p as [r|B f k IH]; intros m [H1 H2]; [by split|]. split; [done|].
  intros b x Hx. inversion Hx; subst; cbn in *; apply IH, H2; by constructor.
Qed.

(** An operation on another key does the same in both. *)
Lemma on_rows_agrees b b0 key : agrees b b0 -> on_rows b key = on_rows b0 key.
Proof. intros H. unfold on_rows. by rewrite (ag_structured _ _ H). Qed.
Lemma agrees_insert b b0 key d :
  agrees b b0 -> agrees (set_blobs (<[key := d]> (blobs b)) b) (set_blobs (<[key := d]> (blobs b0)) b0).
Proof.
  intros [H1 H2 H3]. split; cbn; [done..|]. intros k Hk.
  destruct (decide (k = key)) as [->|]; [by rewrite !lookup_insert_eq|rewrite !lookup_insert_ne by done; auto].
Qed.
Lemma agrees_delete b b0 key :
  agrees b b0 -> agrees (set_blobs (delete key (blobs b)) b) (set_blobs (delete key (blobs b0)) b0).
Proof.
  intros [H1 H2 H3]. split; cbn; [done..|]. intros k Hk.
  destruct (decide (k = key)) as [->|]; [by rewrite !lookup_delete_eq|rewrite !lookup_delete_ne by done; auto].
Qed.
Lemma agrees_rows b b0 l : agrees b b0 -> agrees (set_rows l b) (set_rows l b0).
Proof. by intros [H1 H2 H3]. Qed.

Lemma subjects_agree prefix b b0 :
  agrees b b0 -> prefix = csrPrefix \/ prefix = certPrefix ->
  omap (fun kv => CutPrefix kv.1 prefix) (map_to_list (blobs b)) ≡ₚ omap (fun kv => CutPrefix kv.1 prefix) (map_to_list (blobs b0)).
Proof.
  intros H Hp.
  assert (forall m : gmap string blob, NoDup (omap (fun kv => CutPrefix kv.1 prefix) (map_to_list m))) as Hnd.
  { intros m. apply NoDup_omap_keys. intros [k1 ?] [k2 ?] z. cbn. by intros ->%CutPrefix_Some ->%CutPrefix_Some. }
  assert (forall (m : gmap string blob) x, x ∈ omap (fun kv => CutPrefix kv.1 prefix) (map_to_list m) <-> is_Some (m !! (prefix +:+ x))) as Hin.
  { intros m x. rewrite list_elem_of_omap. split.
    - intros ([k v] & Hv%elem_of_map_to_list & E). cbn in E. apply CutPrefix_Some in E as ->. eauto.
    - intros [v Hv]. exists (prefix +:+ x, v). rewrite elem_of_map_to_list. split; [done|apply CutPrefix_app]. }
  apply NoDup_Permutation; [apply Hnd..|]. intros x. rewrite !Hin. rewrite (ag_blobs _ _ H); [done|].
  destruct (overrides !! (prefix +:+ x)) as [p|] eqn:E; [|done].
  destruct (ov_valid Hov _ _ E) as (_ & _ & H1 & H2). unfold HasPrefix in *.
  destruct Hp as [-> | ->]; rewrite CutPrefix_app in *; done.
Qed.

Lemma be_List_agrees prefix b b0 : agrees b b0 -> (be_List prefix b).1 = (be_List prefix b0).1.
Proof.
  intros H. unfold be_List, list_order. rewrite (ag_structured _ _ H). destruct (_ || _) eqn:E; [|done]. cbn [fst]. f_equal. f_equal.
  apply merge_sort_perm.
  - intros x y z. apply transitivity.
  - intros x y H1 H2. pose proof (anti_symm String.le _ _ H1 H2) as Exy. destruct (structured b0); [done|].
    apply pem_name_Some in Exy. rewrite (proj2 (pem_name_Some _ x) eq_refl) in Exy. congruence.
  - intros x y. apply (total String.le).
  - apply subjects_agree; [done|]. apply orb_true_iff in E as [E|E]; apply bool_decide_eq_true in E; auto.
Qed.

Lemma spec_agrees A (o : bop A) b b0 :
  agrees b b0 -> (forall key, op_key o = Some key -> overrides !! key = None) ->
  (be_spec o b).1 = (be_spec o b0).1 /\ agrees (be_spec o b).2 (be_spec o b0).2 /\
  forall k p, overrides !! k = Some p -> blobs (be_spec o b).2 !! k = blobs b !! k.
Proof.
  intros H Hk. destruct o as [key|key data kind|key|key|prefix]; cbn [op_key be_spec] in *.
  5: { split; [by apply be_List_agrees|]. unfold be_List. by destruct (_ || _). }
  all: specialize (Hk _ eq_refl); pose proof (ag_blobs _ _ H key Hk) as Eb; pose proof (on_rows_agrees _ _ key H) as Er.
  all: assert (forall k p, overrides !! k = Some p -> k <> key) as Hne by congruence.
  - unfold be_Get, guarded. destruct (validateKey key); [done|]. rewrite Eb, Er, (ag_rows _ _ H). by repeat case_match.
  - unfold be_Put, guarded. destruct (validateKey key); [done|]. rewrite Er.
    destruct (on_rows b0 key); [destruct (insertInventoryLines _ _)|]; cbn [fst snd].
    + split; [done|]. split; [by apply agrees_rows, agrees_insert|]. intros k p E. cbn. apply lookup_insert_ne. by apply not_eq_sym, (Hne k p).
    + done.
    + split; [done|]. split; [by apply agrees_insert|]. intros k p E. cbn. apply lookup_insert_ne. by apply not_eq_sym, (Hne k p).
  - unfold be_Delete, guarded. destruct (validateKey key); [done|]. rewrite Eb, Er.
    destruct (blobs b0 !! key); [|done]. cbn [fst snd]. split; [done|].
    destruct (on_rows b0 key); (split; [try apply agrees_rows; by apply agrees_delete|]); intros k p E; cbn;
      apply lookup_delete_ne; by apply not_eq_sym, (Hne k p).
  - unfold be_Exists, guarded. destruct (validateKey key); [done|]. by rewrite Eb.
Qed.

(** *** The local files *)

Definition locals (m : FS) (b : Backend) : Prop := forall key p, overrides !! key = Some p -> local m p (blobs b !! key).

Lemma locals_set m m' key p v b q :
  locals m b -> overrides !! key = Some p -> (forall x, x <> p -> x <> temp_of temp q -> fs_nodes m' !! x = fs_nodes m !! x) ->
  local m' p v -> locals m' (set_key key v b).
Proof.
  intros H Hp Hx Hv k r Hr. rewrite lookup_set_key. case_bool_decide as E; [subst k; congruence|].
  specialize (H k r Hr). unfold local in *. rewrite Hx; [done| |by eapply ov_temp].
  intros ->. by apply E, (ov_inj Hov k key p).
Qed.
Lemma locals_same m m' b q :
  locals m b -> (forall x, x <> temp_of temp q -> fs_nodes m' !! x = fs_nodes m !! x) -> locals m' b.
Proof. intros H Hx k r Hr. specialize (H k r Hr). unfold local in *. rewrite Hx; [done|by eapply ov_temp]. Qed.

Lemma local_reads m p v : local m p v ->
  os_ReadFile p m = match v with None => Err (not_exist "stat") | Some d => Ok d end /\
  match v with None => os_Stat p m = Err (not_exist "stat") | Some d => exists n, os_Stat p m = Ok n end.
Proof.
  unfold local, os_ReadFile, os_Stat, max_links. destruct v; [intros [mode E]|intros E]; cbn [follow]; rewrite E; eauto.
Qed.

(** An operation on an overridden key, on the local files. *)
Lemma overridden_spec key p b data :
  overrides !! key = Some p ->
  be_Get key b = (match blobs b !! key with None => Err (not_exist "get") | Some d => Ok d end, b) /\
  be_Exists key b = (Ok (bool_decide (is_Some (blobs b !! key))), b) /\
  be_Put key data b = (Ok tt, set_key key (Some data) b) /\
  be_Delete key b = match blobs b !! key with None => (Err (not_exist "delete"), b) | Some _ => (Ok tt, set_key key None b) end.
Proof.
  intros Hp. destruct (ov_valid Hov _ _ Hp) as (Hv & Hi & _). unfold be_Get, be_Exists, be_Put, be_Delete, guarded, on_rows.
  rewrite Hv, (bool_decide_false (key = KeyInventory)), !andb_false_r by done. by destruct (blobs b !! key).
Qed.

Definition keeps {A} (o : bop A) (p : files A) (b : Backend) (m : FS) : Prop :=
  always (fun m' => locals m' b \/ locals m' (be_spec o b).2) p
    (fun r m' => forall v, r = Ok v -> (be_spec o b).1 = Ok v /\ locals m' (be_spec o b).2) m.

Lemma quiet_keeps {A} (o : bop A) (p : files A) b m :
  locals m b -> (be_spec o b).2 = b -> quiet p m (fun r => forall v, r = Ok v -> (be_spec o b).1 = Ok v) -> keeps o p b m.
Proof.
  intros H E Hq. unfold keeps. rewrite E. eapply always_mono; [| |apply (Hq (fun m' => locals m' b) H)]; [by left|].
  intros r m' Hc [-> Hr] v ->. auto.
Qed.

Lemma local_Put_keeps key p data kind b m :
  overrides !! key = Some p -> locals m b -> keeps (OpPut key data kind) (local_Put p data kind) b m.
Proof.
  intros Hp H. unfold keeps. cbn [be_spec]. destruct (overridden_spec key p b data Hp) as (_ & _ & -> & _).
  split; [by left|]. intros r m1 Hr.
  assert (locals m1 b) as H1.
  { destruct (mkdir_cases p.1 m) as [[e E]|(ds & E & _)]; destruct Hr as [|e' _|e' _]; rewrite ?E; done. }
  destruct r as [[]|e]; [|split; [by left|done]].
  eapply always_mono; [| |apply AtomicWriteFile_always; symmetry; by eapply ov_temp].
  - intros m2 [D O T]. destruct T as [T|T]; [left|right].
    + apply (locals_same m1 m2 b p H1). intros x Hx. destruct (decide (x = p)) as [->|]; auto.
    + apply (locals_set m1 m2 key p _ b p); [done..|]. by eexists.
  - intros r m2 _ [[D O _] T] [] Hok. split; [done|]. specialize (T Hok).
    apply (locals_set m1 m2 key p _ b p); [done..|]. by eexists.
Qed.

Lemma local_Delete_keeps key p b m :
  overrides !! key = Some p -> locals m b -> keeps (OpDelete key) (local_Delete p) b m.
Proof.
  intros Hp H. unfold keeps. cbn [be_spec]. destruct (overridden_spec key p b empty_blob Hp) as (_ & _ & _ & ->).
  pose proof (H key p Hp) as Hl. split; [by left|]. intros r m1 Hr.
  destruct (remove_cases m p) as [(e & E & _)|[E [n En]]].
  - destruct Hr as [|e' He|e' He]; rewrite ?E; cbn [fst snd]; try rewrite He; [destruct (errors_Is e _)| |]; (split; [by left|done]).
  - destruct (blobs b !! key) as [d|] eqn:Eb; [|by unfold local in Hl; rewrite En in Hl].
    assert (locals (put_nodes (delete p (fs_nodes m)) m) (set_key key None b)) as Hd.
    { apply (locals_set m _ key p None b p); [done..| |by apply lookup_delete_eq]. intros x Hx _. cbn. by apply lookup_delete_ne. }
    destruct Hr as [|e' He|e' He]; rewrite ?E; cbn [fst snd]; try rewrite He; (split; [auto|try done]).
Qed.

Lemma local_Get_keeps key p b m : overrides !! key = Some p -> locals m b -> keeps (OpGet key) (local_Get p) b m.
Proof.
  intros Hp H. destruct (overridden_spec key p b empty_blob Hp) as (Eg & _). apply quiet_keeps; cbn [be_spec]; rewrite ?Eg; [done..|].
  destruct (local_reads _ _ _ (H key p Hp)) as [Hr _]. apply quiet_read; [|intros e ->; by apply quiet_ret]. rewrite Hr.
  destruct (blobs b !! key); [apply quiet_ret; by intros v [= <-]|].
  by destruct (errors_Is _ _); apply quiet_ret.
Qed.
Lemma local_Exists_keeps key p b m : overrides !! key = Some p -> locals m b -> keeps (OpExists key) (local_Exists p) b m.
Proof.
  intros Hp H. destruct (overridden_spec key p b empty_blob Hp) as (_ & Ee & _). apply quiet_keeps; cbn [be_spec]; rewrite ?Ee; [done..|].
  destruct (local_reads _ _ _ (H key p Hp)) as [_ Hr]. apply quiet_read; [|intros e ->; by apply quiet_ret].
  destruct (blobs b !! key); [destruct Hr as [n ->]|rewrite Hr]; apply quiet_ret; by intros v [= <-].
Qed.

(** *** Both together *)

Lemma agrees_overridden key p v b b0 : overrides !! key = Some p -> agrees b b0 -> agrees (set_key key v b) b0.
Proof.
  intros Hp [H1 H2 H3]. split; [done..|]. intros k Hk. rewrite lookup_set_key.
  case_bool_decide; [congruence|auto].
Qed.
Lemma spec_overridden A (o : bop A) key p b b0 :
  op_key o = Some key -> overrides !! key = Some p -> agrees b b0 -> agrees (be_spec o b).2 b0.
Proof.
  intros Hk Hp H. destruct o as [k|k d kind|k|k|prefix]; cbn in *; simplify_eq;
    destruct (overridden_spec key p b (match tt with tt => empty_blob end) Hp) as (E1 & E2 & _ & E4).
  - by rewrite E1.
  - destruct (overridden_spec key p b d Hp) as (_ & _ & -> & _). by eapply agrees_overridden.
  - rewrite E4. destruct (blobs b !! key); [by eapply agrees_overridden|done].
  - by rewrite E2.
Qed.

Lemma local_backs A (o : bop A) key p (q : files A) s m b :
  op_key o = Some key -> overrides !! key = Some p -> overlaid (s, m) b -> keeps o q b m ->
  always (fun x => overlaid x b \/ overlaid x (be_spec o b).2) (on_local q)
    (fun r x => forall v, r = Ok v -> (be_spec o b).1 = Ok v /\ overlaid x (be_spec o b).2) (s, m).
Proof.
  intros Hk Hp [(b0 & Hrep & Hag) Hloc] Hq. eapply always_mono; [| |apply (always_local _ _ _ s m Hq)].
  - intros [s' m'] [[H|H] Es]; cbn in *; subst s'; [left|right]; (split; [exists b0; split; [done|]|exact H]); [done|].
    by eapply spec_overridden.
  - intros r [s' m'] _ [H Es] v ->. cbn in *. subst s'. destruct (H v eq_refl) as [E Hl]. split; [done|].
    split; [exists b0; split; [done|by eapply spec_overridden]|exact Hl].
Qed.

Lemma base_backs A (o : bop A) s m b :
  (forall key, op_key o = Some key -> overrides !! key = None) -> overlaid (s, m) b -> op_ok known0 o ->
  always (fun x => overlaid x b \/ overlaid x (be_spec o b).2) (on_base (base A o))
    (fun r x => forall v, r = Ok v -> (be_spec o b).1 = Ok v /\ overlaid x (be_spec o b).2) (s, m).
Proof.
  intros Hk [(b0 & Hrep & Hag) Hloc] Hok. destruct (spec_agrees A o b b0 Hag Hk) as (E1 & Hag' & Hsame). cbn in *.
  assert (forall k p, overrides !! k = Some p -> local m p (blobs (be_spec o b).2 !! k)) as Hloc'.
  { intros k p Hp. rewrite (Hsame k p Hp). by apply Hloc. }
  eapply always_mono; [| |apply (always_base _ _ _ s m (backs A o s b0 Hrep Hok))].
  - intros [s' m'] [[H|H] Em]; cbn in *; subst m'; [left|right]; (split; [|done]); eauto.
  - intros r [s' m'] _ [H Em] v ->. cbn in *. subst m'. destruct (H v eq_refl) as [E Hl]. rewrite E1. split; [done|].
    split; [|done]. eauto.
Qed.

(** An overlay is a backend if its base is. *)
#[local] Instance overlay_backs : Backs overlay_impl overlaid overlay_known.
Proof.
  intros A o [s m] b H [Hk Hkind].
  assert ((forall key, op_key o = Some key -> overrides !! key = None) -> op_ok known0 o) as Hbase.
  { intros Hn. split; [|done]. intros key E. destruct (Hk key E) as [[p Hp]|]; [|done]. by rewrite (Hn key E) in Hp. }
  pose proof (proj2 H) as Hl. cbn in Hl.
  destruct o as [key|key data kind|key|key|prefix]; unfold overlay_impl.
  5: by apply (base_backs _ (OpList prefix)); [| |apply Hbase].
  all: destruct (overrides !! key) as [p|] eqn:Ep.
  2,4,6,8: apply base_backs; [|done|apply Hbase]; by intros ? [= <-].
  - apply (local_backs _ (OpGet key) key p); [done..|]. by apply local_Get_keeps.
  - apply (local_backs _ (OpPut key data kind) key p); [done..|]. by apply local_Put_keeps.
  - apply (local_backs _ (OpDelete key) key p); [done..|]. by apply local_Delete_keeps.
  - apply (local_backs _ (OpExists key) key p); [done..|]. by apply local_Exists_keeps.
Qed.
End Overlay.

(** C23: Local files over a backend are a backend: if the base has its effect or none
    at every moment and answers as a backend does, so does the overlay, with each
    key in its own store, as long as single blobs are overridden and each has a
    file of its own. *)
Theorem overlay_refines {S} (base : forall A, bop A -> prog S A) rep known0 overrides temp A (o : bop A) x b p' x' :
  Backs base rep known0 -> overridable overrides temp -> overlaid rep overrides x b ->
  op_ok (overlay_known known0 overrides) o -> upto (overlay_impl base overrides temp A o) x p' x' ->
  (overlaid rep overrides x' b \/ overlaid rep overrides x' (be_spec o b).2) /\
  (forall v, p' = Ret (Ok v) -> (be_spec o b).1 = Ok v /\ overlaid rep overrides x' (be_spec o b).2).
Proof.
  intros Hb Hov H Hok Hu.
  destruct (always_upto _ _ _ _ _ _ (overlay_backs base rep known0 overrides temp Hov A o x b H Hok) Hu) as [HI HQ].
  split; [done|]. intros v ->. by apply (HQ (Ok v)).
Qed.

(** The CA key of a CA directory kept elsewhere. *)
Definition demo_overrides : gmap string path := {[KeyCAKey := ("/secrets", "key.pem")]}.
Definition demo_base : forall A, bop A -> prog FS A := fs_impl "/ca" "17".
Definition demo_x : FS * FS := (empty_cadir, mkFS {["/secrets" := DirWritable]} ∅).

Lemma demo_overridable : overridable demo_overrides "17".
Proof.
  unfold demo_overrides. split.
  - by intros key p [<- <-]%lookup_singleton_Some.
  - by intros k1 k2 p [<- _]%lookup_singleton_Some [<- _]%lookup_singleton_Some.
  - by intros k p q [_ <-]%lookup_singleton_Some.
Qed.
Lemma demo_overlaid : overlaid (cadir "/ca") demo_overrides demo_x (mkBackend false ∅ []).
Proof. split; [|done]. exists (mkBackend false ∅ []). split; [apply cadir_empty|done]. Qed.

Lemma overlay_refines_witness :
  (run_prog (overlay_impl demo_base demo_overrides "17" unit demo_put) demo_x).1 = Ok tt /\
  overlaid (cadir "/ca") demo_overrides (run_prog (overlay_impl demo_base demo_overrides "17" unit demo_put) demo_x).2
    (be_spec demo_put (mkBackend false ∅ [])).2.
Proof.
  split; [by vm_compute|].
  refine (proj2 (proj2 (overlay_refines demo_base (cadir "/ca") (known "/ca") demo_overrides "17" unit demo_put demo_x
    (mkBackend false ∅ []) _ _ (filesystem_backs "/ca" "17" eq_refl) demo_overridable demo_overlaid _ (upto_run _ _)) tt _)).
  - split; [|done]. intros key [= <-]. left. by eexists.
  - by vm_compute.
Defined.
