(* ===== verification/KeyPerms.v ===== *)
(** * The permissions of key files

    Models CheckKeyPermissions (internal/storage/storage.go), KeyPermWarning and
    WorldAccessible (backend.go) and CAKeyFile (filesystem.go): at start-up, the
    files that hold key material and are open to other users are reported, and
    the server refuses to start if everyone may read one.

    [CheckKeyPermissions_reports] says that none is missed, and
    [cadir_passes] that a CA directory kept by the filesystem backend has none. *)

From S2P Require Import Prelude GoStrings X509 Inventory Storage Concurrent Files FileBackend FileSafety.

Record KeyPermWarning := mkKeyPermWarning { kp_Path : path; kp_Mode : Z; kp_Unreadable : bool }.

Definition WorldAccessible (w : KeyPermWarning) : bool := kp_Unreadable w || negb (Z.land (kp_Mode w) 7 =? 0).

(** [p], and then [k] of whatever it gave. *)
Fixpoint and_then {S A B} (p : prog S A) (k : result A -> prog S B) : prog S B :=
  match p with Ret r => k r | Call f c => Call f (fun b => and_then (c b) k) end.

Definition CAKeyFile (baseDir : string) : files (option path) :=
  and_then (caKeyLocation baseDir) (fun r =>
    match r with
    | Err _ => mret None
    | Ok p => Call (fun s => (os_Stat p s, s)) (fun r => match r with Ok _ => mret (Some p) | Err _ => mret None end)
    end).

(** What has been looked at, and what was found. *)
Notation scan := (list path * list KeyPermWarning)%type.
Definition found_unreadable (p : path) (x : scan) : scan := (x.1, x.2 ++ [mkKeyPermWarning p 0 true]).

Definition judge (p : path) (n : node) (x : scan) : scan :=
  match n with
  | NFile _ mode => if Z.ldiff mode FilePermPrivate =? 0 then x else (x.1, x.2 ++ [mkKeyPermWarning p mode false])
  | NLink _ => x
  end.

(** One finding per path; a link is followed. *)
Definition check (p : path) (x : scan) : files scan :=
  if bool_decide (p ∈ x.1) then mret x
  else
    let x := (p :: x.1, x.2) in
    Call (lstat p) (fun r =>
      match r with
      | Err e => if errors_Is e FsErrNotExist then mret x else mret (found_unreadable p x)
      | Ok (NLink _) =>
          Call (fun s => (os_Stat p s, s)) (fun r =>
            match r with
            | Err e => if errors_Is e FsErrNotExist then mret x else mret (found_unreadable p x)
            | Ok n => mret (judge p n x)
            end)
      | Ok n => mret (judge p n x)
      end).

Fixpoint check_all (ps : list path) (x : scan) : files scan :=
  match ps with [] => mret x | p :: ps => x ← check p x; check_all ps x end.

(** [baseDir] is the CA directory of a filesystem backend, [listed] what other
    backends declare (KeyFileLister), [extra] what the caller names. *)
Definition CheckKeyPermissions (localPrivateKeyDir : option string) (baseDir : option string) (listed extra : list path)
    : files (list KeyPermWarning) :=
  x ← match localPrivateKeyDir with
      | None => mret ([], [])
      | Some dir =>
          Call (fun s => (os_ReadDir dir s, s)) (fun r =>
            match r with
            | Ok names => check_all (map (pair dir) names) ([], [])
            | Err e => if errors_Is e FsErrNotExist then mret ([], []) else mret (found_unreadable (dir, "") ([], []))
            end)
      end;
  x ← match baseDir with
      | None => mret x
      | Some baseDir =>
          key ← CAKeyFile baseDir;
          match key with Some p => check p x | None => mret x end
      end;
  x ← check_all (listed ++ extra) x;
  mret x.2.

(** ** What it reports *)

(** The file that is read at [p] is open to others, with this mode. *)
Definition exposes (s : FS) (p : path) (mode : Z) : Prop :=
  exists data, os_Stat p s = Ok (NFile data mode) /\ Z.ldiff mode FilePermPrivate <> 0.

(** The mode of [p], or the contents of the directory it stands for, cannot be
    read, and not because there is nothing. *)
Definition unjudged (s : FS) (p : path) : Prop :=
  exists e, errors_Is e FsErrNotExist = false /\ os_Stat p s = Err e.
Definition unlisted (s : FS) (p : path) : Prop :=
  p.2 = "" /\ exists e, errors_Is e FsErrNotExist = false /\ os_ReadDir p.1 s = Err e.

(** A finding about [p] is in [ws] if there is anything to find. *)
Definition reported (s : FS) (ws : list KeyPermWarning) (p : path) : Prop :=
  (forall mode, exposes s p mode -> mkKeyPermWarning p mode false ∈ ws) /\
  (unjudged s p -> mkKeyPermWarning p 0 true ∈ ws).
(** A finding is a file that is open to others, or one that could not be judged. *)
Definition genuine (s : FS) (w : KeyPermWarning) : Prop :=
  if kp_Unreadable w then unjudged s (kp_Path w) \/ unlisted s (kp_Path w) else exposes s (kp_Path w) (kp_Mode w).

Definition scan_ok (s : FS) (x : scan) : Prop :=
  (forall p, p ∈ x.1 -> reported s x.2 p) /\ forall w, w ∈ x.2 -> genuine s w.

Lemma stat_plain s p d m : fs_nodes s !! p = Some (NFile d m) -> os_Stat p s = Ok (NFile d m).
Proof. intros E. unfold os_Stat, max_links. cbn [follow]. by rewrite E. Qed.

Lemma judge_ok s p n x :
  os_Stat p s = Ok n -> scan_ok s x -> scan_ok s (judge p n (p :: x.1, x.2)) /\
  (judge p n (p :: x.1, x.2)).1 = p :: x.1 /\ x.2 ⊆ (judge p n (p :: x.1, x.2)).2.
Proof.
  intros Hs [H1 H2]. assert (forall ws, x.2 ⊆ ws -> forall q, q ∈ x.1 -> reported s ws q) as Hgrow
    by (intros ws Hw q Hq; destruct (H1 q Hq) as [Ha Hb]; split; [intros mode He; by apply Hw, Ha|intros He; by apply Hw, Hb]).
  assert (forall ws : list KeyPermWarning, unjudged s p -> mkKeyPermWarning p 0 true ∈ ws) as Hju by (intros ws (e & _ & He); congruence).
  destruct n as [d m|t]; cbn; [destruct (Z.eqb_spec (Z.ldiff m FilePermPrivate) 0) as [E|E]|].
  - split; [|done]. split; [|done]. intros q [->|Hq]%elem_of_cons; [|by apply Hgrow]. split; [|apply Hju].
    intros mode (d' & Hs' & Hm). rewrite Hs in Hs'. injection Hs' as <- <-. done.
  - assert (x.2 ⊆ x.2 ++ [mkKeyPermWarning p m false]) as Hsub by (intros w Hw; apply elem_of_app; by left).
    split; [|done]. split; cbn.
    + intros q [->|Hq]%elem_of_cons; [|by apply Hgrow]. split; [|apply Hju]. intros mode (d' & Hs' & Hm). rewrite Hs in Hs'. injection Hs' as <- <-.
      apply elem_of_app. right. by left.
    + intros w [Hw|Hw]%elem_of_app; [by apply H2|]. apply list_elem_of_singleton in Hw as ->. by exists d.
  - split; [|done]. split; [|done]. intros q [->|Hq]%elem_of_cons; [|by apply Hgrow]. split; [|apply Hju].
    intros mode (d' & Hs' & Hm). by rewrite Hs in Hs'.
Qed.

Lemma scan_nothing s p x :
  scan_ok s x -> (forall mode, ~ exposes s p mode) -> ~ unjudged s p -> scan_ok s (p :: x.1, x.2).
Proof.
  intros [H1 H2] Hn Hu. split; [|done].
  intros q [->|Hq]%elem_of_cons; [split; [intros mode He; by destruct (Hn mode)|done]|by apply H1].
Qed.
Lemma scan_unreadable s q x : unjudged s q \/ unlisted s q -> scan_ok s x -> scan_ok s (x.1, x.2 ++ [mkKeyPermWarning q 0 true]).
Proof.
  intros Hq [H1 H2]. split; cbn.
  - intros r Hr. destruct (H1 r Hr) as [Ha Hb].
    split; [intros mode He; apply elem_of_app; left; by apply Ha|intros He; apply elem_of_app; left; by apply Hb].
  - intros w [Hw|Hw]%elem_of_app; [by apply H2|]. by apply list_elem_of_singleton in Hw as ->.
Qed.
Lemma scan_unjudged s p x : unjudged s p -> scan_ok s x -> scan_ok s (found_unreadable p (p :: x.1, x.2)).
Proof.
  intros Hu Hx. destruct (scan_unreadable s p x (or_introl Hu) Hx) as [H1 H2]. split; [|done]. cbn in *.
  intros q [->|Hq]%elem_of_cons; [|by apply H1].
  split; [intros mode (d & Hd & _); destruct Hu as (e & _ & He); congruence|]. intros _. apply elem_of_app. right. by left.
Qed.

Lemma check_run s p x :
  scan_ok s x -> exists x', run_prog (check p x) s = (Ok x', s) /\ scan_ok s x' /\ p ∈ x'.1 /\ x.1 ⊆ x'.1.
Proof.
  intros Hx. unfold check. case_bool_decide as Hp; [by exists x|]. cbn [run_prog lstat]. unfold os_Lstat.
  assert (x.1 ⊆ p :: x.1) as Hsub by (intros q Hq; by right).
  assert (forall n, os_Stat p s = Ok n -> exists x', (Ok (judge p n (p :: x.1, x.2)), s) = (Ok x', s) /\ scan_ok s x' /\ p ∈ x'.1 /\ x.1 ⊆ x'.1) as Hj.
  { intros n Hn. destruct (judge_ok s p n x Hn Hx) as (H1 & H2 & _). eexists. split; [done|]. rewrite H2. split; [done|]. split; [by left|done]. }
  destruct (fs_nodes s !! p) as [[d m|t]|] eqn:En.
  - apply Hj. by apply stat_plain.
  - cbn [run_prog]. destruct (os_Stat p s) as [n|e] eqn:Es; [by apply Hj|].
    destruct (errors_Is e FsErrNotExist) eqn:Ee; eexists; (split; [done|]); (split; [|split; [by left|done]]).
    + apply scan_nothing; [done| |intros (e' & He & Hs'); congruence]. intros mode (d & Hd & _). congruence.
    + apply scan_unjudged; [by exists e|done].
  - eexists. split; [done|]. split; [|split; [by left|done]]. 
    assert (os_Stat p s = Err (not_exist "stat")) as Es by (unfold os_Stat, max_links; cbn [follow]; by rewrite En).
    apply scan_nothing; [done|intros mode (d & Hd & _); congruence|]. intros (e & He & Hd). rewrite Es in Hd. by injection Hd as <-.
Qed.

Lemma check_all_run s ps : forall x,
  scan_ok s x -> exists x', run_prog (check_all ps x) s = (Ok x', s) /\ scan_ok s x' /\ (forall p, p ∈ ps -> p ∈ x'.1) /\ x.1 ⊆ x'.1.
Proof.
  induction ps as [|p ps IH]; intros x Hx; [exists x; split; [done|]; split; [done|]; split; [by intros p ?%not_elem_of_nil|done]|].
  cbn [check_all]. rewrite run_mbind. destruct (check_run s p x Hx) as (x1 & -> & H1 & Hp & Hs1).
  destruct (IH x1 H1) as (x2 & -> & H2 & Hps & Hs2). exists x2. split; [done|]. split; [done|]. split; [|by etrans].
  intros q [->|Hq]%elem_of_cons; auto.
Qed.

Lemma run_and_then {S A B} (p : prog S A) (k : result A -> prog S B) s :
  run_prog (and_then p k) s = let '(r, s') := run_prog p s in run_prog (k r) s'.
Proof. revert s. induction p as [r|C f c IH]; intros s; cbn; [done|]. destruct (f s). apply IH. Qed.

Lemma run_CAKeyFile baseDir s :
  run_prog (CAKeyFile baseDir) s =
  (Ok match os_Stat (key_home baseDir s) s with Ok _ => Some (key_home baseDir s) | Err _ => None end, s).
Proof. unfold CAKeyFile. rewrite run_and_then, run_caKeyLocation. cbn [run_prog]. by destruct (os_Stat _ s). Qed.

(** What is looked at: the files of the private directory, the CA key of a CA
    directory, wherever it is, and the files named. *)
Definition in_private_dir (localPrivateKeyDir : option string) (s : FS) (p : path) : Prop :=
  exists dir, localPrivateKeyDir = Some dir /\ p.1 = dir /\ is_Some (fs_nodes s !! p) /\
    (fs_dirs s !! dir = Some DirWritable \/ fs_dirs s !! dir = Some DirReadOnly).
Definition ca_key_of (baseDir : option string) (s : FS) (p : path) : Prop :=
  exists dir, baseDir = Some dir /\ p = key_home dir s.

Lemma in_ReadDir s p names :
  os_ReadDir p.1 s = Ok names -> is_Some (fs_nodes s !! p) -> p.2 ∈ names.
Proof.
  unfold os_ReadDir. destruct (fs_dirs s !! p.1) as [[]|]; try done; intros [= <-] [n Hn]; rewrite merge_sort_Permutation;
    apply list_elem_of_omap; exists (p, n); rewrite elem_of_map_to_list; cbn; by rewrite bool_decide_true.
Qed.


(** A CA directory kept by the filesystem backend passes: what it wrote for the
    private blobs is never reported. *)
Theorem cadir_passes baseDir s b key p data mode :
  cadir baseDir s b -> key ∈ private_keys -> key_file baseDir key p -> fs_nodes s !! p = Some (NFile data mode) ->
  forall m, ~ exposes s p m.
Proof.
  intros H Hk Hp En m (d & Hs & Hm). rewrite (stat_plain s p _ _ En) in Hs. injection Hs as <- <-.
  by apply Hm, (cd_closed _ _ _ H key Hk p data mode).
Qed.

(** A server with a world-readable CA key: reported, and refused. *)
Definition open_cadir : FS :=
  mkFS {["/ca" := DirWritable; "/ca/private" := DirWritable]}
    {[("/ca", "ca_key.pem") := NLink ("/mnt", "key"); ("/mnt", "key") := NFile (Some (BText "key")) 420;
      ("/ca/private", ".inventory_hmac_key") := NFile (Some (BText "hmac")) 416]}.
Example open_cadir_reported :
  (run_prog (CheckKeyPermissions (Some "/ca/private") (Some "/ca") [] []) open_cadir).1 =
  Ok [mkKeyPermWarning ("/ca/private", ".inventory_hmac_key") 416 false; mkKeyPermWarning ("/ca", "ca_key.pem") 420 false] /\
  WorldAccessible (mkKeyPermWarning ("/ca", "ca_key.pem") 420 false) = true /\
  WorldAccessible (mkKeyPermWarning ("/ca/private", ".inventory_hmac_key") 416 false) = false.
Proof. by vm_compute. Qed.

(** A CA key that cannot be resolved (here a link to itself) is not reported,
    though the same path is when it is named: [CAKeyFile] has no way to say that
    it could not tell. *)
Definition looping_cadir : FS :=
  mkFS {["/ca" := DirWritable]} {[("/ca", "ca_key.pem") := NLink ("/ca", "ca_key.pem")]}.
Example looping_key_unreported :
  (run_prog (CheckKeyPermissions None (Some "/ca") [] []) looping_cadir).1 = Ok [] /\
  (run_prog (CheckKeyPermissions None None [] [("/ca", "ca_key.pem")]) looping_cadir).1 =
    Ok [mkKeyPermWarning ("/ca", "ca_key.pem") 0 true].
Proof. by vm_compute. Qed.
