(* ===== verification/Signer.v ===== *)
(** * The isolated signer

    Models internal/signer/signer.go: the process that holds the CA key apart
    from the network-facing frontend.  The two share a secret that the launcher
    passes through a pipe, prove to each other that they know it
    ([handshake_authenticates]), and then the frontend may ask for signatures of
    digests, and of nothing else ([Service_Sign_digests]).

    The wire is in the hands of an attacker, who chooses what each side reads.
    The attacker does not know the secret; what that means is stated where it is
    used ([may_send]): the proof in a message is one that was sent before, or is
    not the one expected. *)

From S2P Require Import Prelude GoStrings Sha256.

Definition pskLen : nat := 32.
Definition nonceLen : nat := 32.
Definition frontendProofLabel := "openvox-ca frontend".
Definition signerProofLabel := "openvox-ca signer".

(** ** The secret *)

Fixpoint hex_DecodeString (s : string) : option string :=
  match s with
  | "" => Some ""
  | String c (String d s) =>
      hi ← hex_val c; lo ← hex_val d; rest ← hex_DecodeString s; Some (String (chr (16 * hi + lo)) rest)
  | String _ "" => None
  end.

(** Of the pipe, one byte more than a secret has is read. *)
Definition parsePSK (pipe : string) : result string :=
  match hex_DecodeString (String.substring 0 (2 * pskLen + 1) pipe) with
  | None => Err (Msg "decoding PSK")
  | Some psk => if bool_decide (String.length psk = pskLen) then Ok psk else Err (Msg "PSK must be 32 bytes")
  end.

(** [None]: nothing arrived in time. *)
Definition readPSK (pipe : option string) : result string :=
  match pipe with Some s => parsePSK s | None => Err (Msg "no PSK arrived") end.

(** ** The handshake *)

Definition proof_input (label serverNonce clientNonce : string) : string := label +:+ serverNonce +:+ clientNonce.
Definition handshakeProof (psk label serverNonce clientNonce : string) : string :=
  hmac_sha256 psk (proof_input label serverNonce clientNonce).

(** [io.ReadFull]: the next [n] bytes, if there are so many. *)
Definition read_full (n : nat) (wire : string) : option string :=
  if bool_decide (n <= String.length wire)%nat then Some (String.substring 0 n wire) else None.

(** The signer, once it has sent its nonce: it reads the frontend's nonce and
    proof, and answers with its own proof.  The frontend's nonce is kept. *)
Definition serverHandshake (psk serverNonce wire : string) : result (string * string) :=
  match read_full (nonceLen + 32) wire with
  | None => Err (Msg "reading frontend nonce and proof")
  | Some buf =>
      let clientNonce := String.substring 0 nonceLen buf in
      let clientProof := String.substring nonceLen 32 buf in
      if bool_decide (clientProof = handshakeProof psk frontendProofLabel serverNonce clientNonce)
      then Ok (clientNonce, handshakeProof psk signerProofLabel serverNonce clientNonce)
      else Err (Msg "PSK authentication failed: frontend proof mismatch")
  end.

(** The frontend reads the signer's nonce and sends its own with a proof; then
    it checks the signer's proof. *)
Definition clientHello (psk clientNonce wire : string) : result (string * string) :=
  match read_full nonceLen wire with
  | None => Err (Msg "reading server nonce")
  | Some serverNonce =>
      Ok (serverNonce, clientNonce +:+ handshakeProof psk frontendProofLabel serverNonce clientNonce)
  end.
Definition clientFinish (psk serverNonce clientNonce wire : string) : result unit :=
  match read_full 32 wire with
  | None => Err (Msg "reading signer proof")
  | Some serverProof =>
      if bool_decide (serverProof = handshakeProof psk signerProofLabel serverNonce clientNonce) then Ok tt
      else Err (Msg "PSK authentication failed: signer proof mismatch")
  end.

(** ** Signing *)

(** [crypto.Hash] by its number, and [Hash.Size] of those that are allowed. *)
Record SignRequest := mkSignRequest { sr_Digest : string; sr_HashFunc : Z }.
Definition SHA256 : Z := 5.
Definition SHA384 : Z := 6.
Definition SHA512 : Z := 7.
Definition hash_size (h : Z) : option nat :=
  if h =? SHA256 then Some 32%nat else if h =? SHA384 then Some 48%nat else if h =? SHA512 then Some 64%nat else None.

Definition errSignRequestRefused : error := Msg "signing request refused".
Definition checkSignRequest (req : SignRequest) : option error :=
  match hash_size (sr_HashFunc req) with
  | None => Some (Wrap "hash function" [errSignRequestRefused])
  | Some want =>
      if bool_decide (String.length (sr_Digest req) = want) then None
      else Some (Wrap "digest length" [errSignRequestRefused])
  end.

(** The key is whatever signs: a file's key or a provider's. *)
Definition Service_Sign (key : string -> Z -> result string) (req : SignRequest) : result string :=
  match checkSignRequest req with
  | Some e => Err e
  | None => match key (sr_Digest req) (sr_HashFunc req) with
            | Ok sig => Ok sig
            | Err e => Err (Wrap "signing failed" [e])
            end
  end.

(** The frontend's side: the reply to the call, or none in time. *)
Definition RemoteSigner_Sign (call : SignRequest -> option (result string)) (digest : string) (hash : Z) : result string :=
  match call (mkSignRequest digest hash) with
  | Some (Ok sig) => Ok sig
  | Some (Err e) => Err (Wrap "remote sign" [e])
  | None => Err (Wrap "remote sign" [Msg "timed out waiting for the isolated signer"])
  end.

(** A digest of the length its hash function makes, with one of the three. *)
Definition allowed (d : string) (h : Z) : Prop :=
  h = SHA256 /\ String.length d = 32%nat \/ h = SHA384 /\ String.length d = 48%nat \/ h = SHA512 /\ String.length d = 64%nat.

Lemma checkSignRequest_allowed req : checkSignRequest req = None <-> allowed (sr_Digest req) (sr_HashFunc req).
Proof.
  unfold checkSignRequest, hash_size, allowed. destruct req as [d h]. cbn.
  destruct (Z.eqb_spec h SHA256), (Z.eqb_spec h SHA384), (Z.eqb_spec h SHA512); subst; try done; [case_bool_decide; naive_solver..|].
  split; [done|]. intros [[? _]|[[? _]|[? _]]]; done.
Qed.

(** The key is asked for nothing but digests: two keys that agree on them cannot
    be told apart through the service. *)
Lemma Service_Sign_digests key key' req :
  (forall d h, allowed d h -> key d h = key' d h) -> Service_Sign key req = Service_Sign key' req.
Proof.
  intros H. unfold Service_Sign. destruct (checkSignRequest req) eqn:E; [done|].
  apply checkSignRequest_allowed in E. by rewrite (H _ _ E).
Qed.

(** ** Any number of handshakes with an attacker on the wire *)

(** The sessions of each side, by the nonce it chose: for the signer the nonce
    of the frontend it accepted, for the frontend the nonce it was given and
    whether it accepted.  [n_sent] has what proofs were sent for, [n_checked]
    what proofs were compared with. *)
Record network := mkNetwork {
  n_signers : gmap string (option string);
  n_frontends : gmap string (string * bool);
  n_sent : list string;
  n_checked : list string }.

(** The attacker sends the proof [p] where that of [input] is expected. *)
Definition may_send (psk : string) (sent : list string) (p input : string) : Prop :=
  p ∈ map (hmac_sha256 psk) sent \/ p <> hmac_sha256 psk input.

Inductive net_step (psk : string) : network -> network -> Prop :=
  | signer_starts n sn :
      String.length sn = nonceLen -> n_signers n !! sn = None ->
      net_step psk n (mkNetwork (<[sn := None]> (n_signers n)) (n_frontends n) (n_sent n) (n_checked n))
  | frontend_starts n cn wire sn msg :
      String.length cn = nonceLen -> n_frontends n !! cn = None -> clientHello psk cn wire = Ok (sn, msg) ->
      net_step psk n (mkNetwork (n_signers n) (<[cn := (sn, false)]> (n_frontends n))
                        (proof_input frontendProofLabel sn cn :: n_sent n) (n_checked n))
  | signer_accepts n sn wire cn reply :
      n_signers n !! sn = Some None -> serverHandshake psk sn wire = Ok (cn, reply) ->
      may_send psk (n_sent n) (String.substring nonceLen 32 (String.substring 0 (nonceLen + 32) wire)) (proof_input frontendProofLabel sn cn) ->
      net_step psk n (mkNetwork (<[sn := Some cn]> (n_signers n)) (n_frontends n)
                        (proof_input signerProofLabel sn cn :: n_sent n)
                        (proof_input frontendProofLabel sn cn :: n_checked n))
  | frontend_accepts n cn sn wire :
      n_frontends n !! cn = Some (sn, false) -> clientFinish psk sn cn wire = Ok tt ->
      may_send psk (n_sent n) (String.substring 0 32 wire) (proof_input signerProofLabel sn cn) ->
      net_step psk n (mkNetwork (n_signers n) (<[cn := (sn, true)]> (n_frontends n)) (n_sent n)
                        (proof_input signerProofLabel sn cn :: n_checked n)).

Definition quiet_network : network := mkNetwork ∅ ∅ [] [].

(** No two of the inputs that occurred have the same proof. *)
Definition collision_free (psk : string) (n : network) : Prop :=
  forall i j, i ∈ n_sent n ++ n_checked n -> j ∈ n_sent n ++ n_checked n -> hmac_sha256 psk i = hmac_sha256 psk j -> i = j.

(** *** Proof inputs *)

Lemma length_substring_0 m x : String.length (String.substring 0 m x) = (m `min` String.length x)%nat.
Proof. revert m. induction x as [|c x IH]; intros [|m]; cbn; try done. by rewrite IH. Qed.

Lemma read_full_length k wire buf : read_full k wire = Some buf -> String.length buf = k.
Proof. unfold read_full. case_bool_decide; [|done]. intros [= <-]. rewrite length_substring_0. lia. Qed.

Lemma frontend_label : frontendProofLabel ∈ [frontendProofLabel; signerProofLabel].
Proof. by left. Qed.
Lemma signer_label : signerProofLabel ∈ [frontendProofLabel; signerProofLabel].
Proof. right. by left. Qed.

(** The two sides prove different things, and each proof says which nonces. *)
Lemma proof_input_inj l1 l2 s1 s2 c1 c2 :
  l1 ∈ [frontendProofLabel; signerProofLabel] -> l2 ∈ [frontendProofLabel; signerProofLabel] ->
  String.length s1 = nonceLen -> String.length s2 = nonceLen -> String.length c1 = nonceLen -> String.length c2 = nonceLen ->
  proof_input l1 s1 c1 = proof_input l2 s2 c2 -> l1 = l2 /\ s1 = s2 /\ c1 = c2.
Proof.
  intros H1 H2 Ls1 Ls2 Lc1 Lc2 E. unfold proof_input in E.
  assert (l1 = l2) as <-.
  { apply (f_equal String.length) in E. rewrite !length_str_app, Ls1, Ls2, Lc1, Lc2 in E.
    rewrite !elem_of_cons, elem_of_nil in H1, H2. destruct_or! H1; destruct_or! H2; subst; done. }
  split; [done|]. apply str_app_inj_l in E. apply str_app_inj_len in E; [done|congruence].
Qed.

(** *** The invariant *)

Definition met (n : network) (sn cn : string) : Prop := exists a, n_frontends n !! cn = Some (sn, a).

Record honest (n : network) : Prop := Honest {
  h_signer_nonce : forall sn o, n_signers n !! sn = Some o -> String.length sn = nonceLen;
  h_frontend_nonce : forall sn cn, met n sn cn -> String.length sn = nonceLen /\ String.length cn = nonceLen;
  h_sent : forall i, i ∈ n_sent n -> exists sn cn,
    String.length sn = nonceLen /\ String.length cn = nonceLen /\
    (i = proof_input frontendProofLabel sn cn /\ met n sn cn \/
     i = proof_input signerProofLabel sn cn /\ n_signers n !! sn = Some (Some cn));
  h_signer : forall sn cn, n_signers n !! sn = Some (Some cn) -> met n sn cn;
  h_frontend : forall sn cn, n_frontends n !! cn = Some (sn, true) -> n_signers n !! sn = Some (Some cn) }.

(** An accepted proof was sent, for just what was expected. *)
Lemma accepted_sent psk n n' p l sn cn :
  honest n -> collision_free psk n' -> n_sent n ⊆ n_sent n' -> proof_input l sn cn ∈ n_checked n' ->
  may_send psk (n_sent n) p (proof_input l sn cn) -> p = hmac_sha256 psk (proof_input l sn cn) ->
  l ∈ [frontendProofLabel; signerProofLabel] -> String.length sn = nonceLen -> String.length cn = nonceLen ->
  l = frontendProofLabel /\ met n sn cn \/ l = signerProofLabel /\ n_signers n !! sn = Some (Some cn).
Proof.
  intros Hh Hcf Hsub Hin [Hp|Hp] Ep Hl Ls Lc; [|done]. apply list_elem_of_fmap in Hp as (i & Ei & Hi).
  assert (i = proof_input l sn cn) as E.
  { apply Hcf; [apply elem_of_app; left; auto|apply elem_of_app; by right|congruence]. }
  destruct (h_sent _ Hh i Hi) as (sn' & cn' & Ls' & Lc' & [[Ei' Hm]|[Ei' Hm]]); rewrite Ei' in E.
  - destruct (proof_input_inj _ _ _ _ _ _ frontend_label Hl Ls' Ls Lc' Lc E) as (<- & <- & <-). by left.
  - destruct (proof_input_inj _ _ _ _ _ _ signer_label Hl Ls' Ls Lc' Lc E) as (<- & <- & <-). by right.
Qed.

Lemma hello_run psk cn wire sn msg :
  clientHello psk cn wire = Ok (sn, msg) -> String.length sn = nonceLen /\ msg = cn +:+ handshakeProof psk frontendProofLabel sn cn.
Proof.
  unfold clientHello. destruct (read_full _ wire) as [x|] eqn:E; [|done]. intros [= <- <-]. split; [by eapply read_full_length|done].
Qed.
Lemma server_run psk sn wire cn reply :
  serverHandshake psk sn wire = Ok (cn, reply) ->
  String.length cn = nonceLen /\ reply = handshakeProof psk signerProofLabel sn cn /\
  String.substring nonceLen 32 (String.substring 0 (nonceLen + 32) wire) = hmac_sha256 psk (proof_input frontendProofLabel sn cn).
Proof.
  unfold serverHandshake, read_full. case_bool_decide as El; [|done]. case_bool_decide as E; [|done]. intros [= <- <-].
  split; [|done]. rewrite !length_substring_0. unfold nonceLen in *. lia.
Qed.
Lemma finish_run psk sn cn wire :
  clientFinish psk sn cn wire = Ok tt -> String.substring 0 32 wire = hmac_sha256 psk (proof_input signerProofLabel sn cn).
Proof. unfold clientFinish, read_full. case_bool_decide; [|done]. by case_bool_decide. Qed.

Lemma step_honest psk n n' : net_step psk n n' -> collision_free psk n' -> honest n -> honest n'.
Proof.
  intros Hs Hcf Hh. pose proof Hh as [H1 H2 H3 H4 H5].
  destruct Hs as [n sn Ls Hn|n cn wire sn msg Lc Hn Hr|n sn wire cn reply Hn Hr Hm|n cn sn wire Hn Hr Hm].
  - (* a signer starts *)
    assert (forall s c, n_signers n !! s = Some (Some c) -> <[sn := None]> (n_signers n) !! s = Some (Some c)) as Hkeep.
    { intros s c E. rewrite lookup_insert_ne; [done|]. intros ->. congruence. }
    split; cbn.
    + intros s o [[<- _]|[_ E]]%lookup_insert_Some; eauto.
    + done.
    + intros i Hi. destruct (H3 i Hi) as (s & c & L1 & L2 & [[? ?]|[? ?]]); exists s, c; auto 10.
    + intros s c [[_ ?]|[_ E]]%lookup_insert_Some; [done|]. by apply H4.
    + intros s c E. by apply Hkeep, H5.
  - (* a frontend starts *)
    apply hello_run in Hr as [Ls ->].
    assert (forall s c, met n s c -> met (mkNetwork (n_signers n) (<[cn := (sn, false)]> (n_frontends n))
                        (proof_input frontendProofLabel sn cn :: n_sent n) (n_checked n)) s c) as Hkeep.
    { intros s c [a E]. exists a. cbn. rewrite lookup_insert_ne; [done|]. intros ->. congruence. }
    assert (met (mkNetwork (n_signers n) (<[cn := (sn, false)]> (n_frontends n))
                        (proof_input frontendProofLabel sn cn :: n_sent n) (n_checked n)) sn cn) as Hnew
      by (exists false; cbn; by rewrite lookup_insert_eq).
    split; cbn [n_signers n_frontends n_sent n_checked].
    + done.
    + intros s c [a Ea]. cbn in Ea. apply lookup_insert_Some in Ea as [[<- [= <- _]]|[_ E]]; [done|]. apply H2. by exists a.
    + intros i [->|Hi]%elem_of_cons; [exists sn, cn; auto|].
      destruct (H3 i Hi) as (s & c & L1 & L2 & [[? ?]|[? ?]]); exists s, c; auto 10.
    + auto.
    + intros s c [[_ ?]|[_ E]]%lookup_insert_Some; [done|]. by apply H5.
  - (* a signer accepts *)
    apply server_run in Hr as (Lc & -> & Ep).
    assert (met n sn cn) as Hmet.
    { destruct (accepted_sent _ _ _ _ _ _ _ Hh Hcf ltac:(intros ? ?; by right) ltac:(by left) Hm Ep frontend_label (H1 _ _ Hn) Lc)
        as [[_ ?]|[? _]]; done. }
    assert (forall s c, n_signers n !! s = Some (Some c) -> <[sn := Some cn]> (n_signers n) !! s = Some (Some c)) as Hkeep.
    { intros s c E. rewrite lookup_insert_ne; [done|]. intros ->. congruence. }
    split; cbn [n_signers n_frontends n_sent n_checked].
    + intros s o [[<- _]|[_ E]]%lookup_insert_Some; eauto.
    + done.
    + intros i [->|Hi]%elem_of_cons.
      * exists sn, cn. rewrite lookup_insert_eq. eauto 10.
      * destruct (H3 i Hi) as (s & c & L1 & L2 & [[? ?]|[? ?]]); exists s, c; auto 10.
    + intros s c [[<- [= <-]]|[_ E]]%lookup_insert_Some; [done|]. by apply H4.
    + intros s c E. by apply Hkeep, H5.
  - (* a frontend accepts *)
    apply finish_run in Hr. destruct (H2 sn cn (ex_intro _ false Hn)) as [Ls Lc].
    assert (n_signers n !! sn = Some (Some cn)) as Hmet.
    { destruct (accepted_sent _ _ _ _ _ _ _ Hh Hcf ltac:(intros ? ?; done) ltac:(by left) Hm Hr signer_label Ls Lc)
        as [[? _]|[_ ?]]; done. }
    assert (forall s c, met n s c -> exists a, <[cn := (sn, true)]> (n_frontends n) !! c = Some (s, a)) as Hkeep.
    { intros s c [a E]. destruct (decide (c = cn)) as [->|]; [|exists a; by rewrite lookup_insert_ne].
      exists true. rewrite lookup_insert_eq. congruence. }
    split; cbn [n_signers n_frontends n_sent n_checked].
    + done.
    + intros s c [a Ea]. cbn in Ea. apply lookup_insert_Some in Ea as [[<- [= <- _]]|[_ E]]; [done|]. apply H2. by exists a.
    + intros i Hi. destruct (H3 i Hi) as (s & c & L1 & L2 & [[? Hx]|[? ?]]); exists s, c; [|auto 10].
      split; [done|]. split; [done|]. left. split; [done|]. by apply Hkeep.
    + intros s c E. by apply Hkeep, H4.
    + intros s c [[<- [= <-]]|[_ E]]%lookup_insert_Some; [done|]. by apply H5.
Qed.

Lemma net_step_grows psk n n' :
  net_step psk n n' -> n_sent n ⊆ n_sent n' /\ n_checked n ⊆ n_checked n'.
Proof. intros []; cbn; split; intros i Hi; auto; by right. Qed.

Lemma collision_free_before psk n n' : net_step psk n n' -> collision_free psk n' -> collision_free psk n.
Proof.
  intros [H1 H2]%net_step_grows Hcf i j Hi Hj. apply Hcf; rewrite elem_of_app in *; naive_solver.
Qed.

Lemma run_honest psk n : rtc (net_step psk) quiet_network n -> collision_free psk n -> honest n.
Proof.
  intros Hr. pattern n. revert n Hr. apply rtc_ind_r.
  - intros _. split; cbn.
    + intros sn o. by rewrite lookup_empty.
    + intros sn cn [a Ha]. cbn in Ha. by rewrite lookup_empty in Ha.
    + by intros i ?%not_elem_of_nil.
    + intros sn cn. by rewrite lookup_empty.
    + intros sn cn. by rewrite lookup_empty.
  - intros n n' _ Hs IH Hcf. apply (step_honest psk n n' Hs Hcf). by apply IH, (collision_free_before psk n n').
Qed.


(** ** Two that know the secret *)

Lemma substring_app_l a b : String.substring 0 (String.length a) (a +:+ b) = a.
Proof. induction a as [|c a IH]; cbn; [by destruct b|by rewrite IH]. Qed.
Lemma substring_app_r a b n : String.length b = n -> String.substring (String.length a) n (a +:+ b) = b.
Proof.
  intros <-. induction a as [|c a IH]; cbn; [|done]. rewrite <- (app_empty_r b) at 2. apply substring_app_l.
Qed.
Lemma read_full_all a : read_full (String.length a) a = Some a.
Proof.
  unfold read_full. rewrite bool_decide_true by done. f_equal. rewrite <- (app_empty_r a) at 2. apply substring_app_l.
Qed.

Lemma handshake_completes psk sn cn :
  String.length sn = nonceLen -> String.length cn = nonceLen ->
  let msg := cn +:+ handshakeProof psk frontendProofLabel sn cn in
  let reply := handshakeProof psk signerProofLabel sn cn in
  clientHello psk cn sn = Ok (sn, msg) /\ serverHandshake psk sn msg = Ok (cn, reply) /\ clientFinish psk sn cn reply = Ok tt.
Proof.
  intros Ls Lc msg reply. assert (forall l, String.length (handshakeProof psk l sn cn) = 32%nat) as Lp by (intros; apply hmac_length).
  split; [unfold clientHello; rewrite <- Ls, read_full_all; done|]. split.
  - unfold serverHandshake. assert (String.length msg = (nonceLen + 32)%nat) as Lm by (unfold msg; by rewrite length_str_app, Lc, Lp).
    assert (String.substring 0 nonceLen msg = cn) as E1 by (rewrite <- Lc; apply substring_app_l).
    assert (String.substring nonceLen 32 msg = handshakeProof psk frontendProofLabel sn cn) as E2
      by (rewrite <- Lc; by apply substring_app_r).
    rewrite <- Lm, read_full_all, E1, E2. by rewrite bool_decide_true.
  - unfold clientFinish. rewrite <- (Lp signerProofLabel), read_full_all. by rewrite bool_decide_true.
Qed.

(** *** One handshake *)

Definition after_handshake (sn cn : string) : network :=
  mkNetwork {[sn := Some cn]} {[cn := (sn, true)]}
    [proof_input signerProofLabel sn cn; proof_input frontendProofLabel sn cn]
    [proof_input signerProofLabel sn cn; proof_input frontendProofLabel sn cn].

Lemma handshake_run psk sn cn :
  String.length sn = nonceLen -> String.length cn = nonceLen -> rtc (net_step psk) quiet_network (after_handshake sn cn).
Proof.
  intros Ls Lc. destruct (handshake_completes psk sn cn Ls Lc) as (H1 & H2 & H3).
  destruct (server_run _ _ _ _ _ H2) as (_ & _ & Ep). pose proof (finish_run _ _ _ _ H3) as Ef.
  eapply rtc_l; [eapply (signer_starts psk _ sn); [exact Ls|apply lookup_empty]|].
  eapply rtc_l; [eapply (frontend_starts psk _ cn sn sn); [exact Lc|apply lookup_empty|exact H1]|].
  eapply rtc_l; [eapply (signer_accepts psk _ sn _ cn); [apply lookup_insert_eq|exact H2|left; rewrite Ep; by left]|].
  eapply rtc_l; [eapply (frontend_accepts psk _ cn sn); [apply lookup_insert_eq|exact H3|left; rewrite Ef; by left]|].
  apply reflexive_eq. unfold after_handshake, quiet_network. cbn. by rewrite !insert_insert_eq, !insert_empty.
Qed.

Definition demo_psk := "0123456789abcdef0123456789abcdef".
Definition demo_sn := "signer nonce of thirty-two bytes".
Definition demo_cn := "a frontend's nonce, 32 bytes too".

Lemma two_apart (f : string -> string) a b :
  f a <> f b -> forall i j, i ∈ [a; b] ++ [a; b] -> j ∈ [a; b] ++ [a; b] -> f i = f j -> i = j.
Proof. intros Hne i j Hi Hj E. cbn [app] in *. rewrite !elem_of_cons, elem_of_nil in Hi, Hj. naive_solver. Qed.

Lemma demo_apart :
  hmac_sha256 demo_psk (proof_input signerProofLabel demo_sn demo_cn) <>
  hmac_sha256 demo_psk (proof_input frontendProofLabel demo_sn demo_cn).
Proof. apply (bool_decide_eq_false_1 _). by vm_compute. Qed.
Lemma demo_collision_free : collision_free demo_psk (after_handshake demo_sn demo_cn).
Proof. exact (two_apart (hmac_sha256 demo_psk) _ _ demo_apart). Qed.


(** A secret is 64 hexadecimal digits, no more. *)
Lemma hex_DecodeString_length x y : hex_DecodeString x = Some y -> String.length x = (2 * String.length y)%nat.
Proof.
  revert y. assert (forall k y, (String.length y <= k)%nat -> forall z, hex_DecodeString y = Some z -> String.length y = (2 * String.length z)%nat) as H.
  { induction k as [|k IH]; intros y Hk z; destruct y as [|c [|d y]]; cbn in *; try done; try lia; try (by intros [= <-]).
    destruct (hex_val c), (hex_val d); cbn; try done. destruct (hex_DecodeString y) as [w|] eqn:E; [|done].
    cbn. intros [= <-]. cbn. rewrite (IH y ltac:(lia) w E). lia. }
  intros y. by apply (H (String.length x)).
Qed.
Lemma parsePSK_exact pipe psk : parsePSK pipe = Ok psk -> String.length psk = pskLen /\ String.length pipe = 64%nat.
Proof.
  unfold parsePSK. destruct (hex_DecodeString _) as [x|] eqn:E; [|done]. case_bool_decide as L; [|done]. intros [= <-].
  split; [done|]. apply hex_DecodeString_length in E. rewrite length_substring_0, L in E. unfold pskLen in E. lia.
Qed.
