(* ===== verification/RedisLock.v ===== *)
(** * The Redis lock

    Models the distributed lock of internal/storage/redis.go: [AcquireLock], the
    heartbeat and [Unlock], with the scripts they run on the server, over one
    lock name.  Time passes between any two steps, requests are lost before or
    after they are served, holders are slow or die.

    A lock that expires cannot exclude a holder that has stopped renewing it.
    What it promises is that two replicas are in their critical sections at once
    only if one of them has not renewed for a whole time-to-live, and that the
    release tells ([redis_lock_excludes]).  One Redis primary is modelled: what a
    failover may lose is not. *)

From S2P Require Import Prelude GoStrings.

(** ** The server *)

(** The value of the lock's key and when it expires, in milliseconds. *)
Record lock_key := mkLockKey { lk_value : option (string * Z) }.

Definition redis_GET (now : Z) (k : lock_key) : option string :=
  match lk_value k with Some (v, expires) => if now <? expires then Some v else None | None => None end.

Definition redis_SetNX (token : string) (ttl now : Z) (k : lock_key) : bool * lock_key :=
  match redis_GET now k with
  | Some _ => (false, k)
  | None => (true, mkLockKey (Some (token, now + ttl)))
  end.

Definition renewLuaScript (token : string) (ttlMs now : Z) (k : lock_key) : Z * lock_key :=
  if bool_decide (redis_GET now k = Some token) then (1, mkLockKey (Some (token, now + ttlMs))) else (0, k).

Definition unlockLuaScript (token : string) (now : Z) (k : lock_key) : Z * lock_key :=
  if bool_decide (redis_GET now k = Some token) then (1, mkLockKey None) else (0, k).

(** ** The clients *)

Definition redisDefaultLockTTL : Z := 30000.
Definition redisHeartbeatDenom : Z := 3.
Definition heartbeat_interval (ttl : Z) : Z :=
  let interval := ttl / redisHeartbeatDenom in if interval <=? 0 then 1000 else interval.
Definition maxBackoff : Z := 500.
Definition next_backoff (backoff : Z) : Z := Z.min (backoff * 2) maxBackoff.

(** A holder is known by its token, which no one else ever uses; [w_holders] has
    when each that is in its critical section last set or renewed the key, and
    [w_acquired] who took the lock, the last first. *)
Record lock_world := mkLockWorld {
  w_now : Z;
  w_key : lock_key;
  w_holders : gmap string Z;
  w_acquired : list string }.

Section Lock.
Context (ttl : Z).

Inductive lock_step : lock_world -> lock_world -> Prop :=
  | time_passes w d :
      0 <= d -> lock_step w (mkLockWorld (w_now w + d) (w_key w) (w_holders w) (w_acquired w))
  (** [AcquireLock]: the key was set, and the client heard of it or not; when
      it was not set, the client waits and nothing has changed. *)
  | acquired w token k heard :
      token ∉ w_acquired w -> redis_SetNX token ttl (w_now w) (w_key w) = (true, k) ->
      lock_step w (mkLockWorld (w_now w) k (if heard : bool then <[token := w_now w]> (w_holders w) else w_holders w)
                     (token :: w_acquired w))
  (** A heartbeat, whose reply may be lost; one that finds another's lock is
      only logged. *)
  | renewed w token r n k heard :
      w_holders w !! token = Some r -> renewLuaScript token ttl (w_now w) (w_key w) = (n, k) ->
      lock_step w (mkLockWorld (w_now w) k
                     (if (heard : bool) && (n =? 1) then <[token := w_now w]> (w_holders w) else w_holders w) (w_acquired w))
  (** [Unlock]: the critical section ends whether or not the request arrives. *)
  | released w token n k :
      is_Some (w_holders w !! token) -> unlockLuaScript token (w_now w) (w_key w) = (n, k) ->
      lock_step w (mkLockWorld (w_now w) k (delete token (w_holders w)) (w_acquired w))
  | gone w token :
      lock_step w (mkLockWorld (w_now w) (w_key w) (delete token (w_holders w)) (w_acquired w)).

Definition unlocked (now : Z) : lock_world := mkLockWorld now (mkLockKey None) ∅ [].

(** The key is the last one's who took the lock, for as long as it was renewed. *)
Record lock_inv (w : lock_world) : Prop := LockInv {
  li_last : forall t e, lk_value (w_key w) = Some (t, e) -> head (w_acquired w) = Some t;
  li_held : forall t r, w_holders w !! t = Some r -> t ∈ w_acquired w /\ r <= w_now w /\
              (w_now w < r + ttl -> exists e, lk_value (w_key w) = Some (t, e) /\ r + ttl <= e) }.

Lemma GET_value now k t : redis_GET now k = Some t -> exists e, lk_value k = Some (t, e) /\ now < e.
Proof. unfold redis_GET. destruct (lk_value k) as [[v e]|]; [|done]. destruct (Z.ltb_spec now e); [|done]. intros [= <-]. eauto. Qed.
Lemma GET_none now k t e : redis_GET now k = None -> lk_value k = Some (t, e) -> e <= now.
Proof. unfold redis_GET. intros H E. rewrite E in H. by destruct (Z.ltb_spec now e). Qed.

Lemma lock_step_inv w w' : 0 < ttl -> lock_step w w' -> lock_inv w -> lock_inv w'.
Proof.
  intros Httl Hs [Hl Hh]. destruct Hs as [w d Hd|w token k heard Hf Hk|w token r n k heard Hr Hk|w token n k Hr Hk|w token].
  - split; cbn; [done|]. intros t r Ht. destruct (Hh t r Ht) as (H1 & H2 & H3). split; [done|]. split; [lia|]. intros. apply H3. lia.
  - unfold redis_SetNX in Hk. destruct (redis_GET (w_now w) (w_key w)) eqn:Eg; [done|]. injection Hk as <-.
    assert (forall t r, w_holders w !! t = Some r -> r + ttl <= w_now w) as Hold.
    { intros t r Ht. destruct (Hh t r Ht) as (_ & _ & H3). destruct (Z.le_gt_cases (r + ttl) (w_now w)); [done|].
      destruct H3 as (e & Ee & He); [lia|]. pose proof (GET_none _ _ _ _ Eg Ee). lia. }
    split; cbn; [by intros t e [= -> _]|]. intros t r Ht.
    assert (t = token /\ r = w_now w \/ w_holders w !! t = Some r) as [[-> ->]|Ht'].
    { destruct heard; [|by right]. apply lookup_insert_Some in Ht as [[-> <-]|[_ ?]]; auto. }
    + split; [by left|]. split; [lia|]. intros _. by exists (w_now w + ttl).
    + destruct (Hh t r Ht') as (H1 & H2 & _). split; [by right|]. split; [done|]. pose proof (Hold t r Ht'). lia.
  - unfold renewLuaScript in Hk. case_bool_decide as Eg; injection Hk as <- <-; cbn.
    2:{ rewrite andb_false_r. by split. }
    destruct (GET_value _ _ _ Eg) as (e & Ee & He). split; cbn; [intros t e' [= -> _]; by apply (Hl t e)|]. intros t r' Ht.
    assert (t = token /\ r' = w_now w \/ w_holders w !! t = Some r') as [[-> ->]|Ht'].
    { destruct heard; [|by right]. cbn in Ht. apply lookup_insert_Some in Ht as [[-> <-]|[_ ?]]; auto. }
    + split; [by apply (Hh token r)|]. split; [lia|]. intros _. by exists (w_now w + ttl).
    + destruct (Hh t r' Ht') as (H1 & H2 & H3). split; [done|]. split; [done|]. intros Hlt. destruct (H3 Hlt) as (e' & Ee' & He').
      rewrite Ee in Ee'. injection Ee' as <- <-. exists (w_now w + ttl). split; [done|lia].
  - assert (forall t r, delete token (w_holders w) !! t = Some r -> t <> token /\ w_holders w !! t = Some r) as Hd
      by (intros t r [? ?]%lookup_delete_Some; auto).
    unfold unlockLuaScript in Hk. case_bool_decide as Eg; injection Hk as <- <-.
    + destruct (GET_value _ _ _ Eg) as (e & Ee & He). split; cbn; [done|]. intros t r [Hne Ht]%Hd. destruct (Hh t r Ht) as (H1 & H2 & H3).
      split; [done|]. split; [done|]. intros Hlt. destruct (H3 Hlt) as (e' & Ee' & _). congruence.
    + split; cbn; [done|]. intros t r [Hne Ht]%Hd. by apply Hh.
  - split; cbn; [done|]. intros t r [_ Ht]%lookup_delete_Some. by apply Hh.
Qed.

Lemma lock_reachable_inv now w : 0 < ttl -> rtc lock_step (unlocked now) w -> lock_inv w.
Proof.
  intros Httl Hr. pattern w. revert w Hr. apply rtc_ind_r; [|intros w w' _ Hs IH; by apply (lock_step_inv w w')].
  split; cbn; [done|]. intros t r. by rewrite lookup_empty.
Qed.
End Lock.

(** C22: Two replicas hold the Redis lock at once only if one of them has set or
    renewed it last a whole time-to-live ago; releasing never takes away
    another's lock; and when a release reports that the lock was still held, no
    one else has taken it since the holder did. *)
Theorem redis_lock_excludes ttl now w :
  0 < ttl -> rtc (lock_step ttl) (unlocked now) w ->
  (forall a b ra rb, w_holders w !! a = Some ra -> w_holders w !! b = Some rb -> a <> b ->
     ra + ttl <= w_now w \/ rb + ttl <= w_now w) /\
  (forall a b rb, a <> b -> w_holders w !! b = Some rb -> w_now w < rb + ttl ->
     redis_GET (w_now w) (unlockLuaScript a (w_now w) (w_key w)).2 = Some b) /\
  (forall a k, unlockLuaScript a (w_now w) (w_key w) = (1, k) -> head (w_acquired w) = Some a).
Proof.
  intros Httl Hr. destruct (lock_reachable_inv ttl now w Httl Hr) as [Hl Hh]. split; [|split].
  - intros a b ra rb Ha Hb Hne. destruct (Hh a ra Ha) as (_ & _ & H1), (Hh b rb Hb) as (_ & _ & H2).
    destruct (Z.le_gt_cases (ra + ttl) (w_now w)) as [|G1]; [by left|]. destruct (Z.le_gt_cases (rb + ttl) (w_now w)) as [|G2]; [by right|].
    destruct H1 as (e1 & E1 & _), H2 as (e2 & E2 & _); [lia..|]. congruence.
  - intros a b rb Hne Hb Hlt. destruct (Hh b rb Hb) as (_ & _ & H2). destruct (H2 Hlt) as (e & Ee & He).
    assert (redis_GET (w_now w) (w_key w) = Some b) as Eg.
    { unfold redis_GET. rewrite Ee. destruct (Z.ltb_spec (w_now w) e); [done|lia]. }
    unfold unlockLuaScript. rewrite bool_decide_false by congruence. done.
  - intros a k. unfold unlockLuaScript. case_bool_decide as Eg; [|done]. intros _.
    destruct (GET_value _ _ _ Eg) as (e & Ee & _). by eapply Hl.
Qed.

(** With a heartbeat every third of the time-to-live, a holder that hears of one
    renewal in two attempts, each within a sixth of it, never lapses. *)
Lemma heartbeat_margin ttl tick1 tick2 sent1 sent2 :
  6 <= ttl -> tick2 = tick1 + 2 * heartbeat_interval ttl ->
  tick1 <= sent1 -> tick2 <= sent2 <= tick2 + ttl / 6 -> sent2 < sent1 + ttl.
Proof.
  intros H -> H1 H2. unfold heartbeat_interval, redisHeartbeatDenom in *.
  destruct (Z.leb_spec (ttl / 3) 0) as [L|L]; [assert (1 <= ttl / 3) by (apply Z.div_le_lower_bound; lia); lia|].
  assert (3 * (ttl / 3) <= ttl) by (apply Z.mul_div_le; lia). assert (6 * (ttl / 6) <= ttl) by (apply Z.mul_div_le; lia). lia.
Qed.

(** A holder that pauses for longer than the time-to-live finds out when it
    releases. *)
Definition lapsed_world : lock_world :=
  mkLockWorld 31000 (mkLockKey (Some ("b", 61000))) {["a" := 0; "b" := 31000]} ["b"; "a"].

Lemma lapsed_reachable : rtc (lock_step 30000) (unlocked 0) lapsed_world.
Proof.
  eapply rtc_l; [eapply (acquired 30000 _ "a" _ true); [apply not_elem_of_nil|done]|].
  eapply rtc_l; [apply (time_passes 30000 _ 31000); lia|].
  eapply rtc_l; [eapply (acquired 30000 _ "b" _ true); [cbn; by rewrite list_elem_of_singleton|done]|].
  apply reflexive_eq. unfold lapsed_world, unlocked. cbn. by f_equal.
Qed.

Lemma redis_lock_excludes_witness :
  0 + 30000 <= 31000 /\ redis_GET 31000 (unlockLuaScript "a" 31000 (mkLockKey (Some ("b", 61000)))).2 = Some "b" /\
  head (w_acquired lapsed_world) = Some "b".
Proof.
  destruct (redis_lock_excludes 30000 0 lapsed_world ltac:(lia) lapsed_reachable) as (H1 & H2 & H3).
  split; [|split].
  - destruct (H1 "a" "b" 0 31000) as [H|H]; [reflexivity|reflexivity|done|exact H|cbn in H; lia].
  - by apply (H2 "a" "b" 31000).
  - eapply H3. reflexivity.
Defined.
