(* ===== verification/Records.v ===== *)
(** * Inventories kept as numbered records

    Models internal/storage/inventory_records.go, which the etcd and Redis
    backends share: the stored form of a record, the import of an inventory
    text, and the view of a set of numbered records as a list.  Both backends
    keep a map from sequence numbers to records, an index from serials to
    sequence numbers and an index from certnames to the latest serial; the
    invariant [indexed] says what the indices promise.

    A record's JSON text is represented by the struct it encodes; sequence
    numbers are unbounded. *)

From S2P Require Import Prelude GoStrings GoTime X509 Inventory Storage.

(** ** Stored records *)

(** A [nil] pointer and an empty state are [None]; [omitempty] writes neither. *)
Record inventoryRecordJSON := mkJSON {
  rj_entry : InventoryEntry;
  rj_Fingerprint : option Certificate;
  rj_DNSAltNames : list string;
  rj_AuthExtensions : gmap string string;
  rj_State : option CertState;
  rj_RevokedAt : option Time;
  rj_IPAltNames : option (list string) }.
#[global] Instance inventoryRecordJSON_eq_dec : EqDecision inventoryRecordJSON.
Proof. solve_decision. Defined.

Definition encodeInventoryRecord (rec : CertRecord) : inventoryRecordJSON :=
  let p := cr_proj rec in
  mkJSON (cr_entry rec) (Fingerprint p) (DNSAltNames p) (AuthExtensions p) (Some (State rec))
    (RevokedAt rec)
    (match Fingerprint p with None => None | Some _ => Some (IPAltNames p) end).

(** A record whose projection predates the IP names is treated as if it had no
    projection, so that it is computed again. *)
Definition decodeInventoryRecord (r : inventoryRecordJSON) : CertRecord :=
  let state := match rj_State r with None => CertStateSigned | Some s => s end in
  let proj ips := mkProj (rj_Fingerprint r) (rj_DNSAltNames r) ips (rj_AuthExtensions r) in
  mkRecord (rj_entry r)
    (match rj_IPAltNames r, rj_Fingerprint r with
     | Some (ip :: ips), _ => proj (ip :: ips)
     | None, Some _ => no_proj
     | _, _ => proj []
     end) state (rj_RevokedAt r).

Definition rj_serial (r : inventoryRecordJSON) : string := ie_Serial (rj_entry r).
Definition rj_subject (r : inventoryRecordJSON) : string := ie_Subject (rj_entry r).

(** ** Numbered records *)

Notation indexedRecord := (Z * inventoryRecordJSON)%type.

Section Ordered.
Context {A : Type}.

Definition seq_le (a b : Z * A) : Prop := a.1 <= b.1.
#[global] Instance seq_le_dec : RelDecision seq_le.
Proof. intros a b. unfold seq_le. apply _. Defined.
#[global] Instance seq_le_total : Total seq_le.
Proof. intros a b. unfold seq_le. lia. Qed.
#[global] Instance seq_le_trans : Transitive seq_le.
Proof. intros a b c. unfold seq_le. lia. Qed.

(** In the order of the sequence numbers: etcd returns the zero-padded keys in
    that order, and the Redis backend sorts the fields of its hash. *)
Definition ordered (m : gmap Z A) : list (Z * A) := merge_sort seq_le (map_to_list m).
End Ordered.

Definition entriesOf (recs : list indexedRecord) : list InventoryEntry :=
  map (fun r => rj_entry r.2) recs.

(** ** Import of a text *)

Fixpoint parse_records (lines : list string) : result (list CertRecord) :=
  match lines with
  | [] => Ok []
  | line :: lines =>
      if is_blank line then parse_records lines
      else match parseInventoryEntry line with
           | None => Err (Msg "malformed inventory line")
           | Some e =>
               match parse_records lines with
               | Ok recs => Ok (mkRecord e no_proj CertStateSigned None :: recs)
               | Err e => Err e
               end
           end
  end.
Definition parseInventoryRecords (data : string) : result (list CertRecord) :=
  parse_records (SplitLines data).

Fixpoint duplicate_after (seen : list string) (recs : list CertRecord) : option string :=
  match recs with
  | [] => None
  | r :: recs =>
      let serial := ie_Serial (cr_entry r) in
      if bool_decide (serial ∈ seen) then Some serial else duplicate_after (serial :: seen) recs
  end.
Definition rejectDuplicateSerials (recs : list CertRecord) : option error :=
  match duplicate_after [] recs with
  | None => None
  | Some serial => Some (Wrap serial [Sentinel ErrDuplicateSerial])
  end.

(** The serials on more than one record, in the order they first appear. *)
Definition duplicateSerials (recs : list CertRecord) : list string :=
  let serials := map (fun r => ie_Serial (cr_entry r)) recs in
  rev (remove_dups (rev
    (base.filter (fun s => 1 < length (base.filter (fun s' => s' = s) serials))%nat serials))).

Fixpoint records_prefix (n : Z) (entries : list indexedRecord) (recs : list CertRecord) : bool :=
  match entries, recs with
  | [], _ => true
  | _ :: _, [] => false
  | (seq, r) :: entries, rec :: recs =>
      (seq =? n) && bool_decide (rj_entry r = cr_entry rec) && records_prefix (n + 1) entries recs
  end.
Definition recordsArePrefixOf (entries : list indexedRecord) (recs : list CertRecord) : bool :=
  records_prefix 1 entries recs.

Definition renderInventoryText (recs : list indexedRecord) : string :=
  foldr (fun r acc => canonicalInventoryLine (rj_entry r.2) +:+ nl +:+ acc) "" recs.

(** ** Status query *)

Definition status_of (ambiguous : string -> bool) (r : indexedRecord) : CertRecord :=
  let rec := decodeInventoryRecord r.2 in
  if ambiguous (rj_serial r.2) then mkRecord (cr_entry rec) (cr_proj rec) CertStateUnknown None else rec.

Definition latestPerSubject (recs : list indexedRecord) (stored : gset string)
    (ambiguous : string -> bool) (stateFilter : option CertState) : list CertRecord :=
  let latest := fold_left (fun m r => <[rj_subject r.2 := status_of ambiguous r]> m) recs
                  (∅ : gmap string CertRecord) in
  let subjects := merge_sort String.le
                    (base.filter (fun s => s ∈ stored) (map fst (map_to_list latest))) in
  omap (fun s => match latest !! s with
                 | Some rec => if match stateFilter with
                                  | None => true
                                  | Some st => bool_decide (State rec = st)
                                  end then Some rec else None
                 | None => None
                 end) subjects.

(** ** The indices *)

Definition latest_of (subject : string) (l : list (Z * InventoryEntry)) : option string :=
  (fun x => ie_Serial x.2) <$> last_match (fun x => bool_decide (ie_Subject x.2 = subject)) l.

(** What the two indices and the counter promise of the numbered entries [m].
    A serial on two entries, which only an import can make, is marked as
    ambiguous by [None]. *)
Record indexed (m : gmap Z InventoryEntry) (serials : gmap string (option Z))
    (subjects : gmap string string) (counter : option Z) : Prop := Indexed {
  ix_counter : forall n e, m !! n = Some e -> exists c, counter = Some c /\ 1 <= n <= c;
  ix_serial : forall s,
    match serials !! s with
    | None => forall n e, m !! n = Some e -> ie_Serial e <> s
    | Some (Some n) => (exists e, m !! n = Some e /\ ie_Serial e = s) /\
                       forall n' e', m !! n' = Some e' -> ie_Serial e' = s -> n' = n
    | Some None => exists n e, m !! n = Some e /\ ie_Serial e = s
    end;
  ix_subject : forall s, subjects !! s = latest_of s (ordered m) }.

(** ** Lemmas: ordered records *)

Section OrderedLemmas.
Context {A : Type}.
Implicit Types (m : gmap Z A) (l : list (Z * A)).

Lemma elem_of_ordered m n r : (n, r) ∈ ordered m <-> m !! n = Some r.
Proof. unfold ordered. by rewrite merge_sort_Permutation, elem_of_map_to_list. Qed.

Lemma ordered_sorted m : StronglySorted seq_le (ordered m).
Proof. apply Sorted_StronglySorted; [apply _|]. apply (Sorted_merge_sort seq_le). Qed.

Lemma ordered_NoDup m : NoDup (ordered m).*1.
Proof. unfold ordered. rewrite merge_sort_Permutation. apply NoDup_fst_map_to_list. Qed.

(** A list in strict order is the ordered list of its map. *)
Lemma ordered_unique m l :
  StronglySorted seq_le l -> NoDup l.*1 -> (forall n r, (n, r) ∈ l <-> m !! n = Some r) ->
  ordered m = l.
Proof.
  intros Hs Hd Hl. apply (StronglySorted_unique_strong seq_le); [|apply ordered_sorted|done|].
  - intros [n r] [n' r'] H1%elem_of_ordered H2 L1 L2. apply Hl in H2. unfold seq_le in *. simpl in *.
    assert (n = n') as <- by lia. congruence.
  - apply NoDup_Permutation.
    + apply NoDup_fmap_1 with (f := fst). apply ordered_NoDup.
    + by apply NoDup_fmap_1 with (f := fst).
    + intros [n r]. by rewrite elem_of_ordered, Hl.
Qed.

Lemma ordered_empty : ordered (∅ : gmap Z A) = [].
Proof. done. Qed.

Lemma ordered_snoc m n r :
  (forall n' r', m !! n' = Some r' -> n' < n) -> ordered (<[n := r]> m) = ordered m ++ [(n, r)].
Proof.
  intros Hlt. assert (m !! n = None) as Hn.
  { destruct (m !! n) eqn:E; [|done]. apply Hlt in E. lia. }
  apply ordered_unique.
  - apply StronglySorted_app_2; [|apply ordered_sorted|by repeat constructor].
    intros [n1 r1] x H1%elem_of_ordered ->%list_elem_of_singleton. apply Hlt in H1. unfold seq_le. simpl. lia.
  - rewrite fmap_app, NoDup_app. split; [apply ordered_NoDup|]. split; [|apply NoDup_singleton].
    intros x Hx1 Hx2. apply list_elem_of_fmap in Hx1 as ([n1 r1] & -> & H1). simpl in Hx2.
    apply list_elem_of_singleton in Hx2. subst n1. apply elem_of_ordered in H1. congruence.
  - intros n1 r1. rewrite elem_of_app, elem_of_ordered, list_elem_of_singleton. split.
    + intros [H|[= -> ->]]; [|by rewrite lookup_insert_eq].
      rewrite lookup_insert_ne; [done|]. intros ->. congruence.
    + rewrite lookup_insert_Some. naive_solver.
Qed.

Lemma sorted_filter (R : relation (Z * A)) (P : Z * A -> Prop) `{!forall x, Decision (P x)} l :
  StronglySorted R l -> StronglySorted R (base.filter P l).
Proof.
  induction 1 as [|x l Hl IH Hx]; [constructor|]. rewrite filter_cons. case_decide; [|done].
  constructor; [done|]. apply Forall_forall. intros y [_ Hy]%list_elem_of_filter.
  by eapply Forall_forall in Hx.
Qed.

Lemma ordered_filter (P : Z * A -> Prop) `{!forall x, Decision (P x)} m :
  ordered (base.filter P m) = base.filter P (ordered m).
Proof.
  apply ordered_unique.
  - apply sorted_filter, ordered_sorted.
  - eapply sublist_NoDup; [apply ordered_NoDup|]. apply fmap_sublist, sublist_filter.
  - intros n r. rewrite list_elem_of_filter, elem_of_ordered, map_lookup_filter_Some. naive_solver.
Qed.

End OrderedLemmas.

Lemma ordered_fmap {A B} (f : A -> B) (m : gmap Z A) :
  ordered (f <$> m) = prod_map id f <$> ordered m.
Proof.
  apply ordered_unique.
  - pose proof (ordered_sorted m) as H. induction H as [|x l Hl IH Hx]; [constructor|]. cbn [fmap list_fmap].
    constructor; [done|]. apply Forall_fmap. eapply Forall_impl; [exact Hx|]. by intros [] ?.
  - rewrite <- list_fmap_compose. erewrite list_fmap_ext; [apply ordered_NoDup|]. by intros ? [] ?.
  - intros n b. rewrite list_elem_of_fmap, lookup_fmap, fmap_Some. split.
    + intros ([n' a] & [= -> ->] & H%elem_of_ordered). by exists a.
    + intros (a & H%elem_of_ordered & ->). by exists (n, a).
Qed.

(** ** Lemmas: the indices *)

Lemma latest_of_snoc s l n e :
  latest_of s (l ++ [(n, e)]) = if decide (ie_Subject e = s) then Some (ie_Serial e) else latest_of s l.
Proof.
  unfold latest_of. rewrite last_match_app. unfold last_match at 1. rewrite filter_cons, filter_nil. cbn [snd].
  case_decide as E; simpl in E.
  - apply bool_decide_eq_true_1 in E. by rewrite decide_True by done.
  - rewrite decide_False; [done|]. intros Hs. by rewrite bool_decide_eq_true_2 in E.
Qed.

(** The counter as a number. *)
Definition counter_value (c : option Z) : Z := default 0 c.

Lemma indexed_below m serials subjects c n e :
  indexed m serials subjects c -> m !! n = Some e -> 1 <= n <= counter_value c.
Proof. intros H He. by destruct (ix_counter _ _ _ _ H _ _ He) as (x & -> & ?). Qed.

Lemma indexed_append m serials subjects c e :
  indexed m serials subjects c -> serials !! ie_Serial e = None -> 0 <= counter_value c ->
  let n := counter_value c + 1 in
  indexed (<[n := e]> m) (<[ie_Serial e := Some n]> serials) (<[ie_Subject e := ie_Serial e]> subjects)
    (Some n) /\
  ordered (<[n := e]> m) = ordered m ++ [(n, e)].
Proof.
  intros H Hfresh Hc n.
  assert (forall n' e', m !! n' = Some e' -> n' < n) as Hlt.
  { intros n' e' He. apply (indexed_below _ _ _ _ _ _ H) in He. unfold n. lia. }
  assert (ordered (<[n := e]> m) = ordered m ++ [(n, e)]) as Ho by (by apply ordered_snoc).
  split; [|done]. split.
  - intros n' e' [[<- <-]|[_ He]]%lookup_insert_Some; [exists n; unfold n; split; [done|lia]|].
    exists n. split; [done|]. pose proof (indexed_below _ _ _ _ _ _ H He). unfold n. lia.
  - intros s. destruct (decide (ie_Serial e = s)) as [<-|Hne].
    + rewrite lookup_insert_eq. split; [exists e; by rewrite lookup_insert_eq|].
      intros n' e' [[<- <-]|[_ He]]%lookup_insert_Some Hs; [done|].
      pose proof (ix_serial _ _ _ _ H (ie_Serial e)) as Hix. rewrite Hfresh in Hix. by destruct (Hix _ _ He).
    + rewrite lookup_insert_ne by done. pose proof (ix_serial _ _ _ _ H s) as Hix.
      destruct (serials !! s) as [[k|]|].
      * destruct Hix as [(e0 & He0 & Hs0) Hu]. split.
        -- exists e0. split; [|done]. rewrite lookup_insert_ne; [done|]. intros <-.
           apply Hlt in He0. lia.
        -- intros n' e' [[<- <-]|[_ He]]%lookup_insert_Some Hs; [done|by eapply Hu].
      * destruct Hix as (n0 & e0 & He0 & Hs0). exists n0, e0. split; [|done].
        rewrite lookup_insert_ne; [done|]. intros <-. apply Hlt in He0. lia.
      * intros n' e' [[<- <-]|[_ He]]%lookup_insert_Some; [done|by eapply Hix].
  - intros s. rewrite Ho, latest_of_snoc. case_decide as E.
    + rewrite <- E. by rewrite lookup_insert_eq.
    + rewrite lookup_insert_ne by done. apply H.
Qed.

(** Dropping entries keeps the indices if the serials that nobody bears any
    more are dropped and the certnames are pointed at what is left. *)
Definition borne (m : gmap Z InventoryEntry) (s : string) : Prop :=
  exists n e, m !! n = Some e /\ ie_Serial e = s.

Lemma indexed_shrink m serials subjects c m' serials' subjects' c' :
  indexed m serials subjects c -> m' ⊆ m ->
  (forall s, borne m' s -> serials' !! s = serials !! s) ->
  (forall s, ~ borne m' s -> serials' !! s = None) ->
  (forall s, subjects' !! s = latest_of s (ordered m')) ->
  (forall n e, m' !! n = Some e -> exists x, c' = Some x /\ n <= x) ->
  indexed m' serials' subjects' c'.
Proof.
  intros H Hsub Hkept Hgone Hsubj Hc. split; [| |done].
  - intros n e He. destruct (Hc _ _ He) as (x & -> & ?). exists x. split; [done|].
    pose proof (lookup_weaken _ _ _ _ He Hsub) as He'. apply (indexed_below _ _ _ _ _ _ H) in He'. lia.
  - intros s. destruct (serials' !! s) as [v|] eqn:E.
    + destruct (decide (Exists (fun x => ie_Serial x.2 = s) (map_to_list m'))) as [Hb|Hb].
      2:{ rewrite Hgone in E; [done|]. intros (n & e & He & Hs). apply Hb, Exists_exists.
          exists (n, e). split; [by apply elem_of_map_to_list|done]. }
      apply Exists_exists in Hb as ([n e] & He & Hs). apply elem_of_map_to_list in He. simpl in Hs.
      rewrite Hkept in E by (by exists n, e). pose proof (ix_serial _ _ _ _ H s) as Hix. rewrite E in Hix.
      pose proof (lookup_weaken _ _ _ _ He Hsub) as He'. destruct v as [k|]; [|by exists n, e].
      destruct Hix as [_ Hu]. rewrite <- (Hu _ _ He' Hs). split; [by exists e|].
      intros n' e' Hn' Hs'. rewrite (Hu _ _ (lookup_weaken _ _ _ _ Hn' Hsub) Hs'). symmetry. by eapply Hu.
    + intros n e He Hs. assert (borne m' s) as Hb by (by exists n, e).
      rewrite Hkept in E by done. pose proof (ix_serial _ _ _ _ H s) as Hix. rewrite E in Hix.
      eapply Hix; [by eapply lookup_weaken|done].
Qed.
