(* ===== verification/InventorySpec.v ===== *)
(** * The StorageService inventory against its specification

    Whatever the backend, the inventory behaves as an append-only list of
    entries with unique serials from which a predicate can be pruned, and the
    integrity value stored beside it follows every write.  The theorems hold
    for every script of backend failures. *)

From S2P Require Import Prelude GoStrings GoTime Sha256 X509 Inventory Storage.

(** ** Appending *)

(** The specification of an append: refuse a serial already listed. *)
Definition spec_append (e : InventoryEntry) (l : list InventoryEntry)
    : option (list InventoryEntry) :=
  if existsb (fun e' => bool_decide (ie_Serial e' = ie_Serial e)) l then None else Some (l ++ [e]).

Lemma has_serial_view serial l :
  has_serial serial l = existsb (fun e => bool_decide (ie_Serial e = serial)) (map cr_entry l).
Proof. unfold has_serial. induction l; simpl; congruence. Qed.

(** The duplicate scan over the lines is a scan over the parsed entries. *)
Lemma duplicate_scan_view data want :
  existsb (fun line =>
    negb (is_blank line) &&
    match parseBlobInventoryEntry line with
    | Some e => bool_decide (ie_Serial e = want)
    | None => false
    end) (SplitLines data)
  = existsb (fun e => bool_decide (ie_Serial e = want)) (parseInventoryBlob data).
Proof.
  unfold parseInventoryBlob, parseInventoryBlobCounting.
  induction (SplitLines data) as [|l lines IH]; simpl; [done|].
  destruct (parse_lines lines) as [es bad]. simpl in IH.
  destruct (is_blank l) eqn:B; simpl; [done|].
  destruct (parseBlobInventoryEntry l); simpl; by rewrite IH.
Qed.

Lemma sql_append_spec rec newHead b u b' :
  sql_AppendEntry rec newHead b = (Ok u, b') ->
  spec_append (cr_entry rec) (map cr_entry (rows b)) = Some (map cr_entry (rows b')) /\
  structured b' = structured b /\
  (forall f, newHead = Some f ->
     exists v, blobs b' !! KeyInventoryHMAC = Some v /\
     blob_text v = f (match blobs b !! KeyInventoryHMAC with Some v => blob_text v | None => "" end)).
Proof.
  unfold sql_AppendEntry, insert_row, spec_append. rewrite has_serial_view.
  intros H. repeat case_match; simplify_eq/=; rewrite ?map_app; (split; [done|split; [done|]]);
    intros; simplify_eq; rewrite lookup_insert_ne, lookup_insert_eq by done; eauto.
Qed.

(** A blob append followed by the refreshed value. *)
Lemma be_AppendLine_text d b u b' :
  be_AppendLine KeyInventory d b = (Ok u, b') -> structured b = false ->
  inventory_text b' = inventory_text b +:+ d /\ structured b' = false /\
  rows b' = rows b.
Proof.
  unfold be_AppendLine, guarded, inventory_text, on_rows. intros H Hst.
  change (validateKey KeyInventory) with (@None error) in H. rewrite Hst in H.
  cbn [andb] in H. simplify_eq. cbn [blobs structured rows set_blobs]. by rewrite lookup_insert_eq.
Qed.

Lemma be_Put_other key key' d b u b' :
  be_Put key d b = (Ok u, b') -> structured b = false -> key <> key' ->
  blobs b' !! key' = blobs b !! key' /\ structured b' = false /\ rows b' = rows b /\
  blobs b' !! key = Some d.
Proof.
  unfold be_Put, guarded. intros H Hst Hne. unfold on_rows in H. rewrite Hst in H. simpl in H.
  repeat case_match; simplify_eq/=. rewrite lookup_insert_ne, lookup_insert_eq by done. done.
Qed.

Lemma integrity_value_blob k b : structured b = false ->
  integrity_value k b = wholeBlobInventoryMAC k (inventory_text b).
Proof. unfold integrity_value, foldInventoryHead. by intros ->. Qed.

Lemma integrity_value_rows k b : structured b = true ->
  integrity_value k b = chain_from k "" (map cr_entry (rows b)).
Proof. unfold integrity_value, foldInventoryHead. by intros ->. Qed.

Section Append.
Context (entry : string) (proj : option CertProjection) (e : InventoryEntry).
Context (Hparse : parseInventoryEntry entry = Some e).

Lemma append_structured s s' :
  structured (be s) = true ->
  AppendInventoryRecord entry proj s = (Ok tt, s') ->
  spec_append e (inv_view (be s)) = Some (inv_view (be s')) /\
  structured (be s') = true /\ (integrity s -> integrity s').
Proof.
  intros Hst H. unfold AppendInventoryRecord, is_structured in H. rewrite Hparse in H.
  destruct (negb _); [by apply fail_Ok in H|]. minv; try congruence.
  rename select (structured (be s) = true) into Hst.
  match goal with Ha : backend _ _ = _ |- _ => destruct (backend_Ok _ _ _ _ Ha) as (Hop & Hk & _) end.
  apply sql_append_spec in Hop as (Hspec & Hst' & Hhead). simpl in Hspec.
  unfold inv_view. rewrite Hst', Hst. split; [done|]. split; [done|].
  intros Hint k Hk'. rewrite Hk in Hk'. destruct (Hint k Hk') as (v & Hv & Hval).
  rewrite Hk' in Hhead. destruct (Hhead _ eq_refl) as (v' & Hv' & Hval').
  exists v'. split; [done|]. rewrite integrity_value_rows by congruence.
  rewrite Hval', Hv, Hval, integrity_value_rows by done.
  unfold spec_append in Hspec. destruct (existsb _ _); [done|].
  injection Hspec as <-. by rewrite chain_snoc.
Qed.

Lemma append_blob s s' :
  structured (be s) = false -> terminated (inventory_text (be s)) -> wf_entry e ->
  AppendInventoryRecord entry proj s = (Ok tt, s') ->
  spec_append e (inv_view (be s)) = Some (inv_view (be s')) /\
  structured (be s') = false /\ terminated (inventory_text (be s')) /\
  (integrity s -> integrity s').
Proof.
  intros Hst Ht Hwf H. unfold AppendInventoryRecord, is_structured in H. rewrite Hparse in H.
  destruct (negb _); [by apply fail_Ok in H|].
  destruct (wf_serial _ Hwf) as (n & Hn & Hser).
  minv; try congruence; rename select (structured (be s) = false) into Hst;
  (match goal with Hr : readInventoryForHMAC _ = _ |- _ =>
     apply readInventory_text in Hr as [-> (Eb & Ek & _)]; [|done] end);
  rewrite Hser, inventorySerial_hexX, <- Hser, duplicate_scan_view in * by done;
  (match goal with Ha : backend (be_AppendLine _ _) _ = _ |- _ =>
     apply backend_Ok in Ha as (Ha & Ek' & _); rewrite Eb in Ha;
     apply be_AppendLine_text in Ha as (Etext & Est & Erows); [|done] end).
  - match goal with Hp : backend (be_Put _ _) _ = _ |- _ =>
      apply backend_Ok in Hp as (Hp & Ek'' & _);
      apply (be_Put_other _ KeyInventory) in Hp as (Ei & Est' & _ & Ev); [|done|done] end.
    assert (inventory_text (be s') = inventory_text (be s) +:+ openVoxInventoryLine e entry +:+ nl) as Etext'.
    { unfold inventory_text at 1. rewrite Ei. exact Etext. }
    unfold inv_view, spec_append. rewrite Est', Hst, Etext', parse_blob_append by done.
    split; [by case_match|]. split; [done|]. split; [apply terminated_append|].
    intros _ k' Hk'. eexists. split; [exact Ev|]. simpl.
    rewrite integrity_value_blob, Etext' by done. congruence.
  - unfold inv_view, spec_append. rewrite Est, Hst, Etext, parse_blob_append by done.
    split; [by case_match|]. split; [done|]. split; [apply terminated_append|].
    intros _ k' Hk'. congruence.
Qed.

(** A successful append, on either kind of backend. *)
Lemma append_spec s s' :
  inventory_ok (be s) -> wf_entry e ->
  AppendInventoryRecord entry proj s = (Ok tt, s') ->
  spec_append e (inv_view (be s)) = Some (inv_view (be s')) /\
  inventory_ok (be s') /\ (integrity s -> integrity s').
Proof.
  intros Hok Hwf H. destruct (structured (be s)) eqn:Hst.
  - destruct (append_structured s s' Hst H) as (? & ? & ?).
    split; [done|]. split; [|done]. intros ?. congruence.
  - destruct (append_blob s s' Hst (Hok Hst) Hwf H) as (? & ? & ? & ?).
    split; [done|]. split; [|done]. by intros _.
Qed.
(** C7: on a blob backend and on a structured one alike, an inventory append
    that returns success has added exactly the parsed entry at the end of the
    inventory, only if its serial was not already listed, and the stored
    integrity value still is that of the stored inventory.  Holds for every
    script of storage failures. *)
Theorem AppendInventoryRecord_refines s s' :
  inventory_ok (be s) -> wf_entry e ->
  AppendInventoryRecord entry proj s = (Ok tt, s') ->
  spec_append e (inv_view (be s)) = Some (inv_view (be s')) /\
  inventory_ok (be s') /\ (integrity s -> integrity s').
Proof. apply append_spec. Qed.
End Append.

(** ** Pruning *)

Definition line_kept (keep : InventoryEntry -> bool) (line : string) : bool :=
  match parseBlobInventoryEntry line with Some e => keep e | None => true end.

Lemma prune_lines_spec keep lines :
  prune_lines keep lines =
    (str_concat (base.filter (fun l => line_kept keep l = true) lines),
     base.filter (fun e => keep e = false) (omap parseBlobInventoryEntry lines)).
Proof.
  induction lines as [|l lines IH]; [done|]. cbn [prune_lines]. rewrite IH.
  rewrite list_omap_cons, filter_cons.
  assert (line_kept keep l = match parseBlobInventoryEntry l with
                             | Some e => keep e | None => true end) as E by done.
  destruct (parseBlobInventoryEntry l) as [e|]; rewrite ?filter_cons, E; [|done].
  destruct (keep e); done.
Qed.

Lemma parse_kept keep (lines : list string) :
  omap parseBlobInventoryEntry (base.filter (fun l => line_kept keep l = true) lines) =
  base.filter (fun e => keep e = true) (omap parseBlobInventoryEntry lines).
Proof.
  induction lines as [|l lines IH]; [done|].
  rewrite list_omap_cons, filter_cons.
  assert (line_kept keep l = match parseBlobInventoryEntry l with
                             | Some e => keep e | None => true end) as E by done.
  destruct (parseBlobInventoryEntry l) as [e|] eqn:P; rewrite ?filter_cons, E.
  - destruct (keep e); repeat case_decide; try done; by rewrite ?list_omap_cons, ?P, IH.
  - case_decide; [|done]. by rewrite list_omap_cons, P, IH.
Qed.

(** The rewritten text parses to the kept entries. *)
Lemma prune_text_view keep data :
  let '(text, removed) := prune_lines keep (SplitAfterLines data) in
  parseInventoryBlob text = base.filter (fun e => keep e = true) (parseInventoryBlob data) /\
  removed = base.filter (fun e => keep e = false) (parseInventoryBlob data).
Proof.
  rewrite prune_lines_spec, (parse_blob_split_after data). split; [|done].
  rewrite <- parse_kept.
  destruct (split_after_form "" data eq_refl) as (init & w & E & Hi & Hw & _).
  unfold SplitAfterLines. rewrite E, filter_app.
  assert (Forall full_line (base.filter (fun l => line_kept keep l = true) init)) as Hi'.
  { apply Forall_forall. intros l [_ Hl]%list_elem_of_filter. by eapply Forall_forall in Hi. }
  rewrite filter_cons. case_decide.
  - by apply parse_concat.
  - rewrite filter_nil, app_nil_r.
    transitivity (parseInventoryBlob
      (str_concat (base.filter (fun l => line_kept keep l = true) init ++ [""]))).
    + rewrite str_concat_app. simpl. by rewrite app_empty_r.
    + rewrite parse_concat by done. rewrite omap_app. simpl. by rewrite app_nil_r.
Qed.

(** ** Verification of the stored integrity value *)

(** The inventory itself is untouched; its integrity value may have moved. *)
Definition inv_same : relation Store := fun s s' =>
  structured (be s') = structured (be s) /\ rows (be s') = rows (be s) /\
  blobs (be s') !! KeyInventory = blobs (be s) !! KeyInventory /\ hmacKey s' = hmacKey s.

#[global] Instance inv_same_preorder : PreOrder inv_same.
Proof.
  split; [done|]. intros ? ? ? (?&?&?&?) (?&?&?&?). repeat split; congruence.
Qed.

Lemma inv_same_of_same {A} (m : MS A) : mono same_data m -> mono inv_same m.
Proof.
  apply mono_weaken. intros s s' (E & ? & _). unfold inv_same. by rewrite E.
Qed.

Lemma inv_same_view s s' : inv_same s s' ->
  inv_view (be s') = inv_view (be s) /\
  (forall k, integrity_value k (be s') = integrity_value k (be s)).
Proof.
  intros (E1 & E2 & E3 & _). unfold inv_view, integrity_value, inventory_text. by rewrite E1, E2, E3.
Qed.

Lemma inv_same_put_hmac d : mono inv_same (backend (be_Put KeyInventoryHMAC d)).
Proof.
  intros s. unfold exec. destruct (backend _ s) as [r s'] eqn:E.
  apply backend_cases in E as (E1 & _ & E2).
  assert ((be_Put KeyInventoryHMAC d (be s)).2 =
          set_blobs (<[KeyInventoryHMAC := d]> (blobs (be s))) (be s)) as HP.
  { unfold be_Put, guarded. change (validateKey KeyInventoryHMAC) with (@None error).
    unfold on_rows. by rewrite bool_decide_eq_false_2, andb_false_r by done. }
  rewrite HP in E2. unfold inv_same. simpl.
  destruct E2 as [[_ ->]|(e & _ & [->| ->])]; simpl; rewrite ?lookup_insert_ne by done; done.
Qed.

Lemma compute_same k : mono same_data (computeInventoryHMAC k).
Proof. unfold computeInventoryHMAC, is_structured. mono_tac. Qed.
#[export] Hint Resolve compute_same inv_same_put_hmac : mono.

Lemma verify_inv_same k : mono inv_same (verifyInventoryHMACLocked k).
Proof.
  unfold verifyInventoryHMACLocked, baselineInventoryHMACLocked, is_structured.
  repeat first [ solve [apply inv_same_of_same; mono_tac] | mono_step ].
Qed.

(** Only the stored integrity value can be written by a verification. *)
Lemma verify_frame k : mono (frame (fun x => x = KeyInventoryHMAC)) (verifyInventoryHMACLocked k).
Proof.
  unfold verifyInventoryHMACLocked, baselineInventoryHMACLocked, is_structured.
  repeat first [ solve [apply frame_of_same; mono_tac] | by apply frame_Put | mono_step ].
Qed.

Lemma latest_frame subject :
  mono (frame (fun x => x = KeyInventoryHMAC)) (LatestSerialForSubject subject).
Proof.
  unfold LatestSerialForSubject, ReadInventory, is_structured.
  repeat first [ solve [apply frame_of_same; mono_tac] | apply verify_frame | mono_step ].
Qed.

Lemma update_inv_same k : mono inv_same (updateInventoryHMACLocked k).
Proof.
  unfold updateInventoryHMACLocked.
  repeat first [ solve [apply inv_same_of_same; mono_tac] | mono_step ].
Qed.

Lemma sql_Entries_Ok b l b' : sql_Entries b = (Ok l, b') -> l = map cr_entry (rows b) /\ b' = b.
Proof. unfold sql_Entries. naive_solver. Qed.

Lemma compute_value k s c s' :
  computeInventoryHMAC k s = (Ok c, s') -> c = integrity_value k (be s).
Proof.
  unfold computeInventoryHMAC, is_structured, integrity_value. intros H. minv.
  - rename select (backend _ _ = _) into Hb. apply backend_Ok in Hb as [Hb _].
    by apply sql_Entries_Ok in Hb as [-> _].
  - rename select (readInventoryForHMAC _ = _) into Hr. by apply readInventory_text in Hr as [-> _].
Qed.

Lemma put_hmac_stored d s u s' :
  backend (be_Put KeyInventoryHMAC d) s = (Ok u, s') ->
  blobs (be s') !! KeyInventoryHMAC = Some d.
Proof.
  intros [H _]%backend_Ok. unfold be_Put, guarded, on_rows in H.
  change (validateKey KeyInventoryHMAC) with (@None error) in H.
  rewrite bool_decide_eq_false_2, andb_false_r in H by done. injection H as <- <-.
  simpl. by rewrite lookup_insert_eq.
Qed.

Definition has_integrity (k : string) (s : Store) : Prop :=
  exists v, blobs (be s) !! KeyInventoryHMAC = Some v /\ blob_text v = integrity_value k (be s).

Lemma update_integrity k s u s' :
  updateInventoryHMACLocked k s = (Ok u, s') -> has_integrity k s'.
Proof.
  unfold updateInventoryHMACLocked. intros H. minv.
  rename select (computeInventoryHMAC _ _ = _) into Hc. rename select (backend _ _ = _) into Hp.
  pose proof (mono_run _ _ _ _ _ (compute_same k) Hc) as [Eb _].
  pose proof (mono_run _ _ _ _ _ (inv_same_put_hmac _) Hp) as HS%inv_same_view.
  apply compute_value in Hc as ->. apply put_hmac_stored in Hp.
  eexists. split; [exact Hp|]. simpl. rewrite (proj2 HS), Eb. done.
Qed.

Lemma baseline_integrity k s u s' :
  baselineInventoryHMACLocked k s = (Ok u, s') -> has_integrity k s'.
Proof.
  unfold baselineInventoryHMACLocked, is_structured. intros H. minv;
    repeat match goal with
    | Hr : readInventoryForHMAC _ = _ |- _ =>
        apply readInventory_text in Hr as [-> (Eb & _)]; [|done]
    | He : backend sql_Entries ?s = _ |- _ =>
        let Eb := fresh "Eb" in
        pose proof (mono_run _ _ _ _ _ (backend_reads _ reads_Entries) He) as [Eb _];
        apply backend_Ok in He as [He _]; apply sql_Entries_Ok in He as [-> _]
    | Hx : backend (be_Exists KeyCRL) ?s = _ |- _ =>
        let Ex := fresh "Ex" in
        pose proof (mono_run _ _ _ _ _ (backend_reads _ (reads_Exists KeyCRL)) Hx) as [Ex _];
        clear Hx
    | Hp : backend (be_Put KeyInventoryHMAC _) _ = _ |- _ =>
        pose proof (mono_run _ _ _ _ _ (inv_same_put_hmac _) Hp) as [_ HV]%inv_same_view;
        apply put_hmac_stored in Hp as Hst; clear Hp
    end;
    (eexists; split; [exact Hst|]); simpl; rewrite HV, Ex, Eb;
    unfold integrity_value, foldInventoryHead; rewrite ?Heqb; done.
Qed.

Lemma verify_integrity k s u s' :
  verifyInventoryHMACLocked k s = (Ok u, s') -> has_integrity k s'.
Proof.
  unfold verifyInventoryHMACLocked. intros H. minv.
  - rename select (backend _ _ = _) into Hg. rename select (computeInventoryHMAC _ _ = _) into Hc.
    pose proof (mono_run _ _ _ _ _ (compute_same k) Hc) as [Eb _].
    apply compute_value in Hc. bool_hyps. apply backend_Ok in Hg as [Hg _].
    apply be_Get_Ok in Hg as [Hg Eb'].
    + rewrite Eb' in *. exists a. rewrite Eb. split; congruence.
    + unfold on_rows. by rewrite bool_decide_eq_false_2, andb_false_r.
  - by eapply baseline_integrity.
Qed.

Lemma has_integrity_integrity k s : hmacKey s = Some k -> has_integrity k s -> integrity s.
Proof. intros Hk H k' Hk'. assert (k' = k) as -> by congruence. exact H. Qed.

(** ** Pruning against the specification *)

(** The part of [PruneInventory] before the rewrite: verify, if a key is set. *)
Lemma prune_verified s r s' :
  (match hmacKey s with Some k => verifyInventoryHMACLocked k | None => mret tt end) s = (r, s') ->
  inv_same s s' /\ (r = Ok tt -> integrity s').
Proof.
  intros H. destruct (hmacKey s) as [k|] eqn:Hk.
  - pose proof (mono_run _ _ _ _ _ (verify_inv_same k) H) as HS. split; [done|].
    intros ->. apply verify_integrity in H. eapply has_integrity_integrity; [|done].
    destruct HS as (_ & _ & _ & ->). exact Hk.
  - injection H as <- <-. split; [done|]. intros _ k Hk'. congruence.
Qed.

Lemma map_filter_rows (keep : InventoryEntry -> bool) p (l : list CertRecord) :
  map cr_entry (base.filter (fun r => keep (cr_entry r) = p) l) =
  base.filter (fun e => keep e = p) (map cr_entry l).
Proof.
  induction l as [|r l IH]; [done|]. cbn [map]. rewrite !filter_cons, <- IH. by case_decide.
Qed.

Lemma sql_prune_spec keep k s removed s' :
  structured (be s) = true -> hmacKey s = k ->
  integrity s ->
  backend (sql_PruneEntries keep
    ((fun k prev e => chainInventoryMAC k prev (canonicalInventoryLine e)) <$> k)) s
    = (Ok removed, s') ->
  inv_view (be s') = base.filter (fun e => keep e = true) (inv_view (be s)) /\
  removed = base.filter (fun e => keep e = false) (inv_view (be s)) /\ integrity s'.
Proof.
  intros Hst <- Hint (Hop & Hk & _)%backend_Ok. unfold sql_PruneEntries in Hop.
  unfold inv_view. rewrite Hst. rewrite <- !map_filter_rows.
  case_bool_decide as Hlen; injection Hop as Hr Hb; subst removed; rewrite <- Hb; simpl; rewrite ?Hst.
  - apply length_zero_iff_nil in Hlen. rewrite !Hlen. split; [|split; [done|]].
    + rewrite filter_all; [done|]. intros r Hr. destruct (keep (cr_entry r)) eqn:K; [done|].
      assert (r ∈ base.filter (fun r => keep (cr_entry r) = false) (rows (be s))) as HE
        by (by apply list_elem_of_filter). rewrite Hlen in HE. by apply not_elem_of_nil in HE.
    + intros k' Hk'. rewrite <- Hb, Hk in *. by apply Hint.
  - split; [done|]. split; [done|]. intros k' Hk'. rewrite Hk in Hk'. rewrite <- Hb, Hk'. simpl.
    rewrite lookup_insert_eq. eexists. split; [done|]. simpl.
    rewrite integrity_value_rows by done. done.
Qed.

Lemma put_inventory_blob text s u s' :
  structured (be s) = false -> backend (be_Put KeyInventory (BText text)) s = (Ok u, s') ->
  structured (be s') = false /\ inventory_text (be s') = text /\ hmacKey s' = hmacKey s.
Proof.
  intros Hst (Hop & Hk & _)%backend_Ok. unfold be_Put, guarded, on_rows in Hop.
  change (validateKey KeyInventory) with (@None error) in Hop. rewrite Hst in Hop.
  cbn [andb] in Hop. injection Hop as _ Hb. unfold inventory_text.
  rewrite <- Hb. simpl. by rewrite lookup_insert_eq.
Qed.

Lemma filter_bool_nil {A} (p : A -> bool) (l : list A) :
  base.filter (fun x => p x = false) l = [] -> base.filter (fun x => p x = true) l = l.
Proof.
  intros E. apply filter_all. intros x Hx. destruct (p x) eqn:K; [done|].
  assert (x ∈ base.filter (fun x => p x = false) l) as HE by (by apply list_elem_of_filter).
  rewrite E in HE. by apply not_elem_of_nil in HE.
Qed.

(** A successful prune. *)
Lemma prune_spec keep s removed s' :
  PruneInventory keep s = (Ok (removed, None), s') ->
  inv_view (be s') = base.filter (fun e => keep e = true) (inv_view (be s)) /\
  removed = base.filter (fun e => keep e = false) (inv_view (be s)) /\ integrity s'.
Proof.
  unfold PruneInventory, is_structured. intros H.
  apply bind_Ok in H as (key & s1 & Hk & H). apply gets_Ok in Hk as [-> ->].
  apply bind_Ok in H as (st & s1 & Hst & H). apply gets_Ok in Hst as [-> ->].
  apply bind_Ok in H as (v & s1 & Hv & H). apply try_Ok in Hv.
  apply prune_verified in Hv as [HS Hint].
  destruct (inv_same_view _ _ HS) as [<- _]. destruct HS as (Est & Erows & Etext & Ek).
  destruct v as [[]|e]; [|by minv]. specialize (Hint eq_refl).
  destruct (structured (be s)) eqn:Hst.
  - minv. rename select (backend _ _ = _) into Hp.
    apply sql_prune_spec with (k := hmacKey s) in Hp; auto; congruence.
  - apply bind_Ok in H as (d & s2 & Hr & H). apply try_Ok in Hr.
    destruct d as [data|]; [|by minv].
    apply readInventory_text in Hr as [-> (Eb2 & Ek2 & _)]; [|congruence].
    pose proof (prune_text_view keep (inventory_text (be s1))) as HP.
    destruct (prune_lines _ _) as [text rem]. destruct HP as [HP ->].
    assert (inv_view (be s1) = parseInventoryBlob (inventory_text (be s1))) as EV
      by (unfold inv_view; by rewrite Est).
    case_bool_decide as Hlen.
    + minv. apply length_zero_iff_nil in Hlen. rewrite EV. rewrite Eb2, filter_bool_nil by done.
      split; [done|]. split; [done|]. intros k' Hk'. rewrite Eb2, Ek2 in *. by apply Hint.
    + apply bind_Ok in H as (w & s3 & Hw & H). apply try_Ok in Hw. destruct w as [u|]; [|by minv].
      apply put_inventory_blob in Hw as (Est3 & Et3 & Ek3); [|congruence].
      assert (forall s4, inv_same s3 s4 -> inv_view (be s4) =
                base.filter (fun e => keep e = true) (inv_view (be s1))) as Hview.
      { intros s4 H4%inv_same_view. rewrite (proj1 H4), EV, <- HP. unfold inv_view.
        by rewrite Est3, Et3. }
      destruct (hmacKey s) as [k|] eqn:Hk; minv.
      * rename select (updateInventoryHMACLocked _ _ = _) into Hu.
        pose proof (mono_run _ _ _ _ _ (update_inv_same k) Hu) as HS.
        split; [by apply Hview|]. split; [by rewrite EV|]. apply (has_integrity_integrity k).
        { destruct HS as (_ & _ & _ & ->). congruence. }
        by eapply update_integrity.
      * split; [by apply Hview|]. split; [by rewrite EV|]. intros k' Hk'. congruence.
Qed.

(** Pruning the inventory, when it reports success, keeps exactly the
    entries the predicate keeps, in their order, returns exactly the ones it
    removed, and leaves a stored integrity value that matches what is now
    stored.  This holds on blob and structured backends and for every script
    of storage failures. *)
Theorem PruneInventory_refines keep s removed s' :
  PruneInventory keep s = (Ok (removed, None), s') ->
  inv_view (be s') = base.filter (fun e => keep e = true) (inv_view (be s)) /\
  removed = base.filter (fun e => keep e = false) (inv_view (be s)) /\ integrity s'.
Proof. apply prune_spec. Qed.

(** Whatever a prune reports, the entries it returns are the ones its predicate
    rejects, or none. *)
Lemma prune_removed keep s removed err s' :
  PruneInventory keep s = (Ok (removed, err), s') ->
  removed = [] \/ removed = base.filter (fun e => keep e = false) (inv_view (be s)).
Proof.
  unfold PruneInventory, is_structured. intros H.
  apply bind_Ok in H as (key & s1 & Hk & H). apply gets_Ok in Hk as [-> ->].
  apply bind_Ok in H as (st & s1 & Hst & H). apply gets_Ok in Hst as [-> ->].
  apply bind_Ok in H as (v & s1 & Hv & H). apply try_Ok in Hv. apply prune_verified in Hv as [HS _].
  destruct (inv_same_view _ _ HS) as [<- _]. destruct HS as (Est & Erows & Etext & Ek).
  destruct v as [u|e]; [|minv; by left]. destruct (structured (be s)) eqn:Hst.
  - apply bind_Ok in H as (r & s2 & Hp & H). apply try_Ok in Hp. destruct r as [l|]; [|minv; by left].
    apply ret_Ok in H as [[= -> ->] ->]. apply backend_Ok in Hp as [Hp _].
    unfold sql_PruneEntries in Hp. case_bool_decide; injection Hp as Hl _; [by left|].
    right. rewrite <- Hl. unfold inv_view. rewrite Est. apply map_filter_rows.
  - apply bind_Ok in H as (d & s2 & Hr & H). apply try_Ok in Hr. destruct d as [data|]; [|minv; by left].
    apply readInventory_text in Hr as [-> _]; [|congruence].
    pose proof (prune_text_view keep (inventory_text (be s1))) as HP.
    destruct (prune_lines _ _) as [text rem]. destruct HP as [_ ->].
    unfold inv_view. rewrite Est. case_bool_decide; minv; auto.
Qed.

Lemma update_frame k : mono (frame (fun x => x = KeyInventory \/ x = KeyInventoryHMAC)) (updateInventoryHMACLocked k).
Proof.
  unfold updateInventoryHMACLocked.
  repeat first [ solve [apply frame_of_same; mono_tac] | by apply frame_Put; auto | mono_step ].
Qed.

Lemma prune_frame keep :
  mono (frame (fun x => x = KeyInventory \/ x = KeyInventoryHMAC)) (PruneInventory keep).
Proof.
  unfold PruneInventory, is_structured.
  repeat first [ solve [apply frame_of_same; mono_tac] | by apply frame_Put; auto
    | apply update_frame
    | eapply mono_weaken; [|apply verify_frame]; intros ? ? (? & ? & F); split_and!; auto; intros; apply F; naive_solver
    | mono_step ].
  apply backend_frame. intros b. unfold sql_PruneEntries.
  repeat case_match; simpl; split; auto; intros k Hk; rewrite ?lookup_insert_ne; auto; naive_solver.
Qed.

(** ** Reading the inventory *)

(** C19: tamper evidence of the structured inventory.  If the stored head is
    the chain over the true history [es0], then a successful read returns
    entries whose canonical lines are those of [es0], in order and with none
    missing: rows altered, reordered, inserted or deleted behind the service's
    back are reported, unless the alteration exhibits a collision of the MAC
    on messages of the two chains, or a line that itself begins with the raw
    bytes of a chain head. *)
Theorem InventoryEntries_tamper_evident k es0 v s l s' :
  structured (be s) = true -> hmacKey s = Some k ->
  blobs (be s) !! KeyInventoryHMAC = Some v -> blob_text v = chain_from k "" es0 ->
  InventoryEntries s = (Ok l, s') ->
  l = map cr_entry (rows (be s)) /\
  (map canonicalInventoryLine l = map canonicalInventoryLine es0 \/ chain_forgery k l es0).
Proof.
  intros Hst Hk Hv Hhead H. unfold InventoryEntries, compareInventoryMACLocked, is_structured in H.
  minv; try congruence; try (rename select (true = _) into Hx; congruence);
    repeat match goal with
    | He : backend sql_Entries ?s = _ |- _ =>
        let Eb := fresh "Eb" in
        pose proof (mono_run _ _ _ _ _ (backend_reads _ reads_Entries) He) as [Eb _];
        apply backend_Ok in He as [He _]; apply sql_Entries_Ok in He as [-> _]
    end; (split; [done|]); bool_hyps; apply chain_eq_cases.
  - rename select (backend (be_Get _) _ = _) into Hg. apply backend_Ok in Hg as [Hg _].
    rewrite Eb in Hg. apply be_Get_Ok in Hg as [Hg _].
    + congruence.
    + unfold on_rows. by rewrite bool_decide_eq_false_2, andb_false_r.
  - rename select (backend (be_Get _) _ = _) into Hg.
    apply backend_Err_is with (sn := FsErrNotExist) in Hg as [Hg _]; [|done].
    destruct (be_Get KeyInventoryHMAC (be x0)) as [r b'] eqn:G. simpl in Hg. subst r.
    eapply be_Get_missing in G; [|done]. congruence.
Qed.

(** The duplicate sentinel is never an error of the backend itself. *)
Definition never_dup {A} (op : BOp A) : Prop :=
  forall b e, (op b).1 = Err e -> errors_Is e ErrDuplicateSerial = false.

Lemma backend_never_dup {A} (op : BOp A) s e s' :
  never_dup op -> backend op s = (Err e, s') -> errors_Is e ErrDuplicateSerial = true -> False.
Proof.
  intros Hop Hb He. eapply backend_Err_is in Hb as [Hb _]; [|exact He].
  apply Hop in Hb. congruence.
Qed.

Lemma never_dup_Get key : validateKey key = None -> never_dup (be_Get key).
Proof.
  intros Hk b e. unfold be_Get, guarded. rewrite Hk. repeat case_match; intros; by simplify_eq/=.
Qed.

Lemma never_dup_insert lines l e :
  insertInventoryLines lines l = Err e -> errors_Is e ErrDuplicateSerial = false.
Proof.
  revert l. induction lines as [|x lines IH]; intros l; simpl; [done|].
  unfold insert_row. repeat case_match; intros; simplify_eq/=; eauto.
Qed.

Lemma never_dup_Put key d : validateKey key = None -> never_dup (be_Put key d).
Proof.
  intros Hk b e. unfold be_Put, guarded. rewrite Hk. repeat case_match; intros; simplify_eq/=.
  by eapply never_dup_insert.
Qed.

Lemma never_dup_AppendLine key d : validateKey key = None -> never_dup (be_AppendLine key d).
Proof.
  intros Hk b e. unfold be_AppendLine, guarded. rewrite Hk. repeat case_match; intros; simplify_eq/=.
  by eapply never_dup_insert.
Qed.

Lemma never_dup_AppendEntry rec f : never_dup (sql_AppendEntry rec f).
Proof.
  intros b e. unfold sql_AppendEntry, insert_row. repeat case_match; intros; by simplify_eq/=.
Qed.

Lemma read_never_dup s e s' :
  readInventoryForHMAC s = (Err e, s') -> errors_Is e ErrDuplicateSerial = true -> False.
Proof.
  unfold readInventoryForHMAC, try, mbind, M_bind, mret, M_ret, fail. intros H He.
  destruct (backend _ s) as [[v|z] s2] eqn:Hg; [done|].
  destruct (errors_Is z FsErrNotExist); [done|]. injection H as <- <-.
  by eapply backend_never_dup in Hg; [|by apply never_dup_Get|].
Qed.

(** A unique violation comes from the insert, which then wrote nothing. *)
Lemma append_unique rec f s y s' :
  backend (sql_AppendEntry rec f) s = (Err y, s') -> isUniqueSerialViolation y = true ->
  has_serial (ie_Serial (cr_entry rec)) (rows (be s)) = true /\ same_data s s'.
Proof.
  unfold backend. destruct (pop_fault s) as [ft s0] eqn:P.
  apply pop_fault_same in P as (Eb & Ekey & Efiles). rewrite Eb.
  unfold sql_AppendEntry, insert_row, same_data.
  destruct ft, (has_serial _ _); intros; simplify_eq/=; repeat split; congruence.
Qed.

Lemma append_duplicate_structured entry proj e x s s' :
  parseInventoryEntry entry = Some e -> structured (be s) = true ->
  AppendInventoryRecord entry proj s = (Err x, s') -> errors_Is x ErrDuplicateSerial = true ->
  spec_append e (inv_view (be s)) = None /\ same_data s s'.
Proof.
  intros Hparse Hst H Hx. unfold AppendInventoryRecord, is_structured in H.
  rewrite Hparse in H. destruct (negb _); [by injection H as <- <-|].
  unfold gets, mbind, M_bind, try in H. rewrite Hst in H. unfold spec_append, inv_view. rewrite Hst.
  destruct (backend _ s) as [[u|y] s1] eqn:Hb; [done|].
  destruct (negb (errors_Is y ErrDuplicateSerial) && isUniqueSerialViolation y) eqn:Hu.
  - injection H as <- <-. bool_hyps. apply append_unique in Hb as [Hs HD]; [|done].
    rewrite has_serial_view in Hs. simpl in Hs. by rewrite Hs.
  - injection H as <- <-. exfalso. by eapply backend_never_dup in Hb; [|apply never_dup_AppendEntry|].
Qed.

(** Refusing a serial.  When an append reports a duplicate serial, the
    serial (as the entry spells it canonically) is already listed and nothing
    was written: contents, rows and integrity value are those before the
    call. *)
Theorem AppendInventoryRecord_duplicate entry proj e x s s' :
  parseInventoryEntry entry = Some e -> (exists n, 0 <= n /\ ie_Serial e = hexX n) ->
  AppendInventoryRecord entry proj s = (Err x, s') -> errors_Is x ErrDuplicateSerial = true ->
  spec_append e (inv_view (be s)) = None /\ same_data s s'.
Proof.
  intros Hparse (n & Hn & Hser) H Hx.
  destruct (structured (be s)) eqn:Hst; [by eapply append_duplicate_structured|].
  unfold AppendInventoryRecord, is_structured in H. rewrite Hparse in H.
  destruct (negb _); [by injection H as <- <-|].
  unfold gets, mbind, M_bind in H. rewrite Hst in H. unfold spec_append, inv_view. rewrite Hst.
  destruct (readInventoryForHMAC s) as [[d|y] s1] eqn:Hr;
    [|injection H as <- <-; exfalso; by eapply read_never_dup].
  apply readInventory_text in Hr as [-> Hs]; [|done].
  rewrite Hser, inventorySerial_hexX, <- Hser, duplicate_scan_view in H by done.
  destruct (existsb _ _); [by injection H as <- <-|]. exfalso.
  destruct (backend _ s1) as [[u|y] s2] eqn:Ha.
  - unfold wrapping, mret, M_ret in H. destruct (hmacKey s); [|done].
    destruct (backend _ s2) as [[|y] s3] eqn:Hp; [done|]. injection H as <- <-.
    simpl in Hx. rewrite orb_false_r in Hx.
    by eapply backend_never_dup in Hp; [|by apply never_dup_Put|].
  - injection H as <- <-. by eapply backend_never_dup in Ha; [|by apply never_dup_AppendLine|].
Qed.

(** On either backend the latest serial of a subject is the serial of its
    last inventory entry. *)
Lemma LatestSerialForSubject_last subject s r s' :
  LatestSerialForSubject subject s = (Ok r, s') ->
  exists e, last_match (fun e => bool_decide (ie_Subject e = subject)) (inv_view (be s)) = Some e /\
    ie_Serial e = r.
Proof.
  unfold LatestSerialForSubject, ReadInventory, is_structured. intros H.
  apply bind_Ok in H as (st & s1 & Hst & H). apply gets_Ok in Hst as [-> ->].
  destruct (structured (be s)) eqn:Hst.
  - apply backend_Ok in H as [Hb _]. unfold sql_LatestSerialForSubject, last_match in *.
    unfold inv_view. rewrite Hst.
    rewrite <- (map_filter_rows (fun e => bool_decide (ie_Subject e = subject)) true).
    change (map cr_entry ?l) with (cr_entry <$> l). rewrite fmap_last.
    destruct (last _) as [row|]; simplify_eq/=. eauto.
  - apply bind_Ok in H as (data & s1 & H1 & H). apply of_result_Ok in H as [H ->].
    apply bind_Ok in H1 as (key & s2 & Hk & H1). apply gets_Ok in Hk as [-> ->].
    apply bind_Ok in H1 as (u & s2 & Hv & Hg). apply prune_verified in Hv as [HS _].
    destruct (inv_same_view _ _ HS) as [<- _]. destruct HS as (Est & _).
    apply backend_Ok in Hg as [Hg _]. apply be_Get_Ok in Hg as [Hg _];
      [|unfold on_rows; by rewrite Est, Hst].
    unfold inv_view. rewrite Est, Hst. unfold inventory_text. rewrite Hg.
    unfold latestSerialFromBlob in H. rewrite latest_scan_spec in H.
    unfold parseInventoryBlob, parseInventoryBlobCounting.
    destruct (last_match _ _) as [e|]; [|done]. case_bool_decide; simplify_eq. eauto.
Qed.

(** ** Which errors say "not found" *)

Definition never {S A} (sn : sentinel) (m : M S A) : Prop :=
  forall s e s', m s = (Err e, s') -> errors_Is e sn = false.

Lemma never_bind {S A B} sn (m : M S A) (k : A -> M S B) :
  never sn m -> (forall a, never sn (k a)) -> never sn (m ≫= k).
Proof. intros Hm Hk s e s' [(e' & H & [= ->])|(a & s1 & _ & H)]%bind_run; [by eapply Hm|by eapply Hk]. Qed.
Lemma never_ret {S A} sn (a : A) : never sn (mret a : M S A).
Proof. done. Qed.
Lemma never_gets {S A} sn (f : S -> A) : never sn (gets f).
Proof. done. Qed.
Lemma never_try {S A} sn (m : M S A) : never sn (try m).
Proof. intros s e s' H. by apply try_Err in H. Qed.
Lemma never_fail {S A} sn e : errors_Is e sn = false -> never sn (fail e : M S A).
Proof. intros He s e' s' [= <- _]. done. Qed.
Lemma never_wrapping {S A} sn msg (m : M S A) : never sn m -> never sn (wrapping msg m).
Proof.
  intros Hm s e s'. unfold wrapping. destruct (m s) as [[a|e'] s1] eqn:E; [done|]. intros [= <- _].
  simpl. by rewrite (Hm _ _ _ E).
Qed.
Lemma never_backend {A} sn (op : BOp A) :
  (forall b e, (op b).1 = Err e -> errors_Is e sn = false) -> never sn (backend op).
Proof.
  intros Hop s e s' H. destruct (errors_Is e sn) eqn:E; [|done].
  apply (backend_Err_is _ _ _ _ sn) in H as [H _]; [|done]. by rewrite (Hop _ _ H) in E.
Qed.

Lemma never_read : never FsErrNotExist readInventoryForHMAC.
Proof.
  unfold readInventoryForHMAC. apply never_bind; [apply never_try|]. intros [d|e]; [apply never_ret|].
  destruct (errors_Is e FsErrNotExist) eqn:E; [apply never_ret|by apply never_fail].
Qed.
Lemma never_compute k : never FsErrNotExist (computeInventoryHMAC k).
Proof.
  unfold computeInventoryHMAC, is_structured. apply never_bind; [apply never_gets|]. intros [].
  - apply never_bind; [by apply never_backend|]. intros. apply never_ret.
  - apply never_bind; [apply never_read|]. intros. apply never_ret.
Qed.
Lemma never_put_hmac d : never FsErrNotExist (backend (be_Put KeyInventoryHMAC d)).
Proof.
  apply never_backend. intros b e. unfold be_Put, guarded. destruct (validateKey _) eqn:E; [by vm_compute in E|].
  by rewrite on_rows_other.
Qed.
Lemma never_verify k : never FsErrNotExist (verifyInventoryHMACLocked k).
Proof.
  unfold verifyInventoryHMACLocked. apply never_bind; [apply never_try|]. intros [stored|e].
  - apply never_bind; [apply never_wrapping, never_compute|]. intros computed.
    case_bool_decide; [apply never_ret|by apply never_fail].
  - destruct (errors_Is e FsErrNotExist) eqn:E; [|apply never_fail; simpl; by rewrite E].
    unfold baselineInventoryHMACLocked, is_structured. apply never_bind; [apply never_gets|]. intros chained.
    apply never_bind.
    + destruct chained; (apply never_bind; [apply never_wrapping|intros; apply never_ret]);
        [by apply never_backend|apply never_read].
    + intros [entries data]. apply never_bind; [|intros; apply never_put_hmac].
      apply never_wrapping, never_backend. intros b e'. unfold be_Exists, guarded.
      destruct (validateKey _) eqn:Ev; [by vm_compute in Ev|done].
Qed.

(** "Not found" means the inventory has no entry of the subject. *)
Lemma LatestSerialForSubject_none subject s e s' :
  LatestSerialForSubject subject s = (Err e, s') -> errors_Is e FsErrNotExist = true ->
  last_match (fun e => bool_decide (ie_Subject e = subject)) (inv_view (be s)) = None.
Proof.
  unfold LatestSerialForSubject, ReadInventory, is_structured. intros H He.
  apply bind_run in H as [(? & H & _)|(st & s1 & Hst & H)]; [done|]. apply gets_Ok in Hst as [-> ->].
  destruct (structured (be s)) eqn:Hst.
  - apply (backend_Err_is _ _ _ _ FsErrNotExist) in H as [H _]; [|done].
    unfold sql_LatestSerialForSubject, last_match in *. unfold inv_view. rewrite Hst.
    rewrite <- (map_filter_rows (fun e => bool_decide (ie_Subject e = subject)) true).
    change (map cr_entry ?l) with (cr_entry <$> l). rewrite fmap_last. by destruct (last _).
  - apply bind_run in H as [(e' & H & [= ->])|(data & s1 & H1 & H)].
    + apply bind_run in H as [(? & H & _)|(key & s1 & Hk & H)]; [done|]. apply gets_Ok in Hk as [-> ->].
      apply bind_run in H as [(? & H & [= <-])|(u & s2 & Hv & H)].
      { destruct (hmacKey s); [|done]. by rewrite (never_verify _ _ _ _ H) in He. }
      apply prune_verified in Hv as [HS _]. destruct (inv_same_view _ _ HS) as [<- _]. destruct HS as (Est & _).
      apply (backend_Err_is _ _ _ _ FsErrNotExist) in H as [H _]; [|done].
      destruct (be_Get KeyInventory (be s2)) as [r b'] eqn:G. simpl in H. subst r. apply be_Get_missing in G; [|done].
      unfold inv_view, inventory_text. by rewrite Est, Hst, G.
    + apply bind_Ok in H1 as (key & s2 & Hk & H1). apply gets_Ok in Hk as [-> ->].
      apply bind_Ok in H1 as (u & s2 & Hv & Hg). apply prune_verified in Hv as [HS _].
      destruct (inv_same_view _ _ HS) as [<- _]. destruct HS as (Est & _).
      apply backend_Ok in Hg as [Hg _]. apply be_Get_Ok in Hg as [Hg _]; [|unfold on_rows; by rewrite Est, Hst].
      unfold inv_view. rewrite Est, Hst. unfold inventory_text. rewrite Hg.
      unfold of_result in H. injection H as H _. unfold latestSerialFromBlob in H. rewrite latest_scan_spec in H.
      unfold parseInventoryBlob, parseInventoryBlobCounting.
      destruct (last_match _ _) as [x|] eqn:El; [|done]. exfalso. apply last_match_Some in El as [Hx _].
      pose proof (parse_lines_serials (SplitLines (blob_text data))) as Hne. rewrite Forall_forall in Hne.
      rewrite bool_decide_eq_false_2 in H; [done|]. by apply Hne.
Qed.

(** An append writes the inventory and its integrity value, nothing else. *)
Lemma append_frame entry proj :
  mono (frame (fun k => k = KeyInventory \/ k = KeyInventoryHMAC)) (AppendInventoryRecord entry proj).
Proof.
  unfold AppendInventoryRecord, is_structured.
  repeat first [ solve [apply frame_of_same; mono_tac] | by apply frame_Put; auto
               | by apply frame_AppendLine; auto | mono_step ].
  apply backend_frame. intros b. unfold sql_AppendEntry, insert_row.
  repeat case_match; simpl; split; auto; intros k Hk; rewrite ?lookup_insert_ne; auto; naive_solver.
Qed.

(** ** Witnesses *)

Definition demo_key : string := "0123456789abcdef0123456789abcdef".
Definition demo_store (st : bool) : Store :=
  mkStore (mkBackend st ∅ []) (Some demo_key) ∅ [] (739000 * 86400 * 10 ^ 9) [] [].
Definition demo_entry : InventoryEntry :=
  mkEntry "2A" "2026-01-02T03:04:05UTC" "2031-01-01T00:00:00UTC" "web01.example.com".
Definition demo_store_with (st : bool) : Store :=
  exec (AppendInventoryRecord (canonicalInventoryLine demo_entry) None) (demo_store st).

Lemma demo_entry_wf : wf_entry demo_entry.
Proof.
  constructor; simpl.
  - exists 42. split; [lia|vm_compute; reflexivity].
  - split; [discriminate|vm_compute; reflexivity].
  - split; [discriminate|vm_compute; reflexivity].
  - split; [discriminate|split; vm_compute; reflexivity].
Qed.

Lemma AppendInventoryRecord_refines_witness :
  spec_append demo_entry [] = Some (inv_view (be (demo_store_with false))) /\
  (integrity (demo_store false) -> integrity (demo_store_with false)).
Proof.
  destruct (AppendInventoryRecord_refines (canonicalInventoryLine demo_entry) None demo_entry
    ltac:(vm_compute; reflexivity) (demo_store false) (demo_store_with false)) as (H1 & _ & H2).
  - intros _. left. vm_compute. reflexivity.
  - exact demo_entry_wf.
  - vm_compute. reflexivity.
  - split; [exact H1|exact H2].
Defined.

Lemma PruneInventory_refines_witness :
  PruneInventory (fun e => bool_decide (ie_Serial e <> "2A")) (demo_store_with false) =
    (Ok ([demo_entry], None),
     exec (PruneInventory (fun e => bool_decide (ie_Serial e <> "2A"))) (demo_store_with false)) /\
  inv_view (be (exec (PruneInventory (fun e => bool_decide (ie_Serial e <> "2A")))
                  (demo_store_with false))) = [].
Proof.
  assert (PruneInventory (fun e => bool_decide (ie_Serial e <> "2A")) (demo_store_with false) =
    (Ok ([demo_entry], None),
     exec (PruneInventory (fun e => bool_decide (ie_Serial e <> "2A"))) (demo_store_with false))) as E
    by (vm_compute; reflexivity).
  split; [exact E|].
  destruct (PruneInventory_refines _ _ _ _ E) as (-> & _). vm_compute. reflexivity.
Defined.

Lemma InventoryEntries_tamper_evident_witness :
  map canonicalInventoryLine [demo_entry] = map canonicalInventoryLine [demo_entry] \/
  chain_forgery demo_key [demo_entry] [demo_entry].
Proof.
  apply (InventoryEntries_tamper_evident demo_key [demo_entry]
    (BText (chain_from demo_key "" [demo_entry])) (demo_store_with true) [demo_entry]
    (exec InventoryEntries (demo_store_with true))); vm_compute; reflexivity.
Defined.

Lemma AppendInventoryRecord_duplicate_witness :
  spec_append demo_entry (inv_view (be (demo_store_with false))) = None.
Proof.
  refine (proj1 (AppendInventoryRecord_duplicate (canonicalInventoryLine demo_entry) None demo_entry
    (Wrap "2A" [Sentinel ErrDuplicateSerial]) (demo_store_with false)
    (exec (AppendInventoryRecord (canonicalInventoryLine demo_entry) None) (demo_store_with false))
    _ _ _ _)).
  - vm_compute; reflexivity.
  - exists 42. split; [lia|vm_compute; reflexivity].
  - vm_compute; reflexivity.
  - vm_compute; reflexivity.
Defined.
