(* ===== verification/Numbered.v ===== *)
(** * Operations and lemmas that the numbered inventories share

    The etcd and the Redis backend differ in how they guard a write; what they
    write is the same.  Here: the changes of a record's index columns
    (etcd_certindex.go and redis_certindex.go), the advance of the integrity
    head, and the lemmas on sorted records, prunes and batches. *)

From S2P Require Import Prelude GoStrings GoTime X509 Inventory Storage Records InventorySpec.

Definition too_many (what : string) : error := Msg (what +:+ " failed: too many concurrent writers").

(** How many entries bear each serial. *)
Definition bearers_of (recs : list indexedRecord) : string -> Z := fun s =>
  Z.of_nat (length (base.filter (fun r => rj_serial r.2 = s) recs)).

(** A list in batches of [size]. *)
Fixpoint chunks {A} (fuel size : nat) (l : list A) : list (list A) :=
  match fuel, l with
  | O, _ => []
  | _, [] => []
  | S fuel, _ => take size l :: chunks fuel size (drop size l)
  end.

(** A change of the index columns, [None] when there is nothing to write; the
    etcd and the Redis backend share these. *)
Definition mark_revoked (at_ : Time) (rec : CertRecord) : option CertRecord :=
  if bool_decide (State rec = CertStateRevoked) then None
  else Some (mkRecord (cr_entry rec) (cr_proj rec) CertStateRevoked (Some at_)).
Definition mark_signed (rec : CertRecord) : option CertRecord :=
  if bool_decide (State rec = CertStateSigned) && bool_decide (RevokedAt rec = None) then None
  else Some (mkRecord (cr_entry rec) (cr_proj rec) CertStateSigned None).
Definition with_projection (p : CertProjection) (rec : CertRecord) : option CertRecord :=
  Some (mkRecord (cr_entry rec) p (State rec) (RevokedAt rec)).

Definition same_entry (mutate : CertRecord -> option CertRecord) : Prop :=
  forall rec rec', mutate rec = Some rec' -> cr_entry rec' = cr_entry rec.

Lemma same_entry_marks :
  (forall at_, same_entry (mark_revoked at_)) /\ same_entry mark_signed /\ forall p, same_entry (with_projection p).
Proof.
  unfold same_entry, mark_revoked, mark_signed, with_projection.
  split_and!; intros; repeat case_match; simplify_eq/=; done.
Qed.

(** ** The integrity head *)

(** How the service advances the head for an entry. *)
Definition advance (k : string) (e : InventoryEntry) (prev : string) : string :=
  chainInventoryMAC k prev (canonicalInventoryLine e).

(** How the service advances the head over the survivors of a prune. *)
Definition head_fold (K : option string) : option (string -> InventoryEntry -> string) :=
  (fun k prev e => advance k e prev) <$> K.

(** ** Sorted records *)

Definition plain (r : indexedRecord) : Z * InventoryEntry := (r.1, rj_entry r.2).

Lemma entriesOf_plain l : entriesOf l = (map plain l).*2.
Proof. unfold entriesOf. rewrite <- list_fmap_compose. done. Qed.

Lemma filter_fmap_list {A B} (f : A -> B) (P : B -> Prop) `{!forall x, Decision (P x)} (l : list A) :
  base.filter P (f <$> l) = f <$> base.filter (fun x => P (f x)) l.
Proof. induction l as [|x l IH]; [done|]. rewrite fmap_cons, !filter_cons, IH. by case_decide. Qed.

Lemma filter_entriesOf (P : InventoryEntry -> Prop) `{!forall e, Decision (P e)} l :
  base.filter P (entriesOf l) = entriesOf (base.filter (fun r => P (rj_entry r.2)) l).
Proof. unfold entriesOf. by rewrite (filter_fmap_list (fun r : indexedRecord => rj_entry r.2)). Qed.

Section Sorted.
Context {A : Type}.
Implicit Types (l : list (Z * A)) (c : Z).

Lemma sorted_split l c :
  StronglySorted seq_le l ->
  l = base.filter (fun r => r.1 < c) l ++ base.filter (fun r => c <= r.1) l.
Proof.
  induction 1 as [|x l Hl IH Hx]; [done|]. rewrite !filter_cons. destruct (decide (x.1 < c)) as [Hlt|Hge].
  - rewrite (decide_False (P := c <= x.1)) by lia. simpl. by f_equal.
  - rewrite (decide_True (P := c <= x.1)) by lia.
    assert (forall y, y ∈ l -> c <= y.1) as Hall.
    { intros y Hy. eapply Forall_forall in Hx; [|exact Hy]. unfold seq_le in Hx. lia. }
    rewrite (filter_none (fun r => r.1 < c) l), filter_all by (intros y Hy; specialize (Hall y Hy); lia). done.
Qed.

Lemma unique_key l x y : NoDup l.*1 -> x ∈ l -> y ∈ l -> x.1 = y.1 -> x = y.
Proof.
  intros Hd Hx Hy E. apply list_elem_of_lookup in Hx as [i Hi], Hy as [j Hj].
  assert (i = j) as ->; [|congruence]. eapply NoDup_lookup; [exact Hd| |].
  - rewrite list_lookup_fmap, Hi. done.
  - rewrite list_lookup_fmap, Hj. simpl. by rewrite E.
Qed.

(** A suffix of a sorted list without repetitions. *)
Lemma suffix_from l a x b :
  StronglySorted seq_le l -> NoDup l.*1 -> l = a ++ x :: b ->
  (forall y, y ∈ a -> y.1 < x.1) /\ (forall y, y ∈ x :: b -> x.1 <= y.1).
Proof.
  intros Hs Hd ->. apply StronglySorted_app in Hs as (Hab & _ & Hxb). split.
  - intros y Hy. assert (seq_le y x) as Hle by (apply Hab; [done|by left]). unfold seq_le in Hle.
    destruct (decide (y.1 = x.1)) as [E|]; [exfalso|lia].
    rewrite fmap_app, NoDup_app in Hd. destruct Hd as (_ & Hd & _). apply (Hd x.1); [|by left].
    rewrite <- E. by apply list_elem_of_fmap_2.
  - apply StronglySorted_cons in Hxb as [Hx _]. intros y [->|Hy]%elem_of_cons; [lia|].
    by eapply Forall_forall in Hx.
Qed.
End Sorted.

Lemma merge_sort_sorted {A} (l : list (Z * A)) :
  StronglySorted seq_le l -> NoDup l.*1 -> merge_sort seq_le l = l.
Proof.
  intros Hs Hd. apply (StronglySorted_unique_strong seq_le); [| |done|apply merge_sort_Permutation].
  - intros x y Hx Hy L1 L2. rewrite merge_sort_Permutation in Hx. apply (unique_key l); [done..|].
    unfold seq_le in *. lia.
  - apply Sorted_StronglySorted; [apply _|]. apply (Sorted_merge_sort seq_le).
Qed.

Lemma kept_only keep (l : list InventoryEntry) :
  base.filter (fun e => keep e = false) l = [] -> base.filter (fun e => keep e = true) l = l.
Proof.
  intros H. apply filter_all. intros e He. destruct (keep e) eqn:Ek; [done|].
  assert (e ∈ base.filter (fun e => keep e = false) l) as Hin by (by apply list_elem_of_filter).
  rewrite H in Hin. by apply not_elem_of_nil in Hin.
Qed.

(** ** What a prune leaves *)

Section Cut.
Context (keep : InventoryEntry -> bool) (recs : list indexedRecord).
Context (Hsorted : StronglySorted seq_le recs) (Hnodup : NoDup recs.*1).

Definition surviving : list indexedRecord := base.filter (fun r => keep (rj_entry r.2) = true) recs.
Definition rejected : list indexedRecord := base.filter (fun r => keep (rj_entry r.2) = false) recs.

(** The records left once [gone] has been removed. *)
Definition left_after (gone : list indexedRecord) : list indexedRecord :=
  base.filter (fun r => r.1 ∉ gone.*1) recs.

Lemma rejected_sorted : StronglySorted seq_le rejected /\ NoDup rejected.*1.
Proof.
  split; [by apply sorted_filter|]. eapply sublist_NoDup; [exact Hnodup|]. apply fmap_sublist, sublist_filter.
Qed.

Lemma left_after_cut front x gone :
  rejected = front ++ x :: gone ->
  left_after (x :: gone) =
  base.filter (fun r => r.1 < x.1) recs ++ base.filter (fun r => x.1 < r.1) surviving.
Proof.
  intros Hrej. destruct rejected_sorted as [Hs Hd].
  destruct (suffix_from _ _ _ _ Hs Hd Hrej) as [Hfront Hgone].
  unfold left_after. rewrite (sorted_split recs x.1 Hsorted) at 1. rewrite filter_app. f_equal.
  - apply filter_all. intros r [Hlt Hr]%list_elem_of_filter Hin.
    apply list_elem_of_fmap in Hin as (y & Ey & Hy). apply Hgone in Hy. lia.
  - unfold surviving. rewrite !list_filter_filter. apply filter_ext_elem. intros r Hr. split.
    + intros [Hnot Hge]. destruct (keep (rj_entry r.2)) eqn:Ek.
      * split; [|done]. destruct (decide (r.1 = x.1)) as [E|]; [|lia]. destruct Hnot. rewrite E. by left.
      * exfalso. assert (r ∈ rejected) as Hin by (by apply list_elem_of_filter).
        rewrite Hrej in Hin. apply elem_of_app in Hin as [Hin|Hin]; [apply Hfront in Hin; lia|].
        apply Hnot. by apply list_elem_of_fmap_2.
    + intros [Hlt Hk]. split; [|lia]. intros Hin. apply list_elem_of_fmap in Hin as (y & Ey & Hy).
      assert (y ∈ rejected) as Hyr by (rewrite Hrej; by apply elem_of_app; right).
      apply list_elem_of_filter in Hyr as [Hky Hyr]. assert (r = y) as -> by (by apply (unique_key recs)). congruence.
Qed.

(** What a batch takes from what is left. *)
Lemma left_after_batch batch gone :
  (forall r, r ∈ batch -> r ∈ recs /\ r.1 ∉ gone.*1) -> NoDup batch.*1 ->
  left_after gone ≡ₚ batch ++ left_after (batch ++ gone).
Proof.
  intros Hb Hd. assert (NoDup recs) as Hr by (by apply NoDup_fmap_1 with (f := fst)).
  apply NoDup_Permutation.
  - by apply NoDup_filter.
  - apply NoDup_app. split; [by apply NoDup_fmap_1 with (f := fst)|]. split; [|by apply NoDup_filter].
    intros r Hin [Hnot _]%list_elem_of_filter. apply Hnot. rewrite fmap_app. apply elem_of_app. left.
    by apply list_elem_of_fmap_2.
  - intros r. rewrite elem_of_app. unfold left_after. rewrite !list_elem_of_filter, fmap_app, elem_of_app. split.
    + intros [Hg Hin]. destruct (decide (r.1 ∈ batch.*1)) as [Hk|]; [left|right; naive_solver].
      apply list_elem_of_fmap in Hk as (y & Ey & Hy). assert (r = y) as -> by (apply (unique_key recs); naive_solver).
      done.
    + intros [Hin|]; [|naive_solver]. destruct (Hb _ Hin). done.
Qed.

Lemma bearers_of_batch batch gone s :
  (forall r, r ∈ batch -> r ∈ recs /\ r.1 ∉ gone.*1) -> NoDup batch.*1 ->
  bearers_of (left_after gone) s = bearers_of batch s + bearers_of (left_after (batch ++ gone)) s.
Proof.
  intros Hb Hd. unfold bearers_of. rewrite <- Nat2Z.inj_add, <- length_app, <- filter_app. f_equal.
  apply Permutation_length, filter_Permutation. by apply left_after_batch.
Qed.
End Cut.

Lemma left_after_nil recs : left_after recs [] = recs.
Proof. apply filter_all. intros. apply not_elem_of_nil. Qed.

Lemma bearers_of_cons r batch s :
  bearers_of (r :: batch) s = bearers_of batch s + (if bool_decide (s = rj_serial r.2) then 1 else 0).
Proof.
  unfold bearers_of. rewrite filter_cons. case_bool_decide; case_decide; subst; try done; cbn [length].
  - by rewrite Nat2Z.inj_succ, <- Z.add_1_r.
  - by rewrite Z.add_0_r.
Qed.

Lemma borne_listed l (m : gmap Z InventoryEntry) s :
  ordered m = map plain l ->
  borne m s <-> 0 < bearers_of l s.
Proof.
  intros Ho. unfold bearers_of. split.
  - intros (n & e & He & Hs). apply elem_of_ordered in He. rewrite Ho in He.
    apply list_elem_of_fmap in He as (r & [= -> ->] & Hr).
    assert (r ∈ base.filter (fun r => rj_serial r.2 = s) l) as Hin by (by apply list_elem_of_filter).
    destruct (base.filter _ _); [by apply not_elem_of_nil in Hin|simpl; lia].
  - intros H. destruct (base.filter _ _) as [|r l0] eqn:E; [simpl in H; lia|].
    assert (r ∈ base.filter (fun r => rj_serial r.2 = s) l) as [Hs Hin]%list_elem_of_filter
      by (rewrite E; by left).
    exists r.1, (rj_entry r.2). split; [|done]. apply elem_of_ordered. rewrite Ho.
    by apply (list_elem_of_fmap_2 plain).
Qed.

Lemma entriesOf_sorted (a : list indexedRecord) e :
  e ∈ entriesOf (merge_sort seq_le a) -> e ∈ entriesOf a.
Proof. unfold entriesOf. by rewrite (merge_sort_Permutation seq_le a). Qed.

(** ** The certnames' pointers *)

Lemma last_match_fmap {A B} (f : A -> B) (p : B -> bool) (l : list A) :
  last_match p (f <$> l) = f <$> last_match (fun x => p (f x)) l.
Proof. unfold last_match. by rewrite filter_fmap_list, fmap_last. Qed.

Definition names (subject : string) (r : indexedRecord) : bool := bool_decide (rj_subject r.2 = subject).

Lemma latest_of_plain s l :
  latest_of s (map plain l) = (fun r : indexedRecord => rj_serial r.2) <$> last_match (names s) l.
Proof.
  unfold latest_of. rewrite (last_match_fmap plain).
  change (fun x => bool_decide (ie_Subject (plain x).2 = s)) with (names s).
  by destruct (last_match (names s) l).
Qed.

(** ** The serials *)

Lemma spec_append_fresh m serials subjects c e :
  indexed m serials subjects c -> serials !! ie_Serial e = None ->
  spec_append e (ordered m).*2 = Some ((ordered m).*2 ++ [e]).
Proof.
  intros H Hf. unfold spec_append. destruct (existsb _ _) eqn:E; [exfalso|done].
  apply existsb_exists_elem in E as (e' & Hin & Hs). apply bool_decide_eq_true_1 in Hs.
  apply list_elem_of_fmap in Hin as ([n e0] & -> & Hin). apply elem_of_ordered in Hin.
  pose proof (ix_serial _ _ _ _ H (ie_Serial e)) as Hix. rewrite Hf in Hix. by eapply Hix.
Qed.

Lemma listed_serial m serials subjects c s :
  indexed m serials subjects c ->
  is_Some (serials !! s) <-> existsb (fun e => bool_decide (ie_Serial e = s)) (ordered m).*2 = true.
Proof.
  intros H. pose proof (ix_serial _ _ _ _ H s) as Hix. rewrite existsb_exists_elem. split.
  - intros [v E]. rewrite E in Hix. assert (borne m s) as (n & e & He & Hs).
    { destruct v; unfold borne; naive_solver. }
    exists e. rewrite bool_decide_eq_true. split; [|done]. apply elem_of_ordered in He.
    by apply (list_elem_of_fmap_2 snd) in He.
  - intros (e & He & Hs). apply bool_decide_eq_true_1 in Hs. apply list_elem_of_fmap in He as ([n e'] & -> & He).
    apply elem_of_ordered in He. destruct (serials !! s); [done|]. by destruct (Hix _ _ He).
Qed.

(** ** Batches *)

Lemma chunks_concat {A} size : forall fuel (l : list A),
  (0 < size)%nat -> (length l <= fuel)%nat -> concat (chunks fuel size l) = l.
Proof.
  induction fuel as [|fuel IH]; intros l Hs Hl; [by destruct l; simpl in Hl; [|lia]|].
  destruct l as [|x l]; [done|]. cbn [chunks concat]. rewrite IH; [apply take_drop|done|].
  rewrite length_drop. simpl in *. lia.
Qed.

Lemma chunks_size {A} size : forall fuel (l : list A),
  (0 < size)%nat -> Forall (fun c => c <> [] /\ (length c <= size)%nat) (chunks fuel size l).
Proof.
  induction fuel as [|fuel IH]; intros l Hs; [constructor|]. destruct l as [|x l]; [constructor|].
  cbn [chunks]. constructor; [|by apply IH]. split; [by destruct size; [lia|]|]. rewrite length_take. lia.
Qed.

Lemma chunks_take {A} size k : forall fuel (l : list A),
  (0 < size)%nat -> (length l <= fuel)%nat -> concat (take k (chunks fuel size l)) = take (size * k) l.
Proof.
  induction k as [|k IH]; intros fuel l Hs Hl; [by rewrite Nat.mul_0_r|].
  destruct fuel as [|fuel]; [destruct l; [by rewrite take_nil|simpl in Hl; lia]|].
  destruct l as [|x l]; [by rewrite take_nil|]. cbn [chunks take concat].
  rewrite IH; [|done|rewrite length_drop; simpl in *; lia].
  by rewrite take_take_drop, Nat.mul_succ_r, Nat.add_comm.
Qed.

Lemma chunks_length {A} size : forall fuel (l : list A),
  (0 < size)%nat -> (length l <= fuel)%nat ->
  length (chunks fuel size l) = ((length l + (size - 1)) / size)%nat.
Proof.
  intros fuel l Hs Hl.
  assert (length l <= size * length (chunks fuel size l))%nat as H1.
  { pose proof (chunks_take size (length (chunks fuel size l)) fuel l Hs Hl) as E.
    rewrite firstn_all, chunks_concat in E by done. apply (f_equal length) in E. rewrite length_take in E. lia. }
  assert (size * length (chunks fuel size l) < length l + size)%nat as H2.
  { clear H1. revert l Hl. induction fuel as [|fuel IH]; intros l Hl; [simpl; lia|].
    destruct l as [|x l]; [simpl; lia|]. cbn [chunks length].
    specialize (IH (drop size (x :: l))). rewrite length_drop in IH. cbn [length] in *.
    destruct (le_lt_dec size (S (length l))); [lia|]. rewrite drop_ge by (simpl; lia).
    assert (length (chunks fuel size ([] : list A)) = 0%nat) as -> by (by destruct fuel). lia. }
  apply (Nat.div_unique _ _ _ (length l + (size - 1) - size * length (chunks fuel size l))); lia.
Qed.

Lemma elem_of_rev {A} (x : A) l : x ∈ rev l <-> x ∈ l.
Proof. by rewrite !list_elem_of_In, <- in_rev. Qed.

Lemma rtc_eq {A} (R : relation A) x y : x = y -> rtc R x y.
Proof. intros ->. apply rtc_refl. Qed.

(** ** Writes of a list of keys *)

Definition hdel {K V} `{Countable K} (m : gmap K V) (k : K) : gmap K V := delete k m.
Definition hset {K V} `{Countable K} (m : gmap K V) (kv : K * V) : gmap K V := <[kv.1 := kv.2]> m.

Lemma hdel_fold {V} `{Countable A} (l : list A) (m : gmap A V) z :
  fold_left hdel l m !! z = if decide (z ∈ l) then None else m !! z.
Proof.
  revert m. induction l as [|x l IH]; intros m; [done|]. cbn [fold_left]. rewrite IH. unfold hdel.
  destruct (decide (z = x)) as [->|Hne].
  - rewrite lookup_delete_eq, (decide_True (P := x ∈ x :: l)) by (by left). by case_decide.
  - rewrite lookup_delete_ne by done. repeat case_decide; rewrite ?elem_of_cons in *; naive_solver.
Qed.

Lemma hset_fold {V} `{Countable A} (f : A -> option V) (l : list (A * V)) (m : gmap A V) z :
  (forall x v, (x, v) ∈ l -> f x = Some v) ->
  fold_left hset l m !! z = if decide (z ∈ l.*1) then f z else m !! z.
Proof.
  revert m. induction l as [|[x v] l IH]; intros m Hl; [done|]. cbn [fold_left]. rewrite IH by (intros; apply Hl; by right).
  unfold hset. cbn [fst snd fmap list_fmap]. destruct (decide (z = x)) as [->|Hne].
  - rewrite lookup_insert_eq, (decide_True (P := x ∈ x :: _)) by (by left).
    case_decide; [done|]. symmetry. apply Hl. by left.
  - rewrite lookup_insert_ne by done. repeat case_decide; rewrite ?elem_of_cons in *; naive_solver.
Qed.
