(* ===== verification/BulkImport.v ===== *)
(** * Import of a whole inventory

    What the etcd and the Redis backend share when they take an inventory from
    a text: which texts they accept, the tuples they write for its records, and
    what the tables hold once the first of them are written.  A serial on more
    than one record is marked as ambiguous. *)

From S2P Require Import Prelude GoStrings GoTime X509 Inventory Storage Records InventorySpec Numbered.

(** Both the blob interface's append and its replacement refuse a text with a
    malformed line or a serial twice. *)
Definition importable_text (data : string) : result (list CertRecord) :=
  match parseInventoryRecords data with
  | Err e => Err e
  | Ok recs => match rejectDuplicateSerials recs with Some e => Err e | None => Ok recs end
  end.

(** Whether a legacy text passes its integrity check, from the value stored
    for it and the key; without a value there is nothing to check. *)
Definition legacy_genuine (blob : string) (head0 key0 : option string) : bool :=
  match head0, key0 with
  | None, _ => true
  | Some _, None => false
  | Some stored, Some key =>
      (String.length key =? hmacKeyLen)%nat && bool_decide (wholeBlobInventoryMAC key blob = stored)
  end.

(** ** What is written for a record *)

Notation import_tuple := (Z * string * option Z * string * inventoryRecordJSON)%type.
Definition tuple_of (dups : list string) (n : Z) (rec : CertRecord) : import_tuple :=
  let serial := ie_Serial (cr_entry rec) in
  (n, serial, if bool_decide (serial ∈ dups) then None else Some n, ie_Subject (cr_entry rec),
   encodeInventoryRecord rec).
Fixpoint tuples_from (dups : list string) (n : Z) (recs : list CertRecord) : list import_tuple :=
  match recs with
  | [] => []
  | rec :: recs => tuple_of dups n rec :: tuples_from dups (n + 1) recs
  end.

(** The three tables: records by number, numbers by serial, serials by
    certname. *)
Notation tables := (gmap Z inventoryRecordJSON * gmap string (option Z) * gmap string string)%type.
Definition table_set (t : tables) (x : import_tuple) : tables :=
  let '(n, serial, value, subject, json) := x in
  let '(entries, serials, subjects) := t in
  (<[n := json]> entries, <[serial := value]> serials, <[subject := serial]> subjects).
Definition no_tables : tables := (∅, ∅, ∅).

(** ** Numbered lists *)

Definition number {A} (n : Z) (l : list A) : list (Z * A) := imap (fun i x => (n + Z.of_nat i, x)) l.

Lemma number_cons {A} n (x : A) l : number n (x :: l) = (n, x) :: number (n + 1) l.
Proof.
  unfold number. cbn [imap]. f_equal; [f_equal; lia|]. apply imap_ext. intros i y _. cbn. f_equal. lia.
Qed.

Lemma number_snoc {A} n (l : list A) x : number n (l ++ [x]) = number n l ++ [(n + Z.of_nat (length l), x)].
Proof. unfold number. rewrite imap_app. cbn. do 3 f_equal. lia. Qed.

Lemma number_snd {A} n (l : list A) : (number n l).*2 = l.
Proof. revert n. induction l as [|x l IH]; intros n; [done|]. rewrite number_cons, fmap_cons, IH. done. Qed.

Lemma number_fmap {A B} (f : A -> B) n l : number n (f <$> l) = prod_map id f <$> number n l.
Proof.
  revert n. induction l as [|x l IH]; intros n; [done|]. rewrite fmap_cons, !number_cons, fmap_cons, IH. done.
Qed.

Lemma number_in {A} n (l : list A) i x :
  (i, x) ∈ number n l <-> exists j, i = n + Z.of_nat j /\ l !! j = Some x.
Proof.
  unfold number. rewrite elem_of_lookup_imap. split.
  - intros (j & y & [= -> ->] & H). by exists j.
  - intros (j & -> & H). by exists j, x.
Qed.

Lemma tuples_snoc dups n l rec :
  tuples_from dups n (l ++ [rec]) = tuples_from dups n l ++ [tuple_of dups (n + Z.of_nat (length l)) rec].
Proof.
  revert n. induction l as [|x l IH]; intros n; cbn [tuples_from app length].
  { by rewrite Z.add_0_r. }
  rewrite IH. replace (n + 1 + Z.of_nat (length l)) with (n + Z.of_nat (S (length l))) by lia. done.
Qed.

Lemma tuples_app dups n l l' :
  tuples_from dups n (l ++ l') = tuples_from dups n l ++ tuples_from dups (n + Z.of_nat (length l)) l'.
Proof.
  revert n. induction l as [|x l IH]; intros n; cbn [tuples_from app length].
  { by rewrite Z.add_0_r. }
  rewrite IH. replace (n + 1 + Z.of_nat (length l)) with (n + Z.of_nat (S (length l))) by lia. done.
Qed.

Lemma unrepeated l : forall seen,
  duplicate_after seen l = None ->
  NoDup (map (fun r => ie_Serial (cr_entry r)) l) /\ forall r, r ∈ l -> ie_Serial (cr_entry r) ∉ seen.
Proof.
  induction l as [|rec l IH]; intros seen H; [split; [constructor|by intros ? ?%not_elem_of_nil]|].
  cbn [duplicate_after] in H. case_bool_decide as Hs; [done|]. destruct (IH _ H) as [Hd Hn]. split.
  - cbn [map]. constructor; [|done]. intros (r & E & Hr)%list_elem_of_fmap. apply (Hn r Hr). rewrite <- E. by left.
  - intros r [->|Hr]%elem_of_cons; [done|]. intros Hin. apply (Hn r Hr). by right.
Qed.

Lemma prefix_numbered n l l' :
  take (length l) l' = l ->
  records_prefix n (prod_map id encodeInventoryRecord <$> number n l) l' = true.
Proof.
  revert n l'. induction l as [|rec l IH]; intros n l' Hl; [done|]. destruct l' as [|rec' l']; [done|].
  cbn [length take] in Hl. injection Hl as -> Hl. rewrite number_cons, fmap_cons. cbn [prod_map records_prefix id].
  rewrite Z.eqb_refl, bool_decide_eq_true_2 by done. cbn [andb]. by apply IH.
Qed.

Section Batches.
Context (recs : list CertRecord).
Notation dups := (duplicateSerials recs).

(** The tables once the first [n] records are written. *)
Definition import_tables (n : nat) : tables :=
  fold_left table_set (tuples_from dups 1 (take n recs)) no_tables.

Definition bears (z : string) (x : Z * CertRecord) : bool := bool_decide (ie_Serial (cr_entry x.2) = z).
Definition is_subject (z : string) (x : Z * CertRecord) : bool := bool_decide (ie_Subject (cr_entry x.2) = z).

Lemma import_lookup l :
  let '(entries, serials, subjects) := fold_left table_set (tuples_from dups 1 l) no_tables in
  ordered entries = prod_map id encodeInventoryRecord <$> number 1 l /\
  (forall z, serials !! z = (fun x => if bool_decide (z ∈ dups) then None else Some x.1) <$> last_match (bears z) (number 1 l)) /\
  (forall z, subjects !! z = (fun x => ie_Serial (cr_entry x.2)) <$> last_match (is_subject z) (number 1 l)).
Proof.
  induction l as [|rec l IH] using rev_ind; [done|].
  rewrite tuples_snoc, fold_left_app. cbn [fold_left].
  destruct (fold_left table_set _ no_tables) as [[entries serials] subjects]. destruct IH as (He & Hs & Hj).
  rewrite number_snoc. unfold tuple_of, table_set. split; [|split].
  - rewrite ordered_snoc, He, fmap_app; [done|].
    intros n json Hn%elem_of_ordered. rewrite He in Hn.
    apply list_elem_of_fmap in Hn as ([n' x] & [= -> ->] & (j & -> & Hj')%number_in).
    apply lookup_lt_Some in Hj'. lia.
  - intros z. rewrite last_match_app.
    unfold last_match at 1. rewrite filter_cons, filter_nil.
    destruct (decide (ie_Serial (cr_entry rec) = z)) as [E|Hne].
    + rewrite E, lookup_insert_eq, decide_True; [done|]. by apply bool_decide_eq_true_2.
    + rewrite lookup_insert_ne, Hs, decide_False by (done || by intros ?%bool_decide_eq_true_1). done.
  - intros z. rewrite last_match_app.
    unfold last_match at 1. rewrite filter_cons, filter_nil.
    destruct (decide (ie_Subject (cr_entry rec) = z)) as [E|Hne].
    + rewrite E, lookup_insert_eq, decide_True; [done|]. by apply bool_decide_eq_true_2.
    + rewrite lookup_insert_ne, Hj, decide_False by (done || by intros ?%bool_decide_eq_true_1). done.
Qed.

Lemma not_duplicate z i j x y :
  z ∉ dups -> recs !! i = Some x -> recs !! j = Some y ->
  ie_Serial (cr_entry x) = z -> ie_Serial (cr_entry y) = z -> i = j.
Proof.
  intros Hz Hi Hj Ex Ey. destruct (decide (i = j)) as [|Hne]; [done|]. exfalso. apply Hz.
  unfold duplicateSerials. rewrite elem_of_rev, elem_of_remove_dups, elem_of_rev, list_elem_of_filter.
  set (serials := map _ recs).
  assert (forall k w, recs !! k = Some w -> serials !! k = Some (ie_Serial (cr_entry w))) as Hk
    by (intros k w Hw; unfold serials; by rewrite list_lookup_fmap, Hw).
  pose proof (Hk _ _ Hi) as Si. pose proof (Hk _ _ Hj) as Sj. rewrite Ex in Si. rewrite Ey in Sj.
  split; [|by eapply list_elem_of_lookup_2].
  assert (forall (l : list string) i j, (i < j)%nat -> l !! i = Some z -> l !! j = Some z ->
    (1 < length (base.filter (fun s' => s' = z) l))%nat) as Hgen.
  { clear. induction l as [|a l IH]; intros i j Hlt Hi Hj; [done|]. destruct j as [|j]; [lia|]. cbn in Hj.
    rewrite filter_cons. destruct i as [|i]; cbn in Hi.
    - injection Hi as ->. rewrite decide_True by done. cbn [length].
      assert (z ∈ base.filter (fun s' => s' = z) l) as Hin by (apply list_elem_of_filter; split; [done|by eapply list_elem_of_lookup_2]).
      destruct (base.filter _ l); [by apply not_elem_of_nil in Hin|cbn; lia].
    - specialize (IH i j ltac:(lia) Hi Hj). case_decide; cbn [length]; lia. }
  destruct (Nat.lt_gt_cases i j) as [Hc _]. destruct (Hc Hne); [by eapply (Hgen _ i j)|by eapply (Hgen _ j i)].
Qed.

Definition listed_entries (t : tables) : gmap Z InventoryEntry := rj_entry <$> t.1.1.

Lemma import_ordered n : ordered (listed_entries (import_tables n)) = number 1 (map cr_entry (take n recs)).
Proof.
  unfold listed_entries, import_tables. pose proof (import_lookup (take n recs)) as H.
  destruct (fold_left _ _ _) as [[entries serials] subjects]. destruct H as (He & _). cbn [fst].
  rewrite ordered_fmap, He. change (map cr_entry (take n recs)) with (cr_entry <$> take n recs).
  rewrite number_fmap, <- list_fmap_compose. apply list_fmap_ext. by intros ? [].
Qed.

Lemma import_view n : (ordered (listed_entries (import_tables n))).*2 = map cr_entry (take n recs).
Proof. by rewrite import_ordered, number_snd. Qed.

Lemma imported_entry n i e :
  listed_entries (import_tables n) !! i = Some e ->
  exists j rec, i = 1 + Z.of_nat j /\ (j < n)%nat /\ recs !! j = Some rec /\ e = cr_entry rec.
Proof.
  intros He%elem_of_ordered. rewrite import_ordered in He.
  apply number_in in He as (j & -> & Hj). rewrite list_lookup_fmap in Hj.
  destruct (take n recs !! j) as [rec|] eqn:E; [|done]. injection Hj as <-.
  apply lookup_take_Some in E as [E Hlt]. by exists j, rec.
Qed.

(** The indices of an import are exact. *)
Lemma import_indexed n :
  indexed (listed_entries (import_tables n)) (import_tables n).1.2 (import_tables n).2 (Some (Z.of_nat n)).
Proof.
  assert ((forall z, (import_tables n).1.2 !! z = (fun x => if bool_decide (z ∈ dups) then None else Some x.1) <$>
             last_match (bears z) (number 1 (take n recs))) /\
    forall z, (import_tables n).2 !! z = (fun x => ie_Serial (cr_entry x.2)) <$> last_match (is_subject z) (number 1 (take n recs)))
    as [Hs Hj].
  { unfold import_tables. pose proof (import_lookup (take n recs)) as H.
    destruct (fold_left _ _ _) as [[entries serials] subjects]. tauto. }
  pose proof (import_ordered n) as Ho.
  assert (forall z x, last_match (bears z) (number 1 (take n recs)) = Some x ->
    listed_entries (import_tables n) !! x.1 = Some (cr_entry x.2) /\ ie_Serial (cr_entry x.2) = z) as Hlast.
  { intros z [i rec] [Hin Hz]%last_match_Some. apply bool_decide_eq_true_1 in Hz. split; [|done].
    apply elem_of_ordered. rewrite Ho. change (map cr_entry (take n recs)) with (cr_entry <$> take n recs).
    rewrite number_fmap. apply list_elem_of_fmap. by exists (i, rec). }
  split.
  - intros i e (j & rec & -> & Hlt & _)%imported_entry. exists (Z.of_nat n). split; [done|lia].
  - intros z. rewrite Hs. destruct (last_match (bears z) _) as [x|] eqn:E; cbn [fmap option_fmap option_map].
    + destruct (Hlast z x E) as [Hx Hz]. case_bool_decide as Hd; [by exists x.1, (cr_entry x.2)|].
      split; [by exists (cr_entry x.2)|]. intros i e Hi Hei.
      apply imported_entry in Hi as (j & r1 & -> & _ & H1 & ->). apply imported_entry in Hx as (j' & r2 & -> & _ & H2 & E2).
      rewrite E2 in Hz. by rewrite (not_duplicate z j j' r1 r2).
    + intros i e Hi Hei. apply elem_of_ordered in Hi. rewrite Ho in Hi.
      change (map cr_entry (take n recs)) with (cr_entry <$> take n recs) in Hi.
      rewrite number_fmap in Hi. apply list_elem_of_fmap in Hi as ([i' rec] & [= -> ->] & Hin).
      unfold last_match in E. apply last_None in E.
      assert ((i', rec) ∈ base.filter (fun x => bears z x = true) (number 1 (take n recs))) as Hf.
      { apply list_elem_of_filter. split; [|done]. by apply bool_decide_eq_true_2. }
      rewrite E in Hf. by apply not_elem_of_nil in Hf.
  - intros z. rewrite Hj, Ho. unfold latest_of. change (map cr_entry (take n recs)) with (cr_entry <$> take n recs).
    rewrite number_fmap, last_match_fmap. unfold is_subject. cbn. by destruct (last_match _ _).
Qed.

(** The records that have been written are the first of the text. *)
Lemma import_prefix n :
  (n <= length recs)%nat -> recordsArePrefixOf (ordered (import_tables n).1.1) recs = true.
Proof.
  intros Hn. unfold import_tables. pose proof (import_lookup (take n recs)) as H.
  destruct (fold_left _ _ _) as [[entries serials] subjects]. destruct H as (He & _). cbn [fst]. rewrite He.
  apply prefix_numbered. by rewrite length_take, Nat.min_l by done.
Qed.

(** A batch after the first [n] records. *)
Lemma import_batch n batch :
  take (n + length batch) recs = take n recs ++ batch -> (n <= length recs)%nat ->
  import_tables (n + length batch) = fold_left table_set (tuples_from dups (Z.of_nat n + 1) batch) (import_tables n).
Proof.
  intros Ht Hn. unfold import_tables. rewrite Ht, tuples_app, fold_left_app, length_take, Nat.min_l by done.
  by replace (1 + Z.of_nat n) with (Z.of_nat n + 1) by lia.
Qed.
End Batches.
