(* ===== verification/Migrate.v ===== *)
(** * Migrate: moving a CA from one store to another

    Models internal/storage/migrate.go.  A migration reads one store and writes
    another, so its state is a pair of stores; the operations of each act on
    their own half.  The two locks it holds are the ones start-up takes, and are
    actions that may fail. *)

From S2P Require Import Prelude GoStrings GoTime Sha256 X509 Inventory Storage InventorySpec.
From Stdlib Require Import Ascii.

(** ** State *)

Record Stores := mkStores { mg_src : Store; mg_dst : Store }.

Notation MM := (M Stores).

Definition on_src {A} (m : MS A) : MM A := fun p =>
  let '(r, s) := m (mg_src p) in (r, mkStores s (mg_dst p)).
Definition on_dst {A} (m : MS A) : MM A := fun p =>
  let '(r, s) := m (mg_dst p) in (r, mkStores (mg_src p) s).

Record migratableSingleton := mkSingleton { ms_Key : string; ms_Kind : BlobKind }.

Definition migratableSingletons : list migratableSingleton :=
  [ mkSingleton KeyCACert BlobPublic; mkSingleton KeyCAPubKey BlobPublic;
    mkSingleton KeyCAKey BlobPrivate; mkSingleton KeyCRL BlobPublic;
    mkSingleton KeySerial BlobPublic; mkSingleton KeyInventory BlobPrivate;
    mkSingleton KeyInventoryHMAC BlobPrivate; mkSingleton KeyHMACKey BlobPrivate;
    mkSingleton KeySuperseded BlobPrivate ].

Record MigrateOptions := mkMigrateOptions { Force : bool; AllowUnverifiedSource : bool }.

Record MigrateReport := mkMigrateReport {
  mr_Singletons : nat;
  mr_CSRs : nat;
  mr_Certs : nat;
  UnverifiedSource : string }.

Definition MigrateReport_Total (r : MigrateReport) : nat := (mr_Singletons r + mr_CSRs r + mr_Certs r)%nat.

Definition migrateLockName : string := "bootstrap".

(** ** Conversion of the inventory *)

(** Rewrite the lines that are not blank; each ends with a newline. *)
Definition rewrite_lines (f : string -> string) (data : string) : string :=
  str_concat (map (fun line => f line +:+ nl)
    (base.filter (fun line => is_blank line = false) (SplitLines data))).

Definition canonicaliseBlobInventory (data : string) : string :=
  rewrite_lines (fun line =>
    match parseBlobInventoryEntry line with
    | Some e => canonicalInventoryLine e
    | None => line
    end) data.

Definition openVoxBlobInventory (data : string) : string :=
  rewrite_lines (fun line =>
    match parseInventoryEntry line with
    | Some e => openVoxInventoryLine e line
    | None => line
    end) data.

(** ** Copying *)

(** The inventory is the one blob that is converted, when one end keeps it as
    records and the other as text. *)
Definition convert_blob (srcStructured dstStructured : bool) (key : string) (data : blob) : blob :=
  let data :=
    if bool_decide (key = KeyInventory) && negb srcStructured && dstStructured
    then BText (canonicaliseBlobInventory (blob_text data)) else data in
  if bool_decide (key = KeyInventory) && srcStructured && negb dstStructured
  then BText (openVoxBlobInventory (blob_text data)) else data.

(** [copyKey]: a key absent from the source is skipped. *)
Definition copyKey (srcStructured dstStructured : bool) (key : string) (kind : BlobKind) : MM bool :=
  r ← try (on_src (backend (be_Get key)));
  match r with
  | Err e =>
      if errors_Is e FsErrNotExist then mret false
      else fail (Wrap ("reading " +:+ key +:+ " from source") [e])
  | Ok data =>
      _ ← wrapping ("writing " +:+ key +:+ " to destination")
            (on_dst (backend (be_Put key (convert_blob srcStructured dstStructured key data))));
      mret true
  end.

(** One of the copy loops: how many keys it copied, and what stopped it. *)
Fixpoint copy_all (copy : string * BlobKind -> MM bool) (keys : list (string * BlobKind))
    : MM (nat * option error) :=
  match keys with
  | [] => mret (O, None)
  | k :: keys =>
      r ← try (copy k);
      match r with
      | Err e => mret (O, Some e)
      | Ok copied =>
          '(n, err) ← copy_all copy keys;
          mret (if (copied : bool) then S n else n, err)
      end
  end.

(** The loop over the keys listed under a prefix. *)
Definition copy_listed (copy : string * BlobKind -> MM bool) (what prefix : string)
    : MM (nat * option error) :=
  r ← try (on_src (backend (be_List prefix)));
  match r with
  | Err e => mret (O, Some (Wrap ("listing " +:+ what +:+ " in source") [e]))
  | Ok keys => copy_all copy (map (fun k => (k, BlobPublic)) keys)
  end.

(** The three loops.  The report counts what was copied also when one of them
    stops early. *)
Definition copy_everything (srcStructured dstStructured : bool) : MM (MigrateReport * option error) :=
  let copy := fun k => copyKey srcStructured dstStructured k.1 k.2 in
  '(ns, err) ← copy_all copy (map (fun s => (ms_Key s, ms_Kind s)) migratableSingletons);
  match err with
  | Some e => mret (mkMigrateReport ns O O "", Some e)
  | None =>
      '(nr, err) ← copy_listed copy "CSRs" csrPrefix;
      match err with
      | Some e => mret (mkMigrateReport ns nr O "", Some e)
      | None =>
          '(nc, err) ← copy_listed copy "signed certificates" certPrefix;
          mret (mkMigrateReport ns nr nc "", err)
      end
  end.

(** The guard of [Migrate]: the destination can be prepared and, unless forced,
    holds no CA certificate. *)
Definition destination_free (opts : MigrateOptions) : MM unit :=
  _ ← on_dst (external (Wrap "preparing destination" [io_error]));
  if Force opts then mret tt
  else
    exists_ ← wrapping "checking destination for existing CA"
                (on_dst (backend (be_Exists KeyCACert)));
    if (exists_ : bool) then fail (Sentinel ErrDestinationNotEmpty) else mret tt.

Definition empty_report : MigrateReport := mkMigrateReport O O O "".

Definition Migrate (opts : MigrateOptions) : MM (MigrateReport * option error) :=
  g ← try (destination_free opts);
  match g with
  | Err e => mret (empty_report, Some e)
  | Ok _ =>
      srcStructured ← on_src is_structured;
      dstStructured ← on_dst is_structured;
      copy_everything srcStructured dstStructured
  end.

(** ** Verifying the source *)

(** The judgement over the report: let through with nothing to say, let through
    with a reason to show, or refused unless the operator allows it. *)
Inductive source_verdict := SourceVerified | SourceNeverRecorded (why : string) | SourceUnverified (why : string).

Definition judge_source (rep : InventoryIntegrityReport) : source_verdict :=
  if rep_LegacyUndecomposed rep then
    SourceUnverified ("the source still holds an undecomposed legacy inventory, which is verified only when a server starts against it")
  else
    match rep_KeyState rep, rep_StoredHead rep with
    | HMACKeyAbsent, None =>
        SourceNeverRecorded "the source never recorded an inventory integrity value (no HMAC key and no value are stored), so there was nothing to verify it against"
    | HMACKeyAbsent, _ => SourceUnverified "an inventory integrity value is stored but no HMAC key, so nothing can reproduce it"
    | HMACKeyWrongLength, _ => SourceUnverified "the stored inventory HMAC key is the wrong length, so no stored value can be reproduced"
    | _, None => SourceUnverified "no inventory integrity value is stored, although an HMAC key is"
    | _, Some _ =>
        if rep_Verifies rep then SourceVerified
        else SourceUnverified ("the inventory does not match its stored integrity value (scheme " +:+ rep_Scheme rep +:+ "), so it may have been altered")
    end.

Definition verifyMigrationSource (allow : bool) : MS string :=
  rep ← wrapping "checking the source inventory's integrity" integrity_report;
  match judge_source rep with
  | SourceVerified => mret ""
  | SourceNeverRecorded reason => mret reason
  | SourceUnverified reason =>
      if allow then mret reason else fail (Wrap reason [Sentinel ErrSourceUnverified])
  end.

(** Locks and the check of the source, before anything is copied. *)
Definition admit_source (opts : MigrateOptions) : MM string :=
  _ ← on_src (WithLock migrateLockName (mret tt));
  unverified ← on_src (verifyMigrationSource (AllowUnverifiedSource opts));
  _ ← on_dst (WithLock migrateLockName (mret tt));
  mret unverified.

(** The whole migration: verify the source under its lock, then copy under the
    destination's lock and recompute the destination's integrity value. *)
Definition MigrateService (opts : MigrateOptions) : MM (MigrateReport * option error) :=
  v ← try (admit_source opts);
  match v with
  | Err e => mret (empty_report, Some e)
  | Ok unverified =>
      '(r, err) ← Migrate opts;
      let report := mkMigrateReport (mr_Singletons r) (mr_CSRs r) (mr_Certs r) unverified in
      match err with
      | Some e => mret (report, Some e)
      | None =>
          h ← try (on_dst RebuildInventoryHMAC);
          match h with Ok _ => mret (report, None) | Err e => mret (report, Some e) end
      end
  end.

(** ** Lemmas: lines that survive conversion *)

(** White-space-separated words, as the parser joins them. *)
Definition phrase (s : string) : Prop :=
  exists w ws, Forall wf_field (w :: ws) /\ s = Join " " (w :: ws).

Lemma fields_aux_wf cur s : nospace cur = true -> Forall wf_field (fields_aux cur s).
Proof.
  revert cur. induction s as [|c s IH]; intros cur Hc; simpl.
  - case_bool_decide; repeat constructor; auto.
  - destruct (isSpace c) eqn:E.
    + case_bool_decide; [by apply IH|]. constructor; [done|by apply IH].
    + apply IH. rewrite nospace_app, Hc. unfold nospace. simpl. by rewrite E.
Qed.

Lemma Fields_wf s : Forall wf_field (Fields s).
Proof. by apply fields_aux_wf. Qed.

Lemma Fields_Join w ws : Forall wf_field (w :: ws) -> Fields (Join " " (w :: ws)) = w :: ws.
Proof.
  revert w. induction ws as [|v ws IH]; intros w [[? ?] Hws]%Forall_cons.
  - by apply Fields_one.
  - change (Join " " (w :: v :: ws)) with (w +:+ String " " (Join " " (v :: ws))).
    rewrite Fields_cons by done. by rewrite IH.
Qed.

Lemma phrase_no_newline s : phrase s -> no_newline s = true.
Proof.
  intros (w & ws & H & ->). revert w H. induction ws as [|v ws IH]; intros w [[_ Hw] Hws]%Forall_cons.
  - by apply nospace_no_newline.
  - change (Join " " (w :: v :: ws)) with (w +:+ String " " (Join " " (v :: ws))).
    rewrite no_newline_app, nospace_no_newline by done. by apply IH.
Qed.

(** The fields of an entry some line parsed to. *)
Record line_entry (e : InventoryEntry) : Prop := {
  le_serial : wf_field (ie_Serial e);
  le_notBefore : wf_field (ie_NotBefore e);
  le_notAfter : wf_field (ie_NotAfter e);
  le_subject : phrase ("/" +:+ ie_Subject e) }.

Lemma line_entry_parse line e : parseInventoryEntry line = Some e -> line_entry e.
Proof.
  unfold parseInventoryEntry. pose proof (Fields_wf line) as H.
  destruct (Fields line) as [|s [|nb [|na [|w ws]]]]; try done. intros [= <-].
  rewrite !Forall_cons in H. destruct H as (? & ? & ? & Hw & Hws).
  split; try done. simpl. unfold TrimPrefix.
  destruct w as [|c w]; [by destruct Hw|]. destruct (Ascii.eqb "/" c) eqn:E.
  - apply Ascii.eqb_eq in E as <-. exists (String "/" w), ws. split; [by constructor|].
    by destruct ws.
  - exists (String "/" (String c w)), ws. split; [|].
    + constructor; [|done]. split; [done|]. by destruct Hw.
    + destruct ws; cbn [Join String.append CutPrefix]; by rewrite E.
Qed.

Lemma canonical_reparse e : line_entry e -> parseInventoryEntry (canonicalInventoryLine e) = Some e.
Proof.
  destruct e as [s nb na sub]. intros [[? ?] [? ?] [? ?] (w & ws & Hw & E)].
  unfold parseInventoryEntry, canonicalInventoryLine.
  cbn [ie_Serial ie_NotBefore ie_NotAfter ie_Subject String.append] in *.
  change (" /" +:+ sub) with (String " " (String "/" sub)).
  rewrite E.
  cbn [String.append]. do 3 rewrite Fields_cons by done. rewrite Fields_Join by done.
  by rewrite <- E.
Qed.

Lemma line_entry_no_newline e : line_entry e -> no_newline (canonicalInventoryLine e) = true.
Proof.
  intros [[_ ?] [_ ?] [_ ?] Hp%phrase_no_newline]. unfold canonicalInventoryLine.
  rewrite no_newline_app in Hp. apply andb_true_iff in Hp as [_ Hp].
  by rewrite !no_newline_app, Hp, (nospace_no_newline (ie_Serial e)),
    (nospace_no_newline (ie_NotBefore e)), (nospace_no_newline (ie_NotAfter e)).
Qed.

Lemma phrase_plain s : phrase s -> any_byte (Ascii.eqb " ") s = false -> wf_field s.
Proof.
  intros (w & [|v ws] & H & ->) Hs; [by apply Forall_cons in H as [? _]|].
  exfalso. change (Join " " (w :: v :: ws)) with (w +:+ String " " (Join " " (v :: ws))) in Hs.
  revert Hs. clear. induction w as [|c w IH]; cbn [String.append any_byte]; [done|].
  by intros [_ ?]%orb_false_iff.
Qed.

Lemma blob_line_entry line e : parseBlobInventoryEntry line = Some e -> line_entry e.
Proof.
  unfold parseBlobInventoryEntry. destruct (parseInventoryEntry line) as [e0|] eqn:P; [|done].
  intros [= <-]. apply line_entry_parse in P as [Hs Hb Ha Hp]. split; try done; simpl.
  - unfold inventorySerial. destruct (NormaliseSerial _) as [n|] eqn:N; [|done].
    apply NormaliseSerial_value in N as (k & Hk & ->). by apply wf_field_hexX.
  - unfold inventorySubject. destruct (CutPrefix (ie_Subject e0) "CN=") as [cn|] eqn:C; [|done].
    destruct (negb _ && negb _) eqn:B; [|done]. apply andb_true_iff in B as [_ B].
    apply negb_true_iff in B. apply CutPrefix_Some in C. rewrite C in Hp.
    assert (any_byte (Ascii.eqb " ") cn = false) as Hc by by eapply ContainsAny_char.
    apply phrase_plain in Hp as [_ Hn]; [|done].
    exists ("/" +:+ cn), []. split; [|done]. repeat constructor; [done|].
    rewrite !nospace_app in Hn |- *. by bool_hyps.
Qed.

Lemma wf_line_entry e : wf_entry e -> line_entry e.
Proof.
  intros [(n & Hn & E) ? ? (? & Hs & _)]. split; try done.
  - rewrite E. by apply wf_field_hexX.
  - exists ("/" +:+ ie_Subject e), []. split; [|done]. by repeat constructor.
Qed.

(** ** Lemmas: texts made of complete lines *)

Lemma split_lines_no_newline data cur :
  no_newline cur = true -> Forall (fun l => no_newline l = true) (split_lines_aux cur data).
Proof.
  revert cur. induction data as [|c data IH]; intros cur Hc; simpl; [by repeat constructor|].
  destruct (Ascii.eqb_spec c newline) as [->|Hn]; [constructor; [done|by apply IH]|].
  apply IH. rewrite no_newline_app, Hc. unfold no_newline. simpl.
  by destruct (Ascii.eqb_spec c newline).
Qed.

Lemma SplitLines_concat ls :
  Forall (fun l => no_newline l = true) ls ->
  SplitLines (str_concat (map (fun l => l +:+ nl) ls)) = ls ++ [""].
Proof.
  unfold SplitLines. induction 1 as [|l ls Hl _ IH]; [done|].
  cbn [map str_concat foldr]. rewrite str_app_assoc.
  change (nl +:+ ?x) with (String newline x).
  rewrite split_lines_aux_newline, split_lines_aux_one by done. simpl. by f_equal.
Qed.

Lemma insert_lines_entries lines l l' :
  insertInventoryLines lines l = Ok l' ->
  map cr_entry l' = map cr_entry l ++ omap parseInventoryEntry lines.
Proof.
  revert l. induction lines as [|line lines IH]; intros l; simpl.
  - intros [= <-]. by rewrite app_nil_r.
  - destruct (is_blank line) eqn:B; [intros H; rewrite (blank_no_entry _ B); by apply IH|].
    destruct (parseInventoryEntry line) as [e|]; [|done]. unfold insert_row.
    destruct (has_serial _ _); [done|]. intros H%IH. rewrite H, map_app, <- app_assoc. done.
Qed.

Lemma rewrite_split f data :
  Forall (fun l => no_newline (f l) = true) (base.filter (fun l => is_blank l = false) (SplitLines data)) ->
  SplitLines (rewrite_lines f data) =
    map f (base.filter (fun l => is_blank l = false) (SplitLines data)) ++ [""].
Proof.
  intros H. unfold rewrite_lines. rewrite <- (map_map f (fun l => l +:+ nl)).
  apply SplitLines_concat. by apply Forall_map.
Qed.

(** Blank lines hold no entry. *)
Lemma omap_not_blank {A} (g : string -> option A) (ls : list string) :
  (forall l, is_blank l = true -> g l = None) ->
  omap g (base.filter (fun l => is_blank l = false) ls) = omap g ls.
Proof.
  intros Hg. induction ls as [|l ls IH]; [done|]. rewrite filter_cons. cbn [omap list_omap].
  destruct (decide _) as [Hb|Hb]; cbn [omap list_omap]; rewrite IH; [done|].
  rewrite (Hg l); [done|]. by destruct (is_blank l).
Qed.

Lemma Forall_not_blank (P : string -> Prop) ls :
  Forall P ls -> Forall P (base.filter (fun l => is_blank l = false) ls).
Proof. rewrite !Forall_forall. intros H l [_ Hl]%list_elem_of_filter. by apply H. Qed.

Lemma blank_no_blob_entry l : is_blank l = true -> parseBlobInventoryEntry l = None.
Proof. intros H. unfold parseBlobInventoryEntry. by rewrite blank_no_entry. Qed.

(** Rewriting line by line with something that parses to the same entry. *)
Lemma rewritten_entries {A} (g h : string -> option A) f data :
  (forall l, is_blank l = true -> g l = None) -> h "" = None ->
  Forall (fun l => no_newline (f l) = true /\ h (f l) = g l)
    (base.filter (fun l => is_blank l = false) (SplitLines data)) ->
  omap h (SplitLines (rewrite_lines f data)) = omap g (SplitLines data).
Proof.
  intros Hg Hh H. rewrite rewrite_split by (eapply Forall_impl; [exact H|by intros ? []]).
  rewrite <- (omap_not_blank g (SplitLines data)) by done.
  rewrite omap_app. cbn [omap list_omap]. rewrite Hh, app_nil_r.
  induction H as [|l ls [_ Hl] _ IH]; [done|]. cbn [map omap list_omap]. by rewrite Hl, IH.
Qed.

Lemma canonicalise_entries data :
  omap parseInventoryEntry (SplitLines (canonicaliseBlobInventory data)) = parseInventoryBlob data.
Proof.
  unfold parseInventoryBlob, parseInventoryBlobCounting. rewrite parse_lines_omap.
  apply rewritten_entries; [apply blank_no_blob_entry|done|].
  apply Forall_not_blank, (Forall_impl _ _ _ (split_lines_no_newline data "" eq_refl)).
  intros l Hl. destruct (parseBlobInventoryEntry l) as [e|] eqn:E.
  - apply blob_line_entry in E. by rewrite canonical_reparse, line_entry_no_newline.
  - split; [done|]. unfold parseBlobInventoryEntry in E. by destruct (parseInventoryEntry l).
Qed.

Lemma render_lines l :
  Forall line_entry (map cr_entry l) ->
  SplitLines (render_rows l) = map canonicalInventoryLine (map cr_entry l) ++ [""].
Proof.
  intros H. rewrite <- SplitLines_concat.
  - f_equal. induction l as [|r l IH]; [done|]. simpl. apply Forall_cons in H as [_ H].
    rewrite (IH H), str_app_assoc. done.
  - rewrite Forall_map. eapply Forall_impl; [exact H|]. apply line_entry_no_newline.
Qed.

Lemma omap_canonical es :
  Forall line_entry es -> omap parseInventoryEntry (map canonicalInventoryLine es ++ [""]) = es.
Proof.
  induction 1 as [|e es He _ IH]; [done|]. cbn [map app omap list_omap].
  by rewrite canonical_reparse, IH.
Qed.

Lemma render_entries l :
  Forall line_entry (map cr_entry l) ->
  omap parseInventoryEntry (SplitLines (render_rows l)) = map cr_entry l.
Proof. intros H. rewrite render_lines by done. by apply omap_canonical. Qed.

Lemma openVox_entries l :
  Forall wf_entry (map cr_entry l) ->
  parseInventoryBlob (openVoxBlobInventory (render_rows l)) = map cr_entry l.
Proof.
  intros H. assert (Forall line_entry (map cr_entry l)) as Hl
    by (eapply Forall_impl; [exact H|apply wf_line_entry]).
  rewrite <- (render_entries l) by done.
  unfold parseInventoryBlob, parseInventoryBlobCounting. rewrite parse_lines_omap.
  apply rewritten_entries; [apply blank_no_entry|done|]. apply Forall_not_blank.
  rewrite render_lines by done. apply Forall_app. split; [|by repeat constructor].
  rewrite Forall_map. eapply Forall_impl; [exact H|].
  intros e He. rewrite canonical_reparse by by apply wf_line_entry.
  by rewrite openVox_line_parse, openVox_line_no_newline.
Qed.

(** ** Lemmas: what copying one key does *)

(** The keys a migration copies. *)
Definition migratable (k : string) : bool :=
  existsb (fun s => bool_decide (ms_Key s = k)) migratableSingletons
  || HasPrefix k csrPrefix || HasPrefix k certPrefix.

(** A structured source holds entries as issuance writes them. *)
Definition sound_source (b : Backend) : Prop :=
  structured b = true -> Forall wf_entry (map cr_entry (rows b)).

(** The destination holds what the source [b] holds under [k]; for the
    inventory, the same entries. *)
Definition arrived (b : Backend) (k : string) (d : Backend) : Prop :=
  is_Some (blobs b !! k) ->
  if bool_decide (k = KeyInventory)
  then is_Some (blobs d !! k) /\ inv_view d = inv_view b
  else blobs d !! k = blobs b !! k.

Definition untouched (k : string) (d d' : Backend) : Prop :=
  blobs d' !! k = blobs d !! k /\ (k = KeyInventory -> rows d' = rows d).

(** Keys in [X] apart, [d'] differs from [d] only in migratable keys of the
    source, and there it agrees with the source. *)
Definition overlaid (X : string -> Prop) (b d d' : Backend) : Prop :=
  structured d' = structured d /\
  forall k, ~ X k ->
    untouched k d d' \/ (migratable k = true /\ is_Some (blobs b !! k) /\ arrived b k d').

Lemma inv_view_untouched d d' :
  structured d' = structured d -> untouched KeyInventory d d' -> inv_view d' = inv_view d.
Proof. intros E [Hb Hr]. unfold inv_view, inventory_text. by rewrite E, Hb, Hr. Qed.

(** What has arrived stays through further copies. *)
Lemma overlaid_arrived X b k d d' : ~ X k -> overlaid X b d d' -> arrived b k d -> arrived b k d'.
Proof.
  intros Hk [Hs Ho] Ha. destruct (Ho k Hk) as [Hu|(_ & _ & ?)]; [|done].
  intros Hb. specialize (Ha Hb). case_bool_decide; subst.
  - rewrite (inv_view_untouched d) by done. by destruct Hu as [-> _].
  - by destruct Hu as [-> _].
Qed.

#[global] Instance overlaid_preorder X b : PreOrder (overlaid X b).
Proof.
  split; [by split; [done|intros k _; left]|]. intros d1 d2 d3 [S1 H1] [S2 H2].
  split; [congruence|]. intros k Hk. destruct (H2 k Hk) as [U2|?]; [|by right].
  destruct (H1 k Hk) as [U1|(Hm & Hi & Ha)].
  - left. destruct U1 as [? R1], U2 as [? R2]. split; [congruence|].
    intros Hi. by rewrite R2, R1.
  - right. split_and!; [done..|]. by eapply overlaid_arrived.
Qed.

Lemma overlaid_weaken (X X' : string -> Prop) b d d' :
  (forall k, X k -> X' k) -> overlaid X b d d' -> overlaid X' b d d'.
Proof. intros HX [? H]. split; [done|]. intros k Hk. apply H. naive_solver. Qed.

(** The text handed to the destination holds the source's entries. *)
Lemma convert_entries b v d d' :
  sound_source b -> (be_Get KeyInventory b).1 = Ok v ->
  be_Put KeyInventory (convert_blob (structured b) (structured d) KeyInventory v) d = (Ok tt, d') ->
  inv_view d' = inv_view b.
Proof.
  intros Hb. unfold be_Get, be_Put, guarded. change (validateKey KeyInventory) with (@None error).
  unfold inv_view, inventory_text, on_rows, convert_blob.
  rewrite bool_decide_eq_true_2, !andb_true_r by done. cbn [andb].
  destruct (blobs b !! KeyInventory) as [v0|] eqn:Ev; [|done].
  destruct (structured b) eqn:Sb, (structured d) eqn:Sd; cbn [negb andb]; intros [= <-] Hp.
  - destruct (insertInventoryLines _ _) as [l|] eqn:Hi; simplify_eq.
    cbn [structured rows blobs set_rows set_blobs]. rewrite Sd.
    apply insert_lines_entries in Hi. rewrite Hi. apply render_entries.
    eapply Forall_impl; [by apply Hb|apply wf_line_entry].
  - simplify_eq. cbn [structured blobs set_blobs]. rewrite Sd, lookup_insert_eq. by apply openVox_entries, Hb.
  - destruct (insertInventoryLines _ _) as [l|] eqn:Hi; simplify_eq.
    cbn [structured rows blobs set_rows set_blobs]. rewrite Sd.
    apply insert_lines_entries in Hi. rewrite Hi. apply canonicalise_entries.
  - simplify_eq. cbn [structured blobs set_blobs]. by rewrite Sd, lookup_insert_eq.
Qed.

Lemma be_Put_shape key data d d' u :
  be_Put key data d = (Ok u, d') ->
  structured d' = structured d /\ is_Some (blobs d' !! key) /\
  (forall k, k <> key -> blobs d' !! k = blobs d !! k) /\
  (key <> KeyInventory -> rows d' = rows d /\ blobs d' !! key = Some data).
Proof.
  unfold be_Put, guarded. intros H. destruct (validateKey key); [done|].
  destruct (on_rows d key) eqn:O; [destruct (insertInventoryLines _ _)|]; simplify_eq; cbn;
    rewrite ?lookup_insert_eq; split_and!; eauto; try (intros k Hk; by rewrite lookup_insert_ne).
  intros Hk. by rewrite on_rows_other in O.
Qed.

Lemma put_copies key b v d d' :
  sound_source b -> migratable key = true -> (be_Get key b).1 = Ok v ->
  be_Put key (convert_blob (structured b) (structured d) key v) d = (Ok tt, d') ->
  overlaid (fun _ => False) b d d' /\ arrived b key d'.
Proof.
  intros Hb Hm Hg Hp. pose proof (be_Put_shape _ _ _ _ _ Hp) as (Hs & Hi & Ho & Hk).
  assert (is_Some (blobs b !! key)) as Hsome.
  { unfold be_Get, guarded in Hg. destruct (validateKey key), (blobs b !! key); naive_solver. }
  assert (arrived b key d') as Ha.
  { intros _. case_bool_decide as E.
    - subst key. split; [done|]. by eapply convert_entries.
    - destruct (Hk E) as [_ ->]. unfold be_Get, guarded in Hg.
      destruct (validateKey key); [done|]. rewrite on_rows_other in Hg by done.
      destruct (blobs b !! key); simplify_eq/=. unfold convert_blob.
      by rewrite bool_decide_eq_false_2. }
  split; [|done]. split; [done|]. intros k _. destruct (decide (k = key)) as [->|Hne]; [by right|].
  left. split; [by apply Ho|]. intros ->. apply Hk. congruence.
Qed.

(** ** Lemmas: the copy loops *)

Lemma on_src_run {A} (m : MS A) p r p' :
  on_src m p = (r, p') -> m (mg_src p) = (r, mg_src p') /\ mg_dst p' = mg_dst p.
Proof. unfold on_src. destruct (m (mg_src p)). intros. by simplify_eq. Qed.

Lemma on_dst_run {A} (m : MS A) p r p' :
  on_dst m p = (r, p') -> m (mg_dst p) = (r, mg_dst p') /\ mg_src p' = mg_src p.
Proof. unfold on_dst. destruct (m (mg_dst p)). intros. by simplify_eq. Qed.

Lemma get_missing_key b s key e s' :
  be s = b -> backend (be_Get key) s = (Err e, s') -> errors_Is e FsErrNotExist = true ->
  blobs b !! key = None.
Proof.
  intros <- H He. eapply backend_Err_is in H as [H _]; [|done].
  destruct (be_Get key (be s)) as [g b'] eqn:G. simpl in H. subst g. by eapply be_Get_missing.
Qed.

Lemma get_present b key v : (be_Get key b).1 = Ok v -> is_Some (blobs b !! key).
Proof.
  unfold be_Get, guarded. destruct (validateKey key); [done|]. destruct (blobs b !! key); [by eexists|done].
Qed.

(** A run that ended early with an error has nothing more to show. *)
Ltac stopped := intros [= <- <-]; split; [done|]; do 2 eexists; by split.

Section Copy.
Context (b : Backend) (Hb : sound_source b).

(** A run that leaves the source's data in place and overlays the destination. *)
Definition migrates (X : string -> Prop) (p p' : Stores) : Prop :=
  same_data (mg_src p) (mg_src p') /\ overlaid X b (be (mg_dst p)) (be (mg_dst p')).

#[global] Instance migrates_preorder X : PreOrder (migrates X).
Proof.
  split; [by intros p; split|]. intros p1 p2 p3 [? ?] [? ?]. split; by etrans.
Qed.

Notation copy p := (fun k : string * BlobKind =>
  copyKey (structured b) (structured (be (mg_dst p))) k.1 k.2).

Lemma migrates_source X p p' : migrates X p p' -> be (mg_src p) = b -> be (mg_src p') = b.
Proof. intros [[-> _] _] ->. done. Qed.

Lemma migrates_structured X p p' :
  migrates X p p' -> structured (be (mg_dst p')) = structured (be (mg_dst p)).
Proof. by intros [_ [-> _]]. Qed.

Lemma put_run p key v u r p' :
  migratable key = true -> (be_Get key b).1 = Ok v -> same_data (mg_src u) (mg_src p) ->
  on_dst (backend (be_Put key (convert_blob (structured b) (structured (be (mg_dst p))) key v))) p
    = (r, p') ->
  migrates (fun _ => False) (mkStores (mg_src u) (mg_dst p)) p' /\
  (r = Ok tt -> arrived b key (be (mg_dst p'))).
Proof.
  intros Hm Hg Hu [Hp Hs]%on_dst_run. unfold migrates. cbn [mg_src mg_dst]. rewrite Hs.
  apply backend_cases in Hp as (_ & _ & Hp).
  destruct (be_Put _ _ (be (mg_dst p))) as [[[]|e] d'] eqn:Hput; cbn [fst snd] in Hp.
  - apply put_copies in Hput as [Ho Ha]; [|done..].
    destruct Hp as [[-> ->]|(e & -> & [-> | ->])]; done.
  - assert (d' = be (mg_dst p)) as ->.
    { unfold be_Put, guarded in Hput. repeat case_match; naive_solver. }
    destruct Hp as [[-> ->]|(e' & -> & [-> | ->])]; done.
Qed.

Lemma copyKey_run p key kind r p' :
  be (mg_src p) = b -> migratable key = true ->
  copyKey (structured b) (structured (be (mg_dst p))) key kind p = (r, p') ->
  migrates (fun _ => False) p p' /\
  (forall c, r = Ok c -> arrived b key (be (mg_dst p')) /\ c = bool_decide (is_Some (blobs b !! key))).
Proof.
  intros Es Hm. unfold copyKey. intros [(e & H%try_Err & _)|(g & p1 & H & Hc)]%bind_run; [done|].
  apply try_Ok, on_src_run in H as [Hg Hd]. rewrite <- Hd in Hc.
  assert (same_data (mg_src p) (mg_src p1)) as Hsame by (eapply mono_run, Hg; auto with mono).
  destruct g as [v|e].
  - apply backend_Ok in Hg as [Hg _]. rewrite Es in Hg.
    assert ((be_Get key b).1 = Ok v) as Hv by by rewrite Hg.
    unfold wrapping, mbind, M_bind in Hc. destruct (on_dst _ p1) as [r' p2] eqn:Hp.
    eapply put_run in Hp as [Hmig Ha]; [|done..]. rewrite Hd in Hmig.
    rewrite bool_decide_eq_true_2 by by eapply get_present. destruct p as [s0 d0].
    destruct r' as [[]|e']; unfold mret, M_ret in Hc; simplify_eq; naive_solver.
  - assert (migrates (fun _ => False) p p1) as Hmig by (split; [done|by rewrite Hd]).
    destruct (errors_Is e FsErrNotExist) eqn:Ee; unfold mret, M_ret, fail in Hc; simplify_eq;
      [|done]. split; [done|]. intros c [= <-].
    eapply get_missing_key in Hg as G; [|done..]. unfold arrived. rewrite G.
    split; [by intros []|]. by rewrite bool_decide_eq_false_2 by by intros [].
Qed.

(** How many of the keys the source holds. *)
Definition present (keys : list (string * BlobKind)) : nat :=
  length (base.filter (fun k => is_Some (blobs b !! k.1)) keys).

Lemma copy_all_run ds keys p r p' :
  be (mg_src p) = b -> structured (be (mg_dst p)) = ds ->
  Forall (fun k => migratable k.1 = true) keys ->
  copy_all (fun k => copyKey (structured b) ds k.1 k.2) keys p = (r, p') ->
  migrates (fun _ => False) p p' /\ exists n err, r = Ok (n, err) /\
  (err = None -> n = present keys /\ Forall (fun k => arrived b k.1 (be (mg_dst p'))) keys).
Proof.
  intros Es Ed Hk. revert p r p' Es Ed. induction Hk as [|k keys Hm Hk IH]; intros p r p' Es Ed.
  - intros [= <- <-]. split; [done|]. by exists O, None.
  - cbn [copy_all]. intros [(e & H%try_Err & _)|(c & p1 & H & Hc)]%bind_run; [done|].
    apply try_Ok in H. rewrite <- Ed in H. apply copyKey_run in H as [H1 Ha]; [|done..].
    destruct c as [c|e]; [|unfold mret, M_ret in Hc; simplify_eq;
      split; [done|by exists O, (Some e)]].
    destruct (Ha c eq_refl) as [Hc1 Hc2]. unfold mbind, M_bind in Hc.
    destruct (copy_all _ keys p1) as [r1 p2] eqn:HR.
    apply IH in HR as (H2 & n & err & -> & Hn);
      [|by eapply migrates_source|by etrans; [eapply migrates_structured|]].
    unfold mret, M_ret in Hc. simplify_eq. split; [by etrans|]. do 2 eexists. split; [done|].
    intros ->. destruct Hn as [-> Hf]; [done|]. unfold present. rewrite filter_cons. split.
    + unfold bool_decide, decide. by destruct (is_Some_dec _).
    + constructor; [|done]. by apply (overlaid_arrived _ _ _ _ _ (fun H => H) (proj2 H2)).
Qed.

(** The keys of the source under a prefix. *)
Definition under (prefix : string) : list string :=
  omap (fun kv => if HasPrefix kv.1 prefix then Some kv.1 else None) (map_to_list (blobs b)).

Lemma elem_of_under prefix k :
  k ∈ under prefix <-> HasPrefix k prefix = true /\ is_Some (blobs b !! k).
Proof.
  unfold under. rewrite list_elem_of_omap. split.
  - intros ([k' v] & Hv%elem_of_map_to_list & H). simpl in H.
    destruct (HasPrefix k' prefix) eqn:E; simplify_eq. by rewrite Hv.
  - intros [Hk [v Hv]]. exists (k, v). rewrite elem_of_map_to_list. simpl. by rewrite Hk.
Qed.

Lemma be_List_keys prefix keys :
  (be_List prefix b).1 = Ok keys ->
  (prefix = csrPrefix \/ prefix = certPrefix) /\ keys ≡ₚ under prefix.
Proof.
  unfold be_List. destruct (_ || _) eqn:E; [|done]. cbn [fst]. intros [= <-].
  split; [apply orb_true_iff in E as [?%bool_decide_eq_true|?%bool_decide_eq_true]; auto|].
  rewrite merge_sort_Permutation. unfold under. apply reflexive_eq.
  induction (map_to_list (blobs b)) as [|[k v] l IH]; [done|]. cbn [omap list_omap].
  unfold HasPrefix. cbn [fst]. destruct (CutPrefix k prefix) as [s|] eqn:C; [|done].
  cbn [map]. rewrite IH. by apply CutPrefix_Some in C as ->.
Qed.

Lemma present_all keys : (forall k, k ∈ keys -> is_Some (blobs b !! k)) ->
  present (map (fun k => (k, BlobPublic)) keys) = length keys.
Proof.
  unfold present. induction keys as [|k keys IH]; intros H; [done|].
  cbn [map]. rewrite filter_cons, decide_True by (apply H; left). simpl. f_equal. apply IH.
  intros k' Hk. apply H. by right.
Qed.

Lemma copy_listed_run ds what prefix p r p' :
  be (mg_src p) = b -> structured (be (mg_dst p)) = ds ->
  copy_listed (fun k => copyKey (structured b) ds k.1 k.2) what prefix p = (r, p') ->
  migrates (fun _ => False) p p' /\ exists n err, r = Ok (n, err) /\
  (err = None -> n = length (under prefix) /\
    forall k, HasPrefix k prefix = true -> arrived b k (be (mg_dst p'))).
Proof.
  intros Es Ed. unfold copy_listed. intros [(e & H%try_Err & _)|(g & p1 & H & Hc)]%bind_run; [done|].
  apply try_Ok, on_src_run in H as [Hg Hd].
  assert (same_data (mg_src p) (mg_src p1)) as Hsame by (eapply mono_run, Hg; auto with mono).
  assert (migrates (fun _ => False) p p1) as H1 by (split; [done|by rewrite Hd]).
  destruct g as [keys|e]; [|unfold mret, M_ret in Hc; simplify_eq; split; [done|by exists O, (Some (Wrap ("listing " +:+ what +:+ " in source") [e]))]].
  apply backend_Ok in Hg as [Hg _]. rewrite Es in Hg.
  destruct (be_List_keys prefix keys) as [Hpre Hkeys]; [by rewrite Hg|].
  apply copy_all_run in Hc as (H2 & n & err & -> & Hn); cycle 1.
  { by destruct Hsame as [-> _]. }
  { by rewrite Hd. }
  { rewrite Forall_map, Forall_forall. intros k Hk. cbn [fst]. unfold migratable.
    rewrite Hkeys in Hk. apply elem_of_under in Hk as [Hk _].
    destruct Hpre; subst prefix; rewrite Hk, ?orb_true_r; done. }
  split; [by etrans|]. exists n, err. split; [done|]. intros Herr. destruct (Hn Herr) as [-> Ha].
  rewrite present_all by (intros k; rewrite Hkeys; apply elem_of_under). rewrite Hkeys. split; [done|].
  rewrite Forall_map, Forall_forall in Ha. intros k Hk Hi. apply Ha; [|done].
  rewrite Hkeys. by apply elem_of_under.
Qed.
Definition complete_report : MigrateReport :=
  mkMigrateReport (present (map (fun s => (ms_Key s, ms_Kind s)) migratableSingletons))
    (length (under csrPrefix)) (length (under certPrefix)) "".

Lemma copy_everything_run ds p r p' :
  be (mg_src p) = b -> structured (be (mg_dst p)) = ds ->
  copy_everything (structured b) ds p = (r, p') ->
  migrates (fun _ => False) p p' /\ exists rep err, r = Ok (rep, err) /\
  (err = None -> rep = complete_report /\ forall k, migratable k = true -> arrived b k (be (mg_dst p'))).
Proof.
  intros Es Ed. unfold copy_everything, mbind, M_bind, mret, M_ret.
  destruct (copy_all _ _ p) as [r1 p1] eqn:H1.
  apply copy_all_run in H1 as (M1 & n1 & e1 & -> & A1); [|done..|by repeat constructor].
  destruct e1 as [e1|]; [stopped|].
  destruct (copy_listed _ _ _ p1) as [r2 p2] eqn:H2.
  apply copy_listed_run in H2 as (M2 & n2 & e2 & -> & A2);
    [|by eapply migrates_source|by etrans; [eapply migrates_structured|]].
  assert (migrates (fun _ => False) p p2) as M12 by by etrans.
  destruct e2 as [e2|]; [stopped|].
  destruct (copy_listed _ _ _ p2) as [r3 p3] eqn:H3.
  apply copy_listed_run in H3 as (M3 & n3 & e3 & -> & A3);
    [|by eapply migrates_source|by etrans; [eapply migrates_structured|]].
  intros [= <- <-]. split; [by etrans|]. do 2 eexists. split; [done|]. intros ->.
  destruct (A1 eq_refl) as [-> F1], (A2 eq_refl) as [-> F2], (A3 eq_refl) as [-> F3].
  split; [done|]. intros k Hk. unfold migratable in Hk.
  apply orb_true_iff in Hk as [[(s & Hs & Hk)%existsb_exists|Hk]%orb_true_iff|Hk]; [..|by auto].
  - apply bool_decide_eq_true in Hk. rewrite Forall_map, Forall_forall in F1.
    apply (overlaid_arrived _ _ _ _ _ (fun H => H) (proj2 M3)),
      (overlaid_arrived _ _ _ _ _ (fun H => H) (proj2 M2)).
    rewrite <- Hk. apply (F1 s). by apply list_elem_of_In.
  - apply (overlaid_arrived _ _ _ _ _ (fun H => H) (proj2 M3)). by apply F2.
Qed.
End Copy.

(** ** Lemmas: the guards *)

Lemma same_data_be s s' : same_data s s' -> be s' = be s.
Proof. by intros [? _]. Qed.

(** The guard changes neither store's data, and a destination with a CA
    certificate passes it only by force. *)
Lemma destination_free_run opts p r p' :
  destination_free opts p = (r, p') ->
  mg_src p' = mg_src p /\ same_data (mg_dst p) (mg_dst p') /\
  (Force opts = false -> is_Some (blobs (be (mg_dst p)) !! KeyCACert) -> exists e, r = Err e).
Proof.
  unfold destination_free, mbind, M_bind, wrapping, mret, M_ret, fail.
  destruct (on_dst (external _) p) as [r1 p1] eqn:H1. apply on_dst_run in H1 as [H1 E1].
  assert (same_data (mg_dst p) (mg_dst p1)) as S1 by (eapply mono_run, H1; auto with mono).
  destruct r1 as [[]|e]; [|intros; simplify_eq; by eauto].
  destruct (Force opts); [intros; simplify_eq; by eauto|].
  destruct (on_dst (backend _) p1) as [r2 p2] eqn:H2. apply on_dst_run in H2 as [H2 E2].
  assert (same_data (mg_dst p1) (mg_dst p2)) as S2 by (eapply mono_run, H2; auto with mono).
  assert (same_data (mg_dst p) (mg_dst p2)) as S3 by by etrans.
  destruct r2 as [ex|e]; [|intros; simplify_eq; rewrite E2; by eauto].
  apply backend_Ok in H2 as [H2 _]. rewrite (same_data_be _ _ S1) in H2.
  unfold be_Exists, guarded in H2. change (validateKey KeyCACert) with (@None error) in H2.
  injection H2 as <- _. intros H. assert (p' = p2) as -> by (case_match; congruence).
  split_and!; [congruence|done|]. intros _ Hs. rewrite bool_decide_eq_true_2 in H by done.
  naive_solver.
Qed.

Lemma Migrate_run opts b p r p' :
  sound_source b -> be (mg_src p) = b -> Migrate opts p = (r, p') ->
  migrates b (fun _ => False) p p' /\ exists rep err, r = Ok (rep, err) /\
  (err = None -> rep = complete_report b /\
    forall k, migratable k = true -> arrived b k (be (mg_dst p'))) /\
  (Force opts = false -> is_Some (blobs (be (mg_dst p)) !! KeyCACert) ->
    err <> None /\ same_data (mg_dst p) (mg_dst p')).
Proof.
  intros Hb Es. unfold Migrate, mbind, M_bind, try.
  destruct (destination_free opts p) as [g p1] eqn:G.
  apply destination_free_run in G as (E1 & S1 & G).
  assert (migrates b (fun _ => False) p p1) as M1.
  { split; [by rewrite E1|]. by rewrite (same_data_be _ _ S1). }
  destruct g as [[]|e].
  - unfold on_src, on_dst, is_structured, gets, mret, M_ret. cbn [mg_src mg_dst].
    replace (structured (be (mg_src p1))) with (structured b) by (by rewrite E1, Es).
    destruct (copy_everything _ _ _) as [r2 p2] eqn:H2.
    apply (copy_everything_run b Hb) in H2 as (M2 & rep & err & -> & A);
      [|by cbn; rewrite E1|done].
    intros [= <- <-]. split.
    { etrans; [exact M1|]. by destruct p1. }
    do 2 eexists. split; [done|]. split; [done|]. intros Hf Hs. by destruct (G Hf Hs).
  - intros [= <- <-]. split; [done|]. do 2 eexists. split; [done|]. by split.
Qed.

(** ** Lemmas: the integrity value at both ends *)

Definition integrity_keys (k : string) : Prop := k = KeyHMACKey \/ k = KeyInventoryHMAC.

Lemma frame_integrity k {A} (m : MS A) :
  mono (frame (fun x => x = k)) m -> integrity_keys k -> mono (frame integrity_keys) m.
Proof.
  intros Hm Hk. eapply mono_weaken, Hm. intros s s' (? & ? & H). split_and!; [done..|].
  intros x Hx. apply H. by intros ->.
Qed.

Lemma load_same : mono same_data loadHMACKey.
Proof. unfold loadHMACKey. mono_tac. Qed.
#[export] Hint Resolve load_same : mono.

(** Recomputing the value writes the key and the value, never the inventory. *)
Lemma rebuild_frame : mono (frame integrity_keys) RebuildInventoryHMAC.
Proof.
  unfold RebuildInventoryHMAC, EnsureHMACKey, WithLock, updateInventoryHMACLocked.
  repeat first [ solve [apply frame_of_same; mono_tac]
    | apply frame_Put; (by left) || by right | mono_step ].
Qed.

Lemma inv_same_put_key d : mono inv_same (backend (be_Put KeyHMACKey d)).
Proof.
  intros s. unfold exec. destruct (backend _ s) as [r s'] eqn:E.
  apply backend_cases in E as (E1 & _ & E2).
  destruct (be_Put KeyHMACKey d (be s)) as [[u|e] d'] eqn:P; simpl in *.
  - apply be_Put_shape in P as (P1 & _ & P2 & P3). destruct P3 as [P3 _]; [done|].
    unfold inv_same. destruct E2 as [[_ ->]|(e & _ & [-> | ->])]; rewrite ?P1, ?P2, ?P3 by done; done.
  - unfold be_Put, guarded in P. change (validateKey KeyHMACKey) with (@None error) in P.
    by rewrite on_rows_other in P by done.
Qed.

Lemma rebuild_inv_same : mono inv_same RebuildInventoryHMAC.
Proof.
  unfold RebuildInventoryHMAC, EnsureHMACKey, WithLock.
  repeat first [ solve [apply inv_same_of_same; mono_tac]
    | apply inv_same_put_key | apply update_inv_same | mono_step ].
Qed.

(** A stored key of the right length. *)
Definition stored_key (k : string) (b : Backend) : Prop :=
  exists v, blobs b !! KeyHMACKey = Some v /\ blob_text v = k /\ String.length k = hmacKeyLen.

Lemma loadHMACKey_cases s key stored s' :
  loadHMACKey s = (Ok (key, stored), s') ->
  be s' = be s /\
  match key with
  | Some k => stored_key k (be s)
  | None =>
      (forall k, ~ stored_key k (be s)) /\ (stored = None -> blobs (be s) !! KeyHMACKey = None)
  end.
Proof.
  intros H. split; [by eapply same_data_be, mono_run, H; apply load_same|].
  unfold loadHMACKey in H. minv.
  - apply backend_Ok in H0 as [H0 _]. apply be_Get_Ok in H0 as [H0 _]; [|by apply on_rows_other].
    bool_hyps. by eexists.
  - apply backend_Ok in H0 as [H0 _]. apply be_Get_Ok in H0 as [H0 _]; [|by apply on_rows_other].
    bool_hyps. split; [|done]. intros k (v & ? & ? & ?). congruence.
  - eapply get_missing_key in H0; [|done..]. split; [|done]. intros k (v & ? & _). congruence.
Qed.

#[local] Arguments random_bytes : simpl never.

Lemma EnsureHMACKey_Ok s k s' :
  EnsureHMACKey s = (Ok k, s') ->
  stored_key k (be s') /\ (forall k0, stored_key k0 (be s) -> be s' = be s).
Proof.
  unfold EnsureHMACKey, WithLock. intros H. minv;
    repeat match goal with
    | H : loadHMACKey _ = _ |- _ => apply loadHMACKey_cases in H as [? H]
    | H : external _ _ = _ |- _ =>
        apply (mono_run _ _ _ _ _ (same_data_external _)), same_data_be in H
    end.
  - split; congruence.
  - split; [congruence|]. intros k0 Hk. naive_solver.
  - apply backend_Ok in H4 as [H4 _].
    apply be_Put_shape in H4 as (_ & _ & _ & Hput).
    destruct Hput as [_ Hput]; [done|]. split.
    + eexists. split; [exact Hput|]. split; [done|]. apply random_bytes_length.
    + intros k0 Hk. naive_solver.
Qed.

(** After a successful rebuild, the key in the store reproduces the value. *)
Lemma rebuild_Ok s u s' :
  RebuildInventoryHMAC s = (Ok u, s') ->
  (forall v, blobs (be s') !! KeyHMACKey = Some v -> has_integrity (blob_text v) s') /\
  (forall k, stored_key k (be s) -> blobs (be s') !! KeyHMACKey = blobs (be s) !! KeyHMACKey).
Proof.
  unfold RebuildInventoryHMAC. intros H. minv.
  - rename select (EnsureHMACKey _ = _) into He. rename select (backend _ _ = _) into Hx.
    apply (mono_run _ _ _ _ _ (backend_reads _ (reads_Exists _))), same_data_be in Hx.
    apply EnsureHMACKey_Ok in He as [(v0 & Hv & Ht & _) Hkeep].
    assert (blobs (be s') !! KeyHMACKey = blobs (be x1) !! KeyHMACKey) as E.
    { pose proof (mono_run _ _ _ _ _ (update_frame _) H) as (_ & _ & E). apply E.
      by intros [|]. }
    split.
    + intros v. rewrite E, Hv. intros [= <-]. rewrite Ht. by eapply update_integrity.
    + intros k Hk. rewrite E. f_equal. f_equal. rewrite <- Hx. apply (Hkeep k). by rewrite Hx.
  - rename select (backend _ _ = _) into Hx.
    pose proof (mono_run _ _ _ _ _ (backend_reads _ (reads_Exists _)) Hx) as [E _].
    rewrite E. split; [|done]. intros v Hv.
    apply backend_Ok in Hx as [Hx _]. unfold be_Exists, guarded in Hx.
    change (validateKey KeyHMACKey) with (@None error) in Hx. rewrite Hv in Hx. done.
Qed.

(** ** Lemmas: the judgement on the source *)

(** The stored value is the one the stored key gives the stored inventory. *)
Definition source_verifies (b : Backend) : Prop :=
  exists k h, stored_key k b /\ blobs b !! KeyInventoryHMAC = Some h /\
    blob_text h = integrity_value k b.

(** Integrity was never set up: neither a key nor a value. *)
Definition never_recorded (b : Backend) : Prop :=
  blobs b !! KeyHMACKey = None /\ blobs b !! KeyInventoryHMAC = None.

Lemma report_same : mono same_data integrity_report.
Proof. unfold integrity_report, is_structured. mono_tac. Qed.

(** The computed value of the report. *)
Lemma report_read (chained : bool) s entries data (bad : nat) s' :
  structured (be s) = chained ->
  (if chained then
     es ← wrapping "reading inventory entries" (backend sql_Entries); mret (es, "", O)
   else
     d ← wrapping "reading inventory" readInventoryForHMAC;
     let '(es, bad) := parseInventoryBlobCounting d in mret (es, d, bad)) s
    = (Ok (entries, data, bad), s') ->
  be s' = be s /\ forall k, foldInventoryHead k entries data chained = integrity_value k (be s).
Proof.
  intros Hst H. unfold integrity_value. destruct chained; minv.
  - rename select (backend _ _ = _) into Hb.
    pose proof (mono_run _ _ _ _ _ (backend_reads _ reads_Entries) Hb) as [E _].
    apply backend_Ok in Hb as [Hb _]. apply sql_Entries_Ok in Hb as [-> _]. by rewrite Hst.
  - rename select (readInventoryForHMAC _ = _) into Hr.
    apply readInventory_text in Hr as [-> [E _]]; [|done]. by rewrite Hst.
Qed.

Lemma report_sound s rep s' :
  integrity_report s = (Ok rep, s') ->
  match judge_source rep with
  | SourceVerified => source_verifies (be s)
  | SourceNeverRecorded _ => never_recorded (be s)
  | SourceUnverified _ => True
  end.
Proof.
  unfold integrity_report. intros H. unfold is_structured in H.
  apply bind_Ok in H as (chained & s1 & [-> ->]%gets_Ok & H).
  apply bind_Ok in H as ([[entries data] bad] & s2 & [E1 Hval]%report_read & H); [|done].
  apply bind_Ok in H as (legacy & s3 & Hl & H).
  assert (be s3 = be s2) as E2.
  { eapply same_data_be, mono_run, Hl. case_match; mono_tac. }
  apply bind_Ok in H as ([key stored] & s4 & [E3 Hk]%wrapping_Ok%loadHMACKey_cases & H).
  apply bind_Ok in H as (g & s5 & Hg%try_Ok & H).
  apply bind_Ok in H as (head & s6 & Hh & [-> _]%ret_Ok).
  rewrite E2, E1 in Hk. unfold judge_source. cbn.
  destruct legacy; [done|].
  assert (match head with Some h => exists v, blobs (be s) !! KeyInventoryHMAC = Some v /\ blob_text v = h
          | None => blobs (be s) !! KeyInventoryHMAC = None end) as Hhead.
  { destruct g as [h|e]; [apply ret_Ok in Hh as [-> _]|].
    - apply backend_Ok in Hg as [Hg _]. apply be_Get_Ok in Hg as [Hg _]; [|by apply on_rows_other].
      rewrite E3, E2, E1 in Hg. by eexists.
    - destruct (errors_Is e FsErrNotExist) eqn:Ee; [|done]. apply ret_Ok in Hh as [-> _].
      rewrite <- E1, <- E2, <- E3. exact (get_missing_key _ _ _ _ _ eq_refl Hg Ee). }
  clear Hl. destruct key as [k|].
  - destruct head as [h|]; cbn; [|done]. destruct Hhead as (v & Hv & Ht).
    case_bool_decide as E; [|exact I]. exists k, v. split_and!; [done..|]. by rewrite <- Hval, Ht.
  - destruct stored, head; try done. split; [by apply Hk|done].
Qed.

Lemma unverified_reason rep why :
  judge_source rep = SourceUnverified why \/ judge_source rep = SourceNeverRecorded why -> why <> "".
Proof. unfold judge_source. intros [H|H]; repeat case_match; simplify_eq; done. Qed.

Lemma verify_source_run allow s r s' :
  verifyMigrationSource allow s = (r, s') ->
  same_data s s' /\
  forall why, r = Ok why ->
    (why = "" /\ source_verifies (be s)) \/ (why <> "" /\ (never_recorded (be s) \/ allow = true)).
Proof.
  intros H. split.
  { eapply mono_run, H. unfold verifyMigrationSource.
    repeat first [apply report_same | mono_step]. }
  intros why ->. unfold verifyMigrationSource in H. minv;
    rename select (integrity_report _ = _) into Hr; apply report_sound in Hr as Hs;
    rename select (judge_source _ = _) into Hj; rewrite Hj in Hs; [by left|right..].
  - split; [by eapply unverified_reason; right|by left].
  - split; [by eapply unverified_reason; left|by right].
Qed.

(** ** Lemmas: the whole migration *)

Lemma admit_source_run opts p r p' :
  admit_source opts p = (r, p') ->
  same_data (mg_src p) (mg_src p') /\ same_data (mg_dst p) (mg_dst p') /\
  forall why, r = Ok why ->
    (why = "" /\ source_verifies (be (mg_src p))) \/
    (why <> "" /\ (never_recorded (be (mg_src p)) \/ AllowUnverifiedSource opts = true)).
Proof.
  unfold admit_source, mbind, M_bind, mret, M_ret.
  assert (mono same_data (WithLock migrateLockName (mret tt))) as HL by (unfold WithLock; mono_tac).
  destruct (on_src _ p) as [r1 p1] eqn:H1. apply on_src_run in H1 as [H1 E1].
  apply (mono_run _ _ _ _ _ HL) in H1.
  destruct r1 as [[]|e]; [|intros [= <- <-]; by rewrite E1].
  destruct (on_src _ p1) as [r2 p2] eqn:H2. apply on_src_run in H2 as [[H2 V]%verify_source_run E2].
  rewrite (same_data_be _ _ H1) in V.
  destruct r2 as [why|e]; [|intros [= <- <-]; rewrite E2, E1; by split; [etrans|]].
  destruct (on_dst _ p2) as [r3 p3] eqn:H3. apply on_dst_run in H3 as [H3 E3].
  apply (mono_run _ _ _ _ _ HL) in H3. rewrite E2, E1 in H3.
  assert (same_data (mg_src p) (mg_src p3)) by (rewrite E3; by etrans).
  destruct r3 as [[]|e]; intros [= <- <-]; by auto.
Qed.

Definition keeps_source : relation Stores := fun p p' => same_data (mg_src p) (mg_src p').
#[global] Instance keeps_source_preorder : PreOrder keeps_source.
Proof. split; [by intros p|]. unfold keeps_source. intros ? ? ? ? ?. by etrans. Qed.

Lemma keeps_source_src {A} (m : MS A) : mono same_data m -> mono keeps_source (on_src m).
Proof.
  intros H p. unfold exec. destruct (on_src m p) as [r p'] eqn:E.
  apply on_src_run in E as [E _]. apply (mono_run _ _ _ _ _ H E).
Qed.
Lemma keeps_source_dst {A} (m : MS A) : mono keeps_source (on_dst m).
Proof. intros p. unfold exec, keeps_source, on_dst. by destruct (m (mg_dst p)). Qed.

Lemma keeps_source_copies f keys :
  (forall k, mono keeps_source (f k)) -> mono keeps_source (copy_all f keys).
Proof. intros H. induction keys as [|k keys IH]; simpl; mono_tac. Qed.
#[export] Hint Resolve keeps_source_dst keeps_source_copies : mono.

Lemma service_keeps_source opts : mono keeps_source (MigrateService opts).
Proof.
  unfold MigrateService, Migrate, destination_free, copy_everything, copy_listed, is_structured.
  assert (mono keeps_source (admit_source opts)) as HA.
  { intros p. unfold exec. destruct (admit_source opts p) as [r p'] eqn:E.
    by apply admit_source_run in E as [? _]. }
  assert (forall ss sd k, mono keeps_source (copyKey ss sd k.1 k.2)) as HC.
  { intros. unfold copyKey. repeat first [apply keeps_source_src; mono_tac | mono_step]. }
  repeat first [apply HA | apply keeps_source_copies; intros; apply HC
    | apply keeps_source_src; mono_tac | mono_step].
Qed.

(** A rebuild of the integrity value overlays nothing else. *)
Lemma rebuild_overlaid b s r s' :
  RebuildInventoryHMAC s = (r, s') -> overlaid integrity_keys b (be s) (be s').
Proof.
  intros H. pose proof (mono_run _ _ _ _ _ rebuild_frame H) as (F1 & _ & F2).
  pose proof (mono_run _ _ _ _ _ rebuild_inv_same H) as (_ & R & _ & _).
  split; [done|]. intros k Hk. left. split; [by apply F2|done].
Qed.

(** What a successful migration from [b] leaves in the destination. *)
Record migrated (b d : Backend) : Prop := {
  mg_blobs : forall k, migratable k = true -> ~ integrity_keys k -> arrived b k d;
  mg_key : forall k, stored_key k b -> stored_key k d }.

Lemma MigrateService_run opts b p r p' :
  sound_source b -> be (mg_src p) = b -> MigrateService opts p = (r, p') ->
  migrates b integrity_keys p p' /\ exists rep err, r = Ok (rep, err) /\
  (err = None ->
    MigrateReport_Total rep = MigrateReport_Total (complete_report b) /\
    migrated b (be (mg_dst p')) /\
    (forall v, blobs (be (mg_dst p')) !! KeyHMACKey = Some v -> has_integrity (blob_text v) (mg_dst p')) /\
    (UnverifiedSource rep = "" -> source_verifies b)).
Proof.
  intros Hb Es. unfold MigrateService, mbind, M_bind, try.
  destruct (admit_source opts p) as [a p1] eqn:A. apply admit_source_run in A as (S1 & D1 & A).
  rewrite Es in A.
  assert (migrates b integrity_keys p p1) as M1 by (split; [done|by rewrite (same_data_be _ _ D1)]).
  destruct a as [why|e]; [|unfold mret, M_ret; stopped].
  destruct (Migrate opts p1) as [r1 p2] eqn:H2.
  apply (Migrate_run opts b) in H2 as (M2 & rep & err & -> & Hok & _);
    [|done|by rewrite (same_data_be _ _ S1)].
  assert (migrates b integrity_keys p p2) as M12.
  { etrans; [exact M1|]. destruct M2 as [? M2]. split; [done|].
    eapply overlaid_weaken, M2. done. }
  destruct err as [e|]; [unfold mret, M_ret; stopped|]. destruct (Hok eq_refl) as [-> Ha].
  destruct (on_dst RebuildInventoryHMAC p2) as [r2 p3] eqn:H3.
  apply on_dst_run in H3 as [H3 E3]. pose proof (rebuild_overlaid b _ _ _ H3) as O3.
  assert (migrates b integrity_keys p p3) as M3.
  { etrans; [exact M12|]. split; [by rewrite E3|done]. }
  destruct r2 as [u|e]; unfold mret, M_ret; [|stopped].
  intros [= <- <-]. split; [done|]. do 2 eexists. split; [done|]. intros _.
  apply rebuild_Ok in H3 as [R1 R2]. split_and!; [done| |done|].
  - split; [intros k Hm Hk; by apply (overlaid_arrived _ _ _ _ _ Hk O3), Ha|].
    intros k (v & Hv & Ht & Hl).
    assert (blobs (be (mg_dst p2)) !! KeyHMACKey = Some v) as Hv2.
    { rewrite <- Hv. apply (Ha KeyHMACKey eq_refl). by eexists. }
    exists v. split; [|done]. rewrite (R2 k); [done|]. by exists v.
  - cbn [UnverifiedSource]. intros ->. by destruct (A _ eq_refl) as [[_ ?]|[? _]].
Qed.

(** ** Properties *)

(** Earlier runs of the migration, whatever became of them. *)
Definition attempts (runs : list MigrateOptions) : MM unit :=
  for_each (fun opts => ignore (MigrateService opts)) runs.

Lemma attempts_run b runs p r p' :
  sound_source b -> be (mg_src p) = b -> attempts runs p = (r, p') -> migrates b integrity_keys p p'.
Proof.
  intros Hb. revert p. unfold attempts. induction runs as [|o runs IH]; intros p Es; simpl.
  - intros [= <- <-]. done.
  - unfold mbind at 1, M_bind at 1, ignore, mbind at 1, M_bind at 1, try.
    destruct (MigrateService o p) as [r1 p1] eqn:E.
    apply (MigrateService_run o b) in E as [M1 _]; [|done..].
    unfold mret, M_ret. intros M2%IH; [by etrans|by eapply migrates_source].
Qed.

(** What the destination should hold under a key: the source's blob if the
    source has one that migrates, otherwise what was there before. *)
Definition mirror (b d : Backend) (k : string) : option blob :=
  if migratable k && bool_decide (is_Some (blobs b !! k)) then blobs b !! k else blobs d !! k.

(** C15: a migration that succeeds, after any number of runs that failed
    anywhere, leaves an exact copy.  The source is unchanged.  Every blob the
    source holds that belongs to the CA is in the destination, and every other
    key of the destination is as it was before the first run.  The inventory
    holds the same entries in the same order whichever of the two stores keeps
    it as text and whichever as records.  The integrity key is the source's,
    and the integrity value is the one that key gives the copied inventory; an
    empty remark in the report means the source's own value verified. *)
Theorem MigrateService_copies opts runs p u p1 rep p2 :
  sound_source (be (mg_src p)) ->
  attempts runs p = (u, p1) -> MigrateService opts p1 = (Ok (rep, None), p2) ->
  let b := be (mg_src p) in let d := be (mg_dst p) in let d2 := be (mg_dst p2) in
  be (mg_src p2) = b /\
  (forall k, k <> KeyInventory -> ~ integrity_keys k -> blobs d2 !! k = mirror b d k) /\
  (is_Some (blobs b !! KeyInventory) -> inv_view d2 = inv_view b) /\
  (forall k, stored_key k b -> stored_key k d2) /\
  (forall v, blobs d2 !! KeyHMACKey = Some v -> has_integrity (blob_text v) (mg_dst p2)) /\
  MigrateReport_Total rep = MigrateReport_Total (complete_report b) /\
  (UnverifiedSource rep = "" -> source_verifies b).
Proof.
  intros Hb H1 H2 b d d2. apply (attempts_run b) in H1; [|done..].
  apply (MigrateService_run opts b) in H2 as (M2 & rep' & err & E & H); [|done|by eapply migrates_source].
  simplify_eq. destruct (H eq_refl) as (HT & [Hblobs Hkey] & Hint & Htr).
  assert (migrates b integrity_keys p p2) as M by by etrans.
  split_and!; try done.
  - by eapply migrates_source.
  - intros k Hinv Hk. unfold mirror. destruct M as [_ [_ Hov]].
    destruct (Hov k Hk) as [[Hu _]|(Hm & Hs & Ha)].
    + case_match; [|done]. bool_hyps. specialize (Hblobs k ltac:(done) Hk ltac:(done)).
      by rewrite bool_decide_eq_false_2 in Hblobs.
    + rewrite Hm, bool_decide_eq_true_2 by done. specialize (Ha Hs).
      by rewrite bool_decide_eq_false_2 in Ha.
  - intros Hs. by apply (Hblobs KeyInventory); [|intros [|]|].
Qed.

(** Whatever happens during a migration, the source's data stay as they
    are; and a destination that already holds a CA certificate, unless forced,
    or a source whose inventory does not verify against the value it stores,
    unless allowed, makes the migration fail with the destination untouched.
    The one source without a matching value that is let through stores neither
    a key nor a value. *)
Theorem MigrateService_protects opts p r p' :
  MigrateService opts p = (r, p') ->
  same_data (mg_src p) (mg_src p') /\
  ((Force opts = false /\ is_Some (blobs (be (mg_dst p)) !! KeyCACert)) \/
   (AllowUnverifiedSource opts = false /\
    ~ source_verifies (be (mg_src p)) /\ ~ never_recorded (be (mg_src p))) ->
   same_data (mg_dst p) (mg_dst p') /\ exists rep e, r = Ok (rep, Some e)).
Proof.
  intros H. split; [by apply (mono_run _ _ _ _ _ (service_keeps_source opts) H)|]. intros HG.
  unfold MigrateService, mbind at 1, M_bind at 1, try in H.
  destruct (admit_source opts p) as [a p1] eqn:A. apply admit_source_run in A as (_ & D1 & A).
  destruct a as [why|e]; [|unfold mret, M_ret in H; simplify_eq; by eauto].
  destruct HG as [[Hf Hs]|(Ha & Hv & Hn)]; [|destruct (A _ eq_refl) as [[]|[? []]]; congruence].
  unfold Migrate, mbind, M_bind, try in H.
  destruct (destination_free opts p1) as [g p2] eqn:G. apply destination_free_run in G as (_ & D2 & G).
  rewrite (same_data_be _ _ D1) in G. destruct (G Hf Hs) as [e ->].
  unfold mret, M_ret in H. simplify_eq. split; [by etrans|]. by eauto.
Qed.

(** ** Witnesses *)

(** A CA on a filesystem, with one certificate on record and one request, and a
    database that loses the acknowledgement of the second write. *)
Definition demo_lines : string := openVoxInventoryLine demo_entry "" +:+ nl.
Definition demo_source (mac : string) : Store :=
  mkStore (mkBackend false
    (<[KeyCACert := BText "certificate"]> (<[KeyInventory := BText demo_lines]>
      (<[KeyHMACKey := BText demo_key]> (<[KeyInventoryHMAC := BText mac]>
        {[ CSRKey "web01" := BText "request" ]})))) [])
    None ∅ [] 0 [] [].
Definition demo_stores (mac : string) : Stores :=
  mkStores (demo_source mac)
    (mkStore (mkBackend true ∅ []) None ∅ [FOk; FOk; FOk; FOk; FAfter] 0 [] []).
Definition demo_good : Stores := demo_stores (wholeBlobInventoryMAC demo_key demo_lines).
Definition plainly : MigrateOptions := mkMigrateOptions false false.
Definition forced : MigrateOptions := mkMigrateOptions true false.

Lemma MigrateService_copies_witness :
  let done := MigrateService forced (attempts [plainly] demo_good).2 in
  is_Some (blobs (be (mg_dst (attempts [plainly] demo_good).2)) !! KeyCACert) /\
  done.1 = Ok (mkMigrateReport 4 1 0 "", None) /\
  inv_view (be (mg_dst done.2)) = [demo_entry] /\
  has_integrity demo_key (mg_dst done.2).
Proof.
  assert ((MigrateService forced (attempts [plainly] demo_good).2).1
          = Ok (mkMigrateReport 4 1 0 "", None)) as Hd by (vm_compute; reflexivity).
  assert (inv_view (be (mg_src demo_good)) = [demo_entry]) as Hv by (vm_compute; reflexivity).
  split; [vm_compute; by eexists|]. split; [exact Hd|].
  destruct (MigrateService_copies forced [plainly] demo_good
    (attempts [plainly] demo_good).1 (attempts [plainly] demo_good).2
    (mkMigrateReport 4 1 0 "") (MigrateService forced (attempts [plainly] demo_good).2).2)
    as (_ & _ & H3 & H4 & H5 & _).
  - intros H. discriminate H.
  - apply surjective_pairing.
  - rewrite <- Hd. apply surjective_pairing.
  - split; [rewrite <- Hv; apply H3; vm_compute; by eexists|].
    destruct (H4 demo_key) as (v & Hk & Ht & _);
      [exists (BText demo_key); vm_compute; by split_and!|].
    rewrite <- Ht. by apply H5.
Defined.

Lemma MigrateService_protects_witness :
  exists e, (MigrateService plainly (demo_stores "forged")).1 = Ok (empty_report, Some e) /\
  same_data (mg_dst (demo_stores "forged")) (mg_dst (MigrateService plainly (demo_stores "forged")).2).
Proof.
  destruct (MigrateService plainly (demo_stores "forged")) as [r p'] eqn:E.
  pose proof (MigrateService_protects plainly _ _ _ E) as [_ H].
  destruct H as [H _].
  - right. split; [done|]. split; [|intros [H _]; vm_compute in H; discriminate H].
    intros (k & h & (v & Hv & Ht & _) & Hh & Hm). vm_compute in Hv. injection Hv as <-.
    cbn in Ht. subst k. vm_compute in Hh. injection Hh as <-. vm_compute in Hm. discriminate Hm.
  - assert (r = (MigrateService plainly (demo_stores "forged")).1) as -> by by rewrite E.
    eexists. split; [vm_compute; reflexivity|exact H].
Defined.
