(* ===== verification/Etcd.v ===== *)
(** * The etcd backend's inventory

    Models internal/storage/etcd_inventory.go and etcd_certindex.go.  The store
    is etcd's: keys with values and revisions, and transactions that apply a
    list of writes if a list of comparisons holds.  Physical keys are
    represented by what they name; a value by what it decodes to.  The
    modification times kept in front of blobs are left out.

    The operations are programs of [Concurrent]: between any two of their
    requests the other replicas' transactions may run. *)

From S2P Require Import Prelude GoStrings GoTime X509 Inventory Storage Concurrent Records InventorySpec Numbered.

(** ** The store *)

(** A revision stands beside each value whose revision some comparison uses. *)
Record Etcd := mkEtcd {
  e_rev : Z;
  e_seq : option (Z * Z);
  e_entries : gmap Z (Z * inventoryRecordJSON);
  e_serial : gmap string (option Z);
  e_subject : gmap string string;
  e_head : option (Z * string);
  e_marker : option (Z * string);
  (** the HMAC key and the certnames with a stored certificate *)
  e_hmacKey : option string;
  e_certs : gset string }.

(** A serial's value is its sequence number, or [None] for "ambiguous". *)
Inductive op :=
  | PutSeq (n : Z) | DelSeq
  | PutEntry (n : Z) (v : inventoryRecordJSON) | DelEntry (n : Z) | DelEntries
  | PutSerial (s : string) (v : option Z) | DelSerial (s : string) | DelSerials
  | PutSubject (s serial : string) | DelSubject (s : string) | DelSubjects
  | PutHead (h : string) | DelHead
  | PutMarker (payload : string) | DelMarker.

Definition set_seq x s := mkEtcd (e_rev s) x (e_entries s) (e_serial s) (e_subject s) (e_head s) (e_marker s) (e_hmacKey s) (e_certs s).
Definition set_entries x s := mkEtcd (e_rev s) (e_seq s) x (e_serial s) (e_subject s) (e_head s) (e_marker s) (e_hmacKey s) (e_certs s).
Definition set_serial x s := mkEtcd (e_rev s) (e_seq s) (e_entries s) x (e_subject s) (e_head s) (e_marker s) (e_hmacKey s) (e_certs s).
Definition set_subject x s := mkEtcd (e_rev s) (e_seq s) (e_entries s) (e_serial s) x (e_head s) (e_marker s) (e_hmacKey s) (e_certs s).
Definition set_head x s := mkEtcd (e_rev s) (e_seq s) (e_entries s) (e_serial s) (e_subject s) x (e_marker s) (e_hmacKey s) (e_certs s).
Definition set_marker x s := mkEtcd (e_rev s) (e_seq s) (e_entries s) (e_serial s) (e_subject s) (e_head s) x (e_hmacKey s) (e_certs s).
Definition set_rev x s := mkEtcd x (e_seq s) (e_entries s) (e_serial s) (e_subject s) (e_head s) (e_marker s) (e_hmacKey s) (e_certs s).

(** One write of a transaction that commits at revision [r]. *)
Definition apply_op (r : Z) (s : Etcd) (o : op) : Etcd :=
  match o with
  | PutSeq n => set_seq (Some (r, n)) s
  | DelSeq => set_seq None s
  | PutEntry n v => set_entries (<[n := (r, v)]> (e_entries s)) s
  | DelEntry n => set_entries (delete n (e_entries s)) s
  | DelEntries => set_entries ∅ s
  | PutSerial x v => set_serial (<[x := v]> (e_serial s)) s
  | DelSerial x => set_serial (delete x (e_serial s)) s
  | DelSerials => set_serial ∅ s
  | PutSubject x v => set_subject (<[x := v]> (e_subject s)) s
  | DelSubject x => set_subject (delete x (e_subject s)) s
  | DelSubjects => set_subject ∅ s
  | PutHead h => set_head (Some (r, h)) s
  | DelHead => set_head None s
  | PutMarker p => set_marker (Some (r, p)) s
  | DelMarker => set_marker None s
  end.

(** A comparison; revision 0 stands for an absent key. *)
Inductive cmp :=
  | SeqRev (r : Z) | MarkerRev (r : Z) | HeadRev (r : Z) | EntryRev (n r : Z)
  | SerialAbsent (s : string) | MarkerPresent.
Definition rev_of {A} (kv : option (Z * A)) : Z := match kv with Some (r, _) => r | None => 0 end.
Definition value_of {A} (kv : option (Z * A)) : option A :=
  match kv with Some (_, v) => Some v | None => None end.
Definition holds (s : Etcd) (c : cmp) : bool :=
  match c with
  | SeqRev r => rev_of (e_seq s) =? r
  | MarkerRev r => rev_of (e_marker s) =? r
  | HeadRev r => rev_of (e_head s) =? r
  | EntryRev n r => rev_of (e_entries s !! n) =? r
  | SerialAbsent x => bool_decide (e_serial s !! x = None)
  | MarkerPresent => bool_decide (is_Some (e_marker s))
  end.

(** The server refuses a transaction of more than 128 writes, and one that
    writes a key twice. *)
Definition maxTxnOps : nat := 128.
Inductive key := KSeq | KEntry (n : Z) | KSerial (s : string) | KSubject (s : string) | KHead | KMarker.
#[global] Instance key_eq_dec : EqDecision key.
Proof. solve_decision. Defined.
Definition put_key (o : op) : option key :=
  match o with
  | PutSeq _ => Some KSeq
  | PutEntry n _ => Some (KEntry n)
  | PutSerial s _ => Some (KSerial s)
  | PutSubject s _ => Some (KSubject s)
  | PutHead _ => Some KHead
  | PutMarker _ => Some KMarker
  | _ => None
  end.
Definition acceptable_txn (ops : list op) : bool :=
  bool_decide (length ops <= maxTxnOps)%nat && bool_decide (NoDup (omap put_key ops)).

(** Whether the comparisons held, and the revision of the store after it. *)
Definition txn (cmps : list cmp) (ops : list op) (s : Etcd) : result (bool * Z) * Etcd :=
  if negb (acceptable_txn ops) then (Err (Msg "etcdserver: invalid txn request"), s)
  else if forallb (holds s) cmps then
    let r := e_rev s + 1 in (Ok (true, r), set_rev r (fold_left (apply_op r) ops s))
  else (Ok (false, e_rev s), s).

Notation etcd := (prog Etcd).
Definition reading {A} (f : Etcd -> A) : etcd A := request (fun s => (Ok (f s), s)).
Definition commit (cmps : list cmp) (ops : list op) : etcd (bool * Z) := request (txn cmps ops).

Definition etcdMaxTxnRetries : nat := 16.
Definition etcdImportBatch : nat := 32.
Definition etcdPruneBatch : nat := 30.
Definition etcdPruneMaxBatchesPerCall : nat := 30.

(** ** Reading *)

Definition entry_records (s : Etcd) : gmap Z inventoryRecordJSON := snd <$> e_entries s.
Definition readIndexedRecords : etcd (list indexedRecord * option (Z * Z)) :=
  reading (fun s => (ordered (entry_records s), e_seq s)).
Definition etcd_Entries : etcd (list InventoryEntry) :=
  r ← readIndexedRecords; mret (entriesOf r.1).
Definition etcd_LatestSerialForSubject (subject : string) : etcd string :=
  v ← reading (fun s => e_subject s !! subject);
  match v with
  | None => abort_with (not_exist "latest-serial")
  | Some serial => mret serial
  end.
Definition etcd_getInventory : etcd string :=
  r ← reading (fun s => (e_marker s, ordered (entry_records s)));
  let '(marker, recs) := r in
  match marker, recs with
  | None, [] => abort_with (not_exist "get")
  | Some (_, legacy), [] => mret legacy
  | _, _ => mret (renderInventoryText recs)
  end.

(** ** Appending *)

Definition append_ops (rec : CertRecord) (next : Z) (newHead : option (string -> string)) (prev : string)
    : list op :=
  [PutEntry next (encodeInventoryRecord rec); PutSeq next;
   PutSerial (ie_Serial (cr_entry rec)) (Some next);
   PutSubject (ie_Subject (cr_entry rec)) (ie_Serial (cr_entry rec)); PutMarker ""]
  ++ match newHead with None => [] | Some f => [PutHead (f prev)] end.

Fixpoint append_attempts (attempts : nat) (rec : CertRecord) (newHead : option (string -> string)) : etcd unit :=
  match attempts with
  | O => abort_with (too_many "inventory append")
  | S attempts =>
      let serial := ie_Serial (cr_entry rec) in
      r ← reading (fun s => (e_seq s, value_of (e_head s), e_serial s !! serial));
      let '(seq, head, dup) := r in
      if bool_decide (is_Some dup) then abort_with (Wrap serial [Sentinel ErrDuplicateSerial])
      else
        let next := counter_value (value_of seq) + 1 in
        done ← commit [SeqRev (rev_of seq); SerialAbsent serial]
                 (append_ops rec next newHead (default "" head));
        if (done.1 : bool) then mret tt
        else _ ← backoff; append_attempts attempts rec newHead
  end.
Definition etcd_AppendEntry (rec : CertRecord) (newHead : option (string -> string)) : etcd unit :=
  append_attempts etcdMaxTxnRetries rec newHead.

(** ** Pruning *)

Definition drop_bearer (b : string -> Z) (s : string) : string -> Z := fun s' =>
  if bool_decide (s' = s) then b s' - 1 else b s'.

Definition delete_record (acc : (string -> Z) * list op) (r : indexedRecord) : (string -> Z) * list op :=
  let '(bearers, ops) := acc in
  let bearers := drop_bearer bearers (rj_serial r.2) in
  (bearers, ops ++ [DelEntry r.1]
            ++ (if bearers (rj_serial r.2) =? 0 then [DelSerial (rj_serial r.2)] else [])).

(** What a certname's pointer becomes once the records from [cut] on are pruned:
    the last record before, or the last survivor after. *)
Definition repoint (recs survivors : list indexedRecord) (cut : Z) (subject : string) : op :=
  let mine := fun r : indexedRecord => bool_decide (rj_subject r.2 = subject) in
  let before := last_match (fun r => mine r && (r.1 <? cut)) recs in
  let '(latest, latestSeq) := match before with
                              | Some r => (rj_serial r.2, r.1)
                              | None => ("", 0)
                              end in
  let latest := match last_match mine survivors with
                | Some lv => if (cut <? lv.1) && (latestSeq <? lv.1) then rj_serial lv.2 else latest
                | None => latest
                end in
  if bool_decide (latest = "") then DelSubject subject else PutSubject subject latest.

(** The head over the records before [cut] and the survivors after it. *)
Definition pruned_head (advanceHead : string -> InventoryEntry -> string)
    (recs survivors : list indexedRecord) (cut : Z) : string :=
  let prefix := fold_left advanceHead (entriesOf (base.filter (fun r => r.1 < cut) recs)) "" in
  fold_left advanceHead (entriesOf (base.filter (fun r => cut < r.1) survivors)) prefix.

Definition prune_ops (recs survivors : list indexedRecord)
    (advanceHead : option (string -> InventoryEntry -> string)) (seqVal : Z)
    (bearers : string -> Z) (batch : list indexedRecord) (cut : Z) : (string -> Z) * list op :=
  let '(bearers, deletes) := fold_left delete_record batch (bearers, []) in
  (bearers,
   deletes
   ++ map (repoint recs survivors cut) (remove_dups (map (fun r => rj_subject r.2) batch))
   ++ match advanceHead with
      | None => []
      | Some f => [PutHead (pruned_head f recs survivors cut)]
      end
   ++ [PutSeq seqVal]).

(** The batches still to do, in the order they are committed; [committed] is
    what has been removed so far. *)
Fixpoint prune_batches (recs survivors : list indexedRecord)
    (advanceHead : option (string -> InventoryEntry -> string)) (seqVal : Z)
    (batches : list (list indexedRecord)) (seqRev : Z) (bearers : string -> Z)
    (committed : list indexedRecord) (count : nat)
    : etcd (list indexedRecord * nat * bool * option error) :=
  match batches with
  | [] => mret (committed, count, false, None)
  | batch :: batches =>
      let cut := match batch with r :: _ => r.1 | [] => 0 end in
      let '(bearers, ops) := prune_ops recs survivors advanceHead seqVal bearers batch cut in
      Call (txn [SeqRev seqRev] ops) (fun r =>
        match r with
        | Err e => mret (committed, count, false, Some e)
        | Ok (false, _) => mret (committed, count, true, None)
        | Ok (true, rev) =>
            prune_batches recs survivors advanceHead seqVal batches rev bearers
              (batch ++ committed) (S count)
        end)
  end.

(** One attempt: the records removed, the batches committed, whether it met a
    conflict, and the error it stopped at. *)
Definition pruneEntriesOnce (keep : InventoryEntry -> bool)
    (advanceHead : option (string -> InventoryEntry -> string)) (maxBatches : nat)
    : etcd (list indexedRecord * nat * bool * option error) :=
  Call (fun s => (Ok (ordered (entry_records s), e_seq s), s)) (fun r =>
    match r with
    | Err e => mret ([], 0%nat, false, Some e)
    | Ok (recs, seq) =>
        let survivors := base.filter (fun r => keep (rj_entry r.2) = true) recs in
        let removed := base.filter (fun r => keep (rj_entry r.2) = false) recs in
        if bool_decide (removed = []) then mret ([], 0%nat, false, None)
        else
          let seqVal := match seq with
                        | Some (_, n) => n
                        | None => match last recs with Some r => r.1 | None => 0 end
                        end in
          let batches := take maxBatches (rev (chunks (length removed) etcdPruneBatch removed)) in
          prune_batches recs survivors advanceHead seqVal batches (rev_of seq) (bearers_of recs) [] 0
    end).

(** The removed entries are reported even when a later batch fails. *)
Fixpoint prune_attempts (attempts budget : nat) (keep : InventoryEntry -> bool)
    (advanceHead : option (string -> InventoryEntry -> string)) (all : list indexedRecord)
    : etcd (list InventoryEntry * option error) :=
  let finish all := entriesOf (merge_sort seq_le all) in
  match attempts with
  | O => mret (finish all, Some (too_many "inventory prune"))
  | S attempts =>
      r ← pruneEntriesOnce keep advanceHead budget;
      let '(committed, batches, conflict, err) := r in
      let all := all ++ committed in
      let budget := (budget - batches)%nat in
      match err with
      | Some e => mret (finish all, Some e)
      | None =>
          if negb conflict || bool_decide (budget = 0%nat) then mret (finish all, None)
          else Call (fun s => (Ok tt, s)) (fun w =>
            match w with
            | Err e => mret (finish all, Some e)
            | Ok _ => prune_attempts attempts budget keep advanceHead all
            end)
      end
  end.
Definition etcd_PruneEntries (keep : InventoryEntry -> bool)
    (advanceHead : option (string -> InventoryEntry -> string)) : etcd (list InventoryEntry * option error) :=
  prune_attempts etcdMaxTxnRetries etcdPruneMaxBatchesPerCall keep advanceHead [].

(** ** Certificate index (etcd_certindex.go) *)

Definition etcd_Statuses (stateFilter : option CertState) : etcd (list CertRecord) :=
  stored ← reading e_certs;
  if bool_decide (stored = ∅) then mret []
  else
    r ← reading (fun s => (ordered (entry_records s), e_serial s));
    mret (latestPerSubject r.1 stored (fun serial => bool_decide (r.2 !! serial = Some None)) stateFilter).

Fixpoint mutate_attempts (attempts : nat) (serial : string) (mutate : CertRecord -> option CertRecord) : etcd unit :=
  match attempts with
  | O => abort_with (too_many "updating inventory record")
  | S attempts =>
      v ← reading (fun s => e_serial s !! serial);
      match v with
      | None | Some None => mret tt
      | Some (Some seq) =>
          entry ← reading (fun s => e_entries s !! seq);
          match entry with
          | None => mret tt
          | Some (rev, json) =>
              match mutate (decodeInventoryRecord json) with
              | None => mret tt
              | Some rec =>
                  done ← commit [EntryRev seq rev] [PutEntry seq (encodeInventoryRecord rec)];
                  if (done.1 : bool) then mret tt
                  else _ ← backoff; mutate_attempts attempts serial mutate
              end
          end
      end
  end.
Definition mutateRecordBySerial (serial : string) (mutate : CertRecord -> option CertRecord) : etcd unit :=
  mutate_attempts etcdMaxTxnRetries serial mutate.

Definition etcd_SetRevoked (serial : string) (at_ : Time) : etcd unit :=
  mutateRecordBySerial serial (mark_revoked at_).
Definition etcd_ClearRevoked (serial : string) : etcd unit := mutateRecordBySerial serial mark_signed.
Definition etcd_SetProjection (serial : string) (p : CertProjection) : etcd unit :=
  mutateRecordBySerial serial (with_projection p).

(** ** Invariant and contract *)

Definition etcd_entries (s : Etcd) : gmap Z InventoryEntry := rj_entry <$> entry_records s.
Definition etcd_view (s : Etcd) : list InventoryEntry := (ordered (etcd_entries s)).*2.
Definition etcd_counter (s : Etcd) : option Z := value_of (e_seq s).
Definition etcd_head (s : Etcd) : string := default "" (value_of (e_head s)).

(** [K] is the HMAC key, if integrity is on. *)
Record wf (K : option string) (s : Etcd) : Prop := Wf {
  wf_indexed : indexed (etcd_entries s) (e_serial s) (e_subject s) (etcd_counter s);
  wf_counter : 0 <= counter_value (etcd_counter s);
  wf_named : forall n e, etcd_entries s !! n = Some e -> ie_Serial e <> "";
  wf_revs : rev_of (e_seq s) <= e_rev s /\ 0 <= e_rev s;
  wf_entry_revs : forall n r v, e_entries s !! n = Some (r, v) -> 0 < r <= e_rev s;
  wf_chain : forall k, K = Some k -> etcd_head s = chain_from k "" (etcd_view s) }.

(** What the inventory consists of, projections and states apart. *)
Definition content (s : Etcd) :=
  (etcd_entries s, e_serial s, e_subject s, etcd_counter s, etcd_head s).

(** A record under a revision of the past is as it was then. *)
Definition entries_stable (s s' : Etcd) : Prop :=
  forall n r v, e_entries s' !! n = Some (r, v) -> e_rev s < r \/ e_entries s !! n = Some (r, v).

(** What every replica may do between two requests of another: keep the
    invariant, and renew the counter's revision with every change. *)
Definition rely (K : option string) (s s' : Etcd) : Prop :=
  e_rev s <= e_rev s' /\ entries_stable s s' /\
  (wf K s -> wf K s' /\
     ((rev_of (e_seq s') = rev_of (e_seq s) /\ content s' = content s) \/
      e_rev s < rev_of (e_seq s'))).
#[global] Instance rely_preorder K : PreOrder (rely K).
Proof.
  split.
  - intros s. split; [lia|]. split; [intros n r v; by right|]. intros H. split; [done|]. by left.
  - intros a b c (R1 & S1 & H1) (R2 & S2 & H2). split; [lia|]. split.
    { intros n r v H. destruct (S2 _ _ _ H) as [?|H']; [left; lia|]. by apply S1. }
    intros Ha. destruct (H1 Ha) as [Hb D1].
    destruct (H2 Hb) as [Hc D2]. split; [done|].
    destruct D1 as [[E1 C1]|L1], D2 as [[E2 C2]|L2]; [left; split; congruence|right; lia..].
Qed.

(** A request guarded by the counter's revision sees what was read. *)
Lemma guard_content K s s' r :
  wf K s -> rely K s s' -> rev_of (e_seq s) = r -> holds s' (SeqRev r) = true ->
  content s' = content s /\ wf K s'.
Proof.
  intros Hwf (_ & _ & H) Hr Hh. destruct (H Hwf) as [Hwf' [[_ C]|L]]; [done|].
  cbn [holds] in Hh. apply Z.eqb_eq in Hh. destruct (wf_revs _ _ Hwf). lia.
Qed.

(** *** Appending *)

Lemma etcd_view_snoc (m : gmap Z InventoryEntry) n e :
  ordered (<[n := e]> m) = ordered m ++ [(n, e)] ->
  (ordered (<[n := e]> m)).*2 = (ordered m).*2 ++ [e].
Proof. intros ->. by rewrite fmap_app. Qed.

Definition appended (rec : CertRecord) (newHead : option (string -> string)) (s : Etcd) : Etcd :=
  let r := e_rev s + 1 in
  set_rev r (fold_left (apply_op r)
    (append_ops rec (counter_value (etcd_counter s) + 1) newHead (etcd_head s)) s).

Lemma appended_wf K rec s :
  wf K s -> e_serial s !! ie_Serial (cr_entry rec) = None -> ie_Serial (cr_entry rec) <> "" ->
  let s' := appended rec ((fun k => advance k (cr_entry rec)) <$> K) s in
  wf K s' /\ spec_append (cr_entry rec) (etcd_view s) = Some (etcd_view s') /\
  rev_of (e_seq s') = e_rev s + 1 /\ e_rev s' = e_rev s + 1 /\ entries_stable s s'.
Proof.
  intros [Hix Hc Hn Hr Her Hchain] Hf Hs s'.
  destruct (indexed_append _ _ _ _ (cr_entry rec) Hix Hf Hc) as [Hix' Ho].
  set (n := counter_value (etcd_counter s) + 1) in *.
  assert (etcd_entries s' = <[n := cr_entry rec]> (etcd_entries s)) as He.
  { unfold s', appended, etcd_entries, entry_records. destruct K; cbn; by rewrite !fmap_insert. }
  assert (etcd_view s' = etcd_view s ++ [cr_entry rec]) as Hv.
  { unfold etcd_view. rewrite He. by apply etcd_view_snoc. }
  assert (rev_of (e_seq s') = e_rev s + 1 /\ e_rev s' = e_rev s + 1) as [R1 R2].
  { unfold s', appended. by destruct K. }
  assert (forall x r v, e_entries s' !! x = Some (r, v) -> r = e_rev s + 1 \/ e_entries s !! x = Some (r, v)) as Hst.
  { intros x r v. assert (e_entries s' = <[n := (e_rev s + 1, encodeInventoryRecord rec)]> (e_entries s)) as ->
      by (unfold s', appended; by destruct K).
    intros [[_ [= <- _]]|[_ H]]%lookup_insert_Some; auto. }
  split; [|split; [rewrite Hv; by eapply spec_append_fresh|]; split_and!; [done..|]].
  2:{ intros x r v [->|?]%Hst; [left; lia|by right]. }
  split.
  - rewrite He. unfold s', appended. by destruct K.
  - unfold s', appended. destruct K; cbn; lia.
  - intros x e. rewrite He. intros [[<- <-]|[_ H]]%lookup_insert_Some; [done|by eapply Hn].
  - lia.
  - intros x r v [->|H]%Hst; [lia|]. apply Her in H. lia.
  - intros k ->. rewrite Hv, chain_snoc. rewrite <- (Hchain k) by done. done.
Qed.

Lemma append_ops_acceptable rec n newHead prev : acceptable_txn (append_ops rec n newHead prev) = true.
Proof.
  unfold acceptable_txn, append_ops. apply andb_true_iff. rewrite !bool_decide_eq_true.
  destruct newHead; cbn; (split; [unfold maxTxnOps; lia|]); repeat constructor;
    rewrite ?elem_of_cons, ?elem_of_nil; naive_solver.
Qed.

Lemma append_attempts_wp K rec attempts s0 s :
  wf K s0 -> rely K s0 s -> ie_Serial (cr_entry rec) <> "" ->
  wp (rely K) (append_attempts attempts rec ((fun k => advance k (cr_entry rec)) <$> K))
    (fun r s' => rely K s0 s' /\
       (r = Ok tt -> exists t, rely K s0 t /\ spec_append (cr_entry rec) (etcd_view t) = Some (etcd_view s'))) s.
Proof.
  intros Hwf Hs Hne. revert s Hs. induction attempts as [|attempts IH]; intros s Hs; [done|].
  cbn [append_attempts]. apply wp_mbind, wp_read; [apply _|]. intros s1 H1.
  assert (rely K s0 s1) as R1 by (by etrans). split; [|done].
  case_bool_decide as Hdup; [done|]. apply eq_None_not_Some in Hdup.
  apply wp_mbind, wp_request; [apply _|]. intros s2 H2. assert (rely K s0 s2) as R2 by (by etrans).
  destruct (proj2 (proj2 R1) Hwf) as [Hwf1 _].
  unfold txn. rewrite append_ops_acceptable. cbn [negb].
  destruct (forallb _ _) eqn:Hg; cbn [fst snd].
  2:{ split; [done|]. split; [|done]. apply wp_mbind, wp_read; [apply _|]. intros s3 H3.
      assert (rely K s0 s3) as R3 by (by etrans). split; [by apply IH|done]. }
  cbn [forallb] in Hg. apply andb_true_iff in Hg as [Hg Hg2]. apply andb_true_iff in Hg2 as [Hg2 _].
  cbn [holds] in Hg2. apply bool_decide_eq_true_1 in Hg2.
  destruct (guard_content K s1 s2 (rev_of (e_seq s1)) Hwf1 H2 eq_refl Hg) as [C Hwf2].
  injection C as C1 C2 C3 C4 C5.
  replace (counter_value (value_of (e_seq s1))) with (counter_value (etcd_counter s2)) by (by rewrite C4).
  change (default "" (value_of (e_head s1))) with (etcd_head s1). rewrite <- C5.
  destruct (appended_wf K rec s2 Hwf2 Hg2 Hne) as (W & Hspec & Hr1 & Hr2 & Hst).
  unfold appended in *. set (s' := set_rev _ _) in *.
  assert (rely K s2 s') as R'.
  { split; [lia|]. split; [done|]. intros _. split; [done|]. right. lia. }
  assert (rely K s0 s') as R0 by (by etrans). split; [done|].
  split; [|by intros e]. split; [done|]. intros _. by exists s2.
Qed.

(** *** Index writes *)

Lemma put_same_entry K s n r v v' :
  wf K s -> e_entries s !! n = Some (r, v) -> rj_entry v' = rj_entry v ->
  let s' := set_rev (e_rev s + 1) (apply_op (e_rev s + 1) s (PutEntry n v')) in
  wf K s' /\ content s' = content s /\ entries_stable s s'.
Proof.
  intros [Hix Hc Hn Hr Her Hchain] He Hv s'.
  assert (etcd_entries s' = etcd_entries s) as E.
  { unfold s', etcd_entries, entry_records. cbn. rewrite !fmap_insert. cbn [snd]. rewrite Hv.
    apply insert_id. by rewrite !lookup_fmap, He. }
  assert (etcd_view s' = etcd_view s) as Ev by (unfold etcd_view; by rewrite E).
  split; [|split].
  - split; [by rewrite E|done|by rewrite E|cbn; lia| |by rewrite Ev].
    intros x r' w. cbn. intros [[_ [= <- _]]|[_ H]]%lookup_insert_Some; [lia|]. apply Her in H. lia.
  - unfold content. by rewrite E.
  - intros x r' w. cbn. intros [[_ [= <- _]]|[_ H]]%lookup_insert_Some; [left; lia|by right].
Qed.

Lemma mutate_attempts_wp K serial mutate attempts s0 s :
  same_entry mutate -> wf K s0 -> rely K s0 s ->
  wp (rely K) (mutate_attempts attempts serial mutate) (fun _ s' => rely K s0 s') s.
Proof.
  intros Hsame Hwf. revert s. induction attempts as [|attempts IH]; intros s Hs; [done|].
  cbn [mutate_attempts]. apply wp_mbind, wp_read; [apply _|]. intros s1 H1.
  assert (rely K s0 s1) as R1 by (by etrans). split; [|done].
  destruct (e_serial s1 !! serial) as [[seq|]|]; [|done..].
  apply wp_mbind, wp_read; [apply _|]. intros s2 H2. assert (rely K s0 s2) as R2 by (by etrans). split; [|done].
  destruct (e_entries s2 !! seq) as [[rv json]|] eqn:He; [|done].
  destruct (mutate _) as [rec|] eqn:Hm; [|done].
  apply wp_mbind, wp_request; [apply _|]. intros s3 H3. assert (rely K s0 s3) as R3 by (by etrans).
  unfold txn. change (acceptable_txn [PutEntry seq (encodeInventoryRecord rec)]) with true.
  cbn [negb forallb holds].
  destruct (rev_of (e_entries s3 !! seq) =? rv) eqn:Hg; cbn [andb fst snd].
  2:{ split; [done|]. split; [|done]. apply wp_mbind, wp_read; [apply _|]. intros s4 H4.
      assert (rely K s0 s4) as R4 by (by etrans). split; [by apply IH|done]. }
  apply Z.eqb_eq in Hg. destruct (proj2 (proj2 R2) Hwf) as [Hwf2 _]. destruct (proj2 (proj2 R3) Hwf) as [Hwf3 _].
  assert (0 < rv <= e_rev s2) as Hrv by (by eapply wf_entry_revs).
  destruct (e_entries s3 !! seq) as [[rv3 json3]|] eqn:He3; [|simpl in Hg; lia]. simpl in Hg. subst rv3.
  assert (json3 = json) as ->.
  { destruct (proj1 (proj2 H3) _ _ _ He3) as [?|?]; [lia|congruence]. }
  destruct (put_same_entry K s3 seq rv json (encodeInventoryRecord rec) Hwf3 He3) as (W & C & St).
  { cbn. rewrite (Hsame _ _ Hm). done. }
  cbn [fold_left] in *. set (s' := set_rev _ _) in *.
  assert (rely K s3 s') as R'.
  { split; [cbn; lia|]. split; [done|]. intros _. split; [done|]. by left. }
  assert (rely K s0 s') as R0 by (by etrans). split; [done|]. split; [done|]. by intros e.
Qed.
