(* ===== verification/EtcdPrune.v ===== *)
(** * Pruning on etcd

    A prune is committed in batches, the newest records first, so that a crash
    or a conflict between two batches leaves an inventory whose indices and
    integrity head are those of the records that are left.  The theorems hold
    for every interleaving with other replicas and every lost request. *)

From S2P Require Import Prelude GoStrings GoTime X509 Inventory Storage Concurrent Records InventorySpec Numbered Etcd.

(** ** Sorted records *)

Lemma plain_ordered s : ordered (etcd_entries s) = map plain (ordered (entry_records s)).
Proof. unfold etcd_entries. rewrite ordered_fmap. apply list_fmap_ext. by intros ? []. Qed.

(** ** The effect of a batch's deletions *)

Fixpoint deletes (b : string -> Z) (batch : list indexedRecord) : list op :=
  match batch with
  | [] => []
  | r :: batch =>
      let b := drop_bearer b (rj_serial r.2) in
      DelEntry r.1 :: (if b (rj_serial r.2) =? 0 then [DelSerial (rj_serial r.2)] else []) ++ deletes b batch
  end.

Lemma delete_record_fold batch b ops :
  exists b', fold_left delete_record batch (b, ops) = (b', ops ++ deletes b batch) /\
             forall s, b' s = b s - bearers_of batch s.
Proof.
  revert b ops. induction batch as [|r batch IH]; intros b ops.
  { exists b. rewrite app_nil_r. split; [done|]. intros s. unfold bearers_of. simpl. lia. }
  cbn [fold_left delete_record deletes].
  destruct (IH (drop_bearer b (rj_serial r.2)) (ops ++ [DelEntry r.1] ++
    (if drop_bearer b (rj_serial r.2) (rj_serial r.2) =? 0 then [DelSerial (rj_serial r.2)] else []))) as (b' & -> & Hb).
  exists b'. split; [by rewrite <- !app_assoc|]. intros s. rewrite Hb, bearers_of_cons. unfold drop_bearer.
  case_bool_decide; lia.
Qed.

Lemma deletes_length b batch : (length (deletes b batch) <= 2 * length batch)%nat.
Proof.
  revert b. induction batch as [|r batch IH]; intros b; [done|]. cbn [deletes length].
  rewrite length_app. specialize (IH (drop_bearer b (rj_serial r.2))). destruct (_ =? 0); simpl; lia.
Qed.

Lemma deletes_put_nothing b batch : omap put_key (deletes b batch) = [].
Proof.
  revert b. induction batch as [|r batch IH]; intros b; [done|]. cbn [deletes].
  rewrite list_omap_cons, omap_app, IH. cbn [put_key]. by destruct (_ =? 0).
Qed.

Lemma deletes_apply rv batch : forall b s,
  (forall x, bearers_of batch x <= b x) ->
  let s' := fold_left (apply_op rv) (deletes b batch) s in
  e_entries s' = base.filter (fun x => x.1 ∉ batch.*1) (e_entries s) /\
  (forall x, e_serial s' !! x = if decide (0 < bearers_of batch x /\ bearers_of batch x = b x) then None
                                else e_serial s !! x) /\
  e_subject s' = e_subject s /\ e_head s' = e_head s /\ e_rev s' = e_rev s.
Proof.
  induction batch as [|r batch IH]; intros b s Hb.
  { cbn. split; [|split; [|done]].
    - symmetry. apply map_filter_id. intros. simpl. apply not_elem_of_nil.
    - intros x. by rewrite decide_False by (unfold bearers_of; simpl; lia). }
  cbn [deletes fold_left]. set (b1 := drop_bearer b (rj_serial r.2)).
  assert (forall x, bearers_of (r :: batch) x = bearers_of batch x + (b x - b1 x)) as Hcons.
  { intros x. rewrite bearers_of_cons. unfold b1, drop_bearer. case_bool_decide; lia. }
  rewrite fold_left_app. set (s1 := fold_left (apply_op rv) (if b1 (rj_serial r.2) =? 0 then _ else _) _).
  destruct (IH b1 s1) as (He & Hs & Hj & Hh & Hr).
  { intros x. specialize (Hb x). rewrite Hcons in Hb. lia. }
  assert (e_entries s1 = delete r.1 (e_entries s)) as E1 by (unfold s1; by destruct (_ =? 0)).
  split; [|split; [|rewrite Hj, Hh, Hr; unfold s1; by destruct (_ =? 0)]].
  - rewrite He, E1. apply map_eq. intros n. apply option_eq. intros v.
    rewrite !map_lookup_filter_Some, lookup_delete_Some. cbn [fmap list_fmap fst]. rewrite elem_of_cons. naive_solver.
  - intros x. rewrite Hs, Hcons. destruct (decide (x = rj_serial r.2)) as [->|Hne].
    + assert (b1 (rj_serial r.2) = b (rj_serial r.2) - 1) as Hb1 by (unfold b1, drop_bearer; by rewrite bool_decide_eq_true_2).
      unfold s1. destruct (Z.eqb_spec (b1 (rj_serial r.2)) 0) as [Hz|Hz].
      * cbn [fold_left apply_op set_serial set_entries e_serial]. rewrite lookup_delete_eq.
        specialize (Hb (rj_serial r.2)). rewrite Hcons in Hb.
        assert (0 <= bearers_of batch (rj_serial r.2)) by (unfold bearers_of; lia).
        repeat case_decide; try done; lia.
      * cbn [fold_left apply_op set_entries e_serial]. assert (0 <= bearers_of batch (rj_serial r.2)) by (unfold bearers_of; lia).
        repeat case_decide; try done; lia.
    + assert (b1 x = b x) as Hb1 by (unfold b1, drop_bearer; by rewrite bool_decide_eq_false_2).
      rewrite Hb1, Z.sub_diag, Z.add_0_r. case_decide; [done|]. unfold s1.
      destruct (_ =? 0); [|done]. cbn. by rewrite lookup_delete_ne.
Qed.

(** ** The certnames' pointers *)

Lemma last_match_above {A} (p : Z * A -> bool) l c :
  StronglySorted seq_le l ->
  last_match p (base.filter (fun r => c < r.1) l) =
    match last_match p l with Some lv => if c <? lv.1 then Some lv else None | None => None end.
Proof.
  intros Hs. rewrite (sorted_split l (c + 1) Hs) at 2. rewrite last_match_app.
  assert (base.filter (fun r => c < r.1) l = base.filter (fun r => c + 1 <= r.1) l) as ->
    by (apply list_filter_iff; intros; lia).
  destruct (last_match p (base.filter (fun r => c + 1 <= r.1) l)) as [x|] eqn:E.
  - apply last_match_Some in E as [[H _]%list_elem_of_filter _]. by rewrite (proj2 (Z.ltb_lt _ _)) by lia.
  - destruct (last_match p (base.filter (fun r => r.1 < c + 1) l)) as [y|] eqn:E'; [|done].
    apply last_match_Some in E' as [[H _]%list_elem_of_filter _]. by rewrite (proj2 (Z.ltb_ge _ _)) by lia.
Qed.

Definition point (subject : string) (latest : option string) : op :=
  match latest with None => DelSubject subject | Some v => PutSubject subject v end.

Lemma repoint_spec recs survivors cut s :
  StronglySorted seq_le survivors -> 1 <= cut ->
  (forall r, r ∈ recs \/ r ∈ survivors -> rj_serial r.2 <> "") ->
  repoint recs survivors cut s =
  point s (latest_of s (map plain
    (base.filter (fun r => r.1 < cut) recs ++ base.filter (fun r => cut < r.1) survivors))).
Proof.
  intros Hs Hcut Hser. rewrite latest_of_plain, last_match_app, (last_match_above (names s) survivors cut Hs).
  unfold repoint.
  assert (last_match (fun r => bool_decide (rj_subject r.2 = s) && (r.1 <? cut)) recs =
          last_match (names s) (base.filter (fun r => r.1 < cut) recs)) as ->.
  { unfold last_match. rewrite list_filter_filter. f_equal. apply list_filter_iff. intros r.
    unfold names. rewrite andb_true_iff, Z.ltb_lt. tauto. }
  change (fun r : indexedRecord => bool_decide (rj_subject r.2 = s)) with (names s).
  destruct (last_match (names s) (base.filter _ recs)) as [b|] eqn:Eb;
    [apply last_match_Some in Eb as [[Hb Hbin]%list_elem_of_filter _]|];
    (destruct (last_match (names s) survivors) as [lv|] eqn:El; [apply last_match_Some in El as [Hlin _]|]);
    try destruct (Z.ltb_spec cut lv.1); cbn [andb fmap option_fmap option_map];
    rewrite ?(proj2 (Z.ltb_lt _ _)) by lia; rewrite ?bool_decide_eq_false_2 by (apply Hser; auto);
    rewrite ?bool_decide_eq_true_2 by done; done.
Qed.

Lemma point_keys (f : string -> option string) subs :
  omap put_key (map (fun z => point z (f z)) subs) = KSubject <$> base.filter (fun z => is_Some (f z)) subs.
Proof.
  induction subs as [|x subs IH]; [done|]. cbn [map]. rewrite list_omap_cons, filter_cons, IH.
  destruct (f x); cbn [point put_key].
  - by rewrite decide_True by done.
  - by rewrite decide_False by (by intros []).
Qed.

Lemma point_apply rv (f : string -> option string) subs : forall s,
  let s' := fold_left (apply_op rv) (map (fun z => point z (f z)) subs) s in
  (forall z, e_subject s' !! z = if decide (z ∈ subs) then f z else e_subject s !! z) /\
  e_entries s' = e_entries s /\ e_serial s' = e_serial s /\ e_head s' = e_head s /\ e_rev s' = e_rev s.
Proof.
  induction subs as [|x subs IH]; intros s; cbn [map fold_left]; [done|].
  destruct (IH (apply_op rv s (point x (f x)))) as (Hz & He & Hs & Hh & Hr).
  split; [|rewrite He, Hs, Hh, Hr; by destruct (f x)].
  intros z. rewrite Hz. destruct (decide (z ∈ subs)).
  { by rewrite decide_True by (by right). }
  destruct (decide (z = x)) as [->|Hne].
  - rewrite decide_True by (by left). destruct (f x); cbn; [by rewrite lookup_insert_eq|by rewrite lookup_delete_eq].
  - rewrite decide_False by (rewrite elem_of_cons; naive_solver).
    destruct (f x); cbn; [by rewrite lookup_insert_ne|by rewrite lookup_delete_ne].
Qed.

(** ** One batch *)

Section Batch.
Context (K : option string) (keep : InventoryEntry -> bool) (s1 : Etcd) (Hwf1 : wf K s1) (seqVal : Z).

Notation recs := (ordered (entry_records s1)).
Notation survivors := (surviving keep recs).

Lemma recs_lookup r : r ∈ recs <-> entry_records s1 !! r.1 = Some r.2.
Proof. destruct r. apply elem_of_ordered. Qed.

Lemma recs_sound r : r ∈ recs -> rj_serial r.2 <> "" /\ 1 <= r.1.
Proof.
  intros Hr%recs_lookup. assert (etcd_entries s1 !! r.1 = Some (rj_entry r.2)) as He
    by (unfold etcd_entries; by rewrite lookup_fmap, Hr).
  split; [by eapply wf_named|]. eapply indexed_below in He; [|by apply wf_indexed with K]. lia.
Qed.

(** The store once the records of [gone], and no others, have been removed. *)
Record stage (gone : list indexedRecord) (t : Etcd) : Prop := Stage {
  stage_wf : wf K t;
  stage_entries : etcd_entries t = base.filter (fun x => x.1 ∉ gone.*1) (etcd_entries s1);
  stage_counter : etcd_counter t = Some seqVal }.

Lemma left_after_plain gone :
  ordered (base.filter (fun x => x.1 ∉ gone.*1) (etcd_entries s1)) = map plain (left_after recs gone).
Proof. by rewrite ordered_filter, plain_ordered, filter_fmap_list. Qed.

Lemma stage_ordered gone t : stage gone t -> ordered (etcd_entries t) = map plain (left_after recs gone).
Proof. intros H. by rewrite (stage_entries _ _ H), left_after_plain. Qed.

Section Commit.
Context (front batch gone : list indexedRecord) (x : indexedRecord) (b : string -> Z) (t : Etcd).
Context (Hrej : rejected keep recs = front ++ (x :: batch) ++ gone) (Ht : stage gone t).
Context (Hb : forall s, b s = bearers_of (left_after recs gone) s).

Notation batch' := (x :: batch).
Notation kept := (left_after recs (batch' ++ gone)).

Lemma batch_fresh : (forall r, r ∈ batch' -> r ∈ recs /\ r.1 ∉ gone.*1) /\ NoDup batch'.*1.
Proof.
  destruct (rejected_sorted keep recs (ordered_sorted _) (ordered_NoDup _)) as [_ Hd].
  rewrite Hrej, !fmap_app in Hd. apply NoDup_app in Hd as (_ & _ & Hd). apply NoDup_app in Hd as (Hd & Hn & _).
  split; [|done]. intros r Hr. split; [|by apply Hn, list_elem_of_fmap_2].
  assert (r ∈ rejected keep recs) as [_ H]%list_elem_of_filter; [|done].
  rewrite Hrej, !elem_of_app. auto.
Qed.

Lemma kept_cut :
  kept = base.filter (fun r => r.1 < x.1) recs ++ base.filter (fun r => x.1 < r.1) survivors.
Proof. eapply left_after_cut; [apply ordered_sorted|apply ordered_NoDup|]. by rewrite Hrej. Qed.

Lemma bearers_left s : bearers_of (left_after recs gone) s = bearers_of batch' s + bearers_of kept s.
Proof. destruct batch_fresh. apply bearers_of_batch; [apply ordered_NoDup|done..]. Qed.

Lemma pointers_spec subs :
  map (repoint recs survivors x.1) subs = map (fun z => point z (latest_of z (map plain kept))) subs.
Proof.
  apply map_ext. intros z. rewrite kept_cut. apply repoint_spec.
  - apply sorted_filter, ordered_sorted.
  - apply recs_sound, batch_fresh. by left.
  - intros r [Hr|[_ Hr]%list_elem_of_filter]; by apply recs_sound.
Qed.

(** A certname without a record in the batch keeps its latest record. *)
Lemma latest_kept z :
  z ∉ map (fun r => rj_subject r.2) batch' ->
  latest_of z (map plain kept) = latest_of z (map plain (left_after recs gone)).
Proof.
  intros Hz. rewrite !latest_of_plain. f_equal. unfold last_match, left_after. f_equal.
  rewrite !list_filter_filter. apply filter_ext_elem. intros r Hr. rewrite fmap_app, elem_of_app. split; [naive_solver|].
  intros [Hn Hg]. split; [done|]. intros [Hk|]; [|done]. apply list_elem_of_fmap in Hk as (y & Ey & Hy).
  assert (r = y) as -> by (apply (unique_key recs); [apply ordered_NoDup|done|by apply batch_fresh|done]).
  apply Hz, list_elem_of_fmap. exists y. split; [|done]. by apply bool_decide_eq_true_1 in Hn.
Qed.

Definition batch_ops : list op :=
  deletes b batch'
  ++ map (fun z => point z (latest_of z (map plain kept))) (remove_dups (map (fun r => rj_subject r.2) batch'))
  ++ match K with
     | None => []
     | Some k => [PutHead (chain_from k "" (entriesOf kept))]
     end
  ++ [PutSeq seqVal].

Lemma prune_ops_spec :
  exists b', prune_ops recs survivors (head_fold K) seqVal b batch' x.1 = (b', batch_ops) /\
             forall s, b' s = bearers_of kept s.
Proof.
  unfold prune_ops, batch_ops. destruct (delete_record_fold batch' b []) as (b' & -> & Hb').
  exists b'. split.
  - rewrite pointers_spec. do 3 f_equal. unfold head_fold. destruct K as [k|]; [|done]. cbn [fmap option_fmap option_map].
    do 2 f_equal. unfold pruned_head. rewrite kept_cut. unfold entriesOf. rewrite map_app, chain_from_app. done.
  - intros s. rewrite Hb', Hb, bearers_left. lia.
Qed.

Lemma batch_acceptable : (length batch' <= etcdPruneBatch)%nat ->
  acceptable_txn batch_ops = true /\ (length batch_ops <= 3 * etcdPruneBatch + 2)%nat.
Proof.
  intros Hlen. pose proof (deletes_length b batch') as Hd. cbn [length] in Hd.
  assert (length (remove_dups (map (fun r => rj_subject r.2) batch')) <= length batch')%nat as Hsub.
  { rewrite <- (length_map (fun r => rj_subject r.2) batch'). apply submseteq_length, NoDup_submseteq.
    - apply NoDup_remove_dups.
    - intros z. by rewrite elem_of_remove_dups. }
  cbn [length] in Hlen. unfold etcdPruneBatch in *.
  assert (length batch_ops <= 92)%nat as Hl.
  { unfold batch_ops. rewrite !length_app, length_map. cbn [length] in *. destruct K; cbn [length]; lia. }
  split; [|lia]. unfold acceptable_txn. apply andb_true_iff. rewrite !bool_decide_eq_true.
  split; [unfold maxTxnOps; lia|]. unfold batch_ops. rewrite omap_app, deletes_put_nothing, omap_app. cbn [app].
  apply NoDup_app. split; [|split].
  - rewrite point_keys. apply NoDup_fmap_2; [by intros ?? [= ->]|]. apply NoDup_filter, NoDup_remove_dups.
  - rewrite point_keys. intros k (z & -> & _)%list_elem_of_fmap.
    destruct K; cbn; rewrite ?elem_of_cons, elem_of_nil; naive_solver.
  - destruct K; cbn; repeat constructor; rewrite ?elem_of_cons, elem_of_nil; naive_solver.
Qed.

Definition after_batch : Etcd :=
  set_rev (e_rev t + 1) (fold_left (apply_op (e_rev t + 1)) batch_ops t).

Lemma after_batch_fields :
  e_entries after_batch = base.filter (fun n => n.1 ∉ batch'.*1) (e_entries t) /\
  (forall z, e_serial after_batch !! z =
     if decide (0 < bearers_of batch' z /\ bearers_of batch' z = b z) then None else e_serial t !! z) /\
  (forall z, e_subject after_batch !! z = latest_of z (map plain kept)) /\
  e_seq after_batch = Some (e_rev t + 1, seqVal) /\ e_rev after_batch = e_rev t + 1 /\
  (forall k, K = Some k -> etcd_head after_batch = chain_from k "" (entriesOf kept)).
Proof.
  unfold after_batch, batch_ops. rewrite !fold_left_app.
  destruct (deletes_apply (e_rev t + 1) batch' b t) as (He & Hs & Hj & Hh & Hr).
  { intros z. rewrite Hb, bearers_left. unfold bearers_of. lia. }
  set (t1 := fold_left _ (deletes b batch') t) in *.
  destruct (point_apply (e_rev t + 1) (fun z => latest_of z (map plain kept))
    (remove_dups (map (fun r => rj_subject r.2) batch')) t1) as (Hj' & He' & Hs' & Hh' & Hr').
  set (t2 := fold_left _ (map _ (remove_dups _)) t1) in *.
  assert (forall z, e_subject t2 !! z = latest_of z (map plain kept)) as Hptr.
  { intros z. rewrite Hj'. case_decide as Hz; [done|]. rewrite elem_of_remove_dups in Hz.
    rewrite latest_kept, Hj by done. rewrite <- (stage_ordered gone t Ht). apply (ix_subject _ _ _ _ (wf_indexed _ _ (stage_wf _ _ Ht))). }
  assert (e_entries t2 = base.filter (fun n => n.1 ∉ batch'.*1) (e_entries t)) as He2 by congruence.
  assert (forall z, e_serial t2 !! z =
    if decide (0 < bearers_of batch' z /\ bearers_of batch' z = b z) then None else e_serial t !! z) as Hs2
    by (intros; rewrite Hs'; apply Hs).
  destruct K as [k|]; cbn; split_and!; try done. by intros ? [= ->].
Qed.

Lemma after_batch_stage :
  stage (batch' ++ gone) after_batch /\ rev_of (e_seq after_batch) = e_rev t + 1 /\
  e_rev after_batch = e_rev t + 1 /\ entries_stable t after_batch.
Proof.
  destruct after_batch_fields as (He & Hs & Hj & Hq & Hr & Hh).
  pose proof (stage_wf _ _ Ht) as Hwf.
  assert (etcd_entries after_batch = base.filter (fun n => n.1 ∉ (batch' ++ gone).*1) (etcd_entries s1)) as Hm.
  { transitivity (base.filter (fun n => n.1 ∉ batch'.*1) (etcd_entries t)).
    - unfold etcd_entries, entry_records. rewrite He, !map_filter_fmap. do 2 f_equal.
    - rewrite (stage_entries _ _ Ht), map_filter_filter. apply map_filter_ext. intros n e _. cbn [fst].
      rewrite fmap_app, elem_of_app. tauto. }
  assert (forall n r v, e_entries after_batch !! n = Some (r, v) -> e_entries t !! n = Some (r, v)) as Hold.
  { intros n r v. rewrite He, map_lookup_filter_Some. tauto. }
  assert (ordered (etcd_entries after_batch) = map plain kept) as Ho by (by rewrite Hm, left_after_plain).
  assert (etcd_entries after_batch ⊆ etcd_entries t) as Hsub.
  { rewrite Hm, (stage_entries _ _ Ht). apply map_filter_subseteq_ext. intros n e _. cbn [fst].
    rewrite fmap_app, elem_of_app. tauto. }
  rewrite Hq. split; [|split; [done|split; [done|intros n r v H; right; by apply Hold]]].
  split; [|done|unfold etcd_counter; by rewrite Hq]. split.
  - eapply indexed_shrink; [by apply (wf_indexed _ _ Hwf)|done| | | |].
    + intros z Hz. apply (borne_listed kept) in Hz; [|done]. rewrite Hs, decide_False; [done|].
      rewrite Hb, bearers_left. lia.
    + intros z Hz. rewrite (borne_listed kept) in Hz by done. rewrite Hs. case_decide as Hd; [done|].
      rewrite Hb, bearers_left in Hd. pose proof (ix_serial _ _ _ _ (wf_indexed _ _ Hwf) z) as Hix.
      destruct (e_serial t !! z) as [v|] eqn:Ez; [exfalso|done].
      assert (borne (etcd_entries t) z) as Hbo by (destruct v; unfold borne; naive_solver).
      apply (borne_listed (left_after recs gone)) in Hbo; [|by apply stage_ordered]. rewrite bearers_left in Hbo. unfold bearers_of in *. lia.
    + intros z. by rewrite Ho.
    + intros n e He'. unfold etcd_counter. rewrite Hq. exists seqVal. split; [done|].
      eapply lookup_weaken in He'; [|exact Hsub]. eapply indexed_below in He'; [|apply (wf_indexed _ _ Hwf)].
      rewrite (stage_counter _ _ Ht) in He'. simpl in He'. lia.
  - unfold etcd_counter. rewrite Hq. pose proof (wf_counter _ _ Hwf) as H. by rewrite (stage_counter _ _ Ht) in H.
  - intros n e H. eapply wf_named; [exact Hwf|]. by eapply lookup_weaken.
  - rewrite Hq, Hr. cbn [rev_of]. destruct (wf_revs _ _ Hwf). lia.
  - intros n r v H%Hold. apply (wf_entry_revs _ _ Hwf) in H. rewrite Hr. lia.
  - intros k Hk. rewrite (Hh k Hk). unfold etcd_view. by rewrite Ho, entriesOf_plain.
Qed.

End Commit.
End Batch.

(** ** The batches *)

(** A split of the rejected records into the batches to commit, newest first. *)
Record planned (keep : InventoryEntry -> bool) (s1 : Etcd) (batches : list (list indexedRecord))
    (gone : list indexedRecord) : Prop := Planned {
  plan_split : exists front, rejected keep (ordered (entry_records s1)) = front ++ concat (rev batches) ++ gone;
  plan_sizes : Forall (fun c => c <> [] /\ (length c <= etcdPruneBatch)%nat) batches }.

Lemma planned_head keep s1 batch batches gone :
  planned keep s1 (batch :: batches) gone ->
  exists x rest front, batch = x :: rest /\ (length batch <= etcdPruneBatch)%nat /\
    rejected keep (ordered (entry_records s1)) = front ++ (x :: rest) ++ gone /\
    planned keep s1 batches (batch ++ gone).
Proof.
  intros [[front Hf] Hs]. apply Forall_cons in Hs as [[Hne Hl] Hs]. destruct batch as [|x rest]; [done|].
  exists x, rest, (front ++ concat (rev batches)). cbn [rev] in Hf. rewrite concat_app in Hf. cbn [concat] in Hf.
  rewrite app_nil_r, <- app_assoc in Hf.
  split_and!; [done|done|by rewrite <- app_assoc|]. split; [by exists front|done].
Qed.

Lemma planned_all keep s1 n :
  planned keep s1 (take n (rev (chunks (length (rejected keep (ordered (entry_records s1)))) etcdPruneBatch
                                  (rejected keep (ordered (entry_records s1)))))) [].
Proof.
  set (l := rejected keep _). pose proof (chunks_concat etcdPruneBatch (length l) l) as Hc.
  pose proof (chunks_size etcdPruneBatch (length l) l) as Hs. set (cs := chunks _ _ l) in *.
  split.
  - exists (concat (rev (drop n (rev cs)))). rewrite app_nil_r, <- concat_app, <- rev_app_distr, take_drop, rev_involutive.
    symmetry. apply Hc; unfold etcdPruneBatch; lia.
  - apply Forall_take, List.Forall_rev, Hs. unfold etcdPruneBatch. lia.
Qed.

Section Batches.
Context (K : option string) (keep : InventoryEntry -> bool) (s1 : Etcd) (Hwf1 : wf K s1) (seqVal : Z).
Notation recs := (ordered (entry_records s1)).
Notation stage := (stage K s1 seqVal).

Lemma stage_guarded gone u t :
  stage gone u -> rely K u t -> holds t (SeqRev (rev_of (e_seq u))) = true -> stage gone t.
Proof.
  intros Hu Hr Hg. destruct (guard_content K u t _ (stage_wf _ _ _ _ _ Hu) Hr eq_refl Hg) as [C Hwf].
  injection C as C1 _ _ C4 _. split; [done| |]; rewrite ?C1, ?C4; apply Hu.
Qed.

Section One.
Context (x : indexedRecord) (rest front gone : list indexedRecord) (b : string -> Z).
Context (Hrej : rejected keep recs = front ++ (x :: rest) ++ gone).
Context (Hlen : (length (x :: rest) <= etcdPruneBatch)%nat).
Context (Hb : forall s, b s = bearers_of (left_after recs gone) s).

Notation ops := (batch_ops K s1 seqVal rest gone x b).

(** A batch refused by its guard changes nothing; one that passes it does its
    work and keeps to [rely]. *)
Lemma batch_txn u t :
  stage gone u -> rely K u t ->
  (txn [SeqRev (rev_of (e_seq u))] ops t = (Ok (false, e_rev t), t) /\ rev_of (e_seq t) <> rev_of (e_seq u)) \/
  exists t', txn [SeqRev (rev_of (e_seq u))] ops t = (Ok (true, rev_of (e_seq t')), t') /\
    stage ((x :: rest) ++ gone) t' /\ rely K t t'.
Proof.
  intros Hu Hr. unfold txn. destruct (batch_acceptable K s1 Hwf1 seqVal rest gone x b Hlen) as [-> _]. cbn [negb forallb].
  destruct (holds t _) eqn:Hg; cbn [andb].
  2:{ left. split; [done|]. cbn [holds] in Hg. by apply Z.eqb_neq in Hg. }
  right. pose proof (stage_guarded _ _ _ Hu Hr Hg) as Ht.
  destruct (after_batch_stage K keep s1 Hwf1 seqVal front rest gone x b t Hrej Ht Hb) as (Hs & R1 & R2 & Hst).
  exists (after_batch K s1 seqVal rest gone x b t). rewrite R1. split; [done|]. split; [done|].
  split; [lia|]. split; [done|]. intros _. split; [apply Hs|]. right. lia.
Qed.
End One.

Lemma prune_batches_cons batch batches gone seqRev b count :
  planned keep s1 (batch :: batches) gone -> (forall s, b s = bearers_of (left_after recs gone) s) ->
  exists x rest front b',
    batch = x :: rest /\ rejected keep recs = front ++ (x :: rest) ++ gone /\
    (length (x :: rest) <= etcdPruneBatch)%nat /\ planned keep s1 batches (batch ++ gone) /\
    (forall s, b' s = bearers_of (left_after recs (batch ++ gone)) s) /\
    prune_batches recs (surviving keep recs) (head_fold K) seqVal (batch :: batches) seqRev b gone count =
    Call (txn [SeqRev seqRev] (batch_ops K s1 seqVal rest gone x b)) (fun r =>
      match r with
      | Err e => mret (gone, count, false, Some e)
      | Ok (false, _) => mret (gone, count, true, None)
      | Ok (true, rev) => prune_batches recs (surviving keep recs) (head_fold K) seqVal batches rev b'
                            (batch ++ gone) (S count)
      end).
Proof.
  intros (x & rest & front & -> & Hlen & Hrej & Hplan)%planned_head Hb.
  destruct (prune_ops_spec K keep s1 Hwf1 seqVal front rest gone x b Hrej Hb) as (b' & E & Hb').
  exists x, rest, front, b'. split_and!; try done. cbn [prune_batches]. by rewrite E.
Qed.

(** What a run of the batches reports. *)
Definition reported (s0 : Etcd) (r : result (list indexedRecord * nat * bool * option error)) (s' : Etcd) : Prop :=
  rely K s0 s' /\
  exists committed count conflict err, r = Ok (committed, count, conflict, err) /\
    exists front, rejected keep recs = front ++ committed.

Lemma prune_batches_wp s0 batches : forall gone u t b count,
  planned keep s1 batches gone -> (forall s, b s = bearers_of (left_after recs gone) s) ->
  stage gone u -> rely K s0 u -> rely K u t ->
  wp (rely K) (prune_batches recs (surviving keep recs) (head_fold K) seqVal batches (rev_of (e_seq u)) b gone count)
    (reported s0) t.
Proof.
  induction batches as [|batch batches IH]; intros gone u t b count Hplan Hb Hu H0 Ht.
  { cbn. split; [by etrans|]. exists gone, count, false, None. split; [done|].
    destruct (plan_split _ _ _ _ Hplan) as [front Hf]. exists front. done. }
  assert (forall s e c, rely K s0 s -> reported s0 (Ok (gone, count, c, e)) s) as Hstop.
  { intros s e c Hs. split; [done|]. exists gone, count, c, e. split; [done|].
    destruct (plan_split _ _ _ _ Hplan) as [front Hf]. exists (front ++ concat (rev (batch :: batches))).
    by rewrite <- app_assoc. }
  destruct (prune_batches_cons _ _ _ (rev_of (e_seq u)) b count Hplan Hb) as
    (x & rest & front & b' & -> & Hrej & Hlen & Hplan' & Hb' & ->).
  cbn [wp]. intros t1 H1 r t2 Hserved. assert (rely K u t1) as Hu1 by (by etrans).
  assert (rely K s0 t1) as H01 by (by etrans).
  destruct (batch_txn x rest front gone b Hrej Hlen Hb u t1 Hu Hu1) as [[E _]|(t' & E & Hs' & R')].
  - destruct Hserved; rewrite ?E; cbn [fst snd wp]; (split; [done|]); by apply Hstop.
  - assert (rely K s0 t') as H0' by (by etrans).
    destruct Hserved; rewrite ?E; cbn [fst snd wp]; (split; [done|]); try by apply Hstop.
    by apply (IH _ t').
Qed.

(** Without interference all of them are committed. *)
Lemma prune_batches_run batches : forall gone t b count,
  planned keep s1 batches gone -> (forall s, b s = bearers_of (left_after recs gone) s) -> stage gone t ->
  exists t',
    run_prog (prune_batches recs (surviving keep recs) (head_fold K) seqVal batches (rev_of (e_seq t)) b gone count) t =
      (Ok (concat (rev batches) ++ gone, (count + length batches)%nat, false, None), t') /\
    stage (concat (rev batches) ++ gone) t'.
Proof.
  induction batches as [|batch batches IH]; intros gone t b count Hplan Hb Ht.
  { exists t. cbn. by rewrite Nat.add_0_r. }
  destruct (prune_batches_cons _ _ _ (rev_of (e_seq t)) b count Hplan Hb) as
    (x & rest & front & b' & -> & Hrej & Hlen & Hplan' & Hb' & ->).
  destruct (batch_txn x rest front gone b Hrej Hlen Hb t t Ht (reflexivity t)) as [[_ Hne]|(t' & E & Hs' & _)]; [done|].
  cbn [run_prog]. rewrite E. cbn beta iota.
  destruct (IH _ t' b' (S count) Hplan' Hb' Hs') as (t'' & -> & Hs''). exists t''.
  cbn [rev length]. rewrite concat_app. cbn [concat]. rewrite app_nil_r, <- app_assoc, Nat.add_succ_r. done.
Qed.
End Batches.

(** ** One attempt *)

Section Attempt.
Context (K : option string) (keep : InventoryEntry -> bool).

Lemma stage_start s :
  wf K s -> rejected keep (ordered (entry_records s)) <> [] ->
  exists r c, e_seq s = Some (r, c) /\ stage K s c [] s.
Proof.
  intros Hwf Hne. destruct (rejected keep _) as [|x l] eqn:E; [done|].
  assert (x ∈ rejected keep (ordered (entry_records s))) as [_ Hx]%list_elem_of_filter by (rewrite E; by left).
  destruct x as [n v]. apply elem_of_ordered in Hx.
  destruct (ix_counter _ _ _ _ (wf_indexed _ _ Hwf) n (rj_entry v)) as (c & Hc & _).
  { unfold etcd_entries. by rewrite lookup_fmap, Hx. }
  unfold etcd_counter in Hc. destruct (e_seq s) as [[r c']|] eqn:Es; [|done]. injection Hc as ->.
  exists r, c. split; [done|]. split; [done| |unfold etcd_counter; by rewrite Es].
  symmetry. apply map_filter_id. intros. apply not_elem_of_nil.
Qed.

(** What one attempt, or a sequence of them, reports: only rejected entries
    that were listed. *)
Definition honest (s0 : Etcd) (es : list InventoryEntry) : Prop :=
  forall e, e ∈ es -> keep e = false /\ exists t, rely K s0 t /\ e ∈ etcd_view t.

Lemma rejected_listed s e :
  e ∈ entriesOf (rejected keep (ordered (entry_records s))) -> keep e = false /\ e ∈ etcd_view s.
Proof.
  unfold etcd_view. rewrite plain_ordered, <- entriesOf_plain. unfold entriesOf.
  intros (r & -> & [Hk Hr]%list_elem_of_filter)%list_elem_of_fmap. split; [done|].
  by apply (list_elem_of_fmap_2 (fun r : indexedRecord => rj_entry r.2)).
Qed.

Lemma pruneEntriesOnce_wp maxBatches s0 s :
  wf K s0 -> rely K s0 s ->
  wp (rely K) (pruneEntriesOnce keep (head_fold K) maxBatches)
    (fun r s' => rely K s0 s' /\
       exists committed count conflict err, r = Ok (committed, count, conflict, err) /\ honest s0 (entriesOf committed)) s.
Proof.
  intros H0 Hs s1 H1 r s1' Hserved.
  assert (rely K s0 s1) as R1 by (by etrans). destruct (proj2 (proj2 R1) H0) as [Hwf1 _].
  assert (forall e, rely K s0 s1 /\ exists committed count conflict err,
    @Ok (list indexedRecord * nat * bool * option error) ([], 0%nat, false, e) = Ok (committed, count, conflict, err) /\ honest s0 (entriesOf committed)) as Hnone.
  { intros e. split; [done|]. exists [], 0%nat, false, e. split; [done|]. by intros ? ?%not_elem_of_nil. }
  destruct Hserved as [|e|e]; cbn [fst snd]; (split; [reflexivity|]); try apply Hnone.
  case_bool_decide as He; [apply Hnone|].
  destruct (stage_start s1 Hwf1 He) as (rv & c & Es & Hst). rewrite Es. cbn [rev_of].
  assert (rv = rev_of (e_seq s1)) as -> by (by rewrite Es).
  eapply wp_mono; [|apply (prune_batches_wp K keep s1 Hwf1 c s0 _ [] s1 s1)].
  - intros r s' (R & committed & count & conflict & err & -> & front & Hf). split; [done|].
    exists committed, count, conflict, err. split; [done|]. intros e He'.
    destruct (rejected_listed s1 e) as [Hk Hv]; [|split; [done|by exists s1]].
    rewrite Hf. unfold entriesOf. rewrite map_app. apply elem_of_app. by right.
  - apply planned_all.
  - intros z. by rewrite left_after_nil.
  - done.
  - done.
  - reflexivity.
Qed.

Lemma prune_attempts_wp s0 attempts : forall budget all s,
  wf K s0 -> rely K s0 s -> honest s0 (entriesOf all) ->
  wp (rely K) (prune_attempts attempts budget keep (head_fold K) all)
    (fun r s' => rely K s0 s' /\ exists removed err, r = Ok (removed, err) /\ honest s0 removed) s.
Proof.
  induction attempts as [|attempts IH]; intros budget all s H0 Hs Hall.
  { cbn [prune_attempts wp mret prog_ret]. split; [done|]. eexists _, _. split; [done|].
    intros e He%entriesOf_sorted. exact (Hall e He). }
  cbn [prune_attempts]. apply wp_mbind.
  eapply wp_mono; [|by apply (pruneEntriesOnce_wp budget s0)].
  intros r s' (R & committed & count & conflict & err & -> & Hc).
  assert (honest s0 (entriesOf (all ++ committed))) as Hall'.
  { unfold entriesOf, honest. rewrite map_app. intros e [?|?]%elem_of_app; [by apply Hall|by apply Hc]. }
  assert (forall s err, rely K s0 s -> rely K s0 s /\ exists removed err', @Ok (list InventoryEntry * option error) (entriesOf (merge_sort seq_le (all ++ committed)), err) = Ok (removed, err') /\ honest s0 removed) as Hfin.
  { intros t err' Ht. split; [done|]. eexists _, _. split; [done|]. intros e ?%entriesOf_sorted. by apply Hall'. }
  destruct err as [e|]; [by apply Hfin|]. destruct (negb conflict || _); [by apply Hfin|].
  intros t Ht b t' Hserved. assert (rely K s0 t) as R' by (by etrans).
  destruct Hserved; cbn [fst snd]; (split; [reflexivity|]); [by apply IH|by apply Hfin..].
Qed.
End Attempt.
