(* ===== verification/EtcdSpec.v ===== *)
(** * What the etcd inventory promises

    The refinement of the inventory's contract by the etcd operations: run
    alone they compute the specification; run by any number of replicas, in any
    interleaving and with any requests or replies lost, they keep the indices
    and the integrity head exact. *)

From S2P Require Import Prelude GoStrings GoTime X509 Inventory Storage Concurrent Records InventorySpec Numbered Etcd EtcdPrune.

(** ** Appending *)

Lemma append_run K rec s :
  wf K s -> ie_Serial (cr_entry rec) <> "" ->
  run_prog (etcd_AppendEntry rec ((fun k => advance k (cr_entry rec)) <$> K)) s =
  if bool_decide (is_Some (e_serial s !! ie_Serial (cr_entry rec)))
  then (Err (Wrap (ie_Serial (cr_entry rec)) [Sentinel ErrDuplicateSerial]), s)
  else (Ok tt, appended rec ((fun k => advance k (cr_entry rec)) <$> K) s).
Proof.
  intros Hwf Hne. unfold etcd_AppendEntry, etcdMaxTxnRetries.
  cbn [append_attempts mbind prog_mbind prog_bind reading request run_prog commit]. cbn beta iota.
  case_bool_decide as Hd; [done|]. cbn [run_prog mbind prog_mbind prog_bind].
  unfold commit, request. cbn [prog_bind run_prog]. unfold txn at 1. rewrite append_ops_acceptable.
  cbn [negb forallb holds]. rewrite Z.eqb_refl, bool_decide_eq_true_2 by (by apply eq_None_not_Some).
  cbn [andb]. cbn beta iota. done.
Qed.

(** An append to the etcd inventory, run alone, is the specification of an
    append: a serial that is listed is refused and nothing changes; any other
    entry is added at the end, and the serial index, the certname's pointer, the
    counter and the integrity head are again those of the listed entries. *)
Theorem etcd_AppendEntry_refines K rec s :
  wf K s -> ie_Serial (cr_entry rec) <> "" ->
  let '(r, s') := run_prog (etcd_AppendEntry rec ((fun k => advance k (cr_entry rec)) <$> K)) s in
  wf K s' /\
  match spec_append (cr_entry rec) (etcd_view s) with
  | Some l => r = Ok tt /\ etcd_view s' = l
  | None => r = Err (Wrap (ie_Serial (cr_entry rec)) [Sentinel ErrDuplicateSerial]) /\ s' = s
  end.
Proof.
  intros Hwf Hne. rewrite append_run by done.
  pose proof (listed_serial _ _ _ _ (ie_Serial (cr_entry rec)) (wf_indexed _ _ Hwf)) as Hl.
  case_bool_decide as Hd.
  - split; [done|]. unfold spec_append, etcd_view. by rewrite (proj1 Hl Hd).
  - apply eq_None_not_Some in Hd. destruct (appended_wf K rec s Hwf Hd Hne) as (W & -> & _). done.
Qed.

(** ** Pruning *)

(** How many of [n] rejected records a call leaves for the next one: whole
    batches, the oldest. *)
Definition prune_deferred (n : nat) : nat :=
  (etcdPruneBatch * ((n + (etcdPruneBatch - 1)) / etcdPruneBatch - etcdPruneMaxBatchesPerCall))%nat.

Lemma deferred_below n : (prune_deferred n <= n - 871)%nat.
Proof.
  unfold prune_deferred, etcdPruneBatch, etcdPruneMaxBatchesPerCall.
  pose proof (Nat.div_mod_eq (n + (30 - 1)) 30). lia.
Qed.

Lemma deferred_none n : (n <= 900)%nat -> prune_deferred n = 0%nat.
Proof.
  intros Hn. unfold prune_deferred, etcdPruneBatch, etcdPruneMaxBatchesPerCall.
  pose proof (Nat.div_mod_eq (n + (30 - 1)) 30). lia.
Qed.

Section PruneRun.
Context (K : option string) (keep : InventoryEntry -> bool) (s : Etcd) (Hwf : wf K s).
Notation recs := (ordered (entry_records s)).
Notation rej := (rejected keep recs).

Definition taken (n : nat) : list indexedRecord :=
  concat (rev (take n (rev (chunks (length rej) etcdPruneBatch rej)))).

Lemma taken_split :
  taken etcdPruneMaxBatchesPerCall = drop (prune_deferred (length rej)) rej.
Proof.
  unfold taken, prune_deferred. rewrite firstn_rev, rev_involutive.
  set (k := (length (chunks (length rej) etcdPruneBatch rej) - etcdPruneMaxBatchesPerCall)%nat).
  assert (rej = take (etcdPruneBatch * k) rej ++ concat (drop k (chunks (length rej) etcdPruneBatch rej))) as E.
  { rewrite <- (chunks_take etcdPruneBatch k (length rej)), <- concat_app, take_drop by (unfold etcdPruneBatch; lia).
    symmetry. apply chunks_concat; unfold etcdPruneBatch; lia. }
  rewrite <- chunks_length with (fuel := length rej) by (unfold etcdPruneBatch; lia). fold k.
  apply (app_inv_head (take (etcdPruneBatch * k) rej)). by rewrite <- E, take_drop.
Qed.

Lemma once_run n :
  exists s' count, run_prog (pruneEntriesOnce keep (head_fold K) n) s = (Ok (taken n, count, false, None), s') /\
    wf K s' /\ etcd_entries s' = base.filter (fun x => x.1 ∉ (taken n).*1) (etcd_entries s).
Proof.
  unfold pruneEntriesOnce. cbn [run_prog]. cbn beta iota. fold rej.
  case_bool_decide as He.
  { exists s, 0%nat. unfold taken. rewrite He. cbn. rewrite take_nil. split; [done|]. split; [done|].
    symmetry. apply map_filter_id. intros. apply not_elem_of_nil. }
  destruct (stage_start K keep s Hwf He) as (rv & c & Es & Hst). rewrite Es. cbn [rev_of].
  assert (rv = rev_of (e_seq s)) as -> by (by rewrite Es).
  destruct (prune_batches_run K keep s Hwf c _ [] s (bearers_of recs) 0 (planned_all keep s n)) as (s' & E & Hs').
  - intros z. by rewrite left_after_nil.
  - done.
  - rewrite app_nil_r in *. eexists s', _. split; [exact E|]. split; apply Hs'.
Qed.

Lemma view_recs (t : Etcd) gone :
  etcd_entries t = base.filter (fun x => x.1 ∉ gone.*1) (etcd_entries s) ->
  etcd_view t = entriesOf (left_after recs gone).
Proof. intros E. unfold etcd_view. by rewrite E, left_after_plain, entriesOf_plain. Qed.

Lemma view_self : etcd_view s = entriesOf recs.
Proof. unfold etcd_view. by rewrite plain_ordered, entriesOf_plain. Qed.

Lemma left_after_rejected gone front :
  rej = front ++ gone ->
  base.filter (fun r => keep (rj_entry r.2) = true) (left_after recs gone) = surviving keep recs /\
  base.filter (fun r => keep (rj_entry r.2) = false) (left_after recs gone) = front.
Proof.
  intros Hrej. destruct (rejected_sorted keep recs (ordered_sorted _) (ordered_NoDup _)) as [_ Hd].
  assert (forall r, r ∈ gone -> r ∈ rej) as Hin by (intros r Hr; rewrite Hrej; apply elem_of_app; by right).
  unfold left_after. rewrite !list_filter_filter. split.
  - apply filter_ext_elem. intros r Hr. split; [tauto|]. intros Hk. split; [done|].
    intros (y & Ey & Hy)%list_elem_of_fmap. apply Hin, list_elem_of_filter in Hy as [Hky Hy].
    assert (r = y) as -> by (apply (unique_key recs); [apply ordered_NoDup|done..]). congruence.
  - transitivity (base.filter (fun r => r.1 ∉ gone.*1) rej).
    { unfold rejected. rewrite list_filter_filter. apply list_filter_iff. intros. tauto. }
    rewrite Hrej in Hd |- *. rewrite fmap_app in Hd. apply NoDup_app in Hd as (_ & Hd & _).
    rewrite filter_app, (filter_none _ gone), app_nil_r.
    + apply filter_all. intros r Hr. apply Hd. by apply list_elem_of_fmap_2.
    + intros r Hr Hn. apply Hn. by apply list_elem_of_fmap_2.
Qed.

Lemma prune_run :
  exists s', run_prog (etcd_PruneEntries keep (head_fold K)) s =
    (Ok (entriesOf (drop (prune_deferred (length rej)) rej), None), s') /\ wf K s' /\
    etcd_view s' = entriesOf (left_after recs (drop (prune_deferred (length rej)) rej)).
Proof.
  destruct (once_run etcdPruneMaxBatchesPerCall) as (s' & count & E & Hwf' & Hm). rewrite taken_split in *.
  exists s'. split; [|split; [done|by apply view_recs]].
  unfold etcd_PruneEntries, etcdMaxTxnRetries. cbn [prune_attempts]. rewrite run_mbind, E. cbn [negb orb app]. cbn beta iota.
  cbn [run_prog mret prog_ret]. rewrite merge_sort_sorted; [done| |];
    (destruct (rejected_sorted keep recs (ordered_sorted _) (ordered_NoDup _)) as [Hs Hd];
     rewrite <- (take_drop (prune_deferred (length rej)) rej) in Hs, Hd).
  - by apply StronglySorted_app in Hs as (_ & _ & ?).
  - rewrite fmap_app in Hd. by apply NoDup_app in Hd as (_ & _ & ?).
Qed.
End PruneRun.

Lemma prune_refines K keep s :
  wf K s ->
  let doomed := base.filter (fun e => keep e = false) (etcd_view s) in
  let deferred := prune_deferred (length doomed) in
  exists s', run_prog (etcd_PruneEntries keep (head_fold K)) s = (Ok (drop deferred doomed, None), s') /\
    wf K s' /\
    base.filter (fun e => keep e = true) (etcd_view s') = base.filter (fun e => keep e = true) (etcd_view s) /\
    base.filter (fun e => keep e = false) (etcd_view s') = take deferred doomed /\
    (length doomed <= 900 -> etcd_view s' = base.filter (fun e => keep e = true) (etcd_view s))%nat.
Proof.
  intros Hwf doomed deferred. destruct (prune_run K keep s Hwf) as (s' & E & Hwf' & Hv).
  set (rej := rejected keep (ordered (entry_records s))) in *.
  assert (doomed = entriesOf rej) as Hd by (unfold doomed; by rewrite view_self, filter_entriesOf).
  assert (length doomed = length rej) as Hlen by (rewrite Hd; apply length_map).
  destruct (left_after_rejected keep s (drop deferred rej) (take deferred rej)) as [Hk Hr]; [by rewrite take_drop|].
  exists s'. unfold deferred in *. rewrite Hlen in *. split; [rewrite E, Hd; unfold entriesOf; by rewrite <- skipn_map|].
  split; [done|].
  assert (base.filter (fun e => keep e = true) (etcd_view s') = base.filter (fun e => keep e = true) (etcd_view s)) as H1
    by (by rewrite Hv, view_self, !filter_entriesOf, Hk).
  assert (base.filter (fun e => keep e = false) (etcd_view s') = take (prune_deferred (length rej)) doomed) as H2
    by (rewrite Hv, filter_entriesOf, Hr, Hd; unfold entriesOf; by rewrite <- firstn_map).
  split; [done|]. split; [done|]. intros Hle.
  assert (prune_deferred (length rej) = 0%nat) as Hz by (by apply deferred_none).
  rewrite Hz, take_0 in H2. rewrite <- H1. symmetry. by apply kept_only.
Qed.

(** A prune of the etcd inventory, run alone, succeeds whatever the number
    of records: it removes and reports the rejected entries, but for whole
    batches of the oldest ones when there are more than thirty batches; the
    entries the predicate keeps stay, in their order; and the indices, the
    counter and the integrity head are those of what is left. *)
Theorem etcd_PruneEntries_refines K keep s :
  wf K s ->
  let doomed := base.filter (fun e => keep e = false) (etcd_view s) in
  let deferred := prune_deferred (length doomed) in
  exists s', run_prog (etcd_PruneEntries keep (head_fold K)) s = (Ok (drop deferred doomed, None), s') /\
    wf K s' /\
    base.filter (fun e => keep e = true) (etcd_view s') = base.filter (fun e => keep e = true) (etcd_view s) /\
    base.filter (fun e => keep e = false) (etcd_view s') = take deferred doomed /\
    (length doomed <= 900 -> etcd_view s' = base.filter (fun e => keep e = true) (etcd_view s))%nat.
Proof. apply prune_refines. Qed.

(** [n] prunes one after the other, as the maintenance job repeats them. *)
Fixpoint prune_calls (K : option string) (keep : InventoryEntry -> bool) (n : nat) (s : Etcd) : Etcd :=
  match n with
  | O => s
  | S n => prune_calls K keep n (run_prog (etcd_PruneEntries keep (head_fold K)) s).2
  end.

(** Repeated prunes finish.  Every call removes at least 871 of the
    rejected entries if there are as many, so after enough calls the inventory
    lists exactly the entries the predicate keeps, and its indices and its
    integrity head are exact after each of them. *)
Theorem etcd_prunes_finish K keep n s :
  wf K s -> (length (base.filter (fun e => keep e = false) (etcd_view s)) <= 871 * n)%nat ->
  wf K (prune_calls K keep n s) /\
  etcd_view (prune_calls K keep n s) = base.filter (fun e => keep e = true) (etcd_view s).
Proof.
  revert s. induction n as [|n IH]; intros s Hwf Hn; cbn [prune_calls].
  - split; [done|]. symmetry. apply kept_only, nil_length_inv. lia.
  - destruct (prune_refines K keep s Hwf) as (s' & -> & Hwf' & Hk & Hd & _). cbn [snd]. rewrite <- Hk.
    apply IH; [done|]. rewrite Hd, length_take. pose proof (deferred_below (length (base.filter (fun e => keep e = false) (etcd_view s)))). lia.
Qed.

(** ** Many replicas *)

(** The calls the service makes of the backend, with the key [K] of its
    integrity chain. *)
Inductive etcd_call (K : option string) : etcd unit -> Prop :=
  | call_append rec : ie_Serial (cr_entry rec) <> "" ->
      etcd_call K (etcd_AppendEntry rec ((fun k => advance k (cr_entry rec)) <$> K))
  | call_prune keep : etcd_call K (r ← etcd_PruneEntries keep (head_fold K); mret tt)
  | call_revoke serial at_ : etcd_call K (etcd_SetRevoked serial at_)
  | call_clear serial : etcd_call K (etcd_ClearRevoked serial)
  | call_project serial p : etcd_call K (etcd_SetProjection serial p).

Lemma etcd_call_wp K p s : etcd_call K p -> wf K s -> wp (rely K) p (fun _ _ => True) s.
Proof.
  destruct same_entry_marks as (M1 & M2 & M3).
  intros [rec Hne|keep|serial at_|serial|serial q] Hwf.
  - eapply wp_mono; [|by apply (append_attempts_wp K rec _ s)]. done.
  - apply wp_mbind. eapply wp_mono; [|apply (prune_attempts_wp K keep s); [done|reflexivity|]].
    + by intros [[]|].
    + by intros ? ?%not_elem_of_nil.
  - eapply wp_mono; [|by apply (mutate_attempts_wp K _ _ _ s)]. done.
  - eapply wp_mono; [|by apply (mutate_attempts_wp K _ _ _ s)]. done.
  - eapply wp_mono; [|by apply (mutate_attempts_wp K _ _ _ s)]. done.
Qed.

(** C36: any number of replicas appending, pruning and updating the index of
    one etcd inventory, their requests interleaved in any order and any of them
    or of their replies lost, keep it exact: the integrity head is that of the
    listed entries, a serial is indexed if and only if it is listed, and the
    latest serial of a certname is that of its last listed entry. *)
Theorem etcd_replicas_consistent K s s' ps :
  wf K s -> rtc (step (etcd_call K)) (s, []) (s', ps) ->
  (forall k, K = Some k -> etcd_head s' = chain_from k "" (etcd_view s')) /\
  (forall serial, is_Some (e_serial s' !! serial) <-> exists e, e ∈ etcd_view s' /\ ie_Serial e = serial) /\
  (forall subject, run_prog (etcd_LatestSerialForSubject subject) s' =
     (match latest_of subject (ordered (etcd_entries s')) with
      | Some serial => Ok serial
      | None => Err (not_exist "latest-serial")
      end, s')).
Proof.
  intros Hwf Hsteps. destruct (steps_keep (rely K) (etcd_call K) (wf K) (s, []) (s', ps)) as (_ & Hwf' & _).
  - intros a b H Ha. by apply H.
  - intros p a. apply etcd_call_wp.
  - done.
  - done.
  - by intros p ?%not_elem_of_nil.
  - cbn [fst] in Hwf'. split; [apply Hwf'|]. split.
    + intros serial. rewrite (listed_serial _ _ _ _ serial (wf_indexed _ _ Hwf')), existsb_exists_elem.
      by setoid_rewrite bool_decide_eq_true.
    + intros subject. rewrite <- (ix_subject _ _ _ _ (wf_indexed _ _ Hwf') subject).
      unfold etcd_LatestSerialForSubject. rewrite run_mbind. cbn. by destruct (e_subject s' !! subject).
Qed.

(** ** Witnesses *)

Definition etcd_empty : Etcd := mkEtcd 0 None ∅ ∅ ∅ None None None ∅.

Lemma etcd_empty_wf K : wf K etcd_empty.
Proof.
  assert (etcd_entries etcd_empty = ∅) as E by reflexivity.
  split; try done; rewrite ?E.
  split; [by intros ?? ?%lookup_empty_Some| |done]. intros s.
  change (e_serial etcd_empty) with (∅ : gmap string (option Z)). rewrite lookup_empty.
  by intros ?? ?%lookup_empty_Some.
Qed.

Definition demo_record : CertRecord := mkRecord demo_entry no_proj CertStateSigned None.
Definition demo_append : etcd unit :=
  etcd_AppendEntry demo_record ((fun k => advance k (cr_entry demo_record)) <$> Some "key").
Definition etcd_one : Etcd := Eval vm_compute in (run_prog demo_append etcd_empty).2.

Lemma etcd_AppendEntry_refines_witness :
  wf (Some "key") etcd_one /\ etcd_view etcd_one = [demo_entry].
Proof.
  assert (run_prog demo_append etcd_empty = (Ok tt, etcd_one)) as E by (vm_compute; reflexivity).
  pose proof (etcd_AppendEntry_refines (Some "key") demo_record etcd_empty (etcd_empty_wf _) ltac:(discriminate)) as H.
  fold demo_append in H. rewrite E in H. destruct H as [H1 [_ H2]]. split; [exact H1|]. exact H2.
Defined.

Lemma etcd_one_wf : wf (Some "key") etcd_one.
Proof.
  assert (appended demo_record ((fun k => advance k demo_entry) <$> Some "key") etcd_empty = etcd_one) as E
    by (vm_compute; reflexivity).
  rewrite <- E. apply (appended_wf (Some "key") demo_record etcd_empty); [apply etcd_empty_wf|done|done].
Qed.

Lemma etcd_PruneEntries_refines_witness :
  exists s', run_prog (etcd_PruneEntries (fun _ => false) (head_fold (Some "key"))) etcd_one =
    (Ok ([demo_entry], None), s') /\ wf (Some "key") s' /\ etcd_view s' = [].
Proof.
  destruct (etcd_PruneEntries_refines (Some "key") (fun _ => false) etcd_one etcd_one_wf)
    as (s' & E & H & _ & _ & Hv).
  exists s'. split; [exact E|]. split; [exact H|]. apply Hv. vm_compute. lia.
Defined.

Lemma etcd_prunes_finish_witness :
  wf (Some "key") (prune_calls (Some "key") (fun _ => false) 1 etcd_one) /\
  etcd_view (prune_calls (Some "key") (fun _ => false) 1 etcd_one) = [].
Proof.
  destruct (etcd_prunes_finish (Some "key") (fun _ => false) 1 etcd_one etcd_one_wf) as [H1 H2].
  - vm_compute. lia.
  - split; [exact H1|exact H2].
Defined.

Lemma etcd_replicas_consistent_witness :
  exists ps, rtc (step (etcd_call (Some "key"))) (etcd_empty, []) (etcd_one, ps) /\
  etcd_head etcd_one = chain_from "key" "" [demo_entry].
Proof.
  assert (rtc (step (etcd_call (Some "key"))) (etcd_empty, []) (etcd_one, [Ret (Ok tt)])) as Hrun.
  { eapply rtc_l; [apply (step_start _ _ _ demo_append); by constructor|].
    unfold demo_append, etcd_AppendEntry, etcdMaxTxnRetries. cbn [app append_attempts].
    eapply rtc_l; [eapply (step_serve _ _ _ 0%nat); [reflexivity|apply served_ok]|].
    eapply rtc_l; [eapply (step_serve _ _ _ 0%nat); [reflexivity|apply served_ok]|].
    apply rtc_eq. vm_compute. reflexivity. }
  exists [Ret (Ok tt)]. split; [exact Hrun|].
  destruct (etcd_replicas_consistent (Some "key") etcd_empty etcd_one _ (etcd_empty_wf _) Hrun) as (H & _).
  exact (H "key" eq_refl).
Defined.
