(* ===== verification/EtcdLegacy.v ===== *)
(** * Replacement and conversion of an etcd inventory

    The rest of internal/storage/etcd_inventory.go: the inventory as a blob
    (putInventory, appendInventoryLines, deleteInventory) and the conversion of
    the one text that earlier versions kept, which every replica runs when it
    starts.  A server's transaction takes 128 writes at most, so a replacement
    is many transactions, each guarded by the revisions of the counter and of
    the marker.

    The conversions of any number of replicas, interleaved in any order,
    interrupted anywhere and resumed any number of times, list exactly the
    entries of the text; a text that fails its integrity check is never
    imported.  The theorems do not rely on the lock that orders them. *)

From S2P Require Import Prelude GoStrings GoTime X509 Inventory Storage Concurrent Records InventorySpec Numbered BulkImport Etcd.

(** ** Replacing *)

Definition tuple_serial (m : gmap string (option Z)) (t : import_tuple) : gmap string (option Z) :=
  let '(_, serial, value, _, _) := t in <[serial := value]> m.
Definition tuple_subject (m : gmap string string) (t : import_tuple) : gmap string string :=
  let '(_, serial, _, subject, _) := t in <[subject := serial]> m.

(** One write for each record, and one for each serial and each certname of
    the batch: the server refuses to write a key twice. *)
Definition entry_puts (tuples : list import_tuple) : list op :=
  map (fun t : import_tuple => let '(n, _, _, _, json) := t in PutEntry n json) tuples.
Definition index_puts (tuples : list import_tuple) : list op :=
  map (fun x => PutSerial x.1 x.2) (map_to_list (fold_left tuple_serial tuples ∅))
  ++ map (fun x => PutSubject x.1 x.2) (map_to_list (fold_left tuple_subject tuples ∅)).
Definition import_ops (tuples : list import_tuple) (seq : Z) : list op :=
  entry_puts tuples ++ index_puts tuples ++ [PutSeq seq].

Definition replace_guards (markerRev : option Z) (seqRev : Z) : list cmp :=
  SeqRev seqRev :: match markerRev with Some r => [MarkerRev r] | None => [] end.

(** The revision of the last commit, or [None] after a conflict. *)
Fixpoint import_batches (dups : list string) (markerRev : option Z) (batches : list (list CertRecord))
    (start : Z) (seqRev : Z) : etcd (option Z) :=
  match batches with
  | [] => mret (Some seqRev)
  | batch :: batches =>
      let next := start + Z.of_nat (length batch) in
      r ← commit (replace_guards markerRev seqRev) (import_ops (tuples_from dups (start + 1) batch) next);
      if (r.1 : bool) then import_batches dups markerRev batches next r.2 else mret None
  end.

Definition finish_ops (recs : list CertRecord) (dropHead : bool) : list op :=
  [PutMarker ""] ++ (if dropHead then [DelHead] else []) ++ [PutSeq (Z.of_nat (length recs))].

(** Whether a guard failed. *)
Definition etcd_replaceInventoryOnce (recs : list CertRecord) (markerRev : option Z) (dropHead : bool) : etcd bool :=
  seq ← reading e_seq;
  r ← commit (replace_guards markerRev (rev_of seq)) [DelEntries; DelSerials; DelSubjects; PutSeq 0];
  if (r.1 : bool) then
    last ← import_batches (duplicateSerials recs) markerRev (chunks (length recs) etcdImportBatch recs) 0 r.2;
    match last with
    | None => mret true
    | Some rev =>
        r ← commit (replace_guards markerRev rev) (finish_ops recs dropHead);
        mret (negb r.1)
    end
  else mret true.

Fixpoint etcd_put_attempts (attempts : nat) (recs : list CertRecord) : etcd unit :=
  match attempts with
  | O => abort_with (too_many "inventory replace")
  | S attempts =>
      conflict ← etcd_replaceInventoryOnce recs None false;
      if (conflict : bool) then _ ← backoff; etcd_put_attempts attempts recs else mret tt
  end.
Definition etcd_putInventory (data : string) : etcd unit :=
  match importable_text data with
  | Err e => abort_with e
  | Ok recs => etcd_put_attempts etcdMaxTxnRetries recs
  end.

(** ** Appending lines, deleting *)

Definition lines_ops (tuples : list import_tuple) (next : Z) : list op :=
  concat (map (fun t : import_tuple => let '(n, serial, value, _, json) := t in
                 [PutEntry n json; PutSerial serial value]) tuples)
  ++ map (fun x => PutSubject x.1 x.2) (map_to_list (fold_left tuple_subject tuples ∅))
  ++ (if bool_decide (tuples = []) then [] else [PutSeq next])
  ++ [PutMarker ""].

Fixpoint lines_attempts (attempts : nat) (recs : list CertRecord) : etcd unit :=
  match attempts with
  | O => abort_with (too_many "inventory append")
  | S attempts =>
      r ← reading (fun s => (e_seq s, base.filter (fun rec => is_Some (e_serial s !! ie_Serial (cr_entry rec))) recs));
      let '(seq, listed) := r in
      match listed with
      | rec :: _ => abort_with (Wrap (ie_Serial (cr_entry rec)) [Sentinel ErrDuplicateSerial])
      | [] =>
          let last := counter_value (value_of seq) in
          done ← commit (SeqRev (rev_of seq) :: map (fun rec => SerialAbsent (ie_Serial (cr_entry rec))) recs)
                   (lines_ops (tuples_from [] (last + 1) recs) (last + Z.of_nat (length recs)));
          if (done.1 : bool) then mret tt else _ ← backoff; lines_attempts attempts recs
      end
  end.
Definition etcd_appendInventoryLines (data : string) : etcd unit :=
  match importable_text data with
  | Err e => abort_with e
  | Ok recs =>
      if (etcdImportBatch <? length recs)%nat then
        abort_with (Msg "appending inventory lines in one call exceeds the etcd transaction budget")
      else lines_attempts etcdMaxTxnRetries recs
  end.

Definition etcd_deleteInventory : etcd unit :=
  r ← commit [MarkerPresent] [DelMarker; DelSeq; DelEntries; DelSerials; DelSubjects];
  if (r.1 : bool) then mret tt else abort_with (not_exist "delete").

(** ** Conversion of a legacy blob *)

Definition legacyMarkerPayload : etcd string :=
  reading (fun s => default "" (value_of (e_marker s))).

(** The text, the revision of the marker and the entries. *)
Definition etcd_legacyInventoryState : etcd (string * Z * list indexedRecord) :=
  reading (fun s =>
    match e_marker s with
    | Some (rev, payload) => if bool_decide (payload = "") then ("", 0, []) else (payload, rev, ordered (entry_records s))
    | None => ("", 0, [])
    end).

Definition etcd_tampered (what : string) : error :=
  Wrap ("legacy etcd inventory " +:+ what) [Sentinel ErrInventoryTampered].
Definition etcd_verifyLegacyInventoryMAC (blob : string) : etcd unit :=
  r ← reading (fun s => (value_of (e_head s), e_hmacKey s));
  match r with
  | (None, _) => mret tt
  | (Some _, None) => abort_with (etcd_tampered "has a stored integrity value but no HMAC key to verify it with")
  | (Some stored, Some key) =>
      if negb (String.length key =? hmacKeyLen)%nat then abort_with (etcd_tampered "HMAC key is unreadable or malformed")
      else if bool_decide (wholeBlobInventoryMAC key blob = stored) then mret tt
      else abort_with (etcd_tampered "failed integrity verification before decomposition")
  end.

Fixpoint etcd_convert_attempts (attempts : nat) : etcd unit :=
  match attempts with
  | O => abort_with (too_many "removing legacy inventory HMAC")
  | S attempts =>
      r ← reading (fun s => (e_head s, e_hmacKey s, e_entries s));
      let '(head, key, fields) := r in
      if negb (bool_decide (fields = ∅)) then mret tt
      else
        match head, key with
        | None, _ | _, None => mret tt
        | Some (rev, stored), Some key =>
            if bool_decide (stored = "") || negb (String.length key =? hmacKeyLen)%nat
               || negb (bool_decide (wholeBlobInventoryMAC key "" = stored)) then mret tt
            else
              done ← commit [HeadRev rev] [DelHead];
              if (done.1 : bool) then mret tt else _ ← backoff; etcd_convert_attempts attempts
        end
  end.
Definition etcd_convertLegacyEmptyHead : etcd unit := etcd_convert_attempts etcdMaxTxnRetries.

Definition etcd_mixed_versions : error :=
  Msg "etcd inventory holds both a non-empty legacy blob and decomposed entries that do not match it".
Definition etcd_wrap_decompose {A} (p : etcd A) : etcd A :=
  (fix go (p : etcd A) : etcd A :=
     match p with
     | Ret (Err e) => Ret (Err (Wrap "decomposing legacy etcd inventory" [e]))
     | Ret r => Ret r
     | Call f k => Call f (fun b => go (k b))
     end) p.

Fixpoint etcd_decompose_attempts (attempts : nat) : etcd unit :=
  match attempts with
  | O => abort_with (too_many "decomposing legacy etcd inventory")
  | S attempts =>
      r ← etcd_legacyInventoryState;
      let '(blob, markerRev, entries) := r in
      if bool_decide (blob = "") then mret tt
      else
        recs ← etcd_wrap_decompose (Ret (parseInventoryRecords blob));
        if negb (bool_decide (entries = [])) && negb (recordsArePrefixOf entries recs) then abort_with etcd_mixed_versions
        else
          _ ← etcd_verifyLegacyInventoryMAC blob;
          conflict ← etcd_wrap_decompose (etcd_replaceInventoryOnce recs (Some markerRev) true);
          if (conflict : bool) then _ ← backoff; etcd_decompose_attempts attempts else mret tt
  end.

(** The lock orders the conversions of different replicas. *)
Definition etcd_decompose_lock : etcd unit := backoff.
Definition etcd_decomposeLegacyInventory : etcd unit :=
  payload ← legacyMarkerPayload;
  if bool_decide (payload = "") then etcd_convertLegacyEmptyHead
  else _ ← etcd_decompose_lock; etcd_decompose_attempts etcdMaxTxnRetries.

(** [EnsureReady], which every replica runs first: a status request and the
    conversion. *)
Definition etcd_EnsureReady : etcd unit := _ ← backoff; etcd_decomposeLegacyInventory.

(** ** What the writes leave *)

Definition etcd_content (s : Etcd) : tables := (entry_records s, e_serial s, e_subject s).

Lemma entry_puts_apply r ts : forall s,
  let s' := fold_left (apply_op r) (entry_puts ts) s in
  entry_records s' = (fold_left table_set ts (etcd_content s)).1.1 /\
  (e_serial s', e_subject s', e_seq s', e_head s', e_marker s', e_hmacKey s', e_rev s') =
  (e_serial s, e_subject s, e_seq s, e_head s, e_marker s, e_hmacKey s, e_rev s).
Proof.
  assert (forall ts t t', t.1.1 = t'.1.1 -> (fold_left table_set ts t).1.1 = (fold_left table_set ts t').1.1) as Hext.
  { clear. induction ts as [|[[[[n serial] v] subject] json] ts IH]; intros t t' H; [done|]. cbn [fold_left]. apply IH.
    destruct t as [[]], t' as [[]]. cbn in *. by rewrite H. }
  induction ts as [|[[[[n serial] v] subject] json] ts IH]; intros s; [done|]. cbn [entry_puts map fold_left].
  destruct (IH (apply_op r s (PutEntry n json))) as [E1 E2]. fold (entry_puts ts). cbn zeta. rewrite E1. split; [|exact E2].
  apply Hext. unfold entry_records. cbn. by rewrite fmap_insert.
Qed.

Lemma serial_puts_apply r (l : list (string * option Z)) : forall s,
  fold_left (apply_op r) (map (fun x => PutSerial x.1 x.2) l) s = set_serial (fold_left hset l (e_serial s)) s.
Proof. induction l as [|x l IH]; intros s; [by destruct s|]. cbn [map fold_left]. by rewrite IH. Qed.
Lemma subject_puts_apply r (l : list (string * string)) : forall s,
  fold_left (apply_op r) (map (fun x => PutSubject x.1 x.2) l) s = set_subject (fold_left hset l (e_subject s)) s.
Proof. induction l as [|x l IH]; intros s; [by destruct s|]. cbn [map fold_left]. by rewrite IH. Qed.

Lemma hset_map {V} (m base : gmap string V) : fold_left hset (map_to_list m) base = m ∪ base.
Proof.
  apply map_eq. intros z. rewrite (hset_fold (fun z => m !! z)) by (by intros x v ?%elem_of_map_to_list).
  rewrite lookup_union. case_decide as Hz.
  - apply list_elem_of_fmap in Hz as ([x v] & -> & Hx). apply elem_of_map_to_list in Hx. cbn. rewrite Hx.
    by destruct (base !! x).
  - destruct (m !! z) as [v|] eqn:E; [destruct Hz|by destruct (base !! z)].
    apply list_elem_of_fmap. exists (z, v). split; [done|]. by apply elem_of_map_to_list.
Qed.

Lemma tuple_serial_base ts : forall m base,
  fold_left tuple_serial ts m ∪ base = fold_left tuple_serial ts (m ∪ base).
Proof.
  induction ts as [|[[[[n serial] v] subject] json] ts IH]; intros m base; [done|]. cbn [fold_left tuple_serial].
  by rewrite IH, insert_union_l.
Qed.
Lemma tuple_subject_base ts : forall m base,
  fold_left tuple_subject ts m ∪ base = fold_left tuple_subject ts (m ∪ base).
Proof.
  induction ts as [|[[[[n serial] v] subject] json] ts IH]; intros m base; [done|]. cbn [fold_left tuple_subject].
  by rewrite IH, insert_union_l.
Qed.

Lemma table_set_indices ts : forall t,
  (fold_left table_set ts t).1.2 = fold_left tuple_serial ts t.1.2 /\
  (fold_left table_set ts t).2 = fold_left tuple_subject ts t.2.
Proof.
  induction ts as [|[[[[n serial] v] subject] json] ts IH]; intros t; [done|]. cbn [fold_left].
  destruct (IH (table_set t (n, serial, v, subject, json))) as [-> ->]. by destruct t as [[]].
Qed.

Lemma import_ops_apply r ts seq s :
  let s' := fold_left (apply_op r) (import_ops ts seq) s in
  etcd_content s' = fold_left table_set ts (etcd_content s) /\ e_seq s' = Some (r, seq) /\
  e_head s' = e_head s /\ e_marker s' = e_marker s /\ e_hmacKey s' = e_hmacKey s.
Proof.
  unfold import_ops, index_puts. rewrite !fold_left_app.
  destruct (entry_puts_apply r ts s) as [E1 E2]. set (s1 := fold_left _ (entry_puts ts) s) in *.
  injection E2 as F1 F2 F3 F4 F5 F6 F7.
  rewrite serial_puts_apply, subject_puts_apply. cbn zeta.
  destruct (table_set_indices ts (etcd_content s)) as [T1 T2]. cbn [etcd_content fst snd] in T1, T2.
  split; [|cbn; by rewrite F4, F5, F6].
  unfold etcd_content at 1. cbn. rewrite !hset_map, tuple_serial_base, tuple_subject_base, !(left_id_L ∅ (∪)).
  unfold entry_records in *. cbn. rewrite E1, F1, F2, <- T1, <- T2.
  destruct (fold_left table_set ts (etcd_content s)) as [[]]. done.
Qed.

(** ** The server accepts every batch *)

Lemma fold_insert_size {V} (f : gmap string V -> import_tuple -> gmap string V) ts :
  (forall m t, exists k v, f m t = <[k := v]> m) -> forall m, (size (fold_left f ts m) <= size m + length ts)%nat.
Proof.
  intros Hf. induction ts as [|t ts IH]; intros m; cbn [fold_left length]; [lia|].
  specialize (IH (f m t)). destruct (Hf m t) as (k & v & E). rewrite E in IH |- *.
  assert (size (<[k := v]> m) <= S (size m))%nat; [|lia].
  destruct (m !! k) eqn:Ek; [rewrite map_size_insert_Some by (by eexists); lia|rewrite map_size_insert_None by done; lia].
Qed.

Lemma tuples_length dups n l : length (tuples_from dups n l) = length l.
Proof. revert n. induction l as [|x l IH]; intros n; [done|]. cbn. by rewrite IH. Qed.

Lemma entry_puts_keys dups l : forall n,
  omap put_key (entry_puts (tuples_from dups n l)) = KEntry <$> (number n l).*1.
Proof.
  induction l as [|x l IH]; intros n; [done|]. cbn [tuples_from entry_puts map]. rewrite number_cons. cbn [omap list_omap].
  fold (entry_puts (tuples_from dups (n + 1) l)). rewrite IH. done.
Qed.

Lemma number_keys {A} n (l : list A) : NoDup (number n l).*1.
Proof.
  revert n. induction l as [|x l IH]; intros n; [constructor|]. rewrite number_cons, fmap_cons. constructor; [|apply IH].
  intros ([i y] & E & (j & -> & _)%number_in)%list_elem_of_fmap. cbn in E. lia.
Qed.

Lemma map_put_keys {V} (f : string -> V -> op) (k : string -> key) (m : gmap string V) :
  (forall x v, put_key (f x v) = Some (k x)) ->
  omap put_key (map (fun x => f x.1 x.2) (map_to_list m)) = k <$> (map_to_list m).*1.
Proof.
  intros H. induction (map_to_list m) as [|x l IH]; [done|]. cbn [map omap list_omap]. rewrite H, IH. done.
Qed.

Lemma import_ops_acceptable dups n l seq :
  (length l <= etcdImportBatch)%nat -> acceptable_txn (import_ops (tuples_from dups n l) seq) = true.
Proof.
  intros Hl. set (ts := tuples_from dups n l).
  assert (length ts = length l) as Hts by apply tuples_length.
  assert (length (map_to_list (fold_left tuple_serial ts ∅)) <= length l)%nat as L1.
  { rewrite length_map_to_list, <- Hts. etrans; [apply fold_insert_size|rewrite map_size_empty; lia].
    intros m [[[[]]]]. by eexists _, _. }
  assert (length (map_to_list (fold_left tuple_subject ts ∅)) <= length l)%nat as L2.
  { rewrite length_map_to_list, <- Hts. etrans; [apply fold_insert_size|rewrite map_size_empty; lia].
    intros m [[[[]]]]. by eexists _, _. }
  unfold acceptable_txn. apply andb_true_iff. rewrite !bool_decide_eq_true. unfold import_ops, index_puts. split.
  - rewrite !length_app, !length_map. unfold maxTxnOps, etcdImportBatch in *. cbn [length].
    unfold entry_puts. rewrite length_map. lia.
  - rewrite !omap_app. unfold ts. rewrite entry_puts_keys. fold ts.
    rewrite (map_put_keys PutSerial KSerial), (map_put_keys PutSubject KSubject) by done. cbn [omap list_omap put_key].
    rewrite !NoDup_app. split_and!.
    + apply NoDup_fmap_2; [by intros ?? [= ->]|apply number_keys].
    + intros k (i & -> & _)%list_elem_of_fmap. rewrite !elem_of_app, !list_elem_of_fmap, list_elem_of_singleton. naive_solver.
    + apply NoDup_fmap_2; [by intros ?? [= ->]|apply NoDup_fst_map_to_list].
    + intros k (i & -> & _)%list_elem_of_fmap. rewrite list_elem_of_fmap. naive_solver.
    + apply NoDup_fmap_2; [by intros ?? [= ->]|apply NoDup_fst_map_to_list].
    + intros k. rewrite elem_of_app, !list_elem_of_fmap, list_elem_of_singleton. naive_solver.
    + apply NoDup_singleton.
Qed.

(** ** Replacing, run alone *)

(** A commit whose guards hold. *)
Lemma commit_passes cmps ops s :
  acceptable_txn ops = true -> forallb (holds s) cmps = true ->
  txn cmps ops s = (Ok (true, e_rev s + 1), set_rev (e_rev s + 1) (fold_left (apply_op (e_rev s + 1)) ops s)).
Proof. intros Ha Hg. unfold txn. by rewrite Ha, Hg. Qed.

Definition guards_hold (markerRev : option Z) (s : Etcd) : Prop :=
  match markerRev with Some r => rev_of (e_marker s) = r | None => True end.

Lemma replace_guards_hold markerRev seqRev s :
  forallb (holds s) (replace_guards markerRev seqRev) = true <-> rev_of (e_seq s) = seqRev /\ guards_hold markerRev s.
Proof.
  unfold replace_guards, guards_hold. destruct markerRev as [r|]; cbn [forallb holds];
    rewrite ?andb_true_iff, ?andb_true_r, ?Z.eqb_eq; tauto.
Qed.

Lemma import_batches_run recs markerRev batches : forall n s,
  rev_of (e_seq s) = e_rev s -> guards_hold markerRev s -> (n <= length recs)%nat ->
  etcd_content s = import_tables recs n -> concat batches = drop n recs ->
  Forall (fun c => c <> [] /\ (length c <= etcdImportBatch)%nat) batches ->
  exists s', run_prog (import_batches (duplicateSerials recs) markerRev batches (Z.of_nat n) (rev_of (e_seq s))) s =
      (Ok (Some (rev_of (e_seq s'))), s') /\
    etcd_content s' = import_tables recs (length recs) /\
    e_head s' = e_head s /\ e_marker s' = e_marker s /\ e_hmacKey s' = e_hmacKey s.
Proof.
  induction batches as [|batch batches IH]; intros n s Hr Hg Hn Hc Hcat Hsz.
  { exists s. split; [done|]. split; [|done]. rewrite Hc. f_equal. cbn in Hcat. apply (f_equal length) in Hcat.
    rewrite length_drop in Hcat. cbn in Hcat. lia. }
  apply Forall_cons in Hsz as [[_ Hl] Hsz]. cbn [import_batches concat] in *.
  assert (n + length batch <= length recs)%nat as Hle.
  { apply (f_equal length) in Hcat. rewrite length_app, length_drop in Hcat. lia. }
  assert (take (n + length batch) recs = take n recs ++ batch) as Ht.
  { rewrite <- take_take_drop, <- Hcat. f_equal. by rewrite take_app_length. }
  rewrite run_mbind. unfold commit. cbn [request run_prog].
  rewrite commit_passes; [|by apply import_ops_acceptable|by apply replace_guards_hold]. cbn beta iota. cbn [fst snd].
  destruct (import_ops_apply (e_rev s + 1) (tuples_from (duplicateSerials recs) (Z.of_nat n + 1) batch)
    (Z.of_nat n + Z.of_nat (length batch)) s) as (C & Q & H & M & Kk).
  set (s1 := fold_left _ _ s) in *. replace (Z.of_nat n + Z.of_nat (length batch)) with (Z.of_nat (n + length batch)) in * by lia.
  assert (rev_of (e_seq (set_rev (e_rev s + 1) s1)) = e_rev s + 1) as Er by (cbn; by rewrite Q).
  destruct (IH (n + length batch)%nat (set_rev (e_rev s + 1) s1)) as (s' & E & C' & H' & M' & K'); [done| |done| | |done|].
  - unfold guards_hold in *. cbn. by rewrite M.
  - rewrite (import_batch recs n batch Ht Hn), <- Hc. exact C.
  - rewrite <- drop_drop, <- Hcat. by rewrite drop_app_length.
  - exists s'. rewrite <- Er at 1. rewrite E. cbn in H', M', K'. split; [done|]. split; [done|]. split_and!; congruence.
Qed.

Lemma finish_acceptable recs dropHead : acceptable_txn (finish_ops recs dropHead) = true.
Proof.
  unfold acceptable_txn, finish_ops. apply andb_true_iff. rewrite !bool_decide_eq_true.
  destruct dropHead; cbn; (split; [unfold maxTxnOps; lia|]); repeat constructor;
    rewrite ?elem_of_cons, ?elem_of_nil; naive_solver.
Qed.

Lemma etcd_replace_run recs markerRev dropHead s :
  guards_hold markerRev s ->
  exists s', run_prog (etcd_replaceInventoryOnce recs markerRev dropHead) s = (Ok false, s') /\
    etcd_content s' = import_tables recs (length recs) /\ etcd_counter s' = Some (Z.of_nat (length recs)) /\
    value_of (e_marker s') = Some "" /\ e_head s' = (if dropHead then None else e_head s) /\
    e_hmacKey s' = e_hmacKey s /\ e_seq s' = Some (e_rev s', Z.of_nat (length recs)) /\ e_marker s' = Some (e_rev s', "").
Proof.
  intros Hg. unfold etcd_replaceInventoryOnce. rewrite run_mbind. cbn [reading request run_prog].
  rewrite run_mbind. unfold commit at 1. cbn [request run_prog].
  rewrite commit_passes; [|done|by apply replace_guards_hold]. cbn beta iota. cbn [fst snd].
  set (s1 := set_rev _ _).
  destruct (import_batches_run recs markerRev (chunks (length recs) etcdImportBatch recs) 0 s1)
    as (s2 & E & C & H & M & Kk); [done|done|lia|done| | |].
  { rewrite drop_0. apply chunks_concat; unfold etcdImportBatch; lia. }
  { apply chunks_size. unfold etcdImportBatch. lia. }
  change (rev_of (e_seq s1)) with (e_rev s + 1) in E. change (Z.of_nat 0) with 0 in E. rewrite run_mbind, E. cbn beta iota.
  rewrite run_mbind. unfold commit. cbn [request run_prog].
  rewrite commit_passes; [|apply finish_acceptable|].
  2:{ apply replace_guards_hold. split; [done|]. unfold guards_hold in *. by rewrite M. }
  cbn beta iota. eexists. split; [reflexivity|]. unfold etcd_content, entry_records in *. cbn [fst].
  destruct dropHead; cbn; split_and!; try done; congruence.
Qed.

Lemma etcd_content_indexed recs n s :
  etcd_content s = import_tables recs n ->
  etcd_view s = map cr_entry (take n recs) /\ indexed (etcd_entries s) (e_serial s) (e_subject s) (Some (Z.of_nat n)).
Proof.
  intros Hc. pose proof (import_view recs n) as Hv. pose proof (import_indexed recs n) as Hi.
  rewrite <- Hc in Hv, Hi. done.
Qed.

(** A replacement through the blob interface, run alone: a text with a
    malformed line or a serial twice is refused and nothing changes; any other
    text is listed, entry by entry, with exact indices, however many
    transactions it takes. *)
Theorem etcd_putInventory_refines data s :
  match importable_text data with
  | Err e => run_prog (etcd_putInventory data) s = (Err e, s)
  | Ok recs => exists s', run_prog (etcd_putInventory data) s = (Ok tt, s') /\
      etcd_view s' = map cr_entry recs /\
      indexed (etcd_entries s') (e_serial s') (e_subject s') (etcd_counter s') /\ e_head s' = e_head s
  end.
Proof.
  unfold etcd_putInventory. destruct (importable_text data) as [recs|e]; [|done].
  unfold etcdMaxTxnRetries. cbn [etcd_put_attempts].
  destruct (etcd_replace_run recs None false s I) as (s' & E & C & Q & _ & H & _).
  rewrite run_mbind, E. exists s'. split; [done|]. destruct (etcd_content_indexed _ _ _ C) as [V X].
  rewrite firstn_all in V. by rewrite Q.
Qed.

(** ** Any number of conversions *)

Section Legacy.
(** The text and the records it lists, the revision of its last write, and the
    stored integrity value and key. *)
Context (blob : string) (recs : list CertRecord) (mrev : Z) (head0 key0 : option string).
Context (Hblob : blob <> "") (Hparse : parseInventoryRecords blob = Ok recs).

Notation genuine := (legacy_genuine blob head0 key0).

Definition etcd_imported (n : nat) (s : Etcd) : Prop :=
  etcd_content s = import_tables recs n /\ counter_value (etcd_counter s) = Z.of_nat n.

Definition revs_ok (s : Etcd) : Prop := 0 <= e_rev s /\ rev_of (e_seq s) <= e_rev s /\ mrev <= e_rev s.

(** The text still counts; the import may have begun. *)
Record etcd_pending (s : Etcd) : Prop := EtcdPending {
  ep_revs : revs_ok s;
  ep_marker : e_marker s = Some (mrev, blob);
  ep_head : value_of (e_head s) = head0;
  ep_key : e_hmacKey s = key0;
  ep_import : exists n, (n <= length recs)%nat /\ etcd_imported n s }.

(** The text has been retired. *)
Record etcd_converted (s : Etcd) : Prop := EtcdConverted {
  ec_revs : revs_ok s;
  ec_marker : exists r, e_marker s = Some (r, "") /\ mrev < r;
  ec_head : e_head s = None;
  ec_import : etcd_imported (length recs) s }.

Definition etcd_legacy_rely (s s' : Etcd) : Prop :=
  (etcd_pending s -> (genuine = false -> s' = s) /\ (etcd_pending s' \/ etcd_converted s')) /\
  (etcd_converted s -> etcd_converted s') /\
  (revs_ok s -> revs_ok s' /\ e_rev s <= e_rev s' /\ (e_seq s' = e_seq s \/ e_rev s < rev_of (e_seq s'))).

Lemma etcd_pending_not_converted s : etcd_pending s -> etcd_converted s -> False.
Proof.
  intros Hp Hc. destruct (ec_marker _ Hc) as (r & Hm & _). rewrite (ep_marker _ Hp) in Hm. by injection Hm as _ ->.
Qed.

#[global] Instance etcd_legacy_preorder : PreOrder etcd_legacy_rely.
Proof.
  split.
  - intros s. split; [auto|]. split; [auto|]. intros H. split; [done|]. split; [lia|by left].
  - intros a b c (P1 & C1 & R1) (P2 & C2 & R2). split; [|split; [auto|]].
    + intros Ha. destruct (P1 Ha) as [E1 [Hb|Hb]].
      * destruct (P2 Hb) as [E2 Hc]. split; [|done]. intros Hg. by rewrite (E2 Hg), (E1 Hg).
      * split; [|auto]. intros Hg. rewrite (E1 Hg) in Hb. destruct (etcd_pending_not_converted a Ha Hb).
    + intros Ha. destruct (R1 Ha) as (Hb & L1 & D1). destruct (R2 Hb) as (Hc & L2 & D2). split; [done|]. split; [lia|].
      destruct D1 as [D1|D1], D2 as [D2|D2]; [left; congruence|right; lia|right; rewrite D2; lia|right; lia].
Qed.

(** A conversion that got past the integrity check. *)
Definition etcd_cleared (s : Etcd) : Prop := (etcd_pending s /\ genuine = true) \/ etcd_converted s.

Lemma etcd_cleared_revs s : etcd_cleared s -> revs_ok s.
Proof. intros [[[] _]|[]]; done. Qed.

Lemma etcd_cleared_rely s s' : etcd_cleared s -> etcd_legacy_rely s s' -> etcd_cleared s'.
Proof.
  intros [[Hp Hg]|Hc] (H1 & H2 & _); [|right; auto]. destruct (H1 Hp) as [_ [?|?]]; [by left|by right].
Qed.

(** A commit of a cleared conversion that finds the text still counting. *)
Lemma etcd_cleared_step s s' :
  etcd_cleared s -> etcd_pending s -> etcd_pending s' \/ etcd_converted s' ->
  e_rev s' = e_rev s + 1 -> rev_of (e_seq s') = e_rev s + 1 -> etcd_legacy_rely s s'.
Proof.
  intros Hc Hp H Hr Hq. split; [|split].
  - intros _. split; [|done]. intros Hg. destruct Hc as [[_ Hg']|Hc]; [congruence|].
    destruct (etcd_pending_not_converted s Hp Hc).
  - intros Hcv. destruct (etcd_pending_not_converted s Hp Hcv).
  - intros (R1 & R2 & R3). unfold revs_ok. rewrite Hr, Hq. split; [lia|]. split; [lia|]. right. lia.
Qed.

(** The guards pass only while the text counts and the counter is as it was. *)
Lemma guards_pass u s :
  etcd_cleared u -> etcd_legacy_rely u s ->
  forallb (holds s) (replace_guards (Some mrev) (rev_of (e_seq u))) = true ->
  etcd_pending s /\ e_seq s = e_seq u.
Proof.
  intros Hu Hr [Hq Hm]%replace_guards_hold. pose proof (etcd_cleared_rely _ _ Hu Hr) as Hs. split.
  - destruct Hs as [[Hp _]|Hc]; [done|]. destruct (ec_marker _ Hc) as (r & E & Hlt). cbn in Hm. rewrite E in Hm. cbn in Hm. lia.
  - pose proof (etcd_cleared_revs _ Hu) as Ru. destruct Hr as (_ & _ & Hr). destruct (Hr Ru) as (_ & _ & [?|Hlt]); [done|].
    destruct Ru as (_ & Ru & _). lia.
Qed.

(** What a request of a conversion may meet. *)
Lemma conversion_commit u ops s :
  etcd_cleared u -> etcd_legacy_rely u s -> acceptable_txn ops = true ->
  let f := txn (replace_guards (Some mrev) (rev_of (e_seq u))) ops in
  f s = (Ok (false, e_rev s), s) \/
  (etcd_pending s /\ e_seq s = e_seq u /\
   f s = (Ok (true, e_rev s + 1), set_rev (e_rev s + 1) (fold_left (apply_op (e_rev s + 1)) ops s))).
Proof.
  intros Hu Hr Ha f. unfold f, txn. rewrite Ha. cbn [negb].
  destruct (forallb _ _) eqn:E; [right|by left]. by destruct (guards_pass u s Hu Hr E).
Qed.

Lemma pending_after_wipe s :
  etcd_pending s ->
  etcd_pending (set_rev (e_rev s + 1) (fold_left (apply_op (e_rev s + 1)) [DelEntries; DelSerials; DelSubjects; PutSeq 0] s)).
Proof.
  intros [(R1 & R2 & R3) M H Kk _]. split; [unfold revs_ok; cbn; lia|done..|]. exists 0%nat. split; [lia|]. done.
Qed.

Lemma pending_after_batch n batch s :
  etcd_pending s -> counter_value (etcd_counter s) = Z.of_nat n -> (n + length batch <= length recs)%nat ->
  take (n + length batch) recs = take n recs ++ batch ->
  let s' := set_rev (e_rev s + 1) (fold_left (apply_op (e_rev s + 1))
    (import_ops (tuples_from (duplicateSerials recs) (Z.of_nat n + 1) batch) (Z.of_nat n + Z.of_nat (length batch))) s) in
  etcd_pending s' /\ e_seq s' = Some (e_rev s + 1, Z.of_nat (n + length batch)).
Proof.
  intros [(R1 & R2 & R3) M H Kk (n' & Hn' & Hi)] Hseq Hle Ht s'.
  assert (n' = n) as -> by (destruct Hi as [_ Hi]; lia).
  destruct (import_ops_apply (e_rev s + 1) (tuples_from (duplicateSerials recs) (Z.of_nat n + 1) batch)
    (Z.of_nat n + Z.of_nat (length batch)) s) as (C & Q & H' & M' & K').
  unfold s'. set (s1 := fold_left _ _ s) in *.
  assert (e_seq (set_rev (e_rev s + 1) s1) = Some (e_rev s + 1, Z.of_nat (n + length batch))) as Q'.
  { cbn. rewrite Q. do 2 f_equal. lia. }
  split; [|done]. split; [unfold revs_ok; rewrite Q'; cbn; lia|cbn; congruence..|].
  exists (n + length batch)%nat. split; [done|]. split; [|unfold etcd_counter; by rewrite Q'].
  rewrite (import_batch recs n batch Ht) by lia. destruct Hi as [<- _]. exact C.
Qed.

Lemma converted_after_finish s :
  etcd_pending s -> counter_value (etcd_counter s) = Z.of_nat (length recs) ->
  etcd_converted (set_rev (e_rev s + 1) (fold_left (apply_op (e_rev s + 1)) (finish_ops recs true) s)).
Proof.
  intros [(R1 & R2 & R3) M H Kk (n & Hn & Hi)] Hseq. assert (n = length recs) as -> by (destruct Hi as [_ Hi]; lia).
  split; [unfold revs_ok; cbn; lia| |done|].
  - exists (e_rev s + 1). split; [done|lia].
  - split; [apply Hi|done].
Qed.

Lemma import_batches_wp batches : forall n u s,
  etcd_cleared u -> etcd_legacy_rely u s -> counter_value (etcd_counter u) = Z.of_nat n ->
  concat batches = drop n recs -> (n <= length recs)%nat ->
  Forall (fun c => c <> [] /\ (length c <= etcdImportBatch)%nat) batches ->
  wp etcd_legacy_rely (import_batches (duplicateSerials recs) (Some mrev) batches (Z.of_nat n) (rev_of (e_seq u)))
    (fun r s' => etcd_cleared s' /\
       forall rev, r = Ok (Some rev) -> exists u', etcd_cleared u' /\ etcd_legacy_rely u' s' /\
         rev_of (e_seq u') = rev /\ counter_value (etcd_counter u') = Z.of_nat (length recs)) s.
Proof.
  induction batches as [|batch batches IH]; intros n u s Hu Hr Hq Hcat Hn Hsz.
  { split; [by eapply etcd_cleared_rely|]. intros rev [= <-]. exists u. split_and!; [done..|].
    rewrite Hq. f_equal. cbn in Hcat. apply (f_equal length) in Hcat. rewrite length_drop in Hcat. cbn in Hcat. lia. }
  apply Forall_cons in Hsz as [[_ Hl] Hsz].
  assert (n + length batch <= length recs)%nat as Hle.
  { apply (f_equal length) in Hcat. cbn [concat] in Hcat. rewrite length_app, length_drop in Hcat. lia. }
  assert (take (n + length batch) recs = take n recs ++ batch) as Htake.
  { rewrite <- take_take_drop, <- Hcat. cbn [concat]. f_equal. by rewrite take_app_length. }
  cbn [import_batches]. apply wp_mbind, wp_request; [apply _|]. intros t Ht.
  assert (etcd_legacy_rely u t) as Hut by (by etrans). pose proof (etcd_cleared_rely _ _ Hu Hut) as Hct.
  destruct (conversion_commit u (import_ops (tuples_from (duplicateSerials recs) (Z.of_nat n + 1) batch)
    (Z.of_nat n + Z.of_nat (length batch))) t Hu Hut) as [E|(Hp & Eq & E)].
  { by apply import_ops_acceptable. }
  { rewrite E. cbn [fst snd]. split; [reflexivity|]. split; [|done]. split; [done|]. by intros rev [=]. }
  destruct (pending_after_batch n batch t Hp) as [Hp' Q']; [unfold etcd_counter in *; by rewrite Eq|done|done|].
  rewrite E. cbn [fst snd]. set (t' := set_rev _ _) in *.
  assert (etcd_legacy_rely t t') as R.
  { apply etcd_cleared_step; auto. by rewrite Q'. }
  split; [done|]. assert (etcd_cleared t') as Hc' by (by eapply etcd_cleared_rely).
  split; [|intros e; split; (split; [done|]); by intros rev [=]].
  replace (Z.of_nat n + Z.of_nat (length batch)) with (Z.of_nat (n + length batch)) by lia.
  replace (e_rev t + 1) with (rev_of (e_seq t')) by (by rewrite Q').
  apply (IH _ t'); [done|reflexivity|unfold etcd_counter; by rewrite Q'| |done|done].
  rewrite <- drop_drop, <- Hcat. cbn [concat]. by rewrite drop_app_length.
Qed.

Lemma etcd_replace_wp s :
  etcd_cleared s ->
  wp etcd_legacy_rely (etcd_replaceInventoryOnce recs (Some mrev) true) (fun _ s' => etcd_cleared s') s.
Proof.
  intros Hc. unfold etcd_replaceInventoryOnce. apply wp_mbind, wp_read; [apply _|]. intros s1 H1.
  pose proof (etcd_cleared_rely _ _ Hc H1) as Hc1. split; [|done].
  apply wp_mbind, wp_request; [apply _|]. intros s2 H2. pose proof (etcd_cleared_rely _ _ Hc1 H2) as Hc2.
  destruct (conversion_commit s1 [DelEntries; DelSerials; DelSubjects; PutSeq 0] s2 Hc1 H2 eq_refl) as [E|(Hp & _ & E)].
  { rewrite E. cbn [fst snd]. split; [reflexivity|]. split; [done|]. done. }
  pose proof (pending_after_wipe s2 Hp) as Hp3. rewrite E. cbn [fst snd]. set (s3 := set_rev _ _) in *.
  assert (etcd_legacy_rely s2 s3) as R3 by (apply etcd_cleared_step; auto).
  assert (etcd_cleared s3) as Hc3 by (by eapply etcd_cleared_rely). split; [done|]. split; [|done].
  apply wp_mbind. change (e_rev s2 + 1) with (rev_of (e_seq s3)).
  eapply wp_mono; [|apply (import_batches_wp _ 0 s3 s3 Hc3); [reflexivity|done| |lia|apply chunks_size; unfold etcdImportBatch; lia]].
  2:{ rewrite drop_0. apply chunks_concat; unfold etcdImportBatch; lia. }
  intros [[rev|]|e] s4 [Hc4 Hlast]; [|done..]. destruct (Hlast rev eq_refl) as (u & Hu & Hr & <- & Hq).
  apply wp_mbind, wp_request; [apply _|]. intros s5 H5. assert (etcd_legacy_rely u s5) as Hr5 by (by etrans).
  pose proof (etcd_cleared_rely _ _ Hu Hr5) as Hc5.
  destruct (conversion_commit u (finish_ops recs true) s5 Hu Hr5 (finish_acceptable _ _)) as [E'|(Hp' & Eq & E')].
  { rewrite E'. cbn [fst snd]. split; [reflexivity|]. split; [done|]. done. }
  assert (etcd_converted (set_rev (e_rev s5 + 1) (fold_left (apply_op (e_rev s5 + 1)) (finish_ops recs true) s5))) as Hv.
  { apply converted_after_finish; [done|]. unfold etcd_counter in *. by rewrite Eq. }
  rewrite E'. cbn [fst snd]. set (s6 := set_rev (e_rev s5 + 1) _) in *.
  assert (etcd_legacy_rely s5 s6) as R6 by (apply etcd_cleared_step; [done|done|by right|done|done]).
  assert (etcd_cleared s6) as Hc6 by (by right). done.
Qed.

(** *** One conversion *)

Lemma etcd_pending_prefix s : etcd_pending s -> recordsArePrefixOf (ordered (entry_records s)) recs = true.
Proof. intros [_ _ _ _ (n & Hn & [Hc _])]. pose proof (import_prefix recs n Hn) as H. by rewrite <- Hc in H. Qed.

Lemma etcd_wrap_wp {A} (p : etcd A) (Q : result A -> Etcd -> Prop) s :
  wp etcd_legacy_rely p (fun r s' => forall r', (r' = r \/ exists e, r' = Err e) -> Q r' s') s ->
  wp etcd_legacy_rely (etcd_wrap_decompose p) Q s.
Proof.
  revert s. induction p as [[a|e]|B f k IH]; intros s H; cbn [etcd_wrap_decompose].
  - apply H. by left.
  - apply H. right. by eexists.
  - cbn [wp] in *. intros s' Hs b s'' Hb. destruct (H s' Hs b s'' Hb). split; [done|]. by apply IH.
Qed.

Notation underway s := (etcd_pending s \/ etcd_converted s).

Lemma underway_rely a b : underway a -> etcd_legacy_rely a b -> underway b.
Proof. intros [Hp|Hc] (H1 & H2 & _); [by destruct (H1 Hp)|right; auto]. Qed.

Lemma etcd_verify_wp s :
  underway s ->
  wp etcd_legacy_rely (etcd_verifyLegacyInventoryMAC blob)
    (fun r s' => underway s' /\ (r = Ok tt -> etcd_cleared s')) s.
Proof.
  intros Hs. unfold etcd_verifyLegacyInventoryMAC. apply wp_mbind, wp_read; [apply _|]. intros s1 H1.
  pose proof (underway_rely _ _ Hs H1) as Hs1. split; [|done]. destruct Hs1 as [Hp|Hc].
  - rewrite (ep_head _ Hp), (ep_key _ Hp). assert (genuine = true -> etcd_cleared s1) as Hok by (intros; by left).
    unfold legacy_genuine in Hok. destruct head0 as [stored|]; [destruct key0 as [key|]|]; try (split; [by left|]); auto; try done.
    destruct (String.length key =? hmacKeyLen)%nat; cbn [negb andb] in *; [|split; [by left|done]].
    case_bool_decide; cbn; (split; [by left|]); [auto|done].
  - rewrite (ec_head _ Hc). cbn. split; [by right|]. intros _. by right.
Qed.

Lemma etcd_state_pending s :
  etcd_pending s ->
  match e_marker s with
  | Some (rev, payload) => if bool_decide (payload = "") then ("", 0, []) else (payload, rev, ordered (entry_records s))
  | None => ("", 0, [])
  end = (blob, mrev, ordered (entry_records s)).
Proof. intros Hp. rewrite (ep_marker _ Hp). by rewrite bool_decide_eq_false_2. Qed.

Lemma etcd_decompose_wp attempts s :
  underway s -> wp etcd_legacy_rely (etcd_decompose_attempts attempts) (fun _ s' => underway s') s.
Proof.
  assert (forall t, etcd_cleared t -> underway t) as Hclear by (intros t [[]|]; auto).
  revert s. induction attempts as [|attempts IH]; intros s Hs; [done|].
  cbn [etcd_decompose_attempts]. apply wp_mbind, wp_read; [apply _|]. intros s1 H1.
  pose proof (underway_rely _ _ Hs H1) as Hs1. split; [|done]. destruct Hs1 as [Hp|Hc].
  2:{ destruct (ec_marker _ Hc) as (r & -> & _). cbn. by right. }
  rewrite (etcd_state_pending _ Hp). rewrite bool_decide_eq_false_2 by done.
  rewrite Hparse. cbn [etcd_wrap_decompose mbind prog_mbind prog_bind].
  rewrite (etcd_pending_prefix _ Hp), andb_false_r.
  apply wp_mbind. eapply wp_mono; [|by apply etcd_verify_wp; left]. intros [[]|e] s2 [Hs2 Hc2]; [|done].
  specialize (Hc2 eq_refl). apply wp_mbind, etcd_wrap_wp.
  eapply wp_mono; [|by apply etcd_replace_wp]. intros r s3 Hc3 r' Hr'.
  destruct r' as [[]|e]; [|by apply Hclear..].
  apply wp_mbind, wp_read; [apply _|]. intros s4 H4. pose proof (underway_rely _ _ (Hclear _ Hc3) H4) as Hs4.
  split; [by apply IH|done].
Qed.

Lemma etcd_convert_wp attempts s :
  etcd_converted s -> wp etcd_legacy_rely (etcd_convert_attempts attempts) (fun _ s' => etcd_converted s') s.
Proof.
  intros Hc. destruct attempts as [|attempts]; [done|]. cbn [etcd_convert_attempts].
  apply wp_mbind, wp_read; [apply _|]. intros s1 (_ & H1 & _). specialize (H1 Hc). split; [|done].
  case_bool_decide; cbn [negb]; [|done]. by rewrite (ec_head _ H1).
Qed.

Lemma etcd_ensure_ready_wp s :
  underway s -> wp etcd_legacy_rely etcd_EnsureReady (fun _ s' => underway s') s.
Proof.
  intros Hs. unfold etcd_EnsureReady, etcd_decomposeLegacyInventory.
  apply wp_mbind, wp_read; [apply _|]. intros s1 H1. pose proof (underway_rely _ _ Hs H1) as Hs1. split; [|done].
  apply wp_mbind, wp_read; [apply _|]. intros s2 H2. pose proof (underway_rely _ _ Hs1 H2) as Hs2. split; [|done].
  destruct Hs2 as [Hp|Hc].
  - rewrite (ep_marker _ Hp). cbn [value_of default]. rewrite bool_decide_eq_false_2 by done.
    apply wp_mbind, wp_read; [apply _|]. intros s3 H3. pose proof (underway_rely _ _ (or_introl Hp) H3) as Hs3.
    split; [by apply etcd_decompose_wp|done].
  - destruct (ec_marker _ Hc) as (r & -> & _). cbn [value_of default]. rewrite bool_decide_eq_true_2 by done.
    eapply wp_mono; [|by apply etcd_convert_wp]. intros ? ? ?. by right.
Qed.

(** *** A conversion run alone *)

Lemma etcd_wrap_Ok {A} (p : etcd A) s a s' :
  run_prog p s = (Ok a, s') -> run_prog (etcd_wrap_decompose p) s = (Ok a, s').
Proof.
  revert s. induction p as [[b|e]|B f k IH]; intros s H; [done|done|]. cbn [etcd_wrap_decompose run_prog] in *.
  destruct (f s) as [b t]. by apply IH.
Qed.

Lemma etcd_verify_run s :
  etcd_pending s ->
  if genuine then run_prog (etcd_verifyLegacyInventoryMAC blob) s = (Ok tt, s)
  else exists what, run_prog (etcd_verifyLegacyInventoryMAC blob) s = (Err (etcd_tampered what), s).
Proof.
  intros Hp. unfold etcd_verifyLegacyInventoryMAC, legacy_genuine. rewrite run_mbind. cbn [reading request run_prog].
  rewrite (ep_head _ Hp), (ep_key _ Hp). destruct head0 as [stored|], key0 as [key|]; try done; [|by eexists].
  destruct (String.length key =? hmacKeyLen)%nat; cbn [negb andb]; [|by eexists].
  case_bool_decide; [done|by eexists].
Qed.

Lemma etcd_convert_run a s : etcd_converted s -> run_prog (etcd_convert_attempts (S a)) s = (Ok tt, s).
Proof.
  intros Hc. cbn [etcd_convert_attempts]. rewrite run_mbind. cbn [reading request run_prog].
  case_bool_decide; cbn [negb]; [|done]. by rewrite (ec_head _ Hc).
Qed.

Lemma etcd_decompose_run a s :
  etcd_pending s ->
  run_prog (etcd_decompose_attempts (S a)) s =
    match run_prog (etcd_verifyLegacyInventoryMAC blob) s with
    | (Ok _, s') => run_prog (conflict ← etcd_wrap_decompose (etcd_replaceInventoryOnce recs (Some mrev) true);
                              if (conflict : bool) then _ ← backoff; etcd_decompose_attempts a else mret tt) s'
    | (Err e, s') => (Err e, s')
    end.
Proof.
  intros Hp. cbn [etcd_decompose_attempts]. rewrite run_mbind. cbn [etcd_legacyInventoryState reading request run_prog].
  rewrite (etcd_state_pending _ Hp). rewrite bool_decide_eq_false_2 by done.
  rewrite Hparse. cbn [etcd_wrap_decompose]. rewrite run_mbind. cbn [run_prog].
  rewrite (etcd_pending_prefix _ Hp), andb_false_r. by rewrite run_mbind.
Qed.

Lemma etcd_start_pending s :
  etcd_pending s -> run_prog etcd_EnsureReady s = run_prog (etcd_decompose_attempts (S 15)) s.
Proof.
  intros Hp. unfold etcd_EnsureReady, etcd_decomposeLegacyInventory, etcd_decompose_lock.
  rewrite run_mbind. cbn [backoff request run_prog]. rewrite run_mbind. cbn [legacyMarkerPayload reading request run_prog].
  rewrite (ep_marker _ Hp). cbn [value_of default]. rewrite bool_decide_eq_false_2 by done. by rewrite run_mbind.
Qed.

Lemma etcd_start_converted s : etcd_converted s -> run_prog etcd_EnsureReady s = (Ok tt, s).
Proof.
  intros Hc. unfold etcd_EnsureReady, etcd_decomposeLegacyInventory.
  rewrite run_mbind. cbn [backoff request run_prog]. rewrite run_mbind. cbn [legacyMarkerPayload reading request run_prog].
  destruct (ec_marker _ Hc) as (r & -> & _). cbn [value_of default]. rewrite bool_decide_eq_true_2 by done.
  by apply (etcd_convert_run 15).
Qed.

(** The inventory lists the text's records and nothing is left of the text. *)
Definition etcd_lists (s : Etcd) : Prop :=
  etcd_view s = map cr_entry recs /\ indexed (etcd_entries s) (e_serial s) (e_subject s) (Some (Z.of_nat (length recs))) /\
  counter_value (etcd_counter s) = Z.of_nat (length recs) /\ e_head s = None /\ value_of (e_marker s) = Some "".

Lemma etcd_converted_lists s : etcd_converted s -> etcd_lists s.
Proof.
  intros [_ (r & M & _) H [C Q]]. destruct (etcd_content_indexed _ _ _ C) as [V X]. rewrite firstn_all in V.
  unfold etcd_lists. by rewrite M.
Qed.

Lemma etcd_start_run s :
  underway s ->
  if genuine then exists s', run_prog etcd_EnsureReady s = (Ok tt, s') /\ etcd_lists s'
  else etcd_pending s -> exists what, run_prog etcd_EnsureReady s = (Err (etcd_tampered what), s).
Proof.
  intros Hs. pose proof (etcd_verify_run s) as Hv. destruct genuine.
  - destruct Hs as [Hp|Hc]; [|exists s; auto using etcd_start_converted, etcd_converted_lists].
    destruct (etcd_replace_run recs (Some mrev) true s) as (s' & E & C & Q & M & H & _).
    { unfold guards_hold. by rewrite (ep_marker _ Hp). }
    exists s'. rewrite etcd_start_pending, etcd_decompose_run, Hv, run_mbind, (etcd_wrap_Ok _ _ _ _ E) by done.
    split; [done|]. destruct (etcd_content_indexed _ _ _ C) as [V X]. rewrite firstn_all in V.
    unfold etcd_lists. by rewrite Q, M.
  - intros Hp. destruct (Hv Hp) as [what E]. exists what. by rewrite etcd_start_pending, etcd_decompose_run, E.
Qed.
End Legacy.

(** Starting replicas convert a legacy etcd inventory exactly.  From a store
    whose text lists [recs] and of which some first part may have been imported,
    let any number of replicas start, their transactions interleaved in any
    order, any of them stopped or cut off anywhere; then one more start,
    undisturbed, succeeds and leaves the entries of the text, no others, with
    exact indices, the text retired and its integrity value dropped.  If the text
    fails its integrity check, no start changes anything, and each reports the
    tampering. *)
Theorem etcd_conversion_resumable blob recs mrev s s' ps :
  blob <> "" -> parseInventoryRecords blob = Ok recs ->
  etcd_pending blob recs mrev (value_of (e_head s)) (e_hmacKey s) s ->
  rtc (step (fun p => p = etcd_EnsureReady)) (s, []) (s', ps) ->
  if legacy_genuine blob (value_of (e_head s)) (e_hmacKey s) then
    exists s'', run_prog etcd_EnsureReady s' = (Ok tt, s'') /\ etcd_lists recs s''
  else s' = s /\ exists what, run_prog etcd_EnsureReady s' = (Err (etcd_tampered what), s).
Proof.
  intros Hblob Hparse Hp Hsteps. set (head0 := value_of (e_head s)) in *. set (key0 := e_hmacKey s) in *.
  pose proof (etcd_legacy_preorder blob recs mrev head0 key0 Hblob Hparse).
  destruct (steps_keep (etcd_legacy_rely blob recs mrev head0 key0) (fun p => p = etcd_EnsureReady)
    (fun t => etcd_pending blob recs mrev head0 key0 t \/ etcd_converted recs mrev t) (s, []) (s', ps)) as (R & Hs' & _).
  - intros a b Hab Ha. by eapply underway_rely.
  - intros p a -> Ha. eapply wp_mono; [|by eapply etcd_ensure_ready_wp]. done.
  - done.
  - by left.
  - by intros p ?%not_elem_of_nil.
  - cbn [fst] in *. pose proof (etcd_start_run blob recs mrev head0 key0 Hblob Hparse s' Hs') as Hrun.
    destruct (legacy_genuine blob head0 key0) eqn:Hg; [exact Hrun|].
    destruct R as [R _]. destruct (R Hp) as [E _]. specialize (E Hg). subst s'. split; [done|]. by apply Hrun.
Qed.

(** ** Witness *)

Definition etcd_legacy_text : string := canonicalInventoryLine demo_entry +:+ nl.
Definition etcd_legacy_record : CertRecord := mkRecord demo_entry no_proj CertStateSigned None.
Definition etcd_legacy_store : Etcd := mkEtcd 1 None ∅ ∅ ∅ None (Some (1, etcd_legacy_text)) None ∅.
Definition etcd_legacy_started : Etcd := mkEtcd 2 (Some (2, 0)) ∅ ∅ ∅ None (Some (1, etcd_legacy_text)) None ∅.

Lemma etcd_legacy_store_pending : etcd_pending etcd_legacy_text [etcd_legacy_record] 1 None None etcd_legacy_store.
Proof.
  split; [unfold revs_ok; cbn; lia|reflexivity..|]. exists 0%nat. split; [cbn; lia|]. split; reflexivity.
Qed.

(** A replica that stops once it has begun the import, and then a start that
    finishes it. *)
Lemma etcd_conversion_resumable_witness :
  exists ps s'', rtc (step (fun p => p = etcd_EnsureReady)) (etcd_legacy_store, []) (etcd_legacy_started, ps) /\
  run_prog etcd_EnsureReady etcd_legacy_started = (Ok tt, s'') /\ etcd_view s'' = [demo_entry].
Proof.
  assert (exists ps, rtc (step (fun p => p = etcd_EnsureReady)) (etcd_legacy_store, []) (etcd_legacy_started, ps)) as [ps Hrun].
  { eexists. eapply rtc_l; [by apply (step_start _ _ _ etcd_EnsureReady)|].
    do 7 (eapply rtc_l; [eapply (step_serve _ _ _ 0%nat); [reflexivity|apply served_ok]|]).
    apply rtc_eq. f_equal. }
  exists ps.
  destruct (etcd_conversion_resumable etcd_legacy_text [etcd_legacy_record] 1 etcd_legacy_store etcd_legacy_started ps) as
    (s'' & E & V & _).
  - discriminate.
  - vm_compute. reflexivity.
  - exact etcd_legacy_store_pending.
  - exact Hrun.
  - exists s''. split; [exact Hrun|]. split; [exact E|]. exact V.
Defined.
