(* ===== verification/Redis.v ===== *)
(** * The Redis backend's inventory

    Models internal/storage/redis_inventory.go and redis_certindex.go.  The
    store holds the keys of the inventory's family; a value is represented by
    what it decodes to, so that the head is its payload and the marker a
    modification time beside a payload.  Each Lua script is one atomic function
    of the store, each pipelined read one atomic read, and the operations are
    programs of [Concurrent]: between any two of their requests the other
    replicas' scripts may run, and any request or reply may be lost.

    The clock an operation reads is an argument, indexed by what is left of its
    attempts.  The in-process mutex and the decomposition lock only order a
    replica's own calls and are not relied on. *)

From S2P Require Import Prelude GoStrings GoTime X509 Inventory Storage Concurrent Records InventorySpec Numbered BulkImport.

(** ** The store *)

Record Redis := mkRedis {
  r_entries : gmap Z inventoryRecordJSON;
  r_seq : option Z;
  (** a serial's sequence number, or [None] for "ambiguous" *)
  r_serial : gmap string (option Z);
  r_subject : gmap string string;
  r_head : option string;
  r_marker : option (Z * string);
  (** the HMAC key and the certnames with a stored certificate *)
  r_hmacKey : option string;
  r_certs : gset string }.

Definition put_entries x s := mkRedis x (r_seq s) (r_serial s) (r_subject s) (r_head s) (r_marker s) (r_hmacKey s) (r_certs s).
Definition put_seq x s := mkRedis (r_entries s) x (r_serial s) (r_subject s) (r_head s) (r_marker s) (r_hmacKey s) (r_certs s).
Definition put_serial x s := mkRedis (r_entries s) (r_seq s) x (r_subject s) (r_head s) (r_marker s) (r_hmacKey s) (r_certs s).
Definition put_subject x s := mkRedis (r_entries s) (r_seq s) (r_serial s) x (r_head s) (r_marker s) (r_hmacKey s) (r_certs s).
Definition put_head x s := mkRedis (r_entries s) (r_seq s) (r_serial s) (r_subject s) x (r_marker s) (r_hmacKey s) (r_certs s).
Definition put_marker x s := mkRedis (r_entries s) (r_seq s) (r_serial s) (r_subject s) (r_head s) x (r_hmacKey s) (r_certs s).

(** The counter as the scripts compare it, and the head's payload. *)
Definition seq_value (s : Redis) : Z := counter_value (r_seq s).
Definition head_body (s : Redis) : string := default "" (r_head s).

Notation redis := (prog Redis).
Definition redis_read {A} (f : Redis -> A) : redis A := request (fun s => (Ok (f s), s)).

Inductive reply := RedisOK | RedisDuplicate (serial : string) | RedisConflict | RedisMissing.
Notation script := (Redis -> reply * Redis).
Definition runInvScript (f : script) : redis reply := request (fun s => let '(r, s') := f s in (Ok r, s')).
Definition unexpected {A} (what : string) : redis A :=
  abort_with (Msg ("unexpected inventory " +:+ what +:+ " result")).

Definition redisMaxRetries : nat := 16.
Definition redisImportBatch : nat := 512.
Definition redisPruneMaxPerCall : nat := N.to_nat 5000.

(** ** The scripts *)

(** The head that was read and the one to write; [None] without integrity. *)
Definition headArgs (newHead : option (string -> string)) (prev : string) : option (string * string) :=
  (fun f => (prev, f prev)) <$> newHead.
Definition head_conflicts (arg : option (string * string)) (s : Redis) : bool :=
  match arg with None => false | Some (prev, _) => negb (bool_decide (head_body s = prev)) end.
Definition write_head (arg : option (string * string)) (s : Redis) : Redis :=
  match arg with None => s | Some (_, h) => put_head (Some h) s end.

(** The three hash writes of one record. *)
Definition hset_record (n : Z) (serial : string) (value : option Z) (subject : string)
    (json : inventoryRecordJSON) (s : Redis) : Redis :=
  put_subject (<[subject := serial]> (r_subject s))
    (put_serial (<[serial := value]> (r_serial s))
      (put_entries (<[n := json]> (r_entries s)) s)).

Definition redisAppendEntryLua (arg : option (string * string)) (mtime : Z)
    (serial subject : string) (json : inventoryRecordJSON) : script := fun s =>
  if bool_decide (is_Some (r_serial s !! serial)) then (RedisDuplicate serial, s)
  else if head_conflicts arg s then (RedisConflict, s)
  else
    let seq := seq_value s + 1 in
    (RedisOK, put_marker (Some (mtime, ""))
       (write_head arg (hset_record seq serial (Some seq) subject json (put_seq (Some seq) s)))).

Notation line := (string * string * inventoryRecordJSON)%type.
Fixpoint hset_lines (seq : Z) (lines : list line) (s : Redis) : Z * Redis :=
  match lines with
  | [] => (seq, s)
  | (serial, subject, json) :: lines =>
      hset_lines (seq + 1) lines (hset_record (seq + 1) serial (Some (seq + 1)) subject json s)
  end.
Definition redisAppendLinesLua (mtime : Z) (lines : list line) : script := fun s =>
  match base.filter (fun l : line => is_Some (r_serial s !! l.1.1)) lines with
  | (serial, _, _) :: _ => (RedisDuplicate serial, s)
  | [] =>
      let '(seq, s') := hset_lines (seq_value s) lines s in
      (RedisOK, put_marker (Some (mtime, "")) (put_seq (Some seq) s'))
  end.

(** The lists are applied in chunks, since [unpack] has a limit. *)
Definition lua_apply {A B} (stride : nat) (f : B -> A -> B) (args : list A) (b : B) : B :=
  fold_left (fun b chunk => fold_left f chunk b) (chunks (length args) stride args) b.

Definition redisPruneLua (arg : option (string * string)) (seq : Z) (entryFields : list Z)
    (serialFields : list string) (subjectPairs : list (string * string)) (subjectDrops : list string)
    : script := fun s =>
  if negb (seq_value s =? seq) then (RedisConflict, s)
  else if head_conflicts arg s then (RedisConflict, s)
  else
    let s := put_entries (lua_apply 500 hdel entryFields (r_entries s)) s in
    let s := put_serial (lua_apply 500 hdel serialFields (r_serial s)) s in
    let s := put_subject (lua_apply 250 hset subjectPairs (r_subject s)) s in
    let s := put_subject (lua_apply 500 hdel subjectDrops (r_subject s)) s in
    (RedisOK, write_head arg s).

(** The guard of a replacement on the marker: its time and its length with
    the eight bytes of the time; an absent marker never matches. *)
Record redisMarkerGuard := mkGuard { g_mtime : Z; g_length : Z }.
Definition marker_length (payload : string) : Z := 8 + Z.of_nat (String.length payload).
Definition marker_conflicts (guard : option redisMarkerGuard) (s : Redis) : bool :=
  match guard with
  | None => false
  | Some g =>
      match r_marker s with
      | None => true
      | Some (mtime, payload) => negb ((mtime =? g_mtime g) && (marker_length payload =? g_length g))
      end
  end.

Definition redisReplaceWipeLua (seq : Z) (guard : option redisMarkerGuard) : script := fun s =>
  if negb (seq_value s =? seq) || marker_conflicts guard s then (RedisConflict, s)
  else (RedisOK, put_seq (Some 0) (put_subject ∅ (put_serial ∅ (put_entries ∅ s)))).

Definition hset_tuple (s : Redis) (t : import_tuple) : Redis :=
  let '(n, serial, value, subject, json) := t in hset_record n serial value subject json s.
Definition redisReplaceBatchLua (seq next : Z) (guard : option redisMarkerGuard)
    (tuples : list import_tuple) : script := fun s =>
  if negb (seq_value s =? seq) || marker_conflicts guard s then (RedisConflict, s)
  else (RedisOK, put_seq (Some next) (fold_left hset_tuple tuples s)).

Definition redisReplaceFinishLua (seq : Z) (guard : option redisMarkerGuard) (mtime : Z)
    (dropHead : bool) : script := fun s =>
  if negb (seq_value s =? seq) || marker_conflicts guard s then (RedisConflict, s)
  else
    let s := put_marker (Some (mtime, "")) s in
    (RedisOK, if dropHead then put_head None s else s).

Definition redisDeleteInventoryLua : script := fun s =>
  match r_marker s with
  | None => (RedisMissing, s)
  | Some _ => (RedisOK, put_marker None (put_subject ∅ (put_serial ∅ (put_seq None (put_entries ∅ s)))))
  end.

Definition redisDropHeadLua (want : string) : script := fun s =>
  if bool_decide (head_body s = want) then (RedisOK, put_head None s) else (RedisConflict, s).

(** Texts are compared; a text is represented by what it encodes. *)
Definition redisSetRecordLua (seq : Z) (current json : inventoryRecordJSON) : script := fun s =>
  match r_entries s !! seq with
  | None => (RedisMissing, s)
  | Some cur =>
      if bool_decide (cur = current) then (RedisOK, put_entries (<[seq := json]> (r_entries s)) s)
      else (RedisConflict, s)
  end.

(** ** Reading *)

Definition decodeEntryFields (fields : gmap Z inventoryRecordJSON) : list indexedRecord := ordered fields.

Definition readInventorySnapshot : redis (list indexedRecord * Z * string) :=
  redis_read (fun s => (decodeEntryFields (r_entries s), seq_value s, head_body s)).
Definition redis_Entries : redis (list InventoryEntry) :=
  r ← readInventorySnapshot; mret (entriesOf r.1.1).
Definition redis_LatestSerialForSubject (subject : string) : redis string :=
  v ← redis_read (fun s => r_subject s !! subject);
  match v with
  | None => abort_with (not_exist "latest-serial")
  | Some serial => mret serial
  end.
Definition readHead : redis string := redis_read head_body.
Definition redis_getInventory : redis string :=
  r ← redis_read (fun s => (r_marker s, r_entries s));
  let '(marker, fields) := r in
  if bool_decide (marker = None) && bool_decide (fields = ∅) then abort_with (not_exist "get")
  else
    match marker with
    | Some (_, legacy) =>
        if bool_decide (fields = ∅) && negb (bool_decide (legacy = "")) then mret legacy
        else mret (renderInventoryText (decodeEntryFields fields))
    | None => mret (renderInventoryText (decodeEntryFields fields))
    end.

(** ** Appending *)

Fixpoint redis_append_attempts (attempts : nat) (clock : nat -> Z) (rec : CertRecord)
    (newHead : option (string -> string)) : redis unit :=
  match attempts with
  | O => abort_with (too_many "inventory append")
  | S attempts =>
      let serial := ie_Serial (cr_entry rec) in
      prev ← readHead;
      reply ← runInvScript (redisAppendEntryLua (headArgs newHead prev) (clock attempts) serial
                              (ie_Subject (cr_entry rec)) (encodeInventoryRecord rec));
      match reply with
      | RedisOK => mret tt
      | RedisDuplicate _ => abort_with (Wrap serial [Sentinel ErrDuplicateSerial])
      | RedisConflict => _ ← backoff; redis_append_attempts attempts clock rec newHead
      | RedisMissing => unexpected "append"
      end
  end.
Definition redis_AppendEntry (clock : nat -> Z) (rec : CertRecord) (newHead : option (string -> string)) : redis unit :=
  redis_append_attempts redisMaxRetries clock rec newHead.

Definition line_of (rec : CertRecord) : line :=
  (ie_Serial (cr_entry rec), ie_Subject (cr_entry rec), encodeInventoryRecord rec).

Definition redis_appendInventoryLines (now : Z) (data : string) : redis unit :=
  match importable_text data with
  | Err e => abort_with e
  | Ok [] => mret tt
  | Ok recs =>
      if (redisImportBatch <? length recs)%nat then
        abort_with (Msg "appending inventory lines in one call exceeds the redis single-script budget")
      else
        reply ← runInvScript (redisAppendLinesLua now (map line_of recs));
        match reply with
        | RedisOK => mret tt
        | RedisDuplicate serial => abort_with (Wrap serial [Sentinel ErrDuplicateSerial])
        | _ => unexpected "append"
        end
  end.

(** ** Pruning *)

Record redisPrunePlan := mkPlan {
  rp_removed : list indexedRecord;
  rp_survivors : list indexedRecord;
  rp_entryFields : list Z;
  rp_serialDrops : list string;
  rp_subjectSets : list (string * string);
  rp_subjectDrops : list string }.

(** What is removed and what stays, with room for so many removals: the
    oldest of the rejected records. *)
Fixpoint prune_split (keep : InventoryEntry -> bool) (room : nat) (recs : list indexedRecord)
    : list indexedRecord * list indexedRecord :=
  match recs with
  | [] => ([], [])
  | r :: recs =>
      if keep (rj_entry r.2) then let '(removed, survivors) := prune_split keep room recs in (removed, r :: survivors)
      else match room with
           | O => let '(removed, survivors) := prune_split keep O recs in (removed, r :: survivors)
           | S room => let '(removed, survivors) := prune_split keep room recs in (r :: removed, survivors)
           end
  end.

Definition surviving_subject (m : gmap string indexedRecord) (r : indexedRecord) : gmap string indexedRecord :=
  match m !! rj_subject r.2 with
  | Some cur => if cur.1 <? r.1 then <[rj_subject r.2 := r]> m else m
  | None => <[rj_subject r.2 := r]> m
  end.

Definition plan_record (survivors : list indexedRecord) (latest : gmap string indexedRecord)
    (acc : list string * list string * redisPrunePlan) (r : indexedRecord)
    : list string * list string * redisPrunePlan :=
  let '(seenSerial, seenSubject, p) := acc in
  let p := mkPlan (rp_removed p) (rp_survivors p) (rp_entryFields p ++ [r.1])
             (if negb (bool_decide (rj_serial r.2 ∈ seenSerial)) && (bearers_of survivors (rj_serial r.2) =? 0)
              then rp_serialDrops p ++ [rj_serial r.2] else rp_serialDrops p)
             (rp_subjectSets p) (rp_subjectDrops p) in
  let p := if bool_decide (rj_subject r.2 ∈ seenSubject) then p
           else match latest !! rj_subject r.2 with
                | Some l => mkPlan (rp_removed p) (rp_survivors p) (rp_entryFields p) (rp_serialDrops p)
                              (rp_subjectSets p ++ [(rj_subject r.2, rj_serial l.2)]) (rp_subjectDrops p)
                | None => mkPlan (rp_removed p) (rp_survivors p) (rp_entryFields p) (rp_serialDrops p)
                            (rp_subjectSets p) (rp_subjectDrops p ++ [rj_subject r.2])
                end in
  (rj_serial r.2 :: seenSerial, rj_subject r.2 :: seenSubject, p).

Definition planRedisPrune (recs : list indexedRecord) (keep : InventoryEntry -> bool) : redisPrunePlan :=
  let '(removed, survivors) := prune_split keep redisPruneMaxPerCall recs in
  let p := mkPlan removed survivors [] [] [] [] in
  if bool_decide (removed = []) then p
  else
    let latest := fold_left surviving_subject survivors ∅ in
    (fold_left (plan_record survivors latest) removed ([], [], p)).2.

Fixpoint redis_prune_attempts (attempts : nat) (keep : InventoryEntry -> bool)
    (advanceHead : option (string -> InventoryEntry -> string)) : redis (list InventoryEntry) :=
  match attempts with
  | O => abort_with (too_many "inventory prune")
  | S attempts =>
      r ← readInventorySnapshot;
      let '(recs, seq, head) := r in
      let plan := planRedisPrune recs keep in
      if bool_decide (rp_removed plan = []) then mret []
      else
        let newHead := (fun f (_ : string) => fold_left f (entriesOf (rp_survivors plan)) "") <$> advanceHead in
        reply ← runInvScript (redisPruneLua (headArgs newHead head) seq (rp_entryFields plan)
                                (rp_serialDrops plan) (rp_subjectSets plan) (rp_subjectDrops plan));
        match reply with
        | RedisOK => mret (entriesOf (rp_removed plan))
        | RedisConflict => _ ← backoff; redis_prune_attempts attempts keep advanceHead
        | _ => unexpected "prune"
        end
  end.
Definition redis_PruneEntries (keep : InventoryEntry -> bool)
    (advanceHead : option (string -> InventoryEntry -> string)) : redis (list InventoryEntry) :=
  redis_prune_attempts redisMaxRetries keep advanceHead.

(** ** Replacing *)

(** Whether a guard failed. *)
Fixpoint replace_batches (dups : list string) (guard : option redisMarkerGuard)
    (batches : list (list CertRecord)) (written : Z) : redis bool :=
  match batches with
  | [] => mret false
  | batch :: batches =>
      let next := written + Z.of_nat (length batch) in
      reply ← runInvScript (redisReplaceBatchLua written next guard (tuples_from dups (written + 1) batch));
      match reply with
      | RedisOK => replace_batches dups guard batches next
      | _ => mret true
      end
  end.

Definition redis_replaceInventoryOnce (now : Z) (recs : list CertRecord) (guard : option redisMarkerGuard)
    (dropHead : bool) : redis bool :=
  seq ← redis_read seq_value;
  reply ← runInvScript (redisReplaceWipeLua seq guard);
  match reply with
  | RedisOK =>
      conflict ← replace_batches (duplicateSerials recs) guard (chunks (length recs) redisImportBatch recs) 0;
      if (conflict : bool) then mret true
      else
        reply ← runInvScript (redisReplaceFinishLua (Z.of_nat (length recs)) guard now dropHead);
        match reply with RedisOK => mret false | _ => mret true end
  | _ => mret true
  end.

Fixpoint put_attempts (attempts : nat) (clock : nat -> Z) (recs : list CertRecord) : redis unit :=
  match attempts with
  | O => abort_with (too_many "inventory replace")
  | S attempts =>
      conflict ← redis_replaceInventoryOnce (clock attempts) recs None false;
      if (conflict : bool) then _ ← backoff; put_attempts attempts clock recs else mret tt
  end.
Definition redis_putInventory (clock : nat -> Z) (data : string) : redis unit :=
  match importable_text data with
  | Err e => abort_with e
  | Ok recs => put_attempts redisMaxRetries clock recs
  end.

Definition redis_deleteInventory : redis unit :=
  reply ← runInvScript redisDeleteInventoryLua;
  match reply with
  | RedisMissing => abort_with (not_exist "delete")
  | _ => mret tt
  end.

(** ** Conversion of a legacy blob *)

(** No payload stands for an absent marker too. *)
Definition decodeLegacyMarker (marker : option (Z * string)) : string * redisMarkerGuard :=
  match marker with
  | None => ("", mkGuard 0 0)
  | Some (mtime, payload) => (payload, mkGuard mtime (marker_length payload))
  end.
Definition legacyMarkerState : redis (string * redisMarkerGuard) :=
  redis_read (fun s => decodeLegacyMarker (r_marker s)).
Definition redis_legacyInventoryState : redis (string * redisMarkerGuard * list indexedRecord) :=
  redis_read (fun s =>
    let state := decodeLegacyMarker (r_marker s) in
    (state, if bool_decide (state.1 = "") then [] else decodeEntryFields (r_entries s))).

Definition legacy_tampered (what : string) : error :=
  Wrap ("legacy redis inventory " +:+ what) [Sentinel ErrInventoryTampered].
Definition redis_verifyLegacyInventoryMAC (blob : string) : redis unit :=
  r ← redis_read (fun s => (r_head s, r_hmacKey s));
  match r with
  | (None, _) => mret tt
  | (Some _, None) => abort_with (legacy_tampered "has a stored integrity value but no HMAC key to verify it with")
  | (Some stored, Some key) =>
      if negb (String.length key =? hmacKeyLen)%nat then abort_with (legacy_tampered "HMAC key is unreadable or malformed")
      else if bool_decide (wholeBlobInventoryMAC key blob = stored) then mret tt
      else abort_with (legacy_tampered "failed integrity verification before decomposition")
  end.

Fixpoint convert_attempts (attempts : nat) : redis unit :=
  match attempts with
  | O => abort_with (too_many "removing legacy inventory HMAC")
  | S attempts =>
      r ← redis_read (fun s => (r_head s, r_hmacKey s, r_entries s));
      let '(head, key, fields) := r in
      if negb (bool_decide (fields = ∅)) then mret tt
      else
        match head, key with
        | None, _ | _, None => mret tt
        | Some stored, Some key =>
            if bool_decide (stored = "") || negb (String.length key =? hmacKeyLen)%nat
               || negb (bool_decide (wholeBlobInventoryMAC key "" = stored)) then mret tt
            else
              reply ← runInvScript (redisDropHeadLua stored);
              match reply with
              | RedisOK => mret tt
              | _ => _ ← backoff; convert_attempts attempts
              end
        end
  end.
Definition redis_convertLegacyEmptyHead : redis unit := convert_attempts redisMaxRetries.

(** The lock orders the conversions of different replicas; nothing below
    relies on it. *)
Definition acquire_decompose_lock : redis unit := backoff.

Definition mixed_versions : error :=
  Msg "redis inventory holds both a non-empty legacy blob and decomposed entries that do not match it".
Definition wrap_decompose {A} (p : redis A) : redis A :=
  (fix go (p : redis A) : redis A :=
     match p with
     | Ret (Err e) => Ret (Err (Wrap "decomposing legacy redis inventory" [e]))
     | Ret r => Ret r
     | Call f k => Call f (fun b => go (k b))
     end) p.

Fixpoint decompose_attempts (attempts : nat) (clock : nat -> Z) : redis unit :=
  match attempts with
  | O => abort_with (too_many "decomposing legacy redis inventory")
  | S attempts =>
      r ← redis_legacyInventoryState;
      let '(blob, guard, entries) := r in
      if bool_decide (blob = "") then mret tt
      else
        recs ← wrap_decompose (Ret (parseInventoryRecords blob));
        if negb (bool_decide (entries = [])) && negb (recordsArePrefixOf entries recs) then abort_with mixed_versions
        else
          _ ← redis_verifyLegacyInventoryMAC blob;
          conflict ← wrap_decompose (redis_replaceInventoryOnce (clock attempts) recs (Some guard) true);
          if (conflict : bool) then _ ← backoff; decompose_attempts attempts clock else mret tt
  end.
Definition redis_decomposeLegacyInventory (clock : nat -> Z) : redis unit :=
  state ← legacyMarkerState;
  if bool_decide (state.1 = "") then redis_convertLegacyEmptyHead
  else _ ← acquire_decompose_lock; decompose_attempts redisMaxRetries clock.

(** [EnsureReady], which every replica runs first: a ping and the conversion. *)
Definition redis_EnsureReady (clock : nat -> Z) : redis unit :=
  _ ← backoff; redis_decomposeLegacyInventory clock.

(** ** Certificate index (redis_certindex.go) *)

Definition redis_Statuses (stateFilter : option CertState) : redis (list CertRecord) :=
  stored ← redis_read r_certs;
  if bool_decide (stored = ∅) then mret []
  else
    r ← redis_read (fun s => (decodeEntryFields (r_entries s), r_serial s));
    mret (latestPerSubject r.1 stored (fun serial => bool_decide (r.2 !! serial = Some None)) stateFilter).

Definition serialSeq (serial : string) : redis (option Z) :=
  v ← redis_read (fun s => r_serial s !! serial);
  mret (match v with Some (Some n) => Some n | _ => None end).

Fixpoint redis_mutate_attempts (attempts : nat) (serial : string) (mutate : CertRecord -> option CertRecord)
    : redis unit :=
  match attempts with
  | O => abort_with (too_many "updating inventory record")
  | S attempts =>
      seq ← serialSeq serial;
      match seq with
      | None => mret tt
      | Some seq =>
          current ← redis_read (fun s => r_entries s !! seq);
          match current with
          | None => mret tt
          | Some json =>
              match mutate (decodeInventoryRecord json) with
              | None => mret tt
              | Some rec =>
                  reply ← runInvScript (redisSetRecordLua seq json (encodeInventoryRecord rec));
                  match reply with
                  | RedisOK | RedisMissing => mret tt
                  | RedisConflict => _ ← backoff; redis_mutate_attempts attempts serial mutate
                  | RedisDuplicate _ => unexpected "record write"
                  end
              end
          end
      end
  end.
Definition redis_mutateRecordBySerial (serial : string) (mutate : CertRecord -> option CertRecord) : redis unit :=
  redis_mutate_attempts redisMaxRetries serial mutate.
Definition redis_SetRevoked (serial : string) (at_ : Time) : redis unit :=
  redis_mutateRecordBySerial serial (mark_revoked at_).
Definition redis_ClearRevoked (serial : string) : redis unit := redis_mutateRecordBySerial serial mark_signed.
Definition redis_SetProjection (serial : string) (p : CertProjection) : redis unit :=
  redis_mutateRecordBySerial serial (with_projection p).
