(* ===== verification/RedisSpec.v ===== *)
(** * What the Redis inventory promises

    Any number of replicas append, prune and update the index of one Redis
    inventory, their scripts interleaved in any order and any request or reply
    lost; the indices and the integrity head stay those of the listed entries.

    A prune is guarded by the counter, which an append moves, and by the head,
    which another prune moves: that the head tells two inventories apart is the
    MAC's promise, stated here for the lists that the replicas can make. *)

From S2P Require Import Prelude GoStrings GoTime X509 Inventory Storage Concurrent Records InventorySpec Numbered Redis.

(** ** Invariant and contract *)

Definition redis_map (s : Redis) : gmap Z InventoryEntry := rj_entry <$> r_entries s.
Definition redis_view (s : Redis) : list InventoryEntry := (ordered (redis_map s)).*2.

Lemma redis_ordered s : ordered (redis_map s) = map plain (ordered (r_entries s)).
Proof. unfold redis_map. rewrite ordered_fmap. apply list_fmap_ext. by intros ? []. Qed.

Lemma redis_view_records s : redis_view s = entriesOf (ordered (r_entries s)).
Proof. unfold redis_view. by rewrite redis_ordered, entriesOf_plain. Qed.

(** The MAC tells a list of distinct entries of [U] from what a prune makes of
    it. *)
Definition tells_apart (k : string) (U : list InventoryEntry) : Prop :=
  forall l l', NoDup l -> (forall e, e ∈ l -> e ∈ U) -> sublist l' l ->
    chain_from k "" l' = chain_from k "" l -> l' = l.

Section Replicas.
(** The integrity key, if there is one, and the entries that occur. *)
Context (K : option string) (U : list InventoryEntry).

Record redis_wf (s : Redis) : Prop := RedisWf {
  rw_indexed : indexed (redis_map s) (r_serial s) (r_subject s) (r_seq s);
  rw_counter : 0 <= seq_value s;
  rw_known : forall e, e ∈ redis_view s -> e ∈ U;
  rw_distinct : NoDup (redis_view s);
  rw_chain : forall k, K = Some k -> head_body s = chain_from k "" (redis_view s) }.

(** What every replica may do between two requests of another: keep the
    invariant, and move the counter unless it only removes entries. *)
Definition redis_rely (s s' : Redis) : Prop :=
  redis_wf s -> redis_wf s' /\ seq_value s <= seq_value s' /\
    (seq_value s' = seq_value s -> redis_map s' ⊆ redis_map s).
#[global] Instance redis_rely_preorder : PreOrder redis_rely.
Proof.
  split.
  - intros s H. split; [done|]. split; [lia|done].
  - intros a b c H1 H2 Ha. destruct (H1 Ha) as (Hb & L1 & E1). destruct (H2 Hb) as (Hc & L2 & E2).
    split; [done|]. split; [lia|]. intros E. etrans; [apply E2|apply E1]; lia.
Qed.

(** *** Appending *)

Definition redis_appended (rec : CertRecord) (newHead : option (string -> string)) (mtime : Z) (s : Redis) : Redis :=
  let seq := seq_value s + 1 in
  put_marker (Some (mtime, "")) (write_head (headArgs newHead (head_body s))
    (hset_record seq (ie_Serial (cr_entry rec)) (Some seq) (ie_Subject (cr_entry rec))
       (encodeInventoryRecord rec) (put_seq (Some seq) s))).

Lemma append_script newHead prev mtime rec s :
  let f := redisAppendEntryLua (headArgs newHead prev) mtime (ie_Serial (cr_entry rec))
             (ie_Subject (cr_entry rec)) (encodeInventoryRecord rec) in
  (is_Some (r_serial s !! ie_Serial (cr_entry rec)) /\ f s = (RedisDuplicate (ie_Serial (cr_entry rec)), s)) \/
  (r_serial s !! ie_Serial (cr_entry rec) = None /\ newHead <> None /\ prev <> head_body s /\ f s = (RedisConflict, s)) \/
  (r_serial s !! ie_Serial (cr_entry rec) = None /\ f s = (RedisOK, redis_appended rec newHead mtime s)).
Proof.
  intros f. unfold f, redisAppendEntryLua. case_bool_decide as Hd; [by left|]. right.
  apply eq_None_not_Some in Hd. unfold redis_appended, headArgs, head_conflicts.
  destruct newHead as [h|]; cbn [fmap option_fmap option_map]; [|by right].
  case_bool_decide as Hh; cbn [negb]; [right; by rewrite Hh|left; naive_solver].
Qed.

Lemma view_snoc (m : gmap Z InventoryEntry) n e :
  ordered (<[n := e]> m) = ordered m ++ [(n, e)] -> (ordered (<[n := e]> m)).*2 = (ordered m).*2 ++ [e].
Proof. intros ->. by rewrite fmap_app. Qed.

Lemma redis_appended_wf rec mtime s :
  redis_wf s -> cr_entry rec ∈ U -> r_serial s !! ie_Serial (cr_entry rec) = None ->
  let s' := redis_appended rec ((fun k => advance k (cr_entry rec)) <$> K) mtime s in
  redis_wf s' /\ spec_append (cr_entry rec) (redis_view s) = Some (redis_view s') /\ seq_value s' = seq_value s + 1.
Proof.
  intros [Hix Hc Hkn Hd Hchain] HU Hf s'. set (e := cr_entry rec) in *.
  destruct (indexed_append _ _ _ _ e Hix Hf Hc) as [Hix' Ho].
  assert (redis_map s' = <[seq_value s + 1 := e]> (redis_map s)) as Hm.
  { unfold s', redis_appended, redis_map. destruct K; cbn; by rewrite fmap_insert. }
  assert (redis_view s' = redis_view s ++ [e]) as Hv.
  { unfold redis_view. rewrite Hm. by apply view_snoc. }
  pose proof (spec_append_fresh _ _ _ _ e Hix Hf) as Hspec. fold (redis_view s) in Hspec.
  split; [|split; [by rewrite Hv|unfold s', redis_appended; by destruct K]]. split.
  - rewrite Hm. unfold s', redis_appended. by destruct K.
  - assert (seq_value s' = seq_value s + 1) as -> by (unfold s', redis_appended; by destruct K). lia.
  - intros x. rewrite Hv, elem_of_app, list_elem_of_singleton. intros [?| ->]; auto.
  - rewrite Hv. apply NoDup_app. split; [done|]. split; [|apply NoDup_singleton].
    intros x Hx ->%list_elem_of_singleton. unfold spec_append in Hspec.
    destruct (existsb _ _) eqn:E; [done|]. apply not_true_iff_false in E. apply E, existsb_exists_elem.
    exists e. by rewrite bool_decide_eq_true_2.
  - intros k ->. rewrite Hv, chain_snoc, <- (Hchain k) by done. done.
Qed.

Lemma redis_appended_rely rec mtime s :
  cr_entry rec ∈ U -> r_serial s !! ie_Serial (cr_entry rec) = None ->
  redis_rely s (redis_appended rec ((fun k => advance k (cr_entry rec)) <$> K) mtime s).
Proof.
  intros HU Hf Hwf. destruct (redis_appended_wf rec mtime s Hwf HU Hf) as (H & _ & E).
  split; [done|]. rewrite E. split; lia.
Qed.

Lemma redis_append_wp rec clock attempts s0 s :
  redis_wf s0 -> redis_rely s0 s -> cr_entry rec ∈ U ->
  wp redis_rely (redis_append_attempts attempts clock rec ((fun k => advance k (cr_entry rec)) <$> K))
    (fun r s' => redis_rely s0 s' /\
       (r = Ok tt -> exists t, redis_rely s0 t /\ spec_append (cr_entry rec) (redis_view t) = Some (redis_view s'))) s.
Proof.
  intros Hwf Hs HU. revert s Hs. induction attempts as [|attempts IH]; intros s Hs; [done|].
  cbn [redis_append_attempts]. apply wp_mbind, wp_read; [apply _|]. intros s1 H1.
  assert (redis_rely s0 s1) as R1 by (by etrans). split; [|done].
  apply wp_mbind, wp_request; [apply _|]. intros s2 H2. assert (redis_rely s0 s2) as R2 by (by etrans).
  destruct (append_script ((fun k => advance k (cr_entry rec)) <$> K) (head_body s1) (clock attempts) rec s2)
    as [[_ ->]|[(_ & _ & _ & ->)|[Hf ->]]]; cbn [fst snd].
  - split; [done|]. split; [|done]. done.
  - split; [done|]. split; [|done]. apply wp_mbind, wp_read; [apply _|]. intros s3 H3.
    split; [apply IH; by etrans|]. intros e. split; [by etrans|done].
  - destruct (R2 Hwf) as (Hwf2 & _). destruct (redis_appended_wf rec (clock attempts) s2 Hwf2 HU Hf) as (_ & Hspec & _).
    pose proof (redis_appended_rely rec (clock attempts) s2 HU Hf) as R'. split; [done|].
    assert (redis_rely s0 (redis_appended rec ((fun k => advance k (cr_entry rec)) <$> K) (clock attempts) s2)) as R3
      by (by etrans).
    split; [|done]. split; [done|]. intros _. by exists s2.
Qed.

(** *** Index writes *)

Lemma redis_mutate_wp serial mutate attempts s0 s :
  same_entry mutate -> redis_rely s0 s ->
  wp redis_rely (redis_mutate_attempts attempts serial mutate) (fun _ s' => redis_rely s0 s') s.
Proof.
  intros Hsame. revert s. induction attempts as [|attempts IH]; intros s Hs; [done|].
  cbn [redis_mutate_attempts]. apply wp_mbind, wp_mbind, wp_read; [apply _|]. intros s1 H1.
  assert (redis_rely s0 s1) as R1 by (by etrans). split; [|done]. cbn [wp mret prog_ret].
  destruct (r_serial s1 !! serial) as [[seq|]|]; [|done..].
  apply wp_mbind, wp_read; [apply _|]. intros s2 H2. assert (redis_rely s0 s2) as R2 by (by etrans). split; [|done].
  destruct (r_entries s2 !! seq) as [json|]; [|done]. destruct (mutate _) as [rec|] eqn:Hm; [|done].
  apply wp_mbind, wp_request; [apply _|]. intros s3 H3. assert (redis_rely s0 s3) as R3 by (by etrans).
  unfold redisSetRecordLua. destruct (r_entries s3 !! seq) as [cur|] eqn:He; cbn [fst snd]; [|done].
  case_bool_decide as Hcur; cbn [fst snd].
  2:{ split; [done|]. split; [|done]. apply wp_mbind, wp_read; [apply _|]. intros s4 H4.
      split; [apply IH; by etrans|]. intros e. by etrans. }
  subst cur. set (s' := put_entries _ s3).
  assert (redis_map s' = redis_map s3) as E.
  { unfold s', redis_map. cbn. rewrite fmap_insert. apply insert_id. rewrite lookup_fmap, He. cbn.
    by rewrite (Hsame _ _ Hm). }
  assert (redis_rely s3 s') as R.
  { intros [? ? ? ? ?]. split; [|split; [done|by rewrite E]].
    split; unfold redis_view in *; rewrite ?E; done. }
  assert (redis_rely s0 s') as R0 by (by etrans). done.
Qed.

(** *** The plan of a prune *)

Definition redis_removed (keep : InventoryEntry -> bool) (recs : list indexedRecord) : list indexedRecord :=
  take redisPruneMaxPerCall (rejected keep recs).

Lemma prune_split_spec keep room recs :
  NoDup recs.*1 ->
  prune_split keep room recs =
    (take room (rejected keep recs), left_after recs (take room (rejected keep recs))).
Proof.
  revert room. induction recs as [|r recs IH]; intros room Hd; [by destruct room|].
  rewrite fmap_cons, NoDup_cons in Hd. destruct Hd as [Hr Hd].
  assert (forall l, (forall x, x ∈ l -> x ∈ rejected keep recs) -> r.1 ∉ l.*1) as Hout.
  { intros l Hl (x & Ex & Hx)%list_elem_of_fmap. apply Hl, list_elem_of_filter in Hx as [_ Hx].
    apply Hr. rewrite Ex. by apply list_elem_of_fmap_2. }
  assert (forall n, r.1 ∉ (take n (rejected keep recs)).*1) as Ht.
  { intros n. apply Hout. intros x Hx. apply list_elem_of_lookup in Hx as [i [Hi _]%lookup_take_Some].
    by eapply list_elem_of_lookup_2. }
  cbn [prune_split]. unfold rejected in *. rewrite filter_cons. destruct (keep (rj_entry r.2)) eqn:Ek.
  - rewrite decide_False by done. rewrite IH by done. unfold left_after. rewrite filter_cons.
    by rewrite decide_True by apply Ht.
  - rewrite decide_True by done. destruct room as [|room]; rewrite IH by done; unfold left_after; rewrite filter_cons; cbn [take].
    + by rewrite decide_True by apply not_elem_of_nil.
    + rewrite decide_False by (rewrite fmap_cons, elem_of_cons; tauto). f_equal.
      apply filter_ext_elem. intros x Hx. rewrite fmap_cons, elem_of_cons. split; [|tauto].
      intros Hn [E|]; [|done]. apply Hr. rewrite <- E. by apply list_elem_of_fmap_2.
Qed.

Lemma surviving_subject_spec l z :
  StronglySorted seq_le l -> NoDup l.*1 ->
  fold_left surviving_subject l (∅ : gmap string indexedRecord) !! z = last_match (names z) l.
Proof.
  revert z. induction l as [|r l IH] using rev_ind; intros z Hs Hd; [done|].
  assert (forall y, y ∈ l -> y.1 < r.1) as Hlt by (by eapply (suffix_from (l ++ [r]) l r [])).
  apply StronglySorted_app in Hs as (_ & Hs & _). rewrite fmap_app in Hd. apply NoDup_app in Hd as (Hd & _ & _).
  rewrite fold_left_app, last_match_app. cbn [fold_left].
  assert (surviving_subject (fold_left surviving_subject l ∅) r =
          <[rj_subject r.2 := r]> (fold_left surviving_subject l ∅)) as ->.
  { unfold surviving_subject at 1. rewrite IH by done. destruct (last_match _ l) as [cur|] eqn:E; [|done].
    apply last_match_Some in E as [Hin _]. apply Hlt in Hin. by rewrite (proj2 (Z.ltb_lt _ _)). }
  unfold last_match at 1. rewrite filter_cons, filter_nil. destruct (decide (rj_subject r.2 = z)) as [E|Hne].
  - rewrite E, lookup_insert_eq, decide_True; [done|]. by apply bool_decide_eq_true_2.
  - rewrite lookup_insert_ne, IH, decide_False by (done || by intros ?%bool_decide_eq_true_1). done.
Qed.

Definition serial_of (r : indexedRecord) : string := rj_serial r.2.
Definition subject_of (r : indexedRecord) : string := rj_subject r.2.

Lemma plan_fold survivors latest l : forall seenSerial seenSubject p,
  let p' := (fold_left (plan_record survivors latest) l (seenSerial, seenSubject, p)).2 in
  rp_removed p' = rp_removed p /\ rp_survivors p' = rp_survivors p /\
  rp_entryFields p' = rp_entryFields p ++ l.*1 /\
  (forall z, z ∈ rp_serialDrops p' <->
     z ∈ rp_serialDrops p \/ (z ∈ (serial_of <$> l) /\ z ∉ seenSerial /\ bearers_of survivors z = 0)) /\
  (forall z v, (z, v) ∈ rp_subjectSets p' <->
     (z, v) ∈ rp_subjectSets p \/ (z ∈ (subject_of <$> l) /\ z ∉ seenSubject /\ (serial_of <$> latest !! z) = Some v)) /\
  (forall z, z ∈ rp_subjectDrops p' <->
     z ∈ rp_subjectDrops p \/ (z ∈ (subject_of <$> l) /\ z ∉ seenSubject /\ latest !! z = None)).
Proof.
  induction l as [|r l IH]; intros seenSerial seenSubject p.
  { cbn. rewrite app_nil_r. split_and!; try done; intros; rewrite elem_of_nil; tauto. }
  intros p'. pose (p1 := (plan_record survivors latest (seenSerial, seenSubject, p) r).2).
  assert (p' = (fold_left (plan_record survivors latest) l (rj_serial r.2 :: seenSerial, rj_subject r.2 :: seenSubject, p1)).2)
    as -> by done.
  destruct (IH (rj_serial r.2 :: seenSerial) (rj_subject r.2 :: seenSubject) p1) as (H1 & H2 & H3 & H4 & H5 & H6).
  rewrite H1, H2, H3. setoid_rewrite H4. setoid_rewrite H5. setoid_rewrite H6.
  assert (rp_removed p1 = rp_removed p /\ rp_survivors p1 = rp_survivors p /\
          rp_entryFields p1 = rp_entryFields p ++ [r.1] /\
          rp_serialDrops p1 = (if negb (bool_decide (rj_serial r.2 ∈ seenSerial)) && (bearers_of survivors (rj_serial r.2) =? 0)
              then rp_serialDrops p ++ [rj_serial r.2] else rp_serialDrops p)) as (-> & -> & -> & ->).
  { unfold p1, plan_record. cbn [snd]. case_bool_decide; [done|]. by destruct (latest !! _). }
  clear IH H1 H2 H3 H4 H5 H6. split_and!; [done|done|by rewrite <- app_assoc| | |].
  - intros z. rewrite fmap_cons, !elem_of_cons. change (serial_of r) with (rj_serial r.2).
    destruct (decide (z = rj_serial r.2)) as [->|Hne].
    + case_bool_decide as Hs; cbn [negb andb]; [naive_solver|].
      destruct (Z.eqb_spec (bearers_of survivors (rj_serial r.2)) 0); rewrite ?elem_of_app, ?list_elem_of_singleton; naive_solver.
    + destruct (negb _ && _); rewrite ?elem_of_app, ?list_elem_of_singleton; naive_solver.
  - intros z v. rewrite fmap_cons, !elem_of_cons. change (subject_of r) with (rj_subject r.2).
    unfold p1, plan_record. cbn [snd]. case_bool_decide as Hs; cbn [rp_subjectSets]; [naive_solver|].
    destruct (latest !! rj_subject r.2) as [lr|] eqn:El; cbn [rp_subjectSets].
    + rewrite elem_of_app, list_elem_of_singleton. destruct (decide (z = rj_subject r.2)) as [->|Hne].
      * rewrite El. cbn [fmap option_fmap option_map]. unfold serial_of. naive_solver.
      * naive_solver.
    + destruct (decide (z = rj_subject r.2)) as [->|Hne]; [rewrite El; naive_solver|naive_solver].
  - intros z. rewrite fmap_cons, !elem_of_cons. change (subject_of r) with (rj_subject r.2).
    unfold p1, plan_record. cbn [snd]. case_bool_decide as Hs; cbn [rp_subjectDrops]; [naive_solver|].
    destruct (latest !! rj_subject r.2) as [lr|] eqn:El; cbn [rp_subjectDrops].
    + destruct (decide (z = rj_subject r.2)) as [->|Hne]; naive_solver.
    + rewrite elem_of_app, list_elem_of_singleton. destruct (decide (z = rj_subject r.2)) as [->|Hne]; naive_solver.
Qed.

Section Plan.
Context (keep : InventoryEntry -> bool) (recs : list indexedRecord).
Context (Hsorted : StronglySorted seq_le recs) (Hnodup : NoDup recs.*1).
Notation removed := (redis_removed keep recs).
Notation plan := (planRedisPrune recs keep).

Lemma plan_removed : rp_removed plan = removed.
Proof.
  unfold planRedisPrune. rewrite prune_split_spec by done. fold removed. case_bool_decide; [done|].
  by destruct (plan_fold (left_after recs removed)
    (fold_left surviving_subject (left_after recs removed) ∅) removed [] []
    (mkPlan removed (left_after recs removed) [] [] [] [])) as (-> & _).
Qed.

Lemma redis_plan_spec :
  removed <> [] ->
  rp_survivors plan = left_after recs removed /\
  rp_entryFields plan = removed.*1 /\
  (forall z, z ∈ rp_serialDrops plan <-> z ∈ (serial_of <$> removed) /\ bearers_of (left_after recs removed) z = 0) /\
  (forall z v, (z, v) ∈ rp_subjectSets plan <->
     z ∈ (subject_of <$> removed) /\ latest_of z (map plain (left_after recs removed)) = Some v) /\
  (forall z, z ∈ rp_subjectDrops plan <->
     z ∈ (subject_of <$> removed) /\ latest_of z (map plain (left_after recs removed)) = None).
Proof.
  intros Hne. unfold planRedisPrune. rewrite prune_split_spec by done. fold removed.
  rewrite bool_decide_eq_false_2 by done.
  assert (StronglySorted seq_le (left_after recs removed)) as Hs by (by apply sorted_filter).
  assert (NoDup (left_after recs removed).*1) as Hd.
  { eapply sublist_NoDup; [exact Hnodup|]. apply fmap_sublist, sublist_filter. }
  destruct (plan_fold (left_after recs removed) (fold_left surviving_subject (left_after recs removed) ∅) removed [] []
    (mkPlan removed (left_after recs removed) [] [] [] [])) as (_ & -> & -> & H4 & H5 & H6).
  split_and!; [done|done| | |].
  - intros z. rewrite H4. cbn. rewrite !elem_of_nil. naive_solver.
  - intros z v. rewrite H5, surviving_subject_spec, latest_of_plain by done. cbn. rewrite !elem_of_nil.
    change (fun r : indexedRecord => rj_serial r.2) with serial_of. naive_solver.
  - intros z. rewrite H6, surviving_subject_spec, latest_of_plain by done. cbn. rewrite !elem_of_nil, fmap_None. naive_solver.
Qed.
End Plan.

(** *** The effect of the script *)

Lemma lua_apply_all {A B} stride (f : B -> A -> B) args b :
  (0 < stride)%nat -> lua_apply stride f args b = fold_left f args b.
Proof.
  intros Hs. unfold lua_apply. rewrite <- (chunks_concat stride (length args) args Hs) at 3 by done.
  generalize (chunks (length args) stride args). intros l. revert b.
  induction l as [|c l IH]; intros b; [done|]. cbn [fold_left concat]. by rewrite fold_left_app, IH.
Qed.

Section Commit.
Context (keep : InventoryEntry -> bool) (s1 t : Redis).
Notation recs := (ordered (r_entries s1)).
Notation removed := (redis_removed keep recs).
Notation kept := (left_after recs removed).
Context (Hwf : redis_wf t) (Hsame : redis_map t = redis_map s1) (Hne : removed <> []).

Definition prune_heads : option (string -> string) :=
  (fun f (_ : string) => fold_left f (entriesOf (rp_survivors (planRedisPrune recs keep))) "") <$> head_fold K.

Definition redis_pruned (prev : string) : Redis :=
  let plan := planRedisPrune recs keep in
  (redisPruneLua (headArgs prune_heads prev) (seq_value t) (rp_entryFields plan) (rp_serialDrops plan)
     (rp_subjectSets plan) (rp_subjectDrops plan) t).2.

Lemma removed_listed r : r ∈ removed -> r ∈ recs /\ keep (rj_entry r.2) = false.
Proof.
  unfold redis_removed. intros (i & [Hi _]%lookup_take_Some)%list_elem_of_lookup.
  apply list_elem_of_lookup_2, list_elem_of_filter in Hi. tauto.
Qed.

Lemma kept_ordered :
  ordered (base.filter (fun x => x.1 ∉ removed.*1) (redis_map t)) = map plain kept.
Proof. by rewrite ordered_filter, Hsame, redis_ordered, filter_fmap_list. Qed.

(** A certname without a removed record keeps its latest record. *)
Lemma latest_unremoved z :
  z ∉ (subject_of <$> removed) -> latest_of z (map plain kept) = latest_of z (map plain recs).
Proof.
  intros Hz. rewrite !latest_of_plain. f_equal. unfold last_match, left_after. f_equal.
  rewrite list_filter_filter. apply filter_ext_elem. intros r Hr. split; [tauto|]. intros Hn. split; [done|].
  intros (y & Ey & Hy)%list_elem_of_fmap. pose proof (removed_listed y Hy) as [Hy' _].
  assert (r = y) as -> by (apply (unique_key recs); [apply ordered_NoDup|done..]).
  apply Hz, list_elem_of_fmap. exists y. split; [|done]. by apply bool_decide_eq_true_1 in Hn.
Qed.

Lemma pruned_subjects sets drops :
  (forall z v, (z, v) ∈ sets <-> z ∈ (subject_of <$> removed) /\ latest_of z (map plain kept) = Some v) ->
  (forall z, z ∈ drops <-> z ∈ (subject_of <$> removed) /\ latest_of z (map plain kept) = None) ->
  forall z, fold_left hdel drops (fold_left hset sets (r_subject t)) !! z = latest_of z (map plain kept).
Proof.
  intros Hsets Hdrops z. rewrite hdel_fold, (hset_fold (fun z => latest_of z (map plain kept))).
  2:{ intros x v H%Hsets. tauto. }
  case_decide as Hd; [apply Hdrops in Hd as [_ ->]; done|].
  case_decide as Hs; [done|].
  destruct (decide (z ∈ (subject_of <$> removed))) as [Hin|Hout].
  - destruct (latest_of z (map plain kept)) as [v|] eqn:E.
    + destruct Hs. apply list_elem_of_fmap. exists (z, v). split; [done|]. by apply Hsets.
    + destruct Hd. by apply Hdrops.
  - rewrite latest_unremoved by done. rewrite <- redis_ordered, <- Hsame.
    apply (ix_subject _ _ _ _ (rw_indexed _ Hwf)).
Qed.

Lemma pruned_fields prev :
  prev = head_body t ->
  let s' := redis_pruned prev in
  redis_map s' = base.filter (fun x => x.1 ∉ removed.*1) (redis_map t) /\
  (forall z, r_serial s' !! z =
     if decide (z ∈ (serial_of <$> removed) /\ bearers_of kept z = 0) then None else r_serial t !! z) /\
  (forall z, r_subject s' !! z = latest_of z (map plain kept)) /\
  r_seq s' = r_seq t /\ (forall k, K = Some k -> head_body s' = chain_from k "" (entriesOf kept)) /\
  (redisPruneLua (headArgs prune_heads prev) (seq_value t) (rp_entryFields (planRedisPrune recs keep))
     (rp_serialDrops (planRedisPrune recs keep)) (rp_subjectSets (planRedisPrune recs keep))
     (rp_subjectDrops (planRedisPrune recs keep)) t) = (RedisOK, s').
Proof.
  intros ->. unfold redis_pruned, redisPruneLua. rewrite Z.eqb_refl. cbn [negb].
  assert (head_conflicts (headArgs prune_heads (head_body t)) t = false) as ->.
  { unfold headArgs. destruct prune_heads; [|done]. cbn. by rewrite bool_decide_eq_true_2. }
  destruct (redis_plan_spec keep recs (ordered_sorted _) (ordered_NoDup _) Hne) as (Esurv & -> & Hser & Hsets & Hdrops).
  rewrite !lua_apply_all by lia. unfold prune_heads. rewrite Esurv. cbn [fst snd].
  assert (rj_entry <$> fold_left hdel removed.*1 (r_entries t) =
          base.filter (fun x => x.1 ∉ removed.*1) (redis_map t)) as Hm.
  { unfold redis_map. apply map_eq. intros n. rewrite lookup_fmap, hdel_fold, map_lookup_filter, lookup_fmap.
    destruct (r_entries t !! n); cbn; case_decide; simplify_option_eq; done. }
  assert (forall z, fold_left hdel (rp_serialDrops (planRedisPrune recs keep)) (r_serial t) !! z =
     if decide (z ∈ (serial_of <$> removed) /\ bearers_of kept z = 0) then None else r_serial t !! z) as Hz.
  { intros z. rewrite hdel_fold. repeat case_decide; rewrite ?Hser in *; naive_solver. }
  pose proof (pruned_subjects _ _ Hsets Hdrops) as Hj.
  unfold headArgs, head_fold. destruct K as [k|]; cbn; split_and!; try done. by intros ? [= ->].
Qed.

Lemma redis_pruned_wf prev :
  prev = head_body t ->
  let s' := redis_pruned prev in
  redis_wf s' /\ seq_value s' = seq_value t /\ redis_map s' ⊆ redis_map t /\
  redis_view s' = entriesOf kept.
Proof.
  intros Hprev s'. destruct (pruned_fields prev Hprev) as (Hm & Hs & Hj & Hq & Hh & _). fold s' in Hm, Hs, Hj, Hq, Hh.
  assert (redis_map s' ⊆ redis_map t) as Hsub by (rewrite Hm; apply map_filter_subseteq).
  assert (ordered (redis_map s') = map plain kept) as Ho by (by rewrite Hm, kept_ordered).
  assert (redis_view s' = entriesOf kept) as Hv by (unfold redis_view; by rewrite Ho, entriesOf_plain).
  assert (sublist (redis_view s') (redis_view t)) as Hsl.
  { unfold redis_view. rewrite Hm, ordered_filter. apply fmap_sublist, sublist_filter. }
  assert (seq_value s' = seq_value t) as Hq' by (unfold seq_value; by rewrite Hq).
  split; [|done]. destruct Hwf as [Hix Hc Hkn Hd Hchain]. split; [|lia| | |].
  - eapply indexed_shrink; [exact Hix|done| | | |].
    + intros z Hz. apply (borne_listed kept) in Hz; [|done]. rewrite Hs, decide_False by lia. done.
    + intros z Hz. rewrite (borne_listed kept) in Hz by done. rewrite Hs. case_decide as Hd'; [done|].
      pose proof (ix_serial _ _ _ _ Hix z) as Hix'. destruct (r_serial t !! z) as [v|] eqn:Ez; [exfalso|done].
      assert (borne (redis_map t) z) as (n & e & He & Hez) by (destruct v; unfold borne; naive_solver).
      rewrite Hsame in He. unfold redis_map in He. apply lookup_fmap_Some in He as (json & <- & He).
      apply Hd'. assert (0 <= bearers_of kept z) by (unfold bearers_of; lia). split; [|lia].
      apply list_elem_of_fmap. exists (n, json). split; [done|].
      destruct (decide ((n, json) ∈ removed)) as [|Hout]; [done|]. exfalso. apply Hz.
      assert ((n, json) ∈ kept) as Hk.
      { apply list_elem_of_filter. apply elem_of_ordered in He. split; [|done].
        intros (y & Ey & Hy)%list_elem_of_fmap. apply Hout.
        assert ((n, json) = y) as -> by (apply (unique_key recs); [apply ordered_NoDup|done|by apply removed_listed|done]).
        done. }
      unfold bearers_of. assert ((n, json) ∈ base.filter (fun r => rj_serial r.2 = z) kept) as Hin
        by (by apply list_elem_of_filter).
      destruct (base.filter _ kept); [by apply not_elem_of_nil in Hin|simpl; lia].
    + intros z. by rewrite Ho.
    + intros n e He. rewrite Hq. eapply lookup_weaken in He; [|exact Hsub].
      destruct (ix_counter _ _ _ _ Hix _ _ He) as (x & -> & ?). exists x. split; [done|lia].
  - intros e He. apply Hkn. by eapply elem_of_submseteq, sublist_submseteq.
  - by eapply sublist_NoDup.
  - intros k Hk. by rewrite (Hh k Hk), Hv.
Qed.
End Commit.

(** *** Pruning *)

(** A prune's guards pass only on the inventory that was read. *)
Lemma prune_guarded k s1 s2 :
  K = Some k -> tells_apart k U -> redis_wf s1 -> redis_rely s1 s2 ->
  seq_value s2 = seq_value s1 -> head_body s2 = head_body s1 -> redis_map s2 = redis_map s1.
Proof.
  intros Hk Hmac Hwf1 R Hseq Hhead. destruct (R Hwf1) as (Hwf2 & _ & Hsub). specialize (Hsub Hseq).
  assert (redis_view s2 = redis_view s1) as Hv.
  { apply Hmac; [apply Hwf1|apply Hwf1| |].
    - unfold redis_view. assert (redis_map s2 = base.filter (fun x => is_Some (redis_map s2 !! x.1)) (redis_map s1)) as ->.
      { apply map_eq. intros n. apply option_eq. intros e. rewrite map_lookup_filter_Some. cbn. split.
        - intros He. split; [by eapply lookup_weaken|]. by exists e.
        - intros [He [e' He']]. rewrite He'. symmetry. by rewrite <- He, <- (lookup_weaken _ _ _ _ He' Hsub). }
      rewrite ordered_filter. apply fmap_sublist, sublist_filter.
    - by rewrite <- !(rw_chain _) by done. }
  apply map_subseteq_size_eq; [done|]. apply (f_equal length) in Hv. unfold redis_view in Hv.
  rewrite !length_fmap in Hv. unfold ordered in Hv. rewrite !(Permutation_length (merge_sort_Permutation _ _)) in Hv.
  rewrite !length_map_to_list in Hv. lia.
Qed.

Lemma prune_step k keep s1 s2 :
  K = Some k -> tells_apart k U -> redis_wf s1 -> redis_rely s1 s2 ->
  let recs := ordered (r_entries s1) in
  let plan := planRedisPrune recs keep in
  redis_removed keep recs <> [] ->
  let f := redisPruneLua (headArgs (prune_heads keep s1) (head_body s1)) (seq_value s1) (rp_entryFields plan)
             (rp_serialDrops plan) (rp_subjectSets plan) (rp_subjectDrops plan) in
  f s2 = (RedisConflict, s2) \/
  exists s', f s2 = (RedisOK, s') /\ redis_map s2 = redis_map s1 /\ redis_wf s' /\ redis_rely s2 s' /\
    redis_view s' = entriesOf (left_after recs (redis_removed keep recs)).
Proof.
  intros Hk Hmac Hwf1 R recs plan Hne f.
  destruct (decide (seq_value s2 = seq_value s1)) as [Hseq|Hseq].
  2:{ left. unfold f, redisPruneLua. apply Z.eqb_neq in Hseq. by rewrite Hseq. }
  destruct (decide (head_body s2 = head_body s1)) as [Hhead|Hhead].
  2:{ left. unfold f, redisPruneLua. rewrite (proj2 (Z.eqb_eq _ _) Hseq). cbn [negb].
      unfold headArgs, prune_heads, head_fold. rewrite Hk. cbn. by rewrite bool_decide_eq_false_2. }
  right. pose proof (prune_guarded k s1 s2 Hk Hmac Hwf1 R Hseq Hhead) as Hsame.
  destruct (R Hwf1) as (Hwf2 & _).
  destruct (pruned_fields keep s1 s2 Hwf2 Hsame Hne (head_body s1)) as (_ & _ & _ & _ & _ & E); [done|].
  destruct (redis_pruned_wf keep s1 s2 Hwf2 Hsame Hne (head_body s1)) as (W & Q & Sub & V); [done|].
  exists (redis_pruned keep s1 s2 (head_body s1)). unfold f. rewrite <- Hseq. split; [exact E|].
  split; [done|]. split; [done|]. split; [|done]. intros _. split; [done|]. split; [lia|done].
Qed.

(** What a prune reports: entries that were listed and rejected, all of them
    taken out at once. *)
Definition prune_honest (keep : InventoryEntry -> bool) (s0 : Redis) (es : list InventoryEntry) (s' : Redis) : Prop :=
  es = [] \/ exists t, redis_rely s0 t /\
    es = take redisPruneMaxPerCall (base.filter (fun e => keep e = false) (redis_view t)) /\
    base.filter (fun e => keep e = true) (redis_view s') = base.filter (fun e => keep e = true) (redis_view t) /\
    base.filter (fun e => keep e = false) (redis_view s') =
      drop redisPruneMaxPerCall (base.filter (fun e => keep e = false) (redis_view t)).

Lemma left_after_split keep recs n :
  NoDup recs.*1 ->
  let removed := take n (rejected keep recs) in
  base.filter (fun r => keep (rj_entry r.2) = true) (left_after recs removed) =
    base.filter (fun r => keep (rj_entry r.2) = true) recs /\
  base.filter (fun r => keep (rj_entry r.2) = false) (left_after recs removed) = drop n (rejected keep recs).
Proof.
  intros Hd removed. unfold left_after. rewrite !list_filter_filter.
  assert (forall r, r ∈ removed -> r ∈ rejected keep recs) as Hin.
  { intros r (i & [Hi _]%lookup_take_Some)%list_elem_of_lookup. by eapply list_elem_of_lookup_2. }
  split.
  - apply filter_ext_elem. intros r Hr. split; [tauto|]. intros Hk. split; [done|].
    intros (y & Ey & Hy)%list_elem_of_fmap. apply Hin, list_elem_of_filter in Hy as [Hky Hy].
    assert (r = y) as -> by (by apply (unique_key recs)). congruence.
  - transitivity (base.filter (fun r => r.1 ∉ removed.*1) (rejected keep recs)).
    { unfold rejected. rewrite list_filter_filter. apply list_filter_iff. intros. tauto. }
    assert (NoDup (rejected keep recs).*1) as Hd'.
    { eapply sublist_NoDup; [exact Hd|]. apply fmap_sublist, sublist_filter. }
    assert (rejected keep recs = removed ++ drop n (rejected keep recs)) as E by (symmetry; apply take_drop).
    rewrite E, fmap_app in Hd'. apply NoDup_app in Hd' as (_ & Hd' & _).
    rewrite E at 1. rewrite filter_app, filter_none, filter_all; [done| |].
    + intros r Hr Hx. by eapply Hd', list_elem_of_fmap_2.
    + intros r Hr Hx. by apply Hx, list_elem_of_fmap_2.
Qed.

Lemma entriesOf_take n l : entriesOf (take n l) = take n (entriesOf l).
Proof. unfold entriesOf. symmetry. apply firstn_map. Qed.
Lemma entriesOf_drop n l : entriesOf (drop n l) = drop n (entriesOf l).
Proof. unfold entriesOf. symmetry. apply skipn_map. Qed.

Lemma pruned_view keep s s' :
  redis_view s' = entriesOf (left_after (ordered (r_entries s)) (redis_removed keep (ordered (r_entries s)))) ->
  base.filter (fun e => keep e = true) (redis_view s') = base.filter (fun e => keep e = true) (redis_view s) /\
  base.filter (fun e => keep e = false) (redis_view s') =
    drop redisPruneMaxPerCall (base.filter (fun e => keep e = false) (redis_view s)) /\
  entriesOf (redis_removed keep (ordered (r_entries s))) =
    take redisPruneMaxPerCall (base.filter (fun e => keep e = false) (redis_view s)).
Proof.
  intros Hv. destruct (left_after_split keep (ordered (r_entries s)) redisPruneMaxPerCall (ordered_NoDup _)) as [H1 H2].
  rewrite Hv, redis_view_records, !filter_entriesOf. unfold redis_removed. rewrite H1, H2, entriesOf_take, entriesOf_drop. done.
Qed.

Lemma redis_prune_wp k keep attempts s0 s :
  K = Some k -> tells_apart k U -> redis_wf s0 -> redis_rely s0 s ->
  wp redis_rely (redis_prune_attempts attempts keep (head_fold K))
    (fun r s' => redis_rely s0 s' /\ forall es, r = Ok es -> prune_honest keep s0 es s') s.
Proof.
  intros Hk Hmac H0. revert s. induction attempts as [|attempts IH]; intros s Hs; [done|].
  cbn [redis_prune_attempts]. apply wp_mbind, wp_read; [apply _|]. intros s1 H1.
  assert (redis_rely s0 s1) as R1 by (by etrans). split; [|done]. unfold decodeEntryFields.
  rewrite plan_removed by apply ordered_NoDup.
  case_bool_decide as Hne; [split; [done|]; intros es [= <-]; by left|].
  apply wp_mbind, wp_request; [apply _|]. intros s2 H2. assert (redis_rely s0 s2) as R2 by (by etrans).
  destruct (R1 H0) as (Hwf1 & _).
  destruct (prune_step k keep s1 s2 Hk Hmac Hwf1 H2 Hne) as [E|(s' & E & Hsame & W & R & V)];
    unfold prune_heads in E; rewrite E; cbn [fst snd].
  - split; [done|]. split; [|done]. apply wp_mbind, wp_read; [apply _|]. intros s3 H3.
    split; [apply IH; by etrans|]. intros e. split; [by etrans|done].
  - assert (redis_rely s0 s') as R0 by (by etrans). split; [done|]. split; [|done]. split; [done|].
    intros es [= <-]. right. exists s1. split; [done|].
    destruct (pruned_view keep s1 s' V) as (P1 & P2 & P3). done.
Qed.

(** ** The calls of the service *)

(** Without an integrity key there is no head to guard a prune, and the service
    relies on the lock its callers hold; such prunes are left out here. *)
Inductive redis_call : redis unit -> Prop :=
  | redis_call_append clock rec : cr_entry rec ∈ U ->
      redis_call (redis_AppendEntry clock rec ((fun k => advance k (cr_entry rec)) <$> K))
  | redis_call_prune k keep : K = Some k -> redis_call (r ← redis_PruneEntries keep (head_fold K); mret tt)
  | redis_call_revoke serial at_ : redis_call (redis_SetRevoked serial at_)
  | redis_call_clear serial : redis_call (redis_ClearRevoked serial)
  | redis_call_project serial p : redis_call (redis_SetProjection serial p).

Lemma redis_call_wp p s :
  (forall k, K = Some k -> tells_apart k U) -> redis_call p -> redis_wf s -> wp redis_rely p (fun _ _ => True) s.
Proof.
  intros Hmac Hp Hwf. destruct same_entry_marks as (M1 & M2 & M3).
  assert (redis_rely s s) as Rs by reflexivity.
  destruct Hp as [clock rec HU|k keep Hk|serial at_|serial|serial q].
  - eapply wp_mono; [|by apply (redis_append_wp rec clock redisMaxRetries s s)]. done.
  - apply wp_mbind. eapply wp_mono; [|by eapply (redis_prune_wp k keep redisMaxRetries s s); eauto].
    by intros [] ?.
  - eapply wp_mono; [|by apply (redis_mutate_wp serial _ redisMaxRetries s s)]. done.
  - eapply wp_mono; [|by apply (redis_mutate_wp serial _ redisMaxRetries s s)]. done.
  - eapply wp_mono; [|by apply (redis_mutate_wp serial _ redisMaxRetries s s)]. done.
Qed.
End Replicas.

(** C20: Any number of replicas appending, pruning and updating the index of one
    Redis inventory, their scripts interleaved in any order and any request or
    reply lost, keep it exact: the integrity head is that of the listed entries,
    a serial is indexed if and only if it is listed, and the latest serial of a
    certname is that of its last listed entry. *)
Theorem redis_replicas_consistent K U s s' ps :
  (forall k, K = Some k -> tells_apart k U) -> redis_wf K U s ->
  rtc (step (redis_call K U)) (s, []) (s', ps) ->
  (forall k, K = Some k -> head_body s' = chain_from k "" (redis_view s')) /\
  (forall serial, is_Some (r_serial s' !! serial) <-> exists e, e ∈ redis_view s' /\ ie_Serial e = serial) /\
  (forall subject, run_prog (redis_LatestSerialForSubject subject) s' =
     (match latest_of subject (ordered (redis_map s')) with
      | Some serial => Ok serial
      | None => Err (not_exist "latest-serial")
      end, s')).
Proof.
  intros Hmac Hwf Hsteps.
  destruct (steps_keep (redis_rely K U) (redis_call K U) (redis_wf K U) (s, []) (s', ps)) as (_ & Hwf' & _).
  - intros a b H Ha. by apply H.
  - intros p a. by apply redis_call_wp.
  - done.
  - done.
  - by intros p ?%not_elem_of_nil.
  - cbn [fst] in Hwf'. split; [apply Hwf'|]. split.
    + intros serial. rewrite (listed_serial _ _ _ _ serial (rw_indexed _ _ _ Hwf')), existsb_exists_elem.
      by setoid_rewrite bool_decide_eq_true.
    + intros subject. rewrite <- (ix_subject _ _ _ _ (rw_indexed _ _ _ Hwf') subject).
      unfold redis_LatestSerialForSubject. rewrite run_mbind. cbn. by destruct (r_subject s' !! subject).
Qed.

(** ** Run alone *)

(** An append run alone is the specification of an append: a serial that is
    listed is refused and nothing changes; any other entry is added at the end,
    and the indices, the counter and the integrity head are those of the listed
    entries. *)
Theorem redis_AppendEntry_refines K U clock rec s :
  redis_wf K U s -> cr_entry rec ∈ U ->
  let '(r, s') := run_prog (redis_AppendEntry clock rec ((fun k => advance k (cr_entry rec)) <$> K)) s in
  redis_wf K U s' /\
  match spec_append (cr_entry rec) (redis_view s) with
  | Some l => r = Ok tt /\ redis_view s' = l
  | None => r = Err (Wrap (ie_Serial (cr_entry rec)) [Sentinel ErrDuplicateSerial]) /\ s' = s
  end.
Proof.
  intros Hwf HU. unfold redis_AppendEntry, redisMaxRetries. cbn [redis_append_attempts].
  rewrite !run_mbind. cbn [readHead redis_read request run_prog]. rewrite run_mbind. cbn [runInvScript request run_prog].
  pose proof (listed_serial _ _ _ _ (ie_Serial (cr_entry rec)) (rw_indexed _ _ _ Hwf)) as Hl.
  destruct (append_script ((fun k => advance k (cr_entry rec)) <$> K) (head_body s) (clock 15%nat) rec s)
    as [[Hd ->]|[(_ & _ & Hne & _)|[Hf ->]]]; [|done|].
  - split; [done|]. unfold spec_append, redis_view. by rewrite (proj1 Hl Hd).
  - destruct (redis_appended_wf K U rec (clock 15%nat) s Hwf HU Hf) as (W & -> & _). done.
Qed.

(** A prune run alone removes and reports the oldest of the rejected
    entries, five thousand at most; every other entry stays, in its order, and
    the indices, the counter and the integrity head are those of what is
    left. *)
Theorem redis_PruneEntries_refines K U keep s :
  redis_wf K U s ->
  let doomed := base.filter (fun e => keep e = false) (redis_view s) in
  exists s', run_prog (redis_PruneEntries keep (head_fold K)) s = (Ok (take redisPruneMaxPerCall doomed), s') /\
    redis_wf K U s' /\
    base.filter (fun e => keep e = true) (redis_view s') = base.filter (fun e => keep e = true) (redis_view s) /\
    base.filter (fun e => keep e = false) (redis_view s') = drop redisPruneMaxPerCall doomed.
Proof.
  intros Hwf doomed. unfold redis_PruneEntries, redisMaxRetries. cbn [redis_prune_attempts].
  rewrite run_mbind. cbn [readInventorySnapshot redis_read request run_prog]. unfold decodeEntryFields.
  rewrite plan_removed by apply ordered_NoDup.
  assert (forall n, entriesOf (take n (rejected keep (ordered (r_entries s)))) = take n doomed) as Hd.
  { intros n. unfold doomed. by rewrite redis_view_records, filter_entriesOf, entriesOf_take. }
  case_bool_decide as Hne.
  - exists s. pose proof (Hd redisPruneMaxPerCall) as Ht. fold (redis_removed keep (ordered (r_entries s))) in Ht.
    rewrite Hne in Ht. change (entriesOf []) with (@nil InventoryEntry) in Ht. rewrite <- Ht. split; [done|]. split; [done|]. split; [done|].
    pose proof (take_drop redisPruneMaxPerCall doomed) as E. rewrite <- Ht in E. symmetry. exact E.
  - rewrite run_mbind. cbn [runInvScript request run_prog].
    destruct (pruned_fields K U keep s s Hwf eq_refl Hne (head_body s) eq_refl) as (_ & _ & _ & _ & _ & E).
    unfold prune_heads in E. rewrite E. cbn [run_prog mret prog_ret].
    destruct (redis_pruned_wf K U keep s s Hwf eq_refl Hne (head_body s) eq_refl) as (W & _ & _ & V).
    destruct (pruned_view keep s _ V) as (P1 & P2 & P3). eexists. rewrite P3. done.
Qed.
