(* ===== verification/RedisLegacy.v ===== *)
(** * Conversion of a legacy Redis inventory

    Versions before the decomposed form kept the inventory as one text.  Every
    replica converts it when it starts.  The conversions of any number of
    replicas, interleaved in any order, interrupted anywhere and resumed any
    number of times, list exactly the entries of the text; a text that fails
    its integrity check is never imported.  The theorems do not rely on the
    lock that orders the conversions. *)

From S2P Require Import Prelude GoStrings GoTime X509 Inventory Storage Concurrent Records InventorySpec Numbered BulkImport Redis RedisSpec.

(** ** The tables *)

Definition redis_content (s : Redis) : tables := (r_entries s, r_serial s, r_subject s).

Lemma hset_content ts : forall s,
  redis_content (fold_left hset_tuple ts s) = fold_left table_set ts (redis_content s).
Proof. induction ts as [|[[[[n serial] v] subject] json] ts IH]; intros s; [done|]. cbn [fold_left]. apply IH. Qed.

Lemma hset_all_rest ts s :
  let s' := fold_left hset_tuple ts s in
  r_head s' = r_head s /\ r_marker s' = r_marker s /\ r_hmacKey s' = r_hmacKey s.
Proof.
  revert s. induction ts as [|[[[[n serial] v] subject] json] ts IH]; intros s; [done|]. cbn [fold_left].
  destruct (IH (hset_tuple s (n, serial, v, subject, json))) as (-> & -> & ->). done.
Qed.

(** A store whose tables are those of an import lists its records. *)
Lemma content_indexed recs n s :
  redis_content s = import_tables recs n ->
  redis_view s = map cr_entry (take n recs) /\
  indexed (redis_map s) (r_serial s) (r_subject s) (Some (Z.of_nat n)).
Proof.
  intros Hc. pose proof (import_view recs n) as Hv. pose proof (import_indexed recs n) as Hi.
  rewrite <- Hc in Hv, Hi. done.
Qed.

(** ** Replacing, run alone *)

(** The store [s] with the first [n] records in the place of what it lists. *)
Definition wiped (s : Redis) : Redis := put_subject ∅ (put_serial ∅ (put_entries ∅ s)).
Definition import_of (recs : list CertRecord) (n : nat) (s : Redis) : Redis :=
  fold_left hset_tuple (tuples_from (duplicateSerials recs) 1 (take n recs)) (wiped s).

Lemma import_content recs n s : redis_content (import_of recs n s) = import_tables recs n.
Proof. apply hset_content. Qed.

Lemma import_whole recs s : import_of recs (length recs) s = fold_left hset_tuple (tuples_from (duplicateSerials recs) 1 recs) (wiped s).
Proof. unfold import_of. by rewrite firstn_all. Qed.

Definition put_all (seq : Z) (dups : list string) (n : Z) (l : list CertRecord) (s : Redis) : Redis :=
  put_seq (Some seq) (fold_left hset_tuple (tuples_from dups n l) s).

Lemma hset_tuples_seq ts : forall s x,
  fold_left hset_tuple ts (put_seq x s) = put_seq x (fold_left hset_tuple ts s).
Proof. induction ts as [|[[[[n serial] v] subject] json] ts IH]; intros s x; [done|].
  cbn [fold_left]. rewrite <- IH. done.
Qed.

Lemma hset_tuples_marker ts s : r_marker (fold_left hset_tuple ts s) = r_marker s.
Proof. revert s. induction ts as [|[[[[n serial] v] subject] json] ts IH]; intros s; [done|]. cbn [fold_left]. by rewrite IH. Qed.

Lemma batches_run dups guard batches : forall written s,
  seq_value s = written -> marker_conflicts guard s = false ->
  run_prog (replace_batches dups guard batches written) s =
    (Ok false, match batches with
               | [] => s
               | _ => put_all (written + Z.of_nat (length (concat batches))) dups (written + 1) (concat batches) s
               end).
Proof.
  induction batches as [|batch batches IH]; intros written s Hseq Hg; [done|].
  cbn [replace_batches]. rewrite run_mbind. cbn [runInvScript request run_prog]. unfold redisReplaceBatchLua.
  rewrite Hseq, Z.eqb_refl, Hg. cbn [negb orb]. cbn beta iota.
  set (next := written + Z.of_nat (length batch)). set (s1 := put_seq _ _).
  assert (marker_conflicts guard s1 = false) as Hg1.
  { rewrite <- Hg. unfold marker_conflicts, s1. cbn [r_marker put_seq]. by rewrite hset_tuples_marker. }
  rewrite (IH next s1 eq_refl Hg1). f_equal. cbn [concat]. rewrite length_app.
  destruct batches as [|b' bs]; cbn [concat length].
  - unfold s1, put_all, next. rewrite app_nil_r. do 2 f_equal. lia.
  - unfold s1, put_all. rewrite hset_tuples_seq, (tuples_app dups (written + 1) batch), fold_left_app.
    replace (next + 1) with (written + 1 + Z.of_nat (length batch)) by (unfold next; lia).
    replace (next + Z.of_nat (length (b' ++ concat bs))) with
      (written + Z.of_nat (length batch + length (b' ++ concat bs))) by (unfold next; lia). done.
Qed.

(** What a replacement leaves. *)
Definition replaced (now : Z) (recs : list CertRecord) (dropHead : bool) (s : Redis) : Redis :=
  let s := put_marker (Some (now, "")) (put_seq (Some (Z.of_nat (length recs))) (import_of recs (length recs) s)) in
  if dropHead then put_head None s else s.

Lemma replace_run now recs guard dropHead s :
  marker_conflicts guard s = false ->
  run_prog (redis_replaceInventoryOnce now recs guard dropHead) s = (Ok false, replaced now recs dropHead s).
Proof.
  intros Hg. unfold redis_replaceInventoryOnce. rewrite run_mbind. cbn [redis_read request run_prog].
  rewrite run_mbind. cbn [runInvScript request run_prog]. unfold redisReplaceWipeLua. rewrite Z.eqb_refl, Hg.
  cbn [negb orb]. cbn beta iota. change (put_subject ∅ (put_serial ∅ (put_entries ∅ s))) with (wiped s).
  rewrite run_mbind, batches_run by done.
  set (s1 := match _ with [] => _ | _ => _ end).
  assert (s1 = put_seq (Some (Z.of_nat (length recs))) (import_of recs (length recs) s)) as Es.
  { unfold s1. pose proof (chunks_concat redisImportBatch (length recs) recs) as Hc.
    destruct (chunks _ _ recs) as [|c cs].
    - destruct recs; [done|]. cbn in Hc. unfold redisImportBatch in Hc. by rewrite <- Hc by lia.
    - rewrite Hc by (unfold redisImportBatch; lia). unfold put_all. by rewrite hset_tuples_seq, import_whole. }
  assert (marker_conflicts guard s1 = false) as Hg1.
  { rewrite Es, <- Hg. unfold marker_conflicts. cbn [r_marker put_seq]. unfold import_of. by rewrite hset_tuples_marker. }
  cbn beta iota. rewrite run_mbind. cbn [runInvScript request run_prog]. unfold redisReplaceFinishLua.
  assert (seq_value s1 = Z.of_nat (length recs)) as -> by (by rewrite Es).
  rewrite Z.eqb_refl, Hg1. cbn [negb orb]. cbn beta iota. rewrite Es. done.
Qed.

Lemma replaced_indexed now recs dropHead s :
  let s' := replaced now recs dropHead s in
  redis_view s' = map cr_entry recs /\ indexed (redis_map s') (r_serial s') (r_subject s') (r_seq s') /\
  r_head s' = if dropHead then None else r_head s.
Proof.
  destruct (content_indexed recs (length recs) _ (import_content recs (length recs) s)) as [Hv Hi].
  rewrite firstn_all in Hv. pose proof (hset_all_rest (tuples_from (duplicateSerials recs) 1 (take (length recs) recs)) (wiped s)) as [Hh _].
  unfold replaced. by destruct dropHead.
Qed.

(** A replacement through the blob interface, run alone: a text with a
    malformed line or a serial twice is refused and nothing changes; any other
    text is listed, entry by entry, with exact indices. *)
Theorem redis_putInventory_refines clock data s :
  match importable_text data with
  | Err e => run_prog (redis_putInventory clock data) s = (Err e, s)
  | Ok recs => exists s', run_prog (redis_putInventory clock data) s = (Ok tt, s') /\
      redis_view s' = map cr_entry recs /\
      indexed (redis_map s') (r_serial s') (r_subject s') (r_seq s') /\ r_head s' = r_head s
  end.
Proof.
  unfold redis_putInventory. destruct (importable_text data) as [recs|e]; [|done].
  exists (replaced (clock 15%nat) recs false s). unfold redisMaxRetries. cbn [put_attempts].
  rewrite run_mbind, replace_run by done. split; [done|]. apply replaced_indexed.
Qed.

(** ** Any number of conversions *)

Section Legacy.
(** The text and the records it lists, the time of its last write, and the
    stored integrity value and key. *)
Context (blob : string) (recs : list CertRecord) (mtime : Z) (head0 key0 : option string).
Context (Hblob : blob <> "") (Hparse : parseInventoryRecords blob = Ok recs).

Notation genuine := (legacy_genuine blob head0 key0).

(** The first [n] records are imported. *)
Definition redis_imported (n : nat) (s : Redis) : Prop :=
  redis_content s = import_tables recs n /\ seq_value s = Z.of_nat n.

(** The text still counts; the import may have begun. *)
Record pending (s : Redis) : Prop := Pending {
  pd_marker : r_marker s = Some (mtime, blob);
  pd_head : r_head s = head0;
  pd_key : r_hmacKey s = key0;
  pd_import : exists n, (n <= length recs)%nat /\ redis_imported n s }.

(** The text has been retired. *)
Record converted (s : Redis) : Prop := Converted {
  cv_marker : exists now, r_marker s = Some (now, "");
  cv_head : r_head s = None;
  cv_import : redis_imported (length recs) s }.

Definition legacy_rely (s s' : Redis) : Prop :=
  (pending s -> (genuine = false -> s' = s) /\ (pending s' \/ converted s')) /\
  (converted s -> converted s').
#[global] Instance legacy_rely_preorder : PreOrder legacy_rely.
Proof.
  split; [intros s; split; auto|]. intros a b c [P1 C1] [P2 C2]. split; [|auto].
  intros Ha. destruct (P1 Ha) as [E1 [Hb|Hb]].
  - destruct (P2 Hb) as [E2 Hc]. split; [|done]. intros Hg. by rewrite (E2 Hg), (E1 Hg).
  - split; [|auto]. intros Hg. rewrite (E1 Hg) in Hb. destruct (cv_marker _ Hb) as [now Hm].
    rewrite (pd_marker _ Ha) in Hm. by injection Hm as _ ->.
Qed.

Lemma pending_not_converted s : pending s -> converted s -> False.
Proof.
  intros Hp Hc. destruct (cv_marker _ Hc) as [now Hm]. rewrite (pd_marker _ Hp) in Hm. by injection Hm as _ ->.
Qed.

Definition legacy_guard : redisMarkerGuard := mkGuard mtime (marker_length blob).

Lemma guard_pending s : pending s -> marker_conflicts (Some legacy_guard) s = false.
Proof. intros H. unfold marker_conflicts. rewrite (pd_marker _ H). cbn. by rewrite !Z.eqb_refl. Qed.

Lemma guard_converted s : converted s -> marker_conflicts (Some legacy_guard) s = true.
Proof.
  intros H. destruct (cv_marker _ H) as [now E]. unfold marker_conflicts. rewrite E. cbn.
  assert (marker_length "" =? marker_length blob = false) as ->; [|by rewrite andb_false_r].
  apply Z.eqb_neq. unfold marker_length. destruct blob; [done|]. cbn. lia.
Qed.

(** *** The steps of a replacement *)

(** A conversion that got past the integrity check. *)
Definition cleared (s : Redis) : Prop := (pending s /\ genuine = true) \/ converted s.

Lemma cleared_rely s s' : cleared s -> legacy_rely s s' -> cleared s'.
Proof.
  intros [[Hp Hg]|Hc] [H1 H2]; [|right; auto]. destruct (H1 Hp) as [_ [?|?]]; [by left|by right].
Qed.

Lemma cleared_step s s' : cleared s -> pending s -> pending s' \/ converted s' -> legacy_rely s s'.
Proof.
  intros Hc Hp H. split.
  - intros _. split; [|done]. intros Hg. destruct Hc as [[_ Hg']|Hc]; [congruence|].
    exfalso. by apply (pending_not_converted s).
  - intros Hcv. exfalso. by apply (pending_not_converted s).
Qed.

(** A step either meets a failed guard or finds the text still counting. *)
Lemma guarded_step (seq : Z) (f : script) s :
  cleared s ->
  (forall t, negb (seq_value t =? seq) || marker_conflicts (Some legacy_guard) t = true -> f t = (RedisConflict, t)) ->
  f s = (RedisConflict, s) \/ (pending s /\ seq_value s = seq).
Proof.
  intros Hc Hf. destruct (negb (seq_value s =? seq) || marker_conflicts (Some legacy_guard) s) eqn:E; [left; auto|right].
  apply orb_false_iff in E as [E1 E2]. apply negb_false_iff, Z.eqb_eq in E1. split; [|done].
  destruct Hc as [[Hp _]|Hc]; [done|]. by rewrite guard_converted in E2.
Qed.

Lemma redis_imported_zero s : redis_imported 0 (put_seq (Some 0) (wiped s)).
Proof. split; done. Qed.

Lemma redis_imported_batch n batch s :
  redis_imported n s -> take (n + length batch) recs = take n recs ++ batch -> (n <= length recs)%nat ->
  redis_imported (n + length batch)
    (put_all (Z.of_nat n + Z.of_nat (length batch)) (duplicateSerials recs) (Z.of_nat n + 1) batch s).
Proof.
  intros [Hc _] Ht Hl. split; [|cbn; lia]. rewrite (import_batch recs n batch Ht Hl), <- Hc. apply hset_content.
Qed.

Lemma pending_wipe s : pending s -> pending (put_seq (Some 0) (wiped s)).
Proof. intros [M H Kk _]. split; [done..|]. exists 0%nat. split; [lia|]. apply redis_imported_zero. Qed.

Lemma pending_batch n batch s :
  pending s -> seq_value s = Z.of_nat n -> (n + length batch <= length recs)%nat ->
  take (n + length batch) recs = take n recs ++ batch ->
  pending (put_all (Z.of_nat n + Z.of_nat (length batch)) (duplicateSerials recs) (Z.of_nat n + 1) batch s).
Proof.
  intros [M H Kk (n' & Hn' & Hi)] Hseq Hle Ht.
  assert (n' = n) as -> by (destruct Hi as [_ Hi]; lia).
  destruct (hset_all_rest (tuples_from (duplicateSerials recs) (Z.of_nat n + 1) batch) s) as (E1 & E2 & E3).
  split; [unfold put_all; cbn [r_marker r_head r_hmacKey put_seq]; congruence..|]. exists (n + length batch)%nat. split; [done|].
  by apply redis_imported_batch; [|done|lia].
Qed.

Lemma pending_finish now s :
  pending s -> seq_value s = Z.of_nat (length recs) -> converted (put_head None (put_marker (Some (now, "")) s)).
Proof.
  intros [M H Kk (n & Hn & Hi)] Hseq. assert (n = length recs) as -> by (destruct Hi as [_ Hi]; lia).
  by split; [exists now| |].
Qed.

Lemma replace_batches_wp batches : forall n s,
  cleared s -> concat batches = drop n recs -> (n <= length recs)%nat ->
  wp legacy_rely (replace_batches (duplicateSerials recs) (Some legacy_guard) batches (Z.of_nat n))
    (fun _ s' => cleared s') s.
Proof.
  induction batches as [|batch batches IH]; intros n s Hc Hcat Hn; [done|].
  cbn [replace_batches]. apply wp_mbind, wp_request; [apply _|]. intros t Ht.
  pose proof (cleared_rely _ _ Hc Ht) as Hct. set (f := redisReplaceBatchLua _ _ _ _).
  assert (n + length batch <= length recs)%nat as Hle.
  { apply (f_equal length) in Hcat. cbn [concat] in Hcat. rewrite length_app, length_drop in Hcat. lia. }
  assert (take (n + length batch) recs = take n recs ++ batch) as Htake.
  { rewrite <- take_take_drop, <- Hcat. cbn [concat]. f_equal. by rewrite take_app_length. }
  destruct (guarded_step (Z.of_nat n) f t Hct) as [E|[Hp Hseq]].
  { intros u Hu. unfold f, redisReplaceBatchLua. by rewrite Hu. }
  { rewrite E. cbn [fst snd]. split; [reflexivity|]. split; [done|]. done. }
  assert (f t = (RedisOK, put_all (Z.of_nat n + Z.of_nat (length batch)) (duplicateSerials recs) (Z.of_nat n + 1) batch t)) as E.
  { unfold f, redisReplaceBatchLua. by rewrite Hseq, Z.eqb_refl, (guard_pending t Hp). }
  rewrite E. cbn [fst snd]. set (t' := put_all _ _ _ _ _).
  assert (pending t') as Hp' by (by apply pending_batch).
  assert (legacy_rely t t') as R by (apply cleared_step; auto). split; [done|].
  assert (cleared t') as Hc' by (by eapply cleared_rely). split; [|done].
  replace (Z.of_nat n + Z.of_nat (length batch)) with (Z.of_nat (n + length batch)) by lia. apply IH; [done| |done].
  rewrite <- drop_drop, <- Hcat. cbn [concat]. by rewrite drop_app_length.
Qed.

Lemma replace_wp now s :
  cleared s ->
  wp legacy_rely (redis_replaceInventoryOnce now recs (Some legacy_guard) true) (fun _ s' => cleared s') s.
Proof.
  intros Hc. unfold redis_replaceInventoryOnce. apply wp_mbind, wp_read; [apply _|]. intros s1 H1.
  pose proof (cleared_rely _ _ Hc H1) as Hc1. split; [|done].
  apply wp_mbind, wp_request; [apply _|]. intros s2 H2. pose proof (cleared_rely _ _ Hc1 H2) as Hc2.
  destruct (guarded_step (seq_value s1) (redisReplaceWipeLua (seq_value s1) (Some legacy_guard)) s2 Hc2) as [E|[Hp Hseq]].
  { intros u Hu. unfold redisReplaceWipeLua. by rewrite Hu. }
  { rewrite E. cbn [fst snd]. split; [reflexivity|]. split; [done|]. done. }
  assert (redisReplaceWipeLua (seq_value s1) (Some legacy_guard) s2 = (RedisOK, put_seq (Some 0) (wiped s2))) as E.
  { unfold redisReplaceWipeLua. by rewrite Hseq, Z.eqb_refl, (guard_pending s2 Hp). }
  rewrite E. cbn [fst snd]. set (s3 := put_seq _ _).
  assert (legacy_rely s2 s3) as R3 by (apply cleared_step; [done|done|left; by apply pending_wipe]).
  assert (cleared s3) as Hc3 by (by eapply cleared_rely). split; [done|]. split; [|done].
  apply wp_mbind. eapply wp_mono; [|apply (replace_batches_wp _ 0 s3 Hc3); [|lia]].
  2:{ rewrite drop_0. apply chunks_concat; unfold redisImportBatch; lia. }
  intros [[]|e] s4 Hc4; [done| |done]. apply wp_mbind, wp_request; [apply _|]. intros s5 H5.
  pose proof (cleared_rely _ _ Hc4 H5) as Hc5.
  destruct (guarded_step (Z.of_nat (length recs))
    (redisReplaceFinishLua (Z.of_nat (length recs)) (Some legacy_guard) now true) s5 Hc5) as [E'|[Hp' Hseq']].
  { intros u Hu. unfold redisReplaceFinishLua. by rewrite Hu. }
  { rewrite E'. cbn [fst snd]. split; [reflexivity|]. split; [done|]. done. }
  assert (redisReplaceFinishLua (Z.of_nat (length recs)) (Some legacy_guard) now true s5 =
    (RedisOK, put_head None (put_marker (Some (now, "")) s5))) as E'.
  { unfold redisReplaceFinishLua. by rewrite Hseq', Z.eqb_refl, (guard_pending s5 Hp'). }
  rewrite E'. cbn [fst snd]. set (s6 := put_head _ _).
  assert (converted s6) as Hv by (by apply pending_finish).
  assert (legacy_rely s5 s6) as R6 by (apply cleared_step; auto).
  assert (cleared s6) as Hc6 by (by right). done.
Qed.

(** *** One conversion *)

Lemma pending_prefix s : pending s -> recordsArePrefixOf (ordered (r_entries s)) recs = true.
Proof.
  intros [_ _ _ (n & Hn & [Hc _])]. pose proof (import_prefix recs n Hn) as H. by rewrite <- Hc in H.
Qed.

Lemma pending_marker s : pending s -> decodeLegacyMarker (r_marker s) = (blob, legacy_guard).
Proof. intros H. by rewrite (pd_marker _ H). Qed.

Lemma wrap_decompose_wp {A} (p : redis A) (Q : result A -> Redis -> Prop) s :
  wp legacy_rely p (fun r s' => forall r', (r' = r \/ exists e, r' = Err e) -> Q r' s') s ->
  wp legacy_rely (wrap_decompose p) Q s.
Proof.
  revert s. induction p as [[a|e]|B f k IH]; intros s H; cbn [wrap_decompose].
  - apply H. by left.
  - apply H. right. by eexists.
  - cbn [wp] in *. intros s' Hs b s'' Hb. destruct (H s' Hs b s'' Hb). split; [done|]. by apply IH.
Qed.

Lemma verify_wp s :
  pending s \/ converted s ->
  wp legacy_rely (redis_verifyLegacyInventoryMAC blob)
    (fun r s' => (pending s' \/ converted s') /\ (r = Ok tt -> cleared s')) s.
Proof.
  intros Hs. unfold redis_verifyLegacyInventoryMAC. apply wp_mbind, wp_read; [apply _|]. intros s1 [H1 H2].
  assert (pending s1 \/ converted s1) as Hs1.
  { destruct Hs as [Hp|Hc]; [by destruct (H1 Hp)|right; auto]. }
  split; [|done].
  destruct Hs1 as [Hp|Hc].
  - rewrite (pd_head _ Hp), (pd_key _ Hp). assert (genuine = true -> cleared s1) as Hok by (intros; by left).
    unfold legacy_genuine in Hok. destruct head0 as [stored|]; [destruct key0 as [key|]|]; try (split; [by left|]); auto; try done.
    destruct (String.length key =? hmacKeyLen)%nat; cbn [negb andb] in *; [|split; [by left|done]].
    case_bool_decide; cbn; (split; [by left|]); [auto|done].
  - rewrite (cv_head _ Hc). cbn. split; [by right|]. intros _. by right.
Qed.

Lemma decompose_wp attempts clock s :
  pending s \/ converted s ->
  wp legacy_rely (decompose_attempts attempts clock) (fun _ s' => pending s' \/ converted s') s.
Proof.
  assert (forall a b, pending a \/ converted a -> legacy_rely a b -> pending b \/ converted b) as Hkeep.
  { intros a b [Hp|Hc] [H1 H2]; [by destruct (H1 Hp)|right; auto]. }
  assert (forall t, cleared t -> pending t \/ converted t) as Hclear by (intros t [[]|]; auto).
  revert s. induction attempts as [|attempts IH]; intros s Hs; [done|].
  cbn [decompose_attempts]. apply wp_mbind, wp_read; [apply _|]. intros s1 H1.
  pose proof (Hkeep _ _ Hs H1) as Hs1. split; [|done].
  destruct Hs1 as [Hp|Hc].
  2:{ destruct (cv_marker _ Hc) as [now ->]. cbn. by right. }
  rewrite (pending_marker _ Hp). cbn [fst]. rewrite bool_decide_eq_false_2 by done.
  rewrite Hparse. cbn [wrap_decompose mbind prog_mbind prog_bind]. unfold decodeEntryFields.
  rewrite (pending_prefix _ Hp), andb_false_r.
  apply wp_mbind. eapply wp_mono; [|by apply verify_wp; left]. intros [[]|e] s2 [Hs2 Hc2]; [|done].
  specialize (Hc2 eq_refl). apply wp_mbind, wrap_decompose_wp.
  eapply wp_mono; [|by apply replace_wp]. intros r s3 Hc3 r' Hr'.
  destruct r' as [[]|e]; [|by apply Hclear..].
  apply wp_mbind, wp_read; [apply _|]. intros s4 H4. pose proof (Hkeep _ _ (Hclear _ Hc3) H4) as Hs4.
  split; [by apply IH|done].
Qed.

Lemma convert_wp attempts s :
  converted s -> wp legacy_rely (convert_attempts attempts) (fun _ s' => converted s') s.
Proof.
  intros Hc. destruct attempts as [|attempts]; [done|]. cbn [convert_attempts].
  apply wp_mbind, wp_read; [apply _|]. intros s1 [_ H1]. specialize (H1 Hc). split; [|done].
  case_bool_decide; cbn [negb]; [|done]. by rewrite (cv_head _ H1).
Qed.

Lemma ensure_ready_wp clock s :
  pending s \/ converted s ->
  wp legacy_rely (redis_EnsureReady clock) (fun _ s' => pending s' \/ converted s') s.
Proof.
  intros Hs.
  assert (forall a b, pending a \/ converted a -> legacy_rely a b -> pending b \/ converted b) as Hkeep.
  { intros a b [Hp|Hc] [H1 H2]; [by destruct (H1 Hp)|right; auto]. }
  unfold redis_EnsureReady, redis_decomposeLegacyInventory.
  apply wp_mbind, wp_read; [apply _|]. intros s1 H1. pose proof (Hkeep _ _ Hs H1) as Hs1. split; [|done].
  apply wp_mbind, wp_read; [apply _|]. intros s2 H2. pose proof (Hkeep _ _ Hs1 H2) as Hs2. split; [|done].
  destruct Hs2 as [Hp|Hc].
  - rewrite (pending_marker _ Hp). cbn [fst]. rewrite bool_decide_eq_false_2 by done.
    apply wp_mbind, wp_read; [apply _|]. intros s3 H3. pose proof (Hkeep _ _ (or_introl Hp) H3) as Hs3.
    split; [by apply decompose_wp|done].
  - destruct (cv_marker _ Hc) as [now ->]. cbn [decodeLegacyMarker fst]. rewrite bool_decide_eq_true_2 by done.
    eapply wp_mono; [|by apply convert_wp]. intros ? ? ?. by right.
Qed.

(** *** A conversion run alone *)

Lemma run_wrap_Ok {A} (p : redis A) s a s' :
  run_prog p s = (Ok a, s') -> run_prog (wrap_decompose p) s = (Ok a, s').
Proof.
  revert s. induction p as [[b|e]|B f k IH]; intros s H; [done|done|]. cbn [wrap_decompose run_prog] in *.
  destruct (f s) as [b t]. by apply IH.
Qed.

Lemma verify_run s :
  pending s ->
  if genuine then run_prog (redis_verifyLegacyInventoryMAC blob) s = (Ok tt, s)
  else exists what, run_prog (redis_verifyLegacyInventoryMAC blob) s = (Err (legacy_tampered what), s).
Proof.
  intros Hp. unfold redis_verifyLegacyInventoryMAC, legacy_genuine. rewrite run_mbind. cbn [redis_read request run_prog].
  rewrite (pd_head _ Hp), (pd_key _ Hp). destruct head0 as [stored|], key0 as [key|]; try done; [|by eexists].
  destruct (String.length key =? hmacKeyLen)%nat; cbn [negb andb]; [|by eexists].
  case_bool_decide; [done|by eexists].
Qed.

Lemma convert_run a s : converted s -> run_prog (convert_attempts (S a)) s = (Ok tt, s).
Proof.
  intros Hc. cbn [convert_attempts]. rewrite run_mbind. cbn [redis_read request run_prog].
  case_bool_decide; cbn [negb]; [|done]. by rewrite (cv_head _ Hc).
Qed.

Lemma decompose_run a clock s :
  pending s ->
  run_prog (decompose_attempts (S a) clock) s =
    match run_prog (redis_verifyLegacyInventoryMAC blob) s with
    | (Ok _, s') => run_prog (conflict ← wrap_decompose (redis_replaceInventoryOnce (clock a) recs (Some legacy_guard) true);
                              if (conflict : bool) then _ ← backoff; decompose_attempts a clock else mret tt) s'
    | (Err e, s') => (Err e, s')
    end.
Proof.
  intros Hp. cbn [decompose_attempts]. rewrite run_mbind. cbn [redis_legacyInventoryState redis_read request run_prog].
  rewrite (pending_marker _ Hp). cbn [fst]. rewrite bool_decide_eq_false_2 by done.
  rewrite Hparse. cbn [wrap_decompose]. unfold decodeEntryFields. rewrite run_mbind. cbn [run_prog].
  rewrite (pending_prefix _ Hp), andb_false_r. by rewrite run_mbind.
Qed.

Lemma ensure_ready_run clock s :
  pending s \/ converted s ->
  if genuine then exists s', run_prog (redis_EnsureReady clock) s = (Ok tt, s') /\ converted s'
  else pending s -> exists what, run_prog (redis_EnsureReady clock) s = (Err (legacy_tampered what), s).
Proof.
  intros Hs.
  assert (converted s -> exists s', run_prog (redis_EnsureReady clock) s = (Ok tt, s') /\ converted s') as Hconv.
  { intros Hc. exists s. split; [|done]. unfold redis_EnsureReady, redis_decomposeLegacyInventory.
    rewrite run_mbind. cbn [backoff request run_prog]. rewrite run_mbind. cbn [legacyMarkerState redis_read request run_prog].
    destruct (cv_marker _ Hc) as [now ->]. cbn [decodeLegacyMarker fst]. rewrite bool_decide_eq_true_2 by done.
    by apply (convert_run 15). }
  assert (pending s -> run_prog (redis_EnsureReady clock) s = run_prog (decompose_attempts 16 clock) s) as Hstart.
  { intros Hp. unfold redis_EnsureReady, redis_decomposeLegacyInventory, acquire_decompose_lock.
    rewrite run_mbind. cbn [backoff request run_prog]. rewrite run_mbind. cbn [legacyMarkerState redis_read request run_prog].
    rewrite (pending_marker _ Hp). cbn [fst]. rewrite bool_decide_eq_false_2 by done. by rewrite run_mbind. }
  pose proof (decompose_run 15 clock s) as Hbody.
  pose proof (verify_run s) as Hv. destruct genuine.
  - destruct Hs as [Hp|Hc]; [|by apply Hconv]. exists (replaced (clock 15%nat) recs true s).
    rewrite Hstart, Hbody, Hv, run_mbind, (run_wrap_Ok _ _ _ _ (replace_run _ _ _ _ _ (guard_pending s Hp))) by done.
    split; [done|]. split; [by eexists|done|]. split; [|done]. apply import_content.
  - intros Hp. destruct (Hv Hp) as [what E]. exists what. by rewrite Hstart, Hbody, E.
Qed.

Lemma converted_listed s : converted s ->
  redis_view s = map cr_entry recs /\ indexed (redis_map s) (r_serial s) (r_subject s) (Some (Z.of_nat (length recs))) /\
  seq_value s = Z.of_nat (length recs) /\ r_head s = None /\ exists now, r_marker s = Some (now, "").
Proof.
  intros [M H [Hc Hs]]. destruct (content_indexed _ _ _ Hc) as [Hv Hi]. rewrite firstn_all in Hv. done.
Qed.
End Legacy.

(** C21: Starting replicas convert a legacy inventory exactly.  From a store whose
    text lists [recs] and of which some first part may have been imported, let
    any number of replicas start, their requests interleaved in any order, any
    of them stopped or cut off anywhere; then one more start, undisturbed,
    succeeds and leaves the entries of the text, no others, with exact indices,
    the text retired and its integrity value dropped.  If the text fails its
    integrity check, no start changes anything, and each reports the tampering. *)
Theorem redis_conversion_resumable blob recs mtime s s' ps clock :
  blob <> "" -> parseInventoryRecords blob = Ok recs ->
  pending blob recs mtime (r_head s) (r_hmacKey s) s ->
  rtc (step (fun p => exists clock, p = redis_EnsureReady clock)) (s, []) (s', ps) ->
  if legacy_genuine blob (r_head s) (r_hmacKey s) then
    exists s'', run_prog (redis_EnsureReady clock) s' = (Ok tt, s'') /\
      redis_view s'' = map cr_entry recs /\
      indexed (redis_map s'') (r_serial s'') (r_subject s'') (Some (Z.of_nat (length recs))) /\
      seq_value s'' = Z.of_nat (length recs) /\ r_head s'' = None /\ exists now, r_marker s'' = Some (now, "")
  else s' = s /\ exists what, run_prog (redis_EnsureReady clock) s' = (Err (legacy_tampered what), s).
Proof.
  intros Hblob Hparse Hp Hsteps. set (head0 := r_head s) in *. set (key0 := r_hmacKey s) in *.
  pose proof (legacy_rely_preorder blob recs mtime head0 key0 Hblob Hparse).
  destruct (steps_keep (legacy_rely blob recs mtime head0 key0) (fun p => exists clock, p = redis_EnsureReady clock)
    (fun t => pending blob recs mtime head0 key0 t \/ converted recs t) (s, []) (s', ps)) as (R & Hs' & _).
  - intros a b [H1 H2] [Ha|Ha]; [by destruct (H1 Ha)|right; auto].
  - intros p a [c ->] Ha. eapply wp_mono; [|by eapply ensure_ready_wp]. done.
  - done.
  - by left.
  - by intros p ?%not_elem_of_nil.
  - cbn [fst] in *. pose proof (ensure_ready_run blob recs mtime head0 key0 Hblob Hparse clock s' Hs') as Hrun.
    destruct (legacy_genuine blob head0 key0) eqn:Hg.
    + destruct Hrun as (s'' & E & Hc). exists s''. split; [done|]. by apply converted_listed.
    + destruct R as [R _]. destruct (R Hp) as [E _]. specialize (E Hg). subst s'. split; [done|]. by apply Hrun.
Qed.

(** ** Appending lines *)

Lemma lines_indexed l : forall c s,
  indexed (redis_map s) (r_serial s) (r_subject s) c -> 0 <= counter_value c ->
  NoDup (map (fun r => ie_Serial (cr_entry r)) l) ->
  (forall r, r ∈ l -> r_serial s !! ie_Serial (cr_entry r) = None) ->
  let '(seq, s') := hset_lines (counter_value c) (map line_of l) s in
  seq = counter_value c + Z.of_nat (length l) /\
  indexed (redis_map s') (r_serial s') (r_subject s') (match l with [] => c | _ => Some seq end) /\
  redis_view s' = redis_view s ++ map cr_entry l /\ r_head s' = r_head s.
Proof.
  induction l as [|rec l IH]; intros c s Hi Hc Hd Hf.
  { cbn. rewrite app_nil_r. split_and!; [lia|done..]. }
  cbn [map] in Hd. apply NoDup_cons in Hd as [Hn Hd]. cbn [map hset_lines line_of].
  set (n := counter_value c + 1). set (s1 := hset_record _ _ _ _ _ s).
  destruct (indexed_append _ _ _ _ (cr_entry rec) Hi (Hf rec ltac:(by left)) Hc) as [Hi1 Ho]. fold n in Hi1, Ho.
  assert (redis_map s1 = <[n := cr_entry rec]> (redis_map s)) as Em.
  { unfold s1, hset_record, redis_map. cbn. by rewrite fmap_insert. }
  specialize (IH (Some n) s1). change (counter_value (Some n)) with n in IH.
  destruct (hset_lines n (map line_of l) s1) as [seq s'].
  destruct IH as (E1 & E2 & E3 & E4).
  - by rewrite Em.
  - unfold n. lia.
  - done.
  - intros r Hr. unfold s1, hset_record. cbn. rewrite lookup_insert_ne; [apply Hf; by right|].
    intros Eq. apply Hn. rewrite Eq. by apply (list_elem_of_fmap_2 (fun r => ie_Serial (cr_entry r))).
  - split; [unfold n in E1; cbn [length]; lia|]. split; [|split; [|done]].
    + destruct l; [|done]. cbn in E1. by rewrite E1, Z.add_0_r.
    + rewrite E3. unfold redis_view at 1. rewrite Em, (view_snoc _ _ _ Ho), <- app_assoc. done.
Qed.

(** Lines appended through the blob interface are all listed or none: a
    malformed text, a serial twice in it or already listed, or more lines than one
    script may carry, leave the store as it was. *)
Theorem redis_appendInventoryLines_atomic now data s :
  indexed (redis_map s) (r_serial s) (r_subject s) (r_seq s) -> 0 <= seq_value s ->
  let '(r, s') := run_prog (redis_appendInventoryLines now data) s in
  match r with
  | Err _ => s' = s
  | Ok _ => exists recs, importable_text data = Ok recs /\ redis_view s' = redis_view s ++ map cr_entry recs /\
      indexed (redis_map s') (r_serial s') (r_subject s') (r_seq s') /\ r_head s' = r_head s
  end.
Proof.
  intros Hi Hc. unfold redis_appendInventoryLines. destruct (importable_text data) as [[|rec recs]|e] eqn:Ei; [| |done].
  { cbn. exists []. by rewrite app_nil_r. }
  destruct (redisImportBatch <? length (rec :: recs))%nat; [done|].
  rewrite run_mbind. cbn [runInvScript request run_prog]. unfold redisAppendLinesLua.
  destruct (base.filter _ (map line_of (rec :: recs))) as [|[[serial subject] json] rest] eqn:Ef; [|done].
  assert (NoDup (map (fun r => ie_Serial (cr_entry r)) (rec :: recs))) as Hd.
  { unfold importable_text in Ei. destruct (parseInventoryRecords data) as [l|]; [|done].
    unfold rejectDuplicateSerials in Ei. destruct (duplicate_after [] l) eqn:E; [done|]. injection Ei as ->.
    by apply (unrepeated _ []). }
  pose proof (lines_indexed (rec :: recs) (r_seq s) s Hi Hc Hd) as Hl.
  unfold seq_value. destruct (hset_lines _ _ s) as [seq s']. cbn [run_prog mret prog_ret].
  destruct Hl as (_ & H2 & H3 & H4).
  { intros r Hr. destruct (r_serial s !! _) as [v|] eqn:Es; [exfalso|done].
    assert (line_of r ∈ base.filter (fun l : string * string * inventoryRecordJSON => is_Some (r_serial s !! l.1.1))
      (map line_of (rec :: recs))) as Hin.
    { apply list_elem_of_filter. split; [by exists v|]. by apply (list_elem_of_fmap_2 line_of). }
    rewrite Ef in Hin. by apply not_elem_of_nil in Hin. }
  exists (rec :: recs). done.
Qed.

(** ** Prunes without an integrity key *)

(** Two prunes that overlap, without a head to guard them: the second plans
    from what it read before the first removed the entry it points the certname
    at.  The callers' lock is what excludes this. *)
Definition race_entry (serial : string) : InventoryEntry := mkEntry serial "a" "b" "node".
Definition race_json (serial : string) : inventoryRecordJSON :=
  encodeInventoryRecord (mkRecord (race_entry serial) no_proj CertStateSigned None).
Definition race_store : Redis :=
  mkRedis (<[1 := race_json "01"]> {[2 := race_json "02"]}) (Some 2) (<["01" := Some 1]> {["02" := Some 2]})
    {["node" := "02"]} None (Some (5, "")) None ∅.
Definition keeping (serial : string) (e : InventoryEntry) : bool := bool_decide (ie_Serial e = serial).
Definition race_script (serial : string) : Redis -> reply * Redis :=
  let plan := planRedisPrune (ordered (r_entries race_store)) (keeping serial) in
  redisPruneLua None 2 (rp_entryFields plan) (rp_serialDrops plan) (rp_subjectSets plan) (rp_subjectDrops plan).

Example unguarded_prunes_race :
  let s1 := (race_script "01" race_store).2 in
  let s2 := (race_script "02" s1).2 in
  (race_script "01" race_store).1 = RedisOK /\ (race_script "02" s1).1 = RedisOK /\
  redis_view s2 = [] /\ r_subject s2 !! "node" = Some "02".
Proof. vm_compute. done. Qed.

(** ** Witnesses *)

Definition redis_empty : Redis := mkRedis ∅ None ∅ ∅ None None None ∅.
Definition redis_demo_record : CertRecord := mkRecord demo_entry no_proj CertStateSigned None.

Lemma redis_empty_wf K : redis_wf K [demo_entry] redis_empty.
Proof.
  assert (redis_map redis_empty = ∅) as E by reflexivity.
  assert (redis_view redis_empty = []) as V by reflexivity.
  split; rewrite ?V; [|done|by intros ? ?%not_elem_of_nil|constructor|done].
  rewrite E. split; [by intros ?? ?%lookup_empty_Some| |done]. intros s.
  change (r_serial redis_empty) with (∅ : gmap string (option Z)). rewrite lookup_empty.
  by intros ?? ?%lookup_empty_Some.
Qed.

(** For one entry the MAC's promise is that of its length. *)
Lemma one_entry_apart k e : tells_apart k [e].
Proof.
  intros l l' Hd Hl Hsub Hch. apply (f_equal String.length) in Hch. rewrite !chain_length in Hch.
  destruct l as [|x [|y l]].
  - by apply sublist_nil_r in Hsub.
  - assert (x = e) as -> by (apply list_elem_of_singleton, Hl; by left).
    destruct l' as [|z l']; [done|]. apply sublist_cons_l in Hsub as (k1 & k2 & E & Hsub).
    destruct k1; [|by destruct k1]. injection E as -> <-. by apply sublist_nil_r in Hsub as ->.
  - exfalso. assert (x = e) as -> by (apply list_elem_of_singleton, Hl; by left).
    assert (y = e) as -> by (apply list_elem_of_singleton, Hl; right; by left).
    apply NoDup_cons in Hd as [Hd _]. apply Hd. by left.
Qed.

Definition redis_demo_append : redis unit :=
  redis_AppendEntry (fun _ => 7) redis_demo_record ((fun k => advance k (cr_entry redis_demo_record)) <$> Some "key").
Definition redis_one : Redis := Eval vm_compute in (run_prog redis_demo_append redis_empty).2.

Lemma redis_replicas_consistent_witness :
  exists ps, rtc (step (redis_call (Some "key") [demo_entry])) (redis_empty, []) (redis_one, ps) /\
  head_body redis_one = chain_from "key" "" [demo_entry].
Proof.
  assert (rtc (step (redis_call (Some "key") [demo_entry])) (redis_empty, []) (redis_one, [Ret (Ok tt)])) as Hrun.
  { eapply rtc_l; [apply (step_start _ _ _ redis_demo_append); constructor; by left|].
    unfold redis_demo_append, redis_AppendEntry, redisMaxRetries. cbn [app redis_append_attempts].
    eapply rtc_l; [eapply (step_serve _ _ _ 0%nat); [reflexivity|apply served_ok]|].
    eapply rtc_l; [eapply (step_serve _ _ _ 0%nat); [reflexivity|apply served_ok]|].
    apply rtc_eq. vm_compute. reflexivity. }
  exists [Ret (Ok tt)]. split; [exact Hrun|].
  destruct (redis_replicas_consistent (Some "key") [demo_entry] redis_empty redis_one _
    (fun k _ => one_entry_apart k demo_entry) (redis_empty_wf _) Hrun) as (H & _).
  exact (H "key" eq_refl).
Defined.

Lemma redis_AppendEntry_refines_witness :
  redis_wf (Some "key") [demo_entry] redis_one /\ redis_view redis_one = [demo_entry].
Proof.
  assert (run_prog redis_demo_append redis_empty = (Ok tt, redis_one)) as E by (vm_compute; reflexivity).
  pose proof (redis_AppendEntry_refines (Some "key") [demo_entry] (fun _ => 7) redis_demo_record redis_empty
    (redis_empty_wf _) ltac:(by left)) as H.
  fold redis_demo_append in H. rewrite E in H. destruct H as [H1 [_ H2]]. split; [exact H1|]. exact H2.
Defined.

Definition legacy_text : string := canonicalInventoryLine demo_entry +:+ nl.
Definition legacy_store : Redis := mkRedis ∅ None ∅ ∅ None (Some (5, legacy_text)) None ∅.
Definition legacy_started : Redis := mkRedis ∅ (Some 0) ∅ ∅ None (Some (5, legacy_text)) None ∅.

Lemma legacy_store_pending : pending legacy_text [redis_demo_record] 5 None None legacy_store.
Proof. split; [reflexivity..|]. exists 0%nat. split; [cbn; lia|]. split; reflexivity. Qed.

(** A replica that stops once it has begun the import, and then a start that
    finishes it. *)
Lemma redis_conversion_resumable_witness :
  exists ps s'', rtc (step (fun p => exists clock, p = redis_EnsureReady clock)) (legacy_store, []) (legacy_started, ps) /\
  run_prog (redis_EnsureReady (fun _ => 9)) legacy_started = (Ok tt, s'') /\ redis_view s'' = [demo_entry].
Proof.
  assert (exists ps, rtc (step (fun p => exists clock, p = redis_EnsureReady clock)) (legacy_store, []) (legacy_started, ps)) as [ps Hrun].
  { eexists. eapply rtc_l; [apply (step_start _ _ _ (redis_EnsureReady (fun _ => 7))); by eexists|].
    do 7 (eapply rtc_l; [eapply (step_serve _ _ _ 0%nat); [reflexivity|apply served_ok]|]).
    apply rtc_eq. f_equal. }
  exists ps.
  destruct (redis_conversion_resumable legacy_text [redis_demo_record] 5 legacy_store legacy_started ps (fun _ => 9)) as
    (s'' & E & V & _).
  - discriminate.
  - vm_compute. reflexivity.
  - exact legacy_store_pending.
  - exact Hrun.
  - exists s''. split; [exact Hrun|]. split; [exact E|]. exact V.
Defined.
