(* ===== verification/Policy.v ===== *)
(** * Names, keys and extensions the CA accepts

    Models the pure policy code of internal/ca: [ValidateSubject],
    [asciiLower], [sanStrings] and [checkSubjectAltNames] of signing.go,
    [validateDNSAltNames] of generate.go, oids.go, authgrant.go,
    reservedsubject.go, and the key rules of keys.go. *)

From stdpp Require Import pretty.
From S2P Require Import Prelude GoStrings GoTime X509 Inventory Storage.
From Stdlib Require Import Ascii.

(** ** Certnames (signing.go) *)

Definition subject_first (c : ascii) : bool :=
  isLower c || isDigit c || (code c =? 95) || (code c =? 46).
Definition subject_rest (c : ascii) : bool := subject_first c || (code c =? 45).

(** [^[a-z0-9_.][a-z0-9._-]*$]. *)
Definition subjectRegex (s : string) : bool :=
  match s with "" => false | String c s => subject_first c && all_bytes subject_rest s end.

Definition ValidateSubject (subject : string) : option error :=
  if bool_decide (subject = ".") then Some (Msg "invalid subject name: path segment")
  else if negb (subjectRegex subject) || Contains subject ".." then Some (Msg "invalid subject name")
  else None.

Definition reservedKeySubject := "ca".
Definition CheckKeySubject (subject : string) : option error :=
  if bool_decide (subject = reservedKeySubject) then Some (Sentinel ErrReservedSubject) else None.

(** ** Subject alternative names (signing.go) *)

Definition asciiLower : string -> string := map_bytes toLowerByte.

Definition sanStrings (s : subjectAltNames) : list string :=
  map (fun d => "DNS:" +:+ asciiLower d) (DNSNames s)
  ++ map (String.append "IP:") (IPAddresses s)
  ++ map (String.append "email:") (EmailAddresses s)
  ++ map (String.append "URI:") (URIs s).

Definition checkSubjectAltNames (allow : bool) (subject : string) (csr : CertificateRequest)
    : option error :=
  if allow then None
  else
    let own := "DNS:" +:+ asciiLower subject in
    let disallowed := base.filter (fun name => name <> own) (sanStrings (csr_sans csr)) in
    if bool_decide (disallowed = []) then None else Some (Sentinel ErrDisallowedSubjectAltNames).

(** ** DNS alternative names of generated certificates (generate.go) *)

Definition maxDNSAltNames : nat := 100.
Definition maxDNSNameLen : nat := 253.

Fixpoint split_dots (cur s : string) : list string :=
  match s with
  | "" => [cur]
  | String c s =>
      if code c =? 46 then cur :: split_dots "" s else split_dots (cur +:+ String c "") s
  end.

Definition dns_alnum (c : ascii) : bool := isLower c || isDigit c.

(** [[a-z0-9]([a-z0-9-]*[a-z0-9])?]. *)
Fixpoint dns_label_rest (s : string) : bool :=
  match s with
  | "" => true
  | String c "" => dns_alnum c
  | String c s => (dns_alnum c || (code c =? 45)) && dns_label_rest s
  end.
Definition dns_label (s : string) : bool :=
  match s with "" => false | String c s => dns_alnum c && dns_label_rest s end.
Definition dnsNameRegex (s : string) : bool := forallb dns_label (split_dots "" s).

Definition validateDNSAltNames (names : list string) : option error :=
  if bool_decide (maxDNSAltNames < length names)%nat then
    Some (Wrap "too many DNS alt names" [Sentinel ErrInvalidDNSAltName])
  else if existsb (fun name => bool_decide (maxDNSNameLen < String.length name)%nat
                          || negb (dnsNameRegex name)) names
  then Some (Wrap "must be a valid hostname" [Sentinel ErrInvalidDNSAltName])
  else None.

(** ** Object identifiers (oids.go) *)

Definition OIDAIA : OID := [1; 3; 6; 1; 5; 5; 7; 1; 1].
Definition PuppetOIDArc : OID := [1; 3; 6; 1; 4; 1; 34380; 1].
Definition PuppetAuthOIDArc : OID := [1; 3; 6; 1; 4; 1; 34380; 1; 3].
Definition OIDPpCliAuth : OID := [1; 3; 6; 1; 4; 1; 34380; 1; 3; 39].

Fixpoint hasPrefix (oid prefix : list Z) : bool :=
  match prefix, oid with
  | [], _ => true
  | v :: prefix, x :: oid => (x =? v) && hasPrefix oid prefix
  | _ :: _, [] => false
  end.
Definition IsPuppetOID (oid : OID) : bool := hasPrefix oid PuppetOIDArc.
Definition IsAuthOID (oid : OID) : bool := hasPrefix oid PuppetAuthOIDArc.

(** [oid.String()]. *)
Definition oid_String (oid : OID) : string := Join "." (map pretty oid).

Definition PuppetShortNames : list (OID * string) :=
  let reg n := PuppetOIDArc ++ [1; n] in
  let auth n := PuppetAuthOIDArc ++ [n] in
  [ (reg 1, "pp_uuid"); (reg 2, "pp_instance_id"); (reg 3, "pp_image_name");
    (reg 4, "pp_preshared_key"); (reg 5, "pp_cost_center"); (reg 6, "pp_product");
    (reg 7, "pp_project"); (reg 8, "pp_application"); (reg 9, "pp_service");
    (reg 10, "pp_employee"); (reg 11, "pp_created_by"); (reg 12, "pp_environment");
    (reg 13, "pp_role"); (reg 14, "pp_software_version"); (reg 15, "pp_department");
    (reg 16, "pp_cluster"); (reg 17, "pp_provisioner"); (reg 18, "pp_region");
    (reg 19, "pp_datacenter"); (reg 20, "pp_zone"); (reg 21, "pp_network");
    (reg 22, "pp_securitypolicy"); (reg 23, "pp_cloudplatform"); (reg 24, "pp_apptier");
    (reg 25, "pp_hostname"); (reg 26, "pp_owner");
    (auth 1, "pp_authorization"); (auth 2, "pp_auth_auto_renew");
    (auth 13, "pp_auth_role"); (auth 39, "pp_cli_auth") ].

Definition OIDKey (oid : OID) : string :=
  match head (base.filter (fun kv => kv.1 = oid) PuppetShortNames) with
  | Some kv => kv.2
  | None => oid_String oid
  end.

(** The string value of an extension, or the hex of its bytes: an [ARaw] value
    carries its bytes in hex, the other decoded shapes never occur under an
    authorisation OID. *)
Definition AuthExtensionMap (exts : list Extension) : gmap string string :=
  fold_left (fun m ext =>
    if IsAuthOID (ext_Id ext) then
      <[OIDKey (ext_Id ext) := match ext_Value ext with AString s => s | ARaw s => s | _ => "" end]> m
    else m) exts ∅.

(** ** Authorisation grants (authgrant.go) *)

Record AuthGrant := mkGrant { ag_oid : OID; ag_value : string }.
Definition PpCliAuth : AuthGrant := mkGrant OIDPpCliAuth "true".

Definition grant_extension (g : AuthGrant) : result Extension :=
  if bool_decide (ag_oid g = []) then Err (Wrap "zero value" [Sentinel ErrInvalidAuthGrant])
  else Ok (Ext (ag_oid g) false (AString (ag_value g))).

Fixpoint authGrantExtensions_from (seen : list OID) (grants : list AuthGrant)
    : result (list Extension) :=
  match grants with
  | [] => Ok []
  | g :: grants =>
      match grant_extension g with
      | Err e => Err e
      | Ok ext =>
          if bool_decide (ext_Id ext ∈ seen)
          then Err (Wrap "requested more than once" [Sentinel ErrInvalidAuthGrant])
          else match authGrantExtensions_from (ext_Id ext :: seen) grants with
               | Ok exts => Ok (ext :: exts)
               | Err e => Err e
               end
      end
  end.
Definition authGrantExtensions : list AuthGrant -> result (list Extension) :=
  authGrantExtensions_from [].

(** ** Keys (keys.go) *)

Record KeyConfig := mkKeyConfig { kc_Algo : string; kc_Size : Z }.
Definition KeyAlgoRSA := "rsa".
Definition KeyAlgoECDSA := "ecdsa".
Definition DefaultLeafKeyConfig := mkKeyConfig KeyAlgoRSA 2048.
Definition DefaultCAKeyConfig := mkKeyConfig KeyAlgoRSA 4096.

Definition key_algo (cfg : KeyConfig) : string :=
  if bool_decide (kc_Algo cfg = "") then KeyAlgoRSA else kc_Algo cfg.

Definition ValidateKeyConfig (cfg : KeyConfig) : option error :=
  let size := kc_Size cfg in
  if bool_decide (key_algo cfg = KeyAlgoRSA) then
    if size =? 0 then None
    else if size <? 2048 then Some (Msg "RSA key size is below the minimum of 2048 bits")
    else if negb (size =? 2048) && negb (size =? 3072) && negb (size =? 4096)
    then Some (Msg "unsupported RSA key size") else None
  else if bool_decide (key_algo cfg = KeyAlgoECDSA) then
    if size =? 0 then None
    else if negb (size =? 256) && negb (size =? 384) && negb (size =? 521)
    then Some (Msg "unsupported ECDSA key size") else None
  else Some (Msg "unsupported key algorithm").

Definition checkCAKeyType (pub : PublicKey) : option error :=
  match pub with
  | RSAKey _ _ | ECDSAKey _ _ => None
  | _ => Some (Wrap "the CA key" [Sentinel ErrCAKeyType])
  end.

Definition validatePublicKey (pub : PublicKey) : option error :=
  match pub with
  | RSAKey bits _ => if bits <? 2048 then Some (Sentinel ErrKeyPolicy) else None
  | ECDSAKey (P256 | P384 | P521) _ => None
  | _ => Some (Sentinel ErrKeyPolicy)
  end.

(** [generateKey]: [id] names the fresh key. *)
Definition generateKey (cfg : KeyConfig) (id : Z) : result PublicKey :=
  match ValidateKeyConfig cfg with
  | Some e => Err e
  | None =>
      if bool_decide (key_algo cfg = KeyAlgoRSA)
      then Ok (RSAKey (if kc_Size cfg =? 0 then 4096 else kc_Size cfg) id)
      else Ok (ECDSAKey (if kc_Size cfg =? 384 then P384
                         else if kc_Size cfg =? 521 then P521 else P256) id)
  end.

(** ** Lemmas *)

Lemma subject_first_code c : subject_first c = true -> subject_rest c = true.
Proof. unfold subject_rest. by intros ->. Qed.

Lemma ValidateSubject_None s :
  ValidateSubject s = None ->
  s <> "" /\ s <> "." /\ all_bytes subject_rest s = true /\ Contains s ".." = false.
Proof.
  unfold ValidateSubject. intros H. case_bool_decide; [done|].
  destruct (negb _ || _) eqn:E; [done|]. bool_hyps.
  destruct s as [|c s]; [done|]. cbn [subjectRegex all_bytes] in *. bool_hyps.
  split; [done|]. split; [done|]. split; [|done].
  apply andb_true_intro. split; [by apply subject_first_code|done].
Qed.

(** The bytes of a certname are letters, digits, dot, dash and underscore. *)
Lemma subject_rest_codes c :
  subject_rest c = true ->
  97 <= code c <= 122 \/ 48 <= code c <= 57 \/ code c = 95 \/ code c = 46 \/ code c = 45.
Proof.
  unfold subject_rest, subject_first, isLower, isDigit, between.
  rewrite !orb_true_iff, !andb_true_iff, !Z.leb_le, !Z.eqb_eq. lia.
Qed.

Lemma no_byte (p : ascii -> bool) s :
  all_bytes subject_rest s = true -> (forall c, subject_rest c = true -> p c = false) ->
  any_byte p s = false.
Proof.
  intros Hs Hp. apply any_byte_false. eapply all_bytes_impl; [|exact Hs].
  intros c Hc. simpl. by rewrite Hp.
Qed.

Lemma eqb_code c d : code c <> code d -> Ascii.eqb c d = false.
Proof. intros H. destruct (Ascii.eqb_spec c d) as [->|]; done. Qed.

Lemma subject_not_special c chars :
  subject_rest c = true ->
  Forall (fun d => code d < 45 \/ code d = 47 \/ 58 <= code d <= 94 \/ 122 < code d) (to_list chars) ->
  any_byte (Ascii.eqb c) chars = false.
Proof.
  intros Hc%subject_rest_codes. induction chars as [|d chars IH]; simpl; [done|].
  intros Hd. inversion Hd; subst. rewrite IH, eqb_code by (done || lia). done.
Qed.

Lemma subject_runes s : all_bytes subject_rest s = true -> forall r, r ∈ runes s -> 32 <= r < 127.
Proof.
  intros Hb r. rewrite runes_ascii.
  - intros (c & -> & Hc)%list_elem_of_fmap. revert Hb. induction s as [|d s IH]; [by apply elem_of_nil in Hc|].
    cbn in *. intros [Hd Hb]%andb_true_iff. apply elem_of_cons in Hc as [->|Hc]; [|by apply IH].
    apply subject_rest_codes in Hd. lia.
  - eapply all_bytes_impl; [|exact Hb]. intros c Hc%subject_rest_codes. apply Z.ltb_lt. lia.
Qed.

Lemma subject_key_name s : ValidateSubject s = None -> validateKeyName s = None.
Proof.
  intros (Hne & _ & Hb & Hdd)%ValidateSubject_None. unfold validateKeyName.
  rewrite bool_decide_eq_false_2, Hdd by done.
  rewrite Contains_char.
  - assert (ValidString s = true) as ->.
    { unfold ValidString. apply forallb_forall. intros r Hr. apply list_elem_of_In, subject_runes in Hr; [|done]. apply Z.leb_le. lia. }
    rewrite (proj2 (existsb_false_elem _ _)); [done|]. intros r Hr%subject_runes; [|done]. unfold isControl.
    destruct (Z.ltb_spec r 32), (Z.leb_spec 127 r); [lia|lia|lia|done].
  - apply no_byte; [done|]. intros c Hc%subject_rest_codes. apply eqb_code. change (code "/") with 47. lia.
Qed.

Lemma subject_plain s : ValidateSubject s = None -> plain_certname s.
Proof.
  intros (Hne & _ & Hb & _)%ValidateSubject_None. split; [done|]. split.
  - unfold nospace. eapply all_bytes_impl; [|exact Hb]. intros c Hc%subject_rest_codes.
    unfold isSpace. apply negb_true_iff, orb_false_intro.
    + apply andb_false_iff. rewrite !Z.leb_gt. lia.
    + apply Z.eqb_neq. lia.
  - unfold ContainsAny. apply no_byte; [done|]. intros c Hc. apply subject_not_special; [done|].
    repeat constructor; vm_compute; intuition congruence.
Qed.

(** A certname the policy accepts is safe everywhere the program puts it:
    both storage keys built from it are valid (no path traversal, separator or
    control character), each gives the certname back and no other certname
    gives the same key, and the certname is a plain inventory field. *)
Theorem ValidateSubject_safe s :
  ValidateSubject s = None ->
  validateKey (CSRKey s) = None /\ validateKey (CertKey s) = None /\
  TrimPrefix (CSRKey s) csrPrefix = s /\ TrimPrefix (CertKey s) certPrefix = s /\
  (forall s', CSRKey s' = CSRKey s \/ CertKey s' = CertKey s -> s' = s) /\
  plain_certname s.
Proof.
  intros H. pose proof (subject_key_name s H) as Hn.
  assert (forall p, TrimPrefix (p +:+ s) p = s) as HT
    by (intros p; unfold TrimPrefix; by rewrite CutPrefix_app).
  split; [|split; [|split; [apply HT|split; [apply HT|split; [|by apply subject_plain]]]]].
  - unfold validateKey, CSRKey. rewrite bool_decide_eq_false_2 by done.
    by rewrite CutPrefix_app, Hn.
  - unfold validateKey, CertKey. rewrite bool_decide_eq_false_2 by done.
    change (CutPrefix (certPrefix +:+ s) csrPrefix) with (@None string).
    by rewrite CutPrefix_app, Hn.
  - intros s' [E|E]; by apply str_app_inj_l in E.
Qed.

Lemma ValidateSubject_safe_witness :
  ValidateSubject "web-01.example.com" = None /\
  validateKey (CertKey "web-01.example.com") = None.
Proof.
  split; [vm_compute; reflexivity|].
  apply (ValidateSubject_safe "web-01.example.com"). vm_compute. reflexivity.
Defined.
