(* ===== verification/Autosign.v ===== *)
(** * The autosign policy

    Models internal/ca/autosign.go and autosignpath.go: which requests are
    signed without an operator.  The decision is a switch, a file of glob
    patterns, or the exit status of a program; the program's path is followed
    through every symbolic link and each entry on the way is judged, so that
    nobody but root and the CA's own user can substitute another program.

    The file system is a map from paths to inodes, read at one moment; an
    entry that is not in it does not exist, and no other error is modelled for
    reading it.  Messages are abbreviated. *)

From S2P Require Import Prelude GoStrings GoTime.

(** ** Glob patterns (Go's path/filepath) *)

Definition RuneError : Z := 65533.
Definition rune_value (r : Z) : Z := if r <? 0 then RuneError else r.

Definition separator : Z := 47.

Inductive token :=
  | TStar
  | TAny
  | TClass (negated : bool) (ranges : list (Z * Z))
  | TLit (r : Z).

(** One end of a range; it must not be the last rune of the pattern. *)
Definition getEsc (l : list Z) : option (Z * list Z) :=
  let end_ l := match l with
                | r :: l => if (r <? 0) || bool_decide (l = []) then None else Some (r, l)
                | [] => None
                end in
  match l with
  | [] => None
  | c :: l' => if (c =? 45) || (c =? 93) then None
               else if c =? 92 then end_ l' else end_ l
  end.

Fixpoint parse_ranges (fuel : nat) (acc : list (Z * Z)) (l : list Z) : option (list (Z * Z) * list Z) :=
  match fuel with
  | O => None
  | S fuel =>
      if bool_decide (head l = Some 93) && negb (bool_decide (acc = [])) then Some (acc, tail l)
      else match getEsc l with
           | None => None
           | Some (lo, l) =>
               if bool_decide (head l = Some 45) then
                 match getEsc (tail l) with
                 | None => None
                 | Some (hi, l) => parse_ranges fuel (acc ++ [(lo, hi)]) l
                 end
               else parse_ranges fuel (acc ++ [(lo, lo)]) l
           end
  end.

(** [None] is [filepath.ErrBadPattern]. *)
Fixpoint parse_glob (fuel : nat) (l : list Z) : option (list token) :=
  match fuel, l with
  | _, [] => Some []
  | O, _ => None
  | S fuel, c :: l =>
      if c =? 42 then cons TStar <$> parse_glob fuel l
      else if c =? 63 then cons TAny <$> parse_glob fuel l
      else if c =? 91 then
        let '(negated, l) := match l with
                             | c :: l' => if c =? 94 then (true, l') else (false, l)
                             | [] => (false, l)
                             end in
        match parse_ranges (S (length l)) [] l with
        | None => None
        | Some (ranges, l) => cons (TClass negated ranges) <$> parse_glob fuel l
        end
      else if c =? 92 then
        match l with
        | [] => None
        | c :: l => cons (TLit c) <$> parse_glob fuel l
        end
      else cons (TLit c) <$> parse_glob fuel l
  end.
Definition glob_of (pattern : string) : option (list token) :=
  let l := runes pattern in parse_glob (length l) l.

Definition in_class (negated : bool) (ranges : list (Z * Z)) (r : Z) : bool :=
  xorb negated (existsb (fun x => (x.1 <=? rune_value r) && (rune_value r <=? x.2)) ranges).

Fixpoint glob_match (p : list token) : list Z -> bool :=
  match p with
  | [] => fun s => bool_decide (s = [])
  | TStar :: p =>
      fix star s :=
        glob_match p s ||
        match s with
        | [] => false
        | c :: s => negb (c =? separator) && star s
        end
  | TAny :: p => fun s => match s with c :: s => negb (c =? separator) && glob_match p s | [] => false end
  | TClass negated ranges :: p =>
      fun s => match s with c :: s => in_class negated ranges c && glob_match p s | [] => false end
  | TLit r :: p => fun s => match s with c :: s => (c =? r) && glob_match p s | [] => false end
  end.

Definition filepath_Match (pattern name : string) : result bool :=
  match glob_of pattern with
  | None => Err (Msg "syntax error in pattern")
  | Some p => Ok (glob_match p (runes name))
  end.

(** ** The file of patterns *)

(** A longer line stops [bufio.Scanner]. *)
Definition MaxScanTokenSize : nat := 65536.

Fixpoint scan_patterns (commonName : string) (lines : list string) : result bool :=
  match lines with
  | [] => Ok false
  | text :: lines =>
      if bool_decide (MaxScanTokenSize <= String.length text)%nat then
        Err (Msg "bufio.Scanner: token too long")
      else
        let line := TrimSpace text in
        if bool_decide (line = "") || HasPrefix line "#" then scan_patterns commonName lines
        else match filepath_Match line commonName with
             | Ok true => Ok true
             | Ok false | Err _ => scan_patterns commonName lines
             end
  end.

(** [file] is what opening the file gives: the text that can be read, and the
    error at which reading it stops, if one does.  The lines before it count. *)
Definition checkAutosignFile (file : result (string * option error)) (commonName : string) : result bool :=
  match file with
  | Err e => if errors_Is e FsErrNotExist then Ok false else Err e
  | Ok (text, readErr) =>
      match scan_patterns commonName (SplitLines text), readErr with
      | Ok false, Some e => Err e
      | r, _ => r
      end
  end.

(** ** The program's path *)

(** An absolute path without "." and "..", as its components from the root. *)
Notation fpath := (list string).

Inductive kind :=
  | Dir
  | Regular (content : string)
  | Symlink (target : string)
  | Special.
#[global] Instance kind_eq_dec : EqDecision kind.
Proof. solve_decision. Defined.

(** [i_roMount]: the directory is the root of a read-only mount.  The owner and
    the number of links are [None] where the platform cannot report them. *)
Record Inode := mkInode {
  i_kind : kind;
  i_perm : Z;
  i_sticky : bool;
  i_owner : option Z;
  i_links : option Z;
  i_roMount : bool }.
#[global] Instance Inode_eq_dec : EqDecision Inode.
Proof. solve_decision. Defined.

Notation FS := (gmap fpath Inode).

Definition Lstat (fs : FS) (p : fpath) : result Inode :=
  match fs !! p with
  | Some i => Ok i
  | None => Err (Wrap "lstat" [Sentinel FsErrNotExist])
  end.

Definition is_dir (i : Inode) : bool := bool_decide (i_kind i = Dir).
Definition is_regular (i : Inode) : bool := match i_kind i with Regular _ => true | _ => false end.

Inductive reason :=
  | OwnerUnknown
  | OwnedBy (owner : Z)
  | GroupAndWorldWritable | GroupWritable | WorldWritable.
Record AutosignPathFinding := mkFinding { f_Path : fpath; f_Mode : Inode; f_Reason : reason }.

Definition writableReason (perm : Z) : option reason :=
  if Z.land perm 18 =? 18 then Some GroupAndWorldWritable
  else if negb (Z.land perm 16 =? 0) then Some GroupWritable
  else if negb (Z.land perm 2 =? 0) then Some WorldWritable
  else None.

Definition kubeletVolumeRoot (fs : FS) (dir : fpath) : bool :=
  match fs !! dir, fs !! (dir ++ ["..data"]) with
  | Some i, Some d =>
      i_roMount i &&
      match i_kind d with Symlink _ => true | _ => false end &&
      bool_decide (i_links d = Some 1) &&
      bool_decide (i_owner d = Some 0)
  | _, _ => false
  end.

Fixpoint split_path (cur s : string) : list string :=
  match s with
  | "" => [cur]
  | String c s => if code c =? separator then cur :: split_path "" s
                  else split_path (cur +:+ String c "") s
  end.
Definition splitAutosignPath (p : string) : list string :=
  base.filter (fun part => part <> "") (split_path "" p).

Definition IsAbs (p : string) : bool := HasPrefix p "/".
Definition maxAutosignSymlinks : nat := 40.

Section Resolve.
Context (fs : FS) (uid : Z).

Definition judgeOwner (p : fpath) (i : Inode) : list AutosignPathFinding :=
  match i_owner i with
  | None => [mkFinding p i OwnerUnknown]
  | Some owner => if negb (owner =? 0) && negb (owner =? uid) then [mkFinding p i (OwnedBy owner)] else []
  end.

Definition judgeWritable (p : fpath) (i : Inode) : list AutosignPathFinding :=
  match writableReason (i_perm i) with
  | None => []
  | Some reason => if is_dir i && (i_sticky i || kubeletVolumeRoot fs p) then [] else [mkFinding p i reason]
  end.

(** The walk from [current], [links] more symbolic links allowed; what has been
    found so far is returned on the error paths too. *)
Fixpoint walk (links : nat) : list string -> fpath -> list AutosignPathFinding ->
    result fpath * list AutosignPathFinding :=
  fix go pending current findings :=
    match pending with
    | [] =>
        match Lstat fs current with
        | Err e => (Err e, findings)
        | Ok i => if is_regular i then (Ok current, findings)
                  else (Err (Msg "does not resolve to a regular file"), findings)
        end
    | name :: pending =>
        if bool_decide (name = ".") then go pending current findings
        else if bool_decide (name = "..") then go pending (removelast current) findings
        else
          let next := current ++ [name] in
          match Lstat fs next with
          | Err e => (Err e, findings)
          | Ok i =>
              match i_kind i with
              | Symlink target =>
                  match links with
                  | O => (Err (Msg "too many symlinks"), findings)
                  | S links =>
                      walk links (splitAutosignPath target ++ pending)
                        (if IsAbs target then [] else current) (findings ++ judgeOwner next i)
                  end
              | Dir => go pending next (findings ++ judgeOwner next i ++ judgeWritable next i)
              | Regular _ =>
                  match pending with
                  | [] => go pending next (findings ++ judgeOwner next i ++ judgeWritable next i)
                  | _ :: _ => (Err (Msg "not a directory"), findings)
                  end
              | Special => (Err (Msg "not a regular file, directory or symlink"), findings)
              end
          end
    end.

(** [wd] is the working directory. *)
Definition ResolveAutosignExecutable (wd : result string) (path : string)
    : result fpath * list AutosignPathFinding :=
  if bool_decide (path = "") then (Err (Msg "no autosign executable configured"), [])
  else
    match (if IsAbs path then Ok path
           else match wd with Ok wd => Ok (wd +:+ "/" +:+ path) | Err e => Err e end) with
    | Err e => (Err e, [])
    | Ok abs =>
        match Lstat fs [] with
        | Err e => (Err e, [])
        | Ok i => walk maxAutosignSymlinks (splitAutosignPath abs) [] (judgeOwner [] i ++ judgeWritable [] i)
        end
    end.
End Resolve.

(** ** The program and the decision *)

Record AutosignConfig := mkAutosign {
  Mode : string;
  FileOrPath : string;
  AllowUnsafePath : bool }.

(** How a run of a program ends. *)
Inductive exec_outcome :=
  | Exited (status : Z)
  | TimedOut
  | NotFound
  | ExecFailed.

(** What the system answers during one attempt: the file system while the path
    is judged, and the outcome of executing a path with a certname and a
    request. *)
Record Attempt := mkAttempt {
  at_fs : FS;
  at_wd : result string;
  at_run : fpath -> string -> string -> exec_outcome }.

Section Check.
Context (uid : Z) (cfg : AutosignConfig).

Definition judgeAutosignExecutable (a : Attempt) : result fpath :=
  match ResolveAutosignExecutable (at_fs a) uid (at_wd a) (FileOrPath cfg) with
  | (Err e, _) => Err (Wrap "autosign executable" [e])
  | (Ok resolved, findings) =>
      match findings with
      | _ :: _ => if AllowUnsafePath cfg then Ok resolved else Err (Msg "refusing to run autosign executable")
      | [] => Ok resolved
      end
  end.

Definition runAutosignExecutable (a : Attempt) (resolved : fpath) (commonName csrPEM : string) : result bool :=
  match at_run a resolved commonName csrPEM with
  | Exited status => Ok (status =? 0)
  | TimedOut => Err (Msg "autosign executable timed out")
  | NotFound => Err (Wrap "running autosign executable" [Sentinel FsErrNotExist])
  | ExecFailed => Err (Msg "running autosign executable")
  end.

(** A program that vanished between the two is resolved once more. *)
Definition checkAutosignExecutable (first second : Attempt) (commonName csrPEM : string) : result bool :=
  match judgeAutosignExecutable first with
  | Err e => Err e
  | Ok resolved =>
      let verdict := runAutosignExecutable first resolved commonName csrPEM in
      if match verdict with Err e => errors_Is e FsErrNotExist | Ok _ => false end then
        match judgeAutosignExecutable second with
        | Err e => Err e
        | Ok resolved => runAutosignExecutable second resolved commonName csrPEM
        end
      else verdict
  end.

Definition CheckAutosign (file : result (string * option error)) (first second : Attempt) (commonName csrPEM : string)
    : result bool :=
  if bool_decide (Mode cfg = "true") then Ok true
  else if bool_decide (Mode cfg = "file") then checkAutosignFile file commonName
  else if bool_decide (Mode cfg = "executable") then checkAutosignExecutable first second commonName csrPEM
  else Ok false.
End Check.

(** ** Lemmas: patterns *)

Definition literal (p : list Z) : list token := map TLit p.

Lemma glob_literal p s : glob_match (literal p) s = true <-> s = p.
Proof.
  revert s. induction p as [|c p IH]; intros s; cbn; [by rewrite bool_decide_eq_true|].
  destruct s as [|d s]; [done|]. rewrite andb_true_iff, Z.eqb_eq, IH. naive_solver.
Qed.

(** A star stands for any run of characters but the separator. *)
Lemma glob_star p s :
  glob_match (TStar :: p) s = true <->
  exists a b, s = a ++ b /\ separator ∉ a /\ glob_match p b = true.
Proof.
  split.
  - induction s as [|c s IH]; cbn; rewrite orb_true_iff.
    + intros [H|?]; [|done]. exists [], []. split; [done|]. split; [apply not_elem_of_nil|done].
    + rewrite andb_true_iff, negb_true_iff, Z.eqb_neq. intros [H|[Hc H]].
      * exists [], (c :: s). split; [done|]. split; [apply not_elem_of_nil|done].
      * destruct (IH H) as (a & b & -> & Ha & Hb). exists (c :: a), b. split; [done|]. split; [|done].
        rewrite elem_of_cons. naive_solver.
  - intros (a & b & -> & Ha & Hb). induction a as [|c a IH]; cbn.
    + destruct b; cbn; by rewrite Hb.
    + rewrite elem_of_cons in Ha. apply orb_true_iff. right.
      rewrite andb_true_iff, negb_true_iff, Z.eqb_neq. split; [naive_solver|]. apply IH. naive_solver.
Qed.

(** The usual entry, a star and a domain, admits exactly the names of the
    domain. *)
Lemma glob_domain p s :
  glob_match (TStar :: literal p) s = true <-> exists a, s = a ++ p /\ separator ∉ a.
Proof.
  rewrite glob_star. split.
  - intros (a & b & -> & Ha & ->%glob_literal). by exists a.
  - intros (a & -> & Ha). exists a, p. split; [done|]. split; [done|]. by apply glob_literal.
Qed.

Lemma scan_patterns_true cn lines :
  scan_patterns cn lines = Ok true ->
  exists text p, text ∈ lines /\ HasPrefix (TrimSpace text) "#" = false /\
    glob_of (TrimSpace text) = Some p /\ glob_match p (runes cn) = true.
Proof.
  induction lines as [|text lines IH]; cbn [scan_patterns]; [done|]. case_bool_decide; [done|].
  assert (scan_patterns cn lines = Ok true ->
    exists text0 p, text0 ∈ text :: lines /\ HasPrefix (TrimSpace text0) "#" = false /\
    glob_of (TrimSpace text0) = Some p /\ glob_match p (runes cn) = true) as Hrest.
  { intros (text0 & p & Hin & H1)%IH. exists text0, p. split; [by right|done]. }
  destruct (bool_decide (TrimSpace text = "") || HasPrefix (TrimSpace text) "#") eqn:E; [done|].
  apply orb_false_iff in E as [_ E]. unfold filepath_Match.
  destruct (glob_of (TrimSpace text)) as [p|] eqn:Ep; [|done].
  destruct (glob_match p (runes cn)) eqn:Em; [|done]. intros _. exists text, p. split; [by left|done].
Qed.

(** ** What third parties can do

    A third party is any user but root and [uid], in any groups.  It may change
    a node it owns, write a file whose mode lets it, and put anything in place
    of an entry of a directory whose mode lets it: of a sticky directory it
    does not own, only an entry that is missing or that a third party owns.
    Nobody but root writes a volume the kubelet manages. *)

Section Meddle.
Context (uid : Z).

Definition trusted (i : Inode) : Prop := i_owner i = Some 0 \/ i_owner i = Some uid.
Definition writable (i : Inode) : Prop := Z.land (i_perm i) 18 <> 0.

Inductive meddle : relation FS :=
  | meddle_node fs p i i' :
      fs !! p = Some i ->
      ~ trusted i \/ (is_regular i = true /\ writable i) ->
      meddle fs (<[p := i']> fs)
  | meddle_entry fs fs' d i name :
      fs !! d = Some i -> is_dir i = true ->
      ~ trusted i \/
      (writable i /\ kubeletVolumeRoot fs d = false /\
       (i_sticky i = true -> forall j, fs !! (d ++ [name]) = Some j -> ~ trusted j)) ->
      (forall p, ~ (d ++ [name]) `prefix_of` p -> fs' !! p = fs !! p) ->
      meddle fs fs'.

(** A node nobody but root and [uid] can change or replace. *)
Definition safe_node (fs : FS) (p : fpath) : Prop :=
  exists i, fs !! p = Some i /\ trusted i /\
    match i_kind i with
    | Dir => writable i -> i_sticky i = true \/ kubeletVolumeRoot fs p = true
    | Regular _ | Special => ~ writable i
    | Symlink _ => True
    end.

(** ... nor any directory above it. *)
Definition solid (fs : FS) (p : fpath) : Prop := forall q, q `prefix_of` p -> safe_node fs q.

Lemma prefix_snoc (q p : fpath) x : q `prefix_of` p ++ [x] <-> q `prefix_of` p \/ q = p ++ [x].
Proof.
  split.
  - intros [k E]. destruct k as [|y k _] using rev_ind.
    + right. by rewrite app_nil_r in E.
    + left. rewrite app_assoc in E. apply app_inj_tail in E as [-> _]. by exists k.
  - intros [H| ->]; [by apply prefix_app_r|done].
Qed.

Lemma solid_snoc fs p x : solid fs p -> safe_node fs (p ++ [x]) -> solid fs (p ++ [x]).
Proof. intros Hp Hx q [?| ->]%prefix_snoc; [by apply Hp|done]. Qed.

Lemma solid_prefix fs p q : q `prefix_of` p -> solid fs p -> solid fs q.
Proof. intros Hq Hp r Hr. apply Hp. by etrans. Qed.

Lemma kubelet_data fs d :
  kubeletVolumeRoot fs d = true ->
  exists i t, fs !! (d ++ ["..data"]) = Some i /\ i_owner i = Some 0 /\ i_kind i = Symlink t.
Proof.
  unfold kubeletVolumeRoot. destruct (fs !! d) as [r|]; [|done]. destruct (fs !! (d ++ _)) as [i|]; [|done].
  rewrite !andb_true_iff, !bool_decide_eq_true. intros (((_ & Hk) & _) & Ho).
  destruct (i_kind i) as [| |t|] eqn:E; try done. by exists i, t.
Qed.

(** No entry of a safe directory that is itself owned by root or [uid] can be
    replaced. *)
Lemma entry_protected fs d name :
  safe_node fs d -> (forall j, fs !! (d ++ [name]) = Some j -> trusted j) -> is_Some (fs !! (d ++ [name])) ->
  ~ exists i, fs !! d = Some i /\ is_dir i = true /\
     (~ trusted i \/ (writable i /\ kubeletVolumeRoot fs d = false /\
        (i_sticky i = true -> forall j, fs !! (d ++ [name]) = Some j -> ~ trusted j))).
Proof.
  intros (i & Hi & Ht & Hk) Htr [j Hj] (i' & Hi' & Hd & H). assert (i' = i) as -> by congruence.
  destruct H as [?|(Hw & Hkub & Hst)]; [done|]. unfold is_dir in Hd. apply bool_decide_eq_true_1 in Hd.
  rewrite Hd in Hk. destruct (Hk Hw) as [Hs|]; [|congruence]. destruct (Hst Hs j Hj). by apply Htr.
Qed.

Lemma meddle_lookup fs fs' p : meddle fs fs' -> solid fs p -> fs' !! p = fs !! p.
Proof.
  intros Hm Hp. destruct Hm as [fs q i i' Hq Hbad|fs fs' d i name Hd Hdir Hbad Hsame].
  - destruct (decide (p = q)) as [->|Hne]; [exfalso|by rewrite lookup_insert_ne].
    destruct (Hp q) as (j & Hj & Ht & Hk); [done|]. assert (j = i) as -> by congruence.
    destruct Hbad as [?|[Hr Hw]]; [done|]. unfold is_regular in Hr. destruct (i_kind i); done.
  - destruct (decide ((d ++ [name]) `prefix_of` p)) as [Hpre|]; [exfalso|by apply Hsame].
    assert (safe_node fs (d ++ [name])) as (j & Hj & Ht & _) by (by apply Hp).
    eapply (entry_protected fs d name); [|intros; by simplify_eq|done|by exists i].
    apply Hp. etrans; [|exact Hpre]. by apply prefix_app_r.
Qed.

Lemma meddle_kubelet fs fs' d :
  meddle fs fs' -> solid fs d -> kubeletVolumeRoot fs d = true -> kubeletVolumeRoot fs' d = true.
Proof.
  intros Hm Hd Hk. destruct (kubelet_data _ _ Hk) as (i & t & Hi & Ho & Hki).
  assert (fs' !! (d ++ ["..data"]) = fs !! (d ++ ["..data"])) as E.
  { destruct Hm as [fs q j j' Hq Hbad|fs fs' e j name He Hdir Hbad Hsame].
    - rewrite lookup_insert_ne; [done|]. intros ->. assert (j = i) as -> by congruence.
      destruct Hbad as [Hn|[Hr _]]; [apply Hn; by left|]. unfold is_regular in Hr. by rewrite Hki in Hr.
    - destruct (decide ((e ++ [name]) `prefix_of` d ++ ["..data"])) as [Hpre|]; [exfalso|by apply Hsame].
      apply prefix_snoc in Hpre as [Hpre|[-> ->]%app_inj_tail].
      + assert (safe_node fs (e ++ [name])) as (x & Hx & Ht & _) by (by apply Hd).
        eapply (entry_protected fs e name); [|intros; by simplify_eq|done|by exists j].
        apply Hd. etrans; [|exact Hpre]. by apply prefix_app_r.
      + destruct (Hd d) as (x & Hx & Ht & _); [done|]. assert (x = j) as -> by congruence.
        destruct Hbad as [?|(_ & ? & _)]; [done|congruence]. }
  unfold kubeletVolumeRoot in *. by rewrite E, (meddle_lookup fs fs' d Hm Hd).
Qed.

Lemma meddle_solid fs fs' p : meddle fs fs' -> solid fs p -> solid fs' p.
Proof.
  intros Hm Hp q Hq. pose proof (solid_prefix _ _ _ Hq Hp) as Hsq.
  destruct (Hp q Hq) as (i & Hi & Ht & Hk). exists i. rewrite (meddle_lookup fs fs' q) by done.
  split; [done|]. split; [done|]. destruct (i_kind i); try done.
  intros Hw. destruct (Hk Hw); [by left|]. right. by eapply meddle_kubelet.
Qed.

Lemma meddles_keep fs fs' p : rtc meddle fs fs' -> solid fs p -> fs' !! p = fs !! p /\ solid fs' p.
Proof.
  induction 1 as [|fs fs1 fs' Hm _ IH]; intros Hp; [done|].
  destruct (IH (meddle_solid _ _ _ Hm Hp)) as [-> ?]. split; [by eapply meddle_lookup|done].
Qed.
End Meddle.

(** ** The walk *)

Section Walk.
Context (fs : FS) (uid : Z).

Lemma walk_unfold links pending current findings :
  walk fs uid links pending current findings =
  match pending with
  | [] =>
      match Lstat fs current with
      | Err e => (Err e, findings)
      | Ok i => if is_regular i then (Ok current, findings)
                else (Err (Msg "does not resolve to a regular file"), findings)
      end
  | name :: pending =>
      if bool_decide (name = ".") then walk fs uid links pending current findings
      else if bool_decide (name = "..") then walk fs uid links pending (removelast current) findings
      else
        match Lstat fs (current ++ [name]) with
        | Err e => (Err e, findings)
        | Ok i =>
            match i_kind i with
            | Symlink target =>
                match links with
                | O => (Err (Msg "too many symlinks"), findings)
                | S links =>
                    walk fs uid links (splitAutosignPath target ++ pending)
                      (if IsAbs target then [] else current) (findings ++ judgeOwner uid (current ++ [name]) i)
                end
            | Dir => walk fs uid links pending (current ++ [name])
                       (findings ++ judgeOwner uid (current ++ [name]) i ++ judgeWritable fs (current ++ [name]) i)
            | Regular _ =>
                match pending with
                | [] => walk fs uid links pending (current ++ [name])
                          (findings ++ judgeOwner uid (current ++ [name]) i ++ judgeWritable fs (current ++ [name]) i)
                | _ :: _ => (Err (Msg "not a directory"), findings)
                end
            | Special => (Err (Msg "not a regular file, directory or symlink"), findings)
            end
        end
  end.
Proof. by destruct links, pending. Qed.

Lemma judgeOwner_nil p i : judgeOwner uid p i = [] <-> trusted uid i.
Proof.
  unfold judgeOwner, trusted. destruct (i_owner i) as [o|]; [|by split; [|intros [|]]].
  destruct (Z.eqb_spec o 0), (Z.eqb_spec o uid); cbn; naive_solver.
Qed.

Lemma writableReason_None perm : writableReason perm = None <-> Z.land perm 18 = 0.
Proof.
  assert (Z.land perm 18 = Z.lor (Z.land perm 16) (Z.land perm 2)) as E by (by rewrite <- Z.land_lor_distr_r).
  unfold writableReason. destruct (Z.eqb_spec (Z.land perm 18) 18) as [H|H]; [split; [done|lia]|].
  destruct (Z.eqb_spec (Z.land perm 16) 0) as [H1|H1]; cbn [negb].
  - destruct (Z.eqb_spec (Z.land perm 2) 0) as [H2|H2]; cbn [negb]; split; try done; rewrite E, H1, ?H2; [done|].
    rewrite Z.lor_0_l. done.
  - split; [done|]. rewrite E. intros [? _]%Z.lor_eq_0_iff. done.
Qed.

Lemma judged_safe p i :
  fs !! p = Some i ->
  judgeOwner uid p i = [] ->
  match i_kind i with Symlink _ => True | _ => judgeWritable fs p i = [] end ->
  safe_node uid fs p.
Proof.
  intros Hi Ho%judgeOwner_nil Hw. exists i. split; [done|]. split; [done|].
  unfold judgeWritable, is_dir in Hw. pose proof (writableReason_None (i_perm i)) as Hn.
  destruct (i_kind i) eqn:Ek; try done; unfold writable; destruct (writableReason (i_perm i)); try done.
  - rewrite bool_decide_eq_true_2 in Hw by done. cbn [andb] in Hw. intros _.
    destruct (i_sticky i); [by left|]. destruct (kubeletVolumeRoot fs p); [by right|done].
  - by rewrite (proj1 Hn eq_refl).
  - intros H. by apply H, Hn.
  - intros H. by apply H, Hn.
Qed.

Lemma safe_judged p i :
  safe_node uid fs p -> fs !! p = Some i ->
  judgeOwner uid p i = [] /\ match i_kind i with Symlink _ => True | _ => judgeWritable fs p i = [] end.
Proof.
  intros (j & Hj & Ht & Hk) Hi. assert (j = i) as -> by congruence. split; [by apply judgeOwner_nil|].
  unfold judgeWritable, is_dir. pose proof (writableReason_None (i_perm i)) as Hn. unfold writable in Hk.
  destruct (i_kind i) eqn:Ek; try done; destruct (writableReason (i_perm i)); try done.
  - rewrite bool_decide_eq_true_2 by done. destruct Hk as [->| ->]; [|done|by rewrite orb_true_r].
    intros H. by apply Hn in H.
  - destruct Hk. intros H. by apply Hn in H.
  - destruct Hk. intros H. by apply Hn in H.
Qed.

(** Nothing found is ever forgotten. *)
Lemma walk_findings links : forall pending current findings,
  (walk fs uid links pending current findings).2 = [] -> findings = [].
Proof.
  induction links as [|links IHl]; intros pending; induction pending as [|name pending IHp];
    intros current findings; rewrite walk_unfold; unfold Lstat; repeat case_match; cbn [snd]; try done;
    intros Hw; first [apply IHp in Hw|apply IHl in Hw]; try done; by apply app_nil in Hw as [? _].
Qed.

(** A step taken without a finding leads to a safe node. *)
Lemma step_safe links name pending current i r :
  fs !! (current ++ [name]) = Some i -> name <> "." -> name <> ".." ->
  walk fs uid links (name :: pending) current [] = (Ok r, []) -> safe_node uid fs (current ++ [name]).
Proof.
  intros Hi H1 H2. rewrite walk_unfold, !bool_decide_eq_false_2 by done. unfold Lstat. rewrite Hi. cbn [app].
  intros Hw. assert (judgeOwner uid (current ++ [name]) i = [] /\
    match i_kind i with Symlink _ => True | _ => judgeWritable fs (current ++ [name]) i = [] end) as [Ho Hk].
  { destruct (i_kind i) as [|c|t|]; [| | |done].
    - by apply app_nil, (walk_findings links pending (current ++ [name])); rewrite Hw.
    - destruct pending; [|done]. by apply app_nil, (walk_findings links [] (current ++ [name])); rewrite Hw.
    - destruct links as [|links]; [done|]. split; [|done].
      eapply (walk_findings links). by rewrite Hw. }
  by eapply judged_safe.
Qed.
End Walk.

Lemma removelast_prefix (p : fpath) : removelast p `prefix_of` p.
Proof.
  destruct p as [|x p _] using rev_ind; [done|]. rewrite removelast_last. by apply prefix_app_r.
Qed.

Lemma walk_stable uid fs fs' :
  (forall p, solid uid fs p -> fs' !! p = fs !! p /\ solid uid fs' p) ->
  forall links pending current r, solid uid fs current ->
  walk fs uid links pending current [] = (Ok r, []) ->
  walk fs' uid links pending current [] = (Ok r, []) /\ solid uid fs r.
Proof.
  intros Hagree. induction links as [|links IHl]; intros pending; induction pending as [|name pending IHp];
    intros current r Hc Hw0; pose proof Hw0 as Hw; rewrite walk_unfold in Hw; rewrite (walk_unfold fs').
  1,3: unfold Lstat in *; rewrite (proj1 (Hagree current Hc)); destruct (fs !! current) as [i|]; [|done];
    destruct (is_regular i); [by injection Hw as <-|done].
  all: case_bool_decide; [by apply IHp|]; case_bool_decide;
    [apply IHp; [|done]; apply (solid_prefix uid fs current); [apply removelast_prefix|done]|].
  all: unfold Lstat in *; destruct (fs !! (current ++ [name])) as [i|] eqn:Ei; [|done].
  all: assert (safe_node uid fs (current ++ [name])) as Hsafe by (by eapply step_safe).
  all: pose proof (solid_snoc _ _ _ _ Hc Hsafe) as Hnext; destruct (Hagree _ Hnext) as [E Hs']; rewrite E, Ei.
  all: destruct (safe_judged fs uid _ i Hsafe Ei) as [J1 J2]; rewrite J1 in *.
  all: destruct (safe_judged fs' uid (current ++ [name]) i) as [_ J2']; [by apply Hs'|congruence|].
  all: cbn [app] in *; destruct (i_kind i) as [|c|target|]; rewrite ?J2, ?J2' in *; try done; try (by apply IHp).
  1,2: destruct pending; [by apply IHp|done].
  apply IHl; [|done]. destruct (IsAbs target); [|done]. by apply (solid_prefix uid fs current); [apply prefix_nil|].
Qed.

Lemma resolve_stable uid fs fs' wd path r :
  ResolveAutosignExecutable fs uid wd path = (Ok r, []) -> rtc (meddle uid) fs fs' ->
  ResolveAutosignExecutable fs' uid wd path = (Ok r, []) /\ fs' !! r = fs !! r.
Proof.
  unfold ResolveAutosignExecutable. case_bool_decide; [done|].
  destruct (if IsAbs path then _ else _) as [abs|]; [|done]. unfold Lstat.
  destruct (fs !! []) as [i|] eqn:Ei; [|done]. intros Hw Hm.
  assert (judgeOwner uid [] i ++ judgeWritable fs [] i = []) as Hj by (eapply walk_findings; by rewrite Hw).
  pose proof (proj1 (app_nil _ _) Hj) as [Ho Hwr]. rewrite Hj in Hw.
  assert (solid uid fs []) as Hs.
  { intros q ->%prefix_nil_inv. eapply judged_safe; [done..|]. by destruct (i_kind i). }
  destruct (meddles_keep uid fs fs' [] Hm Hs) as [-> Hs']. rewrite Ei.
  assert (judgeOwner uid [] i ++ judgeWritable fs' [] i = []) as ->.
  { rewrite Ho. cbn [app]. destruct (i_kind i) eqn:Ek.
    all: try (destruct (safe_judged fs' uid [] i) as [_ H']; [by apply Hs'| |by rewrite Ek in H']; by rewrite (proj1 (meddles_keep uid fs fs' [] Hm Hs))).
    unfold judgeWritable, is_dir in *. by rewrite Ek in *. }
  destruct (walk_stable uid fs fs') with (2 := Hs) (3 := Hw) as [-> Hr].
  - intros p Hp. by apply meddles_keep.
  - split; [done|]. by apply (meddles_keep uid).
Qed.

(** ** Theorems *)

(** When the path of the autosign program is found to be safe, it stays
    so: whatever users other than root and the CA's own do to the file system
    afterwards, within the permissions, the configured path still resolves to
    the same file without a finding, and that file is the one judged. *)
Theorem autosign_path_stable uid fs fs' wd path resolved :
  ResolveAutosignExecutable fs uid wd path = (Ok resolved, []) -> rtc (meddle uid) fs fs' ->
  ResolveAutosignExecutable fs' uid wd path = (Ok resolved, []) /\
  fs' !! resolved = fs !! resolved.
Proof. apply resolve_stable. Qed.


(** ** Witnesses *)

(** A script under the sticky /tmp, reached through a symbolic link of root. *)
Definition demo_fs : FS :=
  list_to_map [
    ([], mkInode Dir 493 false (Some 0) (Some 20) false);
    (["etc"], mkInode Dir 493 false (Some 0) (Some 9) false);
    (["etc"; "autosign"], mkInode (Symlink "/tmp/./policy") 511 false (Some 0) (Some 1) false);
    (["tmp"], mkInode Dir 511 true (Some 0) (Some 9) false);
    (["tmp"; "policy"], mkInode (Regular "exit 0") 493 false (Some 52) (Some 1) false)].

(** A third party adds a file to /tmp. *)
Definition demo_fs' : FS :=
  <[["tmp"; "evil"] := mkInode (Regular "evil") 511 false (Some 1000) (Some 1) false]> demo_fs.

Lemma demo_meddle : rtc (meddle 52) demo_fs demo_fs'.
Proof.
  apply rtc_once.
  apply (meddle_entry 52 demo_fs demo_fs' ["tmp"] (mkInode Dir 511 true (Some 0) (Some 9) false) "evil");
    [reflexivity|reflexivity| |].
  - right. split; [intros H; vm_compute in H; discriminate|]. split; [reflexivity|]. intros _ j Hj. discriminate.
  - intros p Hp. unfold demo_fs'. rewrite lookup_insert_ne; [done|]. intros <-. by apply Hp.
Qed.

Definition demo_cfg : AutosignConfig := mkAutosign "executable" "/etc/autosign" false.
Definition demo_attempt : Attempt := mkAttempt demo_fs (Ok "/") (fun _ _ _ => Exited 0).

Lemma autosign_path_stable_witness :
  ResolveAutosignExecutable demo_fs' 52 (Ok "/") "/etc/autosign" = (Ok ["tmp"; "policy"], []) /\
  demo_fs' !! ["tmp"; "policy"] = demo_fs !! ["tmp"; "policy"].
Proof.
  apply (autosign_path_stable 52 demo_fs demo_fs' (Ok "/") "/etc/autosign"); [|exact demo_meddle].
  vm_compute. reflexivity.
Defined.

