(* ===== verification/CAState.v ===== *)
(** * The CA object and the world it runs in

    Models the [CA] struct of internal/ca/ca.go: its configuration, the loaded
    certificate and key, the in-memory CRL, the serial index and OCSP cache
    with their epochs, and the counters.  A [World] is one replica: its CA
    object, the storage service it talks to, and the scripts of outside events
    (reads of the CRL chain file, autosign decisions).

    A method of [*CA] is an action of the monad [MW].  The mutex [c.mu] is not
    represented: a locked section is an uninterrupted action.  Methods that
    release it midway (OCSP answers, the serial index refresh) are modelled as
    separate actions, one per locked section. *)

From S2P Require Import Prelude GoStrings GoTime X509 Inventory Storage Policy.

(** ** Configuration *)

Record Config := mkConfig {
  LeafValidityDays : Z;
  CRLValidityDays : Z;
  LeafBackdate : Duration;
  SupersedeAfter : Duration;
  PromoteCNToSAN : bool;
  AllowSubjectAltNames : bool;
  AllowDuplicateCerts : bool;
  RevokeOnAutoRenew : bool;
  OCSPURLs : list string;
  CRLURLs : list string;
  CRLChainFile : string;
  LeafKeyConfig : KeyConfig }.

(** [New]: the defaults a CA starts from. *)
Definition default_config : Config :=
  mkConfig 0 0 0 0 true false false true [] [] "" (mkKeyConfig "" 0).

(** ** OCSP cache *)

Inductive hash := SHA1 | SHA256 | SHA384 | SHA512 | HashOther (n : Z).
#[global] Instance hash_eq_dec : EqDecision hash.
Proof. solve_decision. Defined.
#[global] Instance hash_countable : Countable hash.
Proof.
  refine (inj_countable'
    (fun h => match h with SHA1 => (0, 0) | SHA256 => (1, 0) | SHA384 => (2, 0)
            | SHA512 => (3, 0) | HashOther n => (4, n) end)
    (fun p => match p with (0, _) => SHA1 | (1, _) => SHA256 | (2, _) => SHA384
            | (3, _) => SHA512 | (_, n) => HashOther n end) _).
  by intros [].
Defined.

Definition ocspCacheHashes : list hash := [SHA1; SHA256; SHA384; SHA512].
Definition ocspCacheableHash (h : hash) : bool := bool_decide (h ∈ ocspCacheHashes).

Inductive OCSPStatus := Good | Revoked | Unknown.
#[global] Instance OCSPStatus_eq_dec : EqDecision OCSPStatus.
Proof. solve_decision. Defined.

(** A signed OCSP response, by the fields of its template. *)
Record OCSPResponse := mkOCSP {
  o_SerialNumber : Z;
  o_Status : OCSPStatus;
  o_RevokedAt : Time;
  o_ThisUpdate : Time;
  o_NextUpdate : option Time;
  o_IssuerHash : hash;
  o_Nonce : option string;
  o_SignedBy : PublicKey }.

Record ocspCacheEntry := mkOCSPEntry { oc_der : OCSPResponse; oc_expiresAt : Time }.

(** ** The CA struct *)

Record CA := mkCA {
  cfg : Config;
  CACert : option Certificate;
  CAKey : option PublicKey;
  cachedCRL : option RevocationList;
  serialIndex : gmap string string;
  ocspCache : gmap (string * hash) ocspCacheEntry;
  serialIndexEpoch : Z;
  serialIndexRemovalEpoch : Z;
  counters : gmap string Z;
  crlNotify : bool;
  crlChainLastRead : Time }.

Definition set_CA (cert : option Certificate) (key : option PublicKey) (c : CA) : CA :=
  mkCA (cfg c) cert key (cachedCRL c) (serialIndex c) (ocspCache c) (serialIndexEpoch c)
    (serialIndexRemovalEpoch c) (counters c) (crlNotify c) (crlChainLastRead c).
Definition set_cachedCRL (x : option RevocationList) (c : CA) : CA :=
  mkCA (cfg c) (CACert c) (CAKey c) x (serialIndex c) (ocspCache c) (serialIndexEpoch c)
    (serialIndexRemovalEpoch c) (counters c) (crlNotify c) (crlChainLastRead c).
Definition set_serialIndex (x : gmap string string) (c : CA) : CA :=
  mkCA (cfg c) (CACert c) (CAKey c) (cachedCRL c) x (ocspCache c) (serialIndexEpoch c)
    (serialIndexRemovalEpoch c) (counters c) (crlNotify c) (crlChainLastRead c).
Definition set_ocspCache (x : gmap (string * hash) ocspCacheEntry) (c : CA) : CA :=
  mkCA (cfg c) (CACert c) (CAKey c) (cachedCRL c) (serialIndex c) x (serialIndexEpoch c)
    (serialIndexRemovalEpoch c) (counters c) (crlNotify c) (crlChainLastRead c).
Definition set_epochs (e r : Z) (c : CA) : CA :=
  mkCA (cfg c) (CACert c) (CAKey c) (cachedCRL c) (serialIndex c) (ocspCache c) e r
    (counters c) (crlNotify c) (crlChainLastRead c).
Definition set_counters (x : gmap string Z) (c : CA) : CA :=
  mkCA (cfg c) (CACert c) (CAKey c) (cachedCRL c) (serialIndex c) (ocspCache c) (serialIndexEpoch c)
    (serialIndexRemovalEpoch c) x (crlNotify c) (crlChainLastRead c).
Definition set_crlNotify (x : bool) (c : CA) : CA :=
  mkCA (cfg c) (CACert c) (CAKey c) (cachedCRL c) (serialIndex c) (ocspCache c) (serialIndexEpoch c)
    (serialIndexRemovalEpoch c) (counters c) x (crlChainLastRead c).
Definition set_crlChainLastRead (x : Time) (c : CA) : CA :=
  mkCA (cfg c) (CACert c) (CAKey c) (cachedCRL c) (serialIndex c) (ocspCache c) (serialIndexEpoch c)
    (serialIndexRemovalEpoch c) (counters c) (crlNotify c) x.

(** [uint64] counters wrap around. *)
Definition inc64 (n : Z) : Z := (n + 1) mod 2 ^ 64.

(** The counters of the struct, by field name. *)
Definition crlUpdateFailures := "crlUpdateFailures".
Definition crlSyncFailures := "crlSyncFailures".
Definition supersedeFailures := "supersedeFailures".
Definition serialIndexSyncFailures := "serialIndexSyncFailures".
Definition crlChainFailures := "crlChainFailures".
Definition crlChainDiscarded := "crlChainDiscarded".
Definition crlChainRegressed := "crlChainRegressed".
Definition crlChainRemoved := "crlChainRemoved".
Definition signingShed := "signingShed".

Definition counter (name : string) (c : CA) : Z := default 0 (counters c !! name).

(** ** The world *)

Record World := mkWorld {
  st : Store;
  ca : CA;
  chainReads : list (result blob);
  autosigns : list (result bool) }.

Definition set_st (s : Store) (w : World) : World := mkWorld s (ca w) (chainReads w) (autosigns w).
Definition set_ca (c : CA) (w : World) : World := mkWorld (st w) c (chainReads w) (autosigns w).

Definition MW := M World.

(** Run a storage action. *)
Definition lift {A} (m : MS A) : MW A := fun w =>
  let '(r, s) := m (st w) in (r, set_st s w).

Definition get_ca {A} (f : CA -> A) : MW A := gets (fun w => f (ca w)).
Definition upd_ca (f : CA -> CA) : MW unit := modify (fun w => set_ca (f (ca w)) w).

Definition count (name : string) : MW unit :=
  upd_ca (fun c => set_counters (<[name := inc64 (counter name c)]> (counters c)) c).

(** [m], and on error also bump a counter. *)
Definition counting {A} (name : string) (m : MW A) : MW A :=
  r ← try m;
  match r with Ok a => mret a | Err e => _ ← count name; fail e end.

(** [WithLock] around a CA action: the second component says whether the body
    ran. *)
Definition WithLockRan {A} (name : string) (fn : MW A) : MW (result A * bool) :=
  r ← try (lift (WithLock name (mret tt)));
  match r with
  | Err e => mret (Err e, false)
  | Ok _ => a ← try fn; mret (a, true)
  end.
Definition WithLockW {A} (name : string) (fn : MW A) : MW A :=
  '(r, _) ← WithLockRan name fn; of_result r.

Definition lockNameCRL := "crl".
Definition subjectLockName (subject : string) : string := "subject:" +:+ subject.

(** ** Durations and serials *)

Definition certValidity : Duration := 5 * 365 * 24 * Hour.
Definition CRLValidity : Duration := 30 * 24 * Hour.
Definition DefaultLeafBackdate : Duration := 5 * Minute.

Definition leafBackdate (c : Config) : Duration :=
  if 0 <? LeafBackdate c then LeafBackdate c else DefaultLeafBackdate.
Definition CRLValidityDuration (c : Config) : Duration :=
  if 0 <? CRLValidityDays c then days_duration (CRLValidityDays c) else CRLValidity.
Definition DefaultCRLRefreshBefore (c : Config) : Duration := CRLValidityDuration c ÷ 3.

(** [fmt.Sprintf("%X", n)]. *)
Definition serialHexStr (n : Z) : string := hexX n.

Definition IsReady (c : CA) : bool :=
  match CACert c, CAKey c with Some _, Some _ => true | _, _ => false end.

(** The CA key is the certificate's. *)
Definition key_matches (c : CA) : Prop :=
  forall cert key, CACert c = Some cert -> CAKey c = Some key -> key = PubKey cert.

(** ** Signing slots (signbound.go)

    Whether a slot comes free before the caller gives up is the environment's
    choice. *)

Definition acquireSigningSlot : MW unit := lift (external (Msg "context deadline exceeded")).

(** OCSP answers are shed rather than queued: no slot within the wait is
    [FBefore], the caller going away first is [FAfter]. *)
Definition acquireSigningSlotOrShed : MW unit := fun w =>
  match pop_fault (st w) with
  | (FOk, s) => (Ok tt, set_st s w)
  | (FBefore, s) => (_ ← count signingShed; fail (Sentinel ErrSigningBusy)) (set_st s w)
  | (FAfter, s) => (Err (Msg "context canceled"), set_st s w)
  end.

(** The signature itself: the signer (perhaps a hardware module) may refuse. *)
Definition signer_available : MW unit := lift (external (Msg "signer: operation failed")).

(** ** Lemmas *)

Lemma lift_Ok {A} (m : MS A) w a w' :
  lift m w = (Ok a, w') -> exists s', m (st w) = (Ok a, s') /\ w' = set_st s' w.
Proof. unfold lift. destruct (m (st w)) as [r s]. naive_solver. Qed.

Lemma lift_run {A} (m : MS A) w r w' :
  lift m w = (r, w') -> exists s', m (st w) = (r, s') /\ w' = set_st s' w.
Proof. unfold lift. destruct (m (st w)) as [r0 s]. naive_solver. Qed.

(** A relation on stores, seen on worlds with the same CA object. *)
Definition on_store (R : relation Store) : relation World := fun w w' => R (st w) (st w').

#[global] Instance on_store_preorder R : PreOrder R -> PreOrder (on_store R).
Proof. intros HR. split; unfold on_store; [intros ?; reflexivity|]. intros ? ? ? ? ?. by etrans. Qed.

Lemma mono_lift {A} (R : relation World) (RS : relation Store) (m : MS A) :
  mono RS m -> (forall w s', RS (st w) s' -> R w (set_st s' w)) -> mono R (lift m).
Proof.
  intros Hm HR w. specialize (Hm (st w)). unfold exec, lift in *. destruct (m (st w)). by apply HR.
Qed.

Lemma mono_lift_store {A} (RS : relation Store) (m : MS A) :
  mono RS m -> mono (on_store RS) (lift m).
Proof. intros H. by eapply mono_lift. Qed.

Lemma mono_upd_ca (R : relation World) f :
  (forall w, R w (set_ca (f (ca w)) w)) -> mono R (upd_ca f).
Proof. intros H w. apply H. Qed.

Lemma WithLock_same {A} name (m : MS A) : mono same_data m -> mono same_data (WithLock name m).
Proof. intros H. unfold WithLock. mono_tac. Qed.
