(* ===== verification/CRLChain.v ===== *)
(** * The published CRL chain

    Models internal/ca/crlchain.go (ownership, decoding, encoding and ordering
    of the stored chain), [ownCRLIn] of caImport.go, [ParseCABundle] and
    [ValidateCABundleOrder] of cabundle.go, and the chain-file half of
    crlchainfile.go: reading the operator's file, verifying it against the CA
    bundle and merging it monotonically with what is already published. *)

From S2P Require Import Prelude GoStrings GoTime X509 Inventory Storage Policy CAState.

(** ** Ownership *)

Definition crlSignedBy (cert : option Certificate) (crl : RevocationList) : bool :=
  match cert with None => false | Some c => crl_CheckSignatureFrom crl c end.
Definition ownsCRL (c : CA) (crl : RevocationList) : bool := crlSignedBy (CACert c) crl.

(** ** Decoding and encoding *)

Definition maxCRLChainFileEntries : nat := 64.

(** The [pem.Decode] loop; [limit] 0 means no limit, [n] CRLs are already
    decoded.  Returns the CRLs and the blocks not visited. *)
Fixpoint decodeCRLChainRest (limit n : nat) (blocks : list pem_block)
    : result (list RevocationList * list pem_block) :=
  if bool_decide (0 < limit)%nat && bool_decide (limit <= n)%nat then Ok ([], blocks)
  else match blocks with
  | [] => Ok ([], [])
  | b :: bs =>
      if negb (bool_decide (Type_ b = "X509 CRL")) then decodeCRLChainRest limit n bs
      else match ParseRevocationList (Bytes b) with
           | Err e => Err (Wrap "parsing CRL in chain" [e])
           | Ok crl =>
               match decodeCRLChainRest limit (S n) bs with
               | Err e => Err e
               | Ok (out, rest) => Ok (crl :: out, rest)
               end
           end
  end.

Definition decodeCRLChain (b : blob) : result (list RevocationList) :=
  match decodeCRLChainRest 0 0 (pem_blocks b) with Ok (out, _) => Ok out | Err e => Err e end.

Definition blank (s : string) : bool := bool_decide (TrimSpace s = "").

Definition decodeCRLChainStrict (b : blob) : result (list RevocationList) :=
  match decodeCRLChainRest (S maxCRLChainFileEntries) 0 (pem_blocks b) with
  | Err e => Err e
  | Ok (out, rest) =>
      if bool_decide (maxCRLChainFileEntries < length out)%nat then
        Err (Msg "the file holds more than the allowed CRLs")
      else if negb (bool_decide (rest = [])) || negb (blank (pem_rest b)) then
        Err (Msg "the file does not end on a PEM block boundary")
      else if bool_decide (out = []) && negb (blank (blob_text b)) then
        Err (Msg "no X509 CRL blocks, but the file is not empty")
      else Ok out
  end.

Definition encodeCRLChain (crls : list RevocationList) : blob :=
  pem_encode (map (fun crl => mkBlock "X509 CRL" (DerCRL crl)) crls).

(** ** Selecting and ordering *)

Definition newerCRL (a b : RevocationList) : bool :=
  match Number a, Number b with
  | Some x, Some y => y <? x
  | Some _, None => true
  | None, Some _ => false
  | None, None => ThisUpdate b <? ThisUpdate a
  end.

Definition own_step (cert : option Certificate) (ours : option RevocationList)
    (crl : RevocationList) : option RevocationList :=
  if crlSignedBy cert crl && match ours with None => true | Some o => newerCRL crl o end
  then Some crl else ours.

(** The newest CRL of [cert] in the chain, the first among equals. *)
Definition ownCRLIn (chain : list RevocationList) (cert : option Certificate)
    : option RevocationList := fold_left (own_step cert) chain None.

Fixpoint indexOfCRL (chain : list RevocationList) (crl : RevocationList) : Z :=
  match chain with
  | [] => -1
  | c :: chain => if bool_decide (c = crl) then 0
                  else let i := indexOfCRL chain crl in if i <? 0 then -1 else i + 1
  end.

(** [(crl, position, err)]; no own CRL is [(nil, -1)]. *)
Definition selectOwnCRL (c : CA) (b : blob) : result (option RevocationList * Z) :=
  match decodeCRLChain b with
  | Err e => Err e
  | Ok chain =>
      match ownCRLIn chain (CACert c) with
      | None => Ok (None, -1)
      | Some ours => Ok (Some ours, indexOfCRL chain ours)
      end
  end.

(** Own CRL first, the rest in their order; also how many older own copies
    were dropped and whether there was an own CRL at all. *)
Definition orderCRLChain (crls : list RevocationList) (cert : option Certificate)
    : list RevocationList * nat * bool :=
  let '(ours, superseded, others) :=
    fold_left (fun '(ours, superseded, others) crl =>
      if crlSignedBy cert crl then
        match ours with
        | None => (Some crl, superseded, others)
        | Some o => (Some (if newerCRL crl o then crl else o), S superseded, others)
        end
      else (ours, superseded, others ++ [crl])) crls (None, O, []) in
  match ours with
  | None => (crls, O, false)
  | Some o => (o :: others, superseded, true)
  end.

(** ** CA bundles (cabundle.go) *)

Fixpoint parse_bundle (blocks : list pem_block) : result (list Certificate) :=
  match blocks with
  | [] => Ok []
  | b :: bs =>
      if Contains (Type_ b) "PRIVATE KEY" then Err (Msg "bundle contains a private key block")
      else if negb (bool_decide (Type_ b = "CERTIFICATE")) then parse_bundle bs
      else match ParseCertificate (Bytes b) with
           | Err e => Err (Wrap "parsing certificate in bundle" [e])
           | Ok cert =>
               match parse_bundle bs with Ok certs => Ok (cert :: certs) | Err e => Err e end
           end
  end.
Definition ParseCABundle (b : blob) : result (list Certificate) :=
  match parse_bundle (pem_blocks b) with
  | Ok [] => Err (Msg "bundle contains no CERTIFICATE blocks")
  | r => r
  end.
Definition EncodeCABundle (certs : list Certificate) : blob :=
  pem_encode (map (fun c => mkBlock "CERTIFICATE" (DerCert c)) certs).

(** Each certificate is a CA signed by the next. *)
Fixpoint bundle_links (certs : list Certificate) : option error :=
  match certs with
  | child :: (parent :: _) as rest =>
      if negb (IsCA parent) then Some (Msg "not a CA certificate but is used as an issuer")
      else if negb (CheckSignatureFrom child parent) then Some (Msg "is not signed by the next certificate")
      else bundle_links rest
  | _ => None
  end.

Definition ValidateCABundleOrder (now : Time) (certs : list Certificate) : option error :=
  match certs, last certs with
  | own :: _, Some root =>
      if negb (IsCA own) then Some (Msg "first certificate in bundle is not a CA certificate")
      else if existsb (fun c => (now <? NotBefore c) || (NotAfter c <? now)) certs
      then Some (Msg "a certificate in the bundle is outside its validity")
      else match checkCAKeyType (PubKey own) with
      | Some e => Some (Wrap "first certificate in bundle" [e])
      | None =>
          if negb (KeyUsage own =? 0) && (Z.land (KeyUsage own) KeyUsageCertSign =? 0)
          then Some (Msg "KeyUsage without keyCertSign")
          else if negb (KeyUsage own =? 0) && (Z.land (KeyUsage own) KeyUsageCRLSign =? 0)
          then Some (Msg "KeyUsage without cRLSign")
          else match bundle_links certs with
          | Some e => Some e
          | None => if CheckSignatureFrom root root then None
                    else Some (Msg "the last certificate in the bundle is not self-signed")
          end
      end
  | _, _ => Some (Msg "bundle contains no certificates")
  end.

(** ** The operator's chain file (crlchainfile.go) *)

Definition signerOf (candidates : list Certificate) (crl : RevocationList) : option Certificate :=
  head (base.filter (fun cert => crlSignedBy (Some cert) crl = true) candidates).
Definition signedByAny (candidates : list Certificate) (crl : RevocationList) : bool :=
  match signerOf candidates crl with Some _ => true | None => false end.

(** A Go map keyed by a certificate's raw bytes. *)
Notation cert_map A := (list (Certificate * A)).
Definition cm_get {A} (k : Certificate) (m : cert_map A) : option A :=
  snd <$> head (base.filter (fun kv => kv.1 = k) m).
Definition cm_set {A} (k : Certificate) (v : A) (m : cert_map A) : cert_map A :=
  (k, v) :: base.filter (fun kv => kv.1 <> k) m.

Definition dedupe_step (issuers : list Certificate) (acc : list RevocationList * cert_map nat)
    (crl : RevocationList) : list RevocationList * cert_map nat :=
  let '(out, at_) := acc in
  match signerOf issuers crl with
  | None => (out ++ [crl], at_)
  | Some signer =>
      match cm_get signer at_ with
      | None => (out ++ [crl], cm_set signer (length out) at_)
      | Some i =>
          match out !! i with
          | Some kept => (if newerCRL crl kept then <[i := crl]> out else out, at_)
          | None => (out, at_)
          end
      end
  end.

(** Newest CRL per signer, at the position the signer first appeared; a CRL
    nobody in the bundle signed is kept. *)
Definition dedupeCRLs (issuers : list Certificate) (crls : list RevocationList)
    : list RevocationList := (fold_left (dedupe_step issuers) crls ([], [])).1.

(** The CRLs already published that are not our own. *)
Definition publishedUpstream (c : CA) (b : blob) : result (list RevocationList) :=
  match decodeCRLChain b with
  | Err e => Err (Wrap "decoding the published CRL chain" [e])
  | Ok stored => Ok (base.filter (fun crl => ownsCRL c crl = false) stored)
  end.

Inductive upstreamPass := decidingUpstream | publishingUpstream.

(** Newest published CRL per signer. *)
Definition current_published (issuers : list Certificate) (published : list RevocationList)
    : cert_map RevocationList :=
  fold_left (fun current crl =>
    match signerOf issuers crl with
    | None => current
    | Some signer =>
        match cm_get signer current with
        | Some prev => if newerCRL crl prev then cm_set signer crl current else current
        | None => cm_set signer crl current
        end
    end) published [].

(** The merge loop: an incoming CRL older than the published one of the same
    signer is replaced by it.  Returns the chain, the signers mentioned and
    the number of regressions. *)
Fixpoint merge_upstream (issuers : list Certificate) (current : cert_map RevocationList)
    (incoming : list RevocationList) : list RevocationList * list Certificate * nat :=
  match incoming with
  | [] => ([], [], O)
  | crl :: incoming =>
      let '(out, mentioned, regressed) := merge_upstream issuers current incoming in
      match signerOf issuers crl with
      | None => (out, mentioned, regressed)
      | Some signer =>
          match cm_get signer current with
          | Some prev =>
              if newerCRL prev crl then (prev :: out, signer :: mentioned, S regressed)
              else (crl :: out, signer :: mentioned, regressed)
          | None => (crl :: out, signer :: mentioned, regressed)
          end
      end
  end.

(** How many published ancestors the new chain drops, each counted once. *)
Fixpoint count_removed (issuers : list Certificate) (mentioned : list Certificate)
    (unattributable : list Name) (published : list RevocationList) : nat :=
  match published with
  | [] => O
  | crl :: published =>
      match signerOf issuers crl with
      | None =>
          if bool_decide (crl_Issuer crl ∈ unattributable)
          then count_removed issuers mentioned unattributable published
          else S (count_removed issuers mentioned (crl_Issuer crl :: unattributable) published)
      | Some signer =>
          if bool_decide (signer ∈ mentioned)
          then count_removed issuers mentioned unattributable published
          else S (count_removed issuers (signer :: mentioned) unattributable published)
      end
  end.

Fixpoint count_n (name : string) (n : nat) : MW unit :=
  match n with O => mret tt | S n => _ ← count name; count_n name n end.

(** [(chain, stated, err)]. *)
Definition monotonicUpstream (storedBlob : blob) (issuers : list Certificate)
    (incoming : list RevocationList) (pass : upstreamPass) : MW (list RevocationList * bool) :=
  c ← get_ca id;
  published ← of_result (publishedUpstream c storedBlob);
  if bool_decide (published = []) then mret (incoming, true)
  else
    let '(out, mentioned, regressed) :=
      merge_upstream issuers (current_published issuers published) incoming in
    _ ← count_n crlChainRegressed regressed;
    match pass with
    | decidingUpstream => mret (out, true)
    | publishingUpstream =>
        _ ← count_n crlChainRemoved (count_removed issuers mentioned [] published);
        mret (out, true)
    end.

(** The next read of the chain file. *)
Definition readCRLChainFile : MW blob := fun w =>
  match chainReads w with
  | [] => (Err (not_exist "open"), w)
  | r :: rs => (r, mkWorld (st w) (ca w) rs (autosigns w))
  end.

Definition bundleCertificates : MW (list Certificate) :=
  b ← wrapping "reading the CA bundle to verify crl_chain_file" (lift GetCACert);
  of_result (ParseCABundle b).

Definition chain_fault (e : error) : error :=
  Wrap "crl_chain_file" [Sentinel ErrChainFileFault; e].

(** The CRLs of the file that some bundle certificate signed and we did not. *)
Fixpoint verify_upstream (c : CA) (issuers : list Certificate) (parsed : list RevocationList)
    : list RevocationList * nat :=
  match parsed with
  | [] => ([], O)
  | crl :: parsed =>
      let '(verified, discarded) := verify_upstream c issuers parsed in
      if ownsCRL c crl then (verified, discarded)
      else if signedByAny issuers crl then (crl :: verified, discarded)
      else (verified, S discarded)
  end.

(** [stated = false]: the file says nothing, keep what is published. *)
Definition upstreamCRLs (storedBlob : blob) (pass : upstreamPass)
    : MW (list RevocationList * bool) :=
  c ← get_ca id;
  if bool_decide (CRLChainFile (cfg c) = "") then mret ([], false)
  else
    r ← try readCRLChainFile;
    match r with
    | Err e =>
        if errors_Is e FsErrNotExist then mret ([], false)
        else _ ← count crlChainFailures; fail (chain_fault e)
    | Ok data =>
        now ← lift time_Now;
        _ ← upd_ca (set_crlChainLastRead now);
        match decodeCRLChainStrict data with
        | Err e => _ ← count crlChainFailures; fail (chain_fault e)
        | Ok parsed =>
            issuers ← bundleCertificates;
            let '(verified, discarded) := verify_upstream c issuers parsed in
            _ ← count_n crlChainDiscarded discarded;
            monotonicUpstream storedBlob issuers (dedupeCRLs issuers verified) pass
        end
    end.

(** The chain to publish: our CRL, then the file's if it states one, else the
    stored blocks that are not ours. *)
Definition crlChainLocked (ourCRL : RevocationList) (storedBlob : blob) : MW blob :=
  c ← get_ca id;
  '(upstream, stated) ← upstreamCRLs storedBlob publishingUpstream;
  if (stated : bool) then mret (encodeCRLChain (ourCRL :: upstream))
  else
    stored ← of_result (match decodeCRLChain storedBlob with
                        | Ok l => Ok l
                        | Err e => Err (Wrap "decoding the stored CRL chain" [e])
                        end);
    mret (encodeCRLChain (ourCRL :: base.filter (fun crl => ownsCRL c crl = false) stored)).

Definition sameCRLSet (a b : list RevocationList) : bool := bool_decide (a = b).

(** The earliest NextUpdate per upstream issuer, issuers in order of first
    appearance. *)
Fixpoint merge_status (issuer : Name) (next : Time) (out : list (Name * Time)) : list (Name * Time) :=
  match out with
  | [] => [(issuer, next)]
  | (i, t) :: out =>
      if bool_decide (i = issuer) then
        (i, if IsZero next then t else if IsZero t || (next <? t) then next else t) :: out
      else (i, t) :: merge_status issuer next out
  end.
Definition UpstreamCRLStatuses (c : CA) (b : blob) : result (list (Name * Time)) :=
  match decodeCRLChain b with
  | Err e => Err e
  | Ok crls =>
      Ok (fold_left (fun out crl =>
            if ownsCRL c crl then out else merge_status (crl_Issuer crl) (NextUpdate crl) out)
          crls [])
  end.

(** ** Lemmas *)

Lemma decode_rest_map crls n :
  decodeCRLChainRest 0 n (map (fun crl => mkBlock "X509 CRL" (DerCRL crl)) crls) = Ok (crls, []).
Proof.
  revert n. induction crls as [|crl crls IH]; intros n; simpl; [done|]. by rewrite IH.
Qed.

Lemma decode_encode crls : decodeCRLChain (encodeCRLChain crls) = Ok crls.
Proof.
  unfold decodeCRLChain, encodeCRLChain, pem_encode.
  pose proof (decode_rest_map crls 0) as H. destruct crls as [|c crls]; [done|].
  cbn [map] in *. cbn [pem_blocks]. by rewrite H.
Qed.

Lemma newer_irrefl a : newerCRL a a = false.
Proof. unfold newerCRL. case_match; apply Z.ltb_irrefl. Qed.

(** "Not newer" is a total preorder. *)
Lemma not_newer_trans a b c :
  newerCRL a b = false -> newerCRL b c = false -> newerCRL a c = false.
Proof.
  unfold newerCRL. destruct (Number a), (Number b), (Number c); rewrite ?Z.ltb_ge; try done; lia.
Qed.

Lemma newer_asym a b : newerCRL a b = true -> newerCRL b a = false.
Proof.
  unfold newerCRL. destruct (Number a), (Number b); rewrite ?Z.ltb_lt, ?Z.ltb_ge; try done; lia.
Qed.

(** *** The newest own CRL *)

Definition own_max (cert : option Certificate) (chain : list RevocationList)
    (r : option RevocationList) : Prop :=
  match r with
  | None => forall crl, crl ∈ chain -> crlSignedBy cert crl = false
  | Some o => o ∈ chain /\ crlSignedBy cert o = true /\
      forall crl, crl ∈ chain -> crlSignedBy cert crl = true -> newerCRL crl o = false
  end.

Lemma own_step_max cert chain r crl :
  own_max cert chain r -> own_max cert (chain ++ [crl]) (own_step cert r crl).
Proof.
  unfold own_max, own_step. intros H.
  destruct (crlSignedBy cert crl) eqn:S, r as [o|]; simpl.
  - destruct H as (Hin & Hs & Hmax). destruct (newerCRL crl o) eqn:N.
    + rewrite elem_of_app, list_elem_of_singleton. split; [by right|]. split; [done|].
      intros x [Hx|Hx]%elem_of_app Hxs.
      * eapply not_newer_trans; [by apply Hmax|by apply newer_asym].
      * apply list_elem_of_singleton in Hx as ->. apply newer_irrefl.
    + rewrite elem_of_app. split; [by left|]. split; [done|].
      intros x [Hx|Hx]%elem_of_app Hxs; [by apply Hmax|].
      by apply list_elem_of_singleton in Hx as ->.
  - rewrite elem_of_app, list_elem_of_singleton. split; [by right|]. split; [done|].
    intros x [Hx|Hx]%elem_of_app Hxs.
    + rewrite (H x Hx) in Hxs. done.
    + apply list_elem_of_singleton in Hx as ->. apply newer_irrefl.
  - destruct H as (Hin & Hs & Hmax). rewrite elem_of_app. split; [by left|]. split; [done|].
    intros x [Hx|Hx]%elem_of_app Hxs; [by apply Hmax|].
    apply list_elem_of_singleton in Hx as ->. congruence.
  - intros x [Hx|Hx]%elem_of_app; [by apply H|]. by apply list_elem_of_singleton in Hx as ->.
Qed.

Lemma ownCRLIn_max chain cert : own_max cert chain (ownCRLIn chain cert).
Proof.
  unfold ownCRLIn. induction chain as [|crl chain IH] using rev_ind.
  - intros crl Hc. by apply elem_of_nil in Hc.
  - rewrite fold_left_app. simpl. by apply own_step_max.
Qed.

Lemma ownCRLIn_Some chain cert o :
  ownCRLIn chain cert = Some o ->
  o ∈ chain /\ crlSignedBy cert o = true /\
  forall crl, crl ∈ chain -> crlSignedBy cert crl = true -> newerCRL crl o = false.
Proof. intros E. pose proof (ownCRLIn_max chain cert) as H. by rewrite E in H. Qed.

Lemma ownCRLIn_None chain cert crl :
  ownCRLIn chain cert = None -> crl ∈ chain -> crlSignedBy cert crl = false.
Proof. intros E. pose proof (ownCRLIn_max chain cert) as H. rewrite E in H. apply H. Qed.

Lemma newer_trans a b c : newerCRL a b = true -> newerCRL b c = true -> newerCRL a c = true.
Proof.
  unfold newerCRL. destruct (Number a), (Number b), (Number c); rewrite ?Z.ltb_lt; try done; lia.
Qed.

(** A leading own CRL is selected unless a strictly newer one follows. *)
Lemma ownCRLIn_cons cert lead rest :
  crlSignedBy cert lead = true ->
  exists o, ownCRLIn (lead :: rest) cert = Some o /\ (o = lead \/ newerCRL o lead = true).
Proof.
  intros Hl. unfold ownCRLIn. cbn [fold_left]. unfold own_step at 2. rewrite Hl. cbn [andb].
  assert (forall o, o = lead \/ newerCRL o lead = true ->
    exists x, fold_left (own_step cert) rest (Some o) = Some x /\ (x = lead \/ newerCRL x lead = true))
    as H; [|apply H; by left].
  induction rest as [|crl rest IH]; intros o Ho; cbn [fold_left]; [by eauto|].
  unfold own_step at 2. destruct (crlSignedBy cert crl && newerCRL crl o) eqn:E; [|by apply IH].
  apply IH. bool_hyps. right. destruct Ho as [->|Ho]; [done|]. by eapply newer_trans.
Qed.

(** A chain that leads with an own CRL followed by foreign ones only. *)
Lemma ownCRLIn_lead cert o others :
  crlSignedBy cert o = true -> (forall crl, crl ∈ others -> crlSignedBy cert crl = false) ->
  ownCRLIn (o :: others) cert = Some o.
Proof.
  intros Ho Hf. destruct (ownCRLIn (o :: others) cert) as [x|] eqn:E.
  - apply ownCRLIn_Some in E as (Hx & Hs & _). apply elem_of_cons in Hx as [->|Hx]; [done|].
    rewrite Hf in Hs by done. done.
  - apply (ownCRLIn_None _ _ o) in E; [congruence|by left].
Qed.

(** *** Signers and maps keyed by them *)

Lemma cm_get_set {A} k k' (v : A) m :
  cm_get k' (cm_set k v m) = if decide (k = k') then Some v else cm_get k' m.
Proof.
  unfold cm_get, cm_set. rewrite filter_cons. simpl. destruct (decide (k = k')) as [->|Hne]; [done|].
  by rewrite list_filter_filter_l by congruence.
Qed.

Lemma signerOf_Some issuers crl c :
  signerOf issuers crl = Some c -> c ∈ issuers /\ crlSignedBy (Some c) crl = true.
Proof.
  unfold signerOf. intros H. assert (c ∈ base.filter (fun cert => crlSignedBy (Some cert) crl = true) issuers)
    as Hc by (destruct (base.filter _ issuers); simplify_eq/=; by left).
  apply list_elem_of_filter in Hc as [? ?]. done.
Qed.

(** The map built from the published chain holds, for each signer, a published
    CRL of that signer that none of its others is newer than. *)
Definition best_of (issuers : list Certificate) (published : list RevocationList)
    (current : cert_map RevocationList) : Prop :=
  (forall s prev, cm_get s current = Some prev -> prev ∈ published /\ signerOf issuers prev = Some s) /\
  (forall crl s, crl ∈ published -> signerOf issuers crl = Some s ->
     exists prev, cm_get s current = Some prev /\ newerCRL crl prev = false).

Lemma best_of_set issuers pub current crl s :
  signerOf issuers crl = Some s -> best_of issuers pub current ->
  (forall prev, cm_get s current = Some prev -> newerCRL crl prev = true) ->
  best_of issuers (pub ++ [crl]) (cm_set s crl current).
Proof.
  intros Hs [H1 H2] Hnew. split.
  - intros s' prev. rewrite cm_get_set, elem_of_app, list_elem_of_singleton.
    case_decide; intros; simplify_eq; [by auto|]. destruct (H1 s' prev); auto.
  - intros x s' Hx Hxs. rewrite cm_get_set. apply elem_of_app in Hx as [Hx|Hx].
    + destruct (H2 x s' Hx Hxs) as (prev & Hp & Hn). case_decide; [subst s'|by eauto].
      exists crl. split; [done|]. eapply not_newer_trans; [exact Hn|].
      apply newer_asym. by apply Hnew.
    + apply list_elem_of_singleton in Hx as ->. simplify_eq.
      exists crl. rewrite decide_True by done. split; [done|apply newer_irrefl].
Qed.

Lemma best_of_keep issuers pub current crl :
  best_of issuers pub current ->
  (forall s, signerOf issuers crl = Some s ->
     exists prev, cm_get s current = Some prev /\ newerCRL crl prev = false) ->
  best_of issuers (pub ++ [crl]) current.
Proof.
  intros [H1 H2] Hk. split.
  - intros s prev Hp. destruct (H1 s prev Hp). rewrite elem_of_app. auto.
  - intros x s Hx Hxs. apply elem_of_app in Hx as [Hx|Hx]; [by eauto|].
    apply list_elem_of_singleton in Hx as ->. auto.
Qed.

Lemma current_published_best issuers published :
  best_of issuers published (current_published issuers published).
Proof.
  unfold current_published. induction published as [|crl pub IH] using rev_ind.
  - split; [done|]. intros crl s Hc. by apply elem_of_nil in Hc.
  - rewrite fold_left_app. simpl. set (current := fold_left _ pub []) in *.
    destruct (signerOf issuers crl) as [s|] eqn:Hs; [|apply best_of_keep; [done|]; congruence].
    destruct (cm_get s current) as [prev|] eqn:Hg.
    + destruct (newerCRL crl prev) eqn:Hn.
      * apply best_of_set; [done|done|]. intros. by simplify_eq.
      * apply best_of_keep; [done|]. intros. simplify_eq. eauto.
    + apply best_of_set; [done|done|]. congruence.
Qed.

Lemma merge_upstream_spec issuers published current incoming :
  best_of issuers published current ->
  let out := (merge_upstream issuers current incoming).1.1 in
  (forall crl, crl ∈ out ->
     (crl ∈ incoming \/ crl ∈ published) /\ (exists s, signerOf issuers crl = Some s) /\
     forall p, p ∈ published -> signerOf issuers p = signerOf issuers crl -> newerCRL p crl = false) /\
  omap (signerOf issuers) out = omap (signerOf issuers) incoming.
Proof.
  intros [H1 H2]. induction incoming as [|x incoming IH]; cbn [merge_upstream].
  { split; [|done]. intros crl Hc. by apply elem_of_nil in Hc. }
  destruct (merge_upstream issuers current incoming) as [[out men] reg]. cbn [fst] in IH.
  destruct IH as [IH1 IH2].
  assert (forall y s, signerOf issuers y = Some s ->
    (y ∈ x :: incoming \/ y ∈ published) ->
    signerOf issuers x = Some s ->
    (forall p, p ∈ published -> signerOf issuers p = Some s -> newerCRL p y = false) ->
    (forall crl, crl ∈ y :: out ->
       (crl ∈ x :: incoming \/ crl ∈ published) /\ (exists s, signerOf issuers crl = Some s) /\
       forall p, p ∈ published -> signerOf issuers p = signerOf issuers crl -> newerCRL p crl = false) /\
    omap (signerOf issuers) (y :: out) = omap (signerOf issuers) (x :: incoming)) as Hstep.
  { intros y s Hy Hin Hx Hmax. split.
    - intros crl [->|Hc]%elem_of_cons.
      + split; [done|]. split; [by eauto|]. intros p Hp. rewrite Hy. by apply Hmax.
      + destruct (IH1 crl Hc) as (Hw & Hrest). split; [|exact Hrest].
        rewrite elem_of_cons. tauto.
    - rewrite !list_omap_cons, Hy, Hx, IH2. done. }
  destruct (signerOf issuers x) as [s|] eqn:Hs; cbn [fst].
  - destruct (cm_get s current) as [prev|] eqn:Hg.
    + destruct (H1 s prev Hg) as [Hpin Hps]. destruct (newerCRL prev x) eqn:Hn; cbn [fst].
      * apply (Hstep prev s); auto. intros p Hp Hsp.
        destruct (H2 p s Hp Hsp) as (q & Hq & Hnq). by simplify_eq.
      * apply (Hstep x s); auto; [by left; left|]. intros p Hp Hsp.
        destruct (H2 p s Hp Hsp) as (q & Hq & Hnq). simplify_eq. by eapply not_newer_trans.
    + apply (Hstep x s); auto; [by left; left|]. intros p Hp Hsp.
      destruct (H2 p s Hp Hsp) as (q & Hq & _). congruence.
  - split.
    + intros crl Hc. destruct (IH1 crl Hc) as (Hw & Hrest). split; [|exact Hrest].
      rewrite elem_of_cons. tauto.
    + rewrite list_omap_cons, Hs. done.
Qed.

(** *** Deduplication *)

Definition dedupe_inv (issuers : list Certificate) (crls : list RevocationList)
    (acc : list RevocationList * cert_map nat) : Prop :=
  (forall x, x ∈ acc.1 -> x ∈ crls) /\
  (forall s i, cm_get s acc.2 = Some i <-> exists x, acc.1 !! i = Some x /\ signerOf issuers x = Some s) /\
  (forall crl s, crl ∈ crls -> signerOf issuers crl = Some s ->
     exists x, x ∈ acc.1 /\ signerOf issuers x = Some s /\ newerCRL crl x = false).

(** Appending a CRL whose signer, if it has one, is not yet in the map. *)
Lemma dedupe_inv_append issuers crls out at_ at' crl :
  dedupe_inv issuers crls (out, at_) ->
  (forall s i, cm_get s at' = Some i <->
     cm_get s at_ = Some i \/ (i = length out /\ signerOf issuers crl = Some s)) ->
  dedupe_inv issuers (crls ++ [crl]) (out ++ [crl], at').
Proof.
  intros (I1 & I2 & I3) Hat. split; [|split]; simpl in *.
  - intros x. rewrite !elem_of_app. intros [Hx|Hx]; [left; by apply I1|by right].
  - intros s i. rewrite Hat, I2. split.
    + intros [(x & Hx & Hs)|[-> Hs]].
      * exists x. split; [|done]. by apply lookup_app_l_Some.
      * exists crl. split; [|done]. rewrite lookup_app_r by done. by rewrite Nat.sub_diag.
    + intros (x & Hx & Hs). apply lookup_app_Some in Hx as [Hx|[Hl Hx]]; [by eauto|].
      apply list_lookup_singleton_Some in Hx as [Hi ->]. right. split; [lia|done].
  - intros x s Hx Hs. apply elem_of_app in Hx as [Hx|Hx].
    + destruct (I3 x s Hx Hs) as (y & Hy & Hys). exists y. rewrite elem_of_app. auto.
    + apply list_elem_of_singleton in Hx as ->. exists crl.
      rewrite elem_of_app, list_elem_of_singleton. auto using newer_irrefl.
Qed.

(** Meeting a CRL of a known signer again: the newer of the two stays. *)
Lemma dedupe_inv_again issuers crls out at_ crl s i kept :
  dedupe_inv issuers crls (out, at_) ->
  signerOf issuers crl = Some s -> out !! i = Some kept -> signerOf issuers kept = Some s ->
  dedupe_inv issuers (crls ++ [crl]) (if newerCRL crl kept then <[i := crl]> out else out, at_).
Proof.
  intros (I1 & I2 & I3) Hs Hi Hk. simpl in *.
  assert (i < length out)%nat as Hlen by (by eapply lookup_lt_Some).
  destruct (newerCRL crl kept) eqn:Hn; split_and!; simpl.
  - intros x [j Hj]%list_elem_of_lookup. rewrite elem_of_app, list_elem_of_singleton.
    apply list_lookup_insert_Some in Hj as [(-> & -> & _)|[_ Hj]]; [by right|].
    left. apply I1. apply list_elem_of_lookup. eauto.
  - intros s' j. rewrite I2. destruct (decide (i = j)) as [->|Hne].
    + rewrite list_lookup_insert_eq by done. naive_solver congruence.
    + by rewrite list_lookup_insert_ne.
  - intros x s' Hx Hxs. apply elem_of_app in Hx as [Hx|Hx].
    + destruct (I3 x s' Hx Hxs) as (y & [j Hj]%list_elem_of_lookup & Hys & Hny).
      destruct (decide (i = j)) as [->|Hne].
      * exists crl. split; [by apply list_elem_of_insert|]. simplify_eq. split; [congruence|].
        eapply not_newer_trans; [exact Hny|by apply newer_asym].
      * exists y. split; [|done]. apply list_elem_of_lookup. exists j. by rewrite list_lookup_insert_ne.
    + apply list_elem_of_singleton in Hx as ->. exists crl.
      split; [by apply list_elem_of_insert|]. auto using newer_irrefl.
  - intros x Hx. rewrite elem_of_app. left. by apply I1.
  - done.
  - intros x s' Hx Hxs. apply elem_of_app in Hx as [Hx|Hx]; [by eauto|].
    apply list_elem_of_singleton in Hx as ->. exists kept.
    split; [by apply list_elem_of_lookup; eauto|]. split; congruence.
Qed.

Lemma dedupe_inv_step issuers crls acc crl :
  dedupe_inv issuers crls acc -> dedupe_inv issuers (crls ++ [crl]) (dedupe_step issuers acc crl).
Proof.
  intros H. destruct acc as [out at_]. unfold dedupe_step.
  destruct (signerOf issuers crl) as [s|] eqn:Hs.
  - destruct (cm_get s at_) as [i|] eqn:Hg.
    + pose proof (proj1 (proj1 (proj2 H) s i) Hg) as (kept & Hk & Hks). simpl in Hk. rewrite Hk.
      by eapply dedupe_inv_again.
    + apply (dedupe_inv_append _ _ _ at_); [done|]. intros s' i. rewrite cm_get_set.
      rewrite Hs. case_decide; naive_solver congruence.
  - apply (dedupe_inv_append _ _ _ at_); [done|]. intros s' i. rewrite Hs. naive_solver.
Qed.

Lemma dedupeCRLs_spec issuers crls : exists at_, dedupe_inv issuers crls (dedupeCRLs issuers crls, at_).
Proof.
  unfold dedupeCRLs.
  assert (dedupe_inv issuers crls (fold_left (dedupe_step issuers) crls ([], []))) as H.
  { induction crls as [|crl crls IH] using rev_ind.
    - split; [|split]; simpl.
      + intros x Hx. by apply elem_of_nil in Hx.
      + intros s i. split; [done|]. intros (x & Hx & _). by rewrite lookup_nil in Hx.
      + intros x s Hx. by apply elem_of_nil in Hx.
    - rewrite fold_left_app. by apply dedupe_inv_step. }
  destruct (fold_left _ crls _) as [out at_]. eauto.
Qed.

Lemma dedupe_nodup issuers crls : NoDup (omap (signerOf issuers) (dedupeCRLs issuers crls)).
Proof.
  destruct (dedupeCRLs_spec issuers crls) as (at_ & _ & I2 & _). simpl in I2.
  revert I2. generalize (dedupeCRLs issuers crls). intros out I2.
  assert (forall i j x y s, out !! i = Some x -> out !! j = Some y ->
    signerOf issuers x = Some s -> signerOf issuers y = Some s -> i = j) as Huniq.
  { intros i j x y s Hi Hj Hx Hy.
    assert (cm_get s at_ = Some i) by (apply I2; eauto).
    assert (cm_get s at_ = Some j) by (apply I2; eauto). congruence. }
  clear I2. induction out as [|x out IH]; [constructor|].
  rewrite list_omap_cons.
  assert (NoDup (omap (signerOf issuers) out)) as Hnd.
  { apply IH. intros i j a b s Hi Hj Ha Hb. assert (S i = S j) by (by eapply (Huniq (S i) (S j))). lia. }
  destruct (signerOf issuers x) as [s|] eqn:Hs; [|done]. constructor; [|done].
  intros (y & Hy & Hys)%list_elem_of_omap. apply list_elem_of_lookup in Hy as [j Hj].
  assert (O = S j) by (by eapply (Huniq O (S j))). lia.
Qed.

Lemma verify_upstream_spec c issuers parsed crl :
  crl ∈ (verify_upstream c issuers parsed).1 ->
  crl ∈ parsed /\ ownsCRL c crl = false /\ exists s, signerOf issuers crl = Some s.
Proof.
  induction parsed as [|x parsed IH]; cbn [verify_upstream]; [by intros ?%elem_of_nil|].
  destruct (verify_upstream c issuers parsed) as [v d]. cbn [fst] in IH.
  destruct (ownsCRL c x) eqn:Ho, (signedByAny issuers x) eqn:Hs; cbn [fst];
    rewrite ?elem_of_cons; try naive_solver.
  intros [->|H]; [|naive_solver]. split; [by left|]. split; [done|].
  unfold signedByAny in Hs. case_match; naive_solver.
Qed.

(** *** Who the CA is does not change *)

Definition same_ca : relation World := fun w w' =>
  CACert (ca w') = CACert (ca w) /\ CAKey (ca w') = CAKey (ca w) /\ cfg (ca w') = cfg (ca w).

#[global] Instance same_ca_preorder : PreOrder same_ca.
Proof. split; [done|]. intros ? ? ? (?&?&?) (?&?&?). repeat split; congruence. Qed.

Lemma same_ca_owns w w' crl : same_ca w w' -> ownsCRL (ca w') crl = ownsCRL (ca w) crl.
Proof. intros (E & _). unfold ownsCRL. by rewrite E. Qed.

Lemma same_ca_lift {A} (m : MS A) : mono same_ca (lift m).
Proof. apply (mono_lift _ (fun _ _ => True)); [done|]. done. Qed.
Lemma same_ca_count name : mono same_ca (count name).
Proof. by apply mono_upd_ca. Qed.
Lemma same_ca_count_n name n : mono same_ca (count_n name n).
Proof. induction n; simpl; [apply mono_ret; typeclasses eauto|]. apply mono_bind; eauto using same_ca_count. typeclasses eauto. Qed.
Lemma same_ca_read : mono same_ca readCRLChainFile.
Proof. intros w. unfold exec, readCRLChainFile. by case_match. Qed.
#[export] Hint Resolve same_ca_lift same_ca_count same_ca_count_n same_ca_read : mono.

(** Store untouched by bookkeeping. *)
Definition same_store : relation World := fun w w' => same_data (st w) (st w').
#[global] Instance same_store_preorder : PreOrder same_store.
Proof. split; unfold same_store; [done|]. intros ? ? ? ? ?. by etrans. Qed.
Lemma same_store_lift {A} (m : MS A) : mono same_data m -> mono same_store (lift m).
Proof. intros H. by apply (mono_lift _ same_data). Qed.
Lemma same_store_upd f : mono same_store (upd_ca f).
Proof. by apply mono_upd_ca. Qed.
Lemma same_store_count name : mono same_store (count name).
Proof. by apply mono_upd_ca. Qed.
Lemma same_store_count_n name n : mono same_store (count_n name n).
Proof. induction n; simpl; [apply mono_ret; typeclasses eauto|]. apply mono_bind; eauto using same_store_count. typeclasses eauto. Qed.
Lemma same_store_read : mono same_store readCRLChainFile.
Proof. intros w. unfold exec, readCRLChainFile. by case_match. Qed.
#[export] Hint Resolve same_store_lift same_store_upd same_store_count same_store_count_n
  same_store_read : mono.

Lemma GetCACert_same : mono same_data GetCACert.
Proof. unfold GetCACert. mono_tac. Qed.
#[export] Hint Resolve GetCACert_same : mono.

(** Bookkeeping moves counters only. *)
Definition core (c : CA) :=
  (CACert c, CAKey c, cfg c, cachedCRL c, serialIndex c, ocspCache c,
   (serialIndexEpoch c, serialIndexRemovalEpoch c)).
Definition same_core : relation World := fun w w' => core (ca w') = core (ca w).
#[global] Instance same_core_preorder : PreOrder same_core.
Proof. split; unfold same_core; [done|]. intros ? ? ? ? ?. by etrans. Qed.
Lemma same_core_lift {A} (m : MS A) : mono same_core (lift m).
Proof. by apply (mono_lift _ (fun _ _ => True)). Qed.
Lemma same_core_count name : mono same_core (count name).
Proof. by apply mono_upd_ca. Qed.
Lemma same_core_count_n name n : mono same_core (count_n name n).
Proof.
  induction n; simpl; [apply mono_ret; typeclasses eauto|].
  apply mono_bind; eauto using same_core_count. typeclasses eauto.
Qed.
Lemma same_core_read : mono same_core readCRLChainFile.
Proof. intros w. unfold exec, readCRLChainFile. by case_match. Qed.
#[export] Hint Resolve same_core_lift same_core_count same_core_count_n same_core_read : mono.

Lemma upstreamCRLs_same_core b pass : mono same_core (upstreamCRLs b pass).
Proof.
  unfold upstreamCRLs, monotonicUpstream, bundleCertificates, get_ca.
  mono_tac; by apply mono_upd_ca.
Qed.

Lemma same_core_ca w w' : same_core w w' -> same_ca w w'.
Proof. unfold same_core, core. intros H. by simplify_eq. Qed.

Lemma upstreamCRLs_same_ca b pass : mono same_ca (upstreamCRLs b pass).
Proof.
  unfold upstreamCRLs, monotonicUpstream, bundleCertificates, get_ca.
  mono_tac; by apply mono_upd_ca.
Qed.
Lemma upstreamCRLs_same_store b pass : mono same_store (upstreamCRLs b pass).
Proof. unfold upstreamCRLs, monotonicUpstream, bundleCertificates, get_ca. mono_tac. Qed.

Lemma published_same_ca w w' b :
  same_ca w w' -> publishedUpstream (ca w') b = publishedUpstream (ca w) b.
Proof.
  intros H. unfold publishedUpstream. destruct (decodeCRLChain b); [|done]. f_equal.
  apply list_filter_iff. intros crl. by rewrite (same_ca_owns w w').
Qed.

(** What a merged chain guarantees against what was published before. *)
Definition merged_ok (c : CA) (issuers : list Certificate)
    (published incoming crls : list RevocationList) : Prop :=
  (forall crl, crl ∈ crls ->
     (crl ∈ incoming \/ crl ∈ published) /\ (exists s, signerOf issuers crl = Some s) /\
     forall p, p ∈ published -> signerOf issuers p = signerOf issuers crl -> newerCRL p crl = false) /\
  omap (signerOf issuers) crls = omap (signerOf issuers) incoming.

Lemma monotonicUpstream_spec b issuers incoming pass w crls stated w' :
  monotonicUpstream b issuers incoming pass w = (Ok (crls, stated), w') ->
  (forall crl, crl ∈ incoming -> exists s, signerOf issuers crl = Some s) ->
  stated = true /\ exists published,
    publishedUpstream (ca w) b = Ok published /\ merged_ok (ca w) issuers published incoming crls.
Proof.
  unfold monotonicUpstream, get_ca. intros H Hin.
  apply bind_Ok in H as (c & w1 & Hc & H). apply gets_Ok in Hc as [-> ->].
  apply bind_Ok in H as (published & w1 & Hp & H). apply of_result_Ok in Hp as [Hp ->].
  assert (crls = incoming /\ published = [] \/
          crls = (merge_upstream issuers (current_published issuers published) incoming).1.1) as HC.
  { case_bool_decide; [minv; by left|].
    destruct (merge_upstream _ _ _) as [[out men] reg]. right. destruct pass; by minv. }
  assert (stated = true) as ->.
  { case_bool_decide; [by minv|]. destruct (merge_upstream _ _ _) as [[out men] reg].
    destruct pass; by minv. }
  split; [done|]. exists published. split; [done|]. destruct HC as [[-> ->]| ->].
  - split; [|done]. intros crl Hcrl. split; [by left|]. split; [by apply Hin|].
    intros p Hpub. by apply elem_of_nil in Hpub.
  - apply merge_upstream_spec. apply current_published_best.
Qed.

(** The guarantees of a chain file that was taken up. *)
Lemma upstreamCRLs_spec b pass w crls w' :
  upstreamCRLs b pass w = (Ok (crls, true), w') ->
  exists bundle issuers published,
    blobs (be (st w)) !! KeyCACert = Some bundle /\ ParseCABundle bundle = Ok issuers /\
    publishedUpstream (ca w) b = Ok published /\
    (forall crl, crl ∈ crls ->
       ownsCRL (ca w) crl = false /\ (exists s, signerOf issuers crl = Some s) /\
       forall p, p ∈ published -> signerOf issuers p = signerOf issuers crl ->
         newerCRL p crl = false) /\
    NoDup (omap (signerOf issuers) crls).
Proof.
  unfold upstreamCRLs, get_ca. intros H.
  apply bind_Ok in H as (c & w0 & Hc & H). apply gets_Ok in Hc as [-> ->]. simpl in H.
  case_bool_decide; [by minv|].
  apply bind_Ok in H as (r & w1 & Hr & H). apply try_Ok in Hr.
  pose proof (mono_run _ _ _ _ _ same_ca_read Hr) as C1.
  pose proof (mono_run _ _ _ _ _ same_store_read Hr) as S1.
  destruct r as [data|e]; [|by minv].
  apply bind_Ok in H as (now & w2 & Ht & H).
  pose proof (mono_run _ _ _ _ _ (same_ca_lift time_Now) Ht) as C2.
  pose proof (mono_run _ _ _ _ _ (same_store_lift _ same_data_time_Now) Ht) as S2.
  apply bind_Ok in H as (u & w3 & Hu & H). apply modify_Ok in Hu. subst w3.
  destruct (decodeCRLChainStrict data) as [parsed|]; [|by minv].
  apply bind_Ok in H as (issuers & w4 & Hb & H).
  unfold bundleCertificates in Hb. apply bind_Ok in Hb as (bundle & w5 & Hg & Hb).
  apply of_result_Ok in Hb as [Hb ->]. apply wrapping_Ok in Hg.
  pose proof (mono_run _ _ _ _ _ (same_ca_lift GetCACert) Hg) as C4.
  apply lift_Ok in Hg as (s4 & Hg & ->). unfold GetCACert in Hg. apply backend_Ok in Hg as [Hg _].
  apply be_Get_Ok in Hg as [Hg _]; [|by apply on_rows_other].
  destruct (verify_upstream (ca w) issuers parsed) as [verified discarded] eqn:Hv.
  apply bind_Ok in H as (u' & w6 & Hn & H).
  pose proof (mono_run _ _ _ _ _ (same_ca_count_n _ _) Hn) as C6.
  assert (forall crl, crl ∈ dedupeCRLs issuers verified ->
    ownsCRL (ca w) crl = false /\ exists s, signerOf issuers crl = Some s) as Hver.
  { intros crl Hcrl. destruct (dedupeCRLs_spec issuers verified) as (at_ & I1 & _).
    apply I1 in Hcrl. pose proof (verify_upstream_spec (ca w) issuers parsed crl) as HV.
    rewrite Hv in HV. simpl in Hcrl. destruct (HV Hcrl) as (_ & ? & ?). done. }
  apply monotonicUpstream_spec in H as (_ & published & Hp & Hall & Hsig);
    [|intros crl Hcrl; by apply Hver].
  assert (same_ca w w6) as CC.
  { etrans; [exact C1|]. etrans; [exact C2|]. etrans; [|exact C6]. etrans; [|exact C4]. done. }
  rewrite (published_same_ca w w6) in Hp by done.
  exists bundle, issuers, published. split.
  { destruct S1 as (E1 & _), S2 as (E2 & _). simpl in Hg. by rewrite E2, E1 in Hg. }
  split; [done|]. split; [done|]. split.
  - intros crl Hcrl. destruct (Hall crl Hcrl) as (Hwhere & Hs & Hmax). split; [|by split].
    destruct Hwhere as [Hi|Hpub]; [by apply Hver|].
    unfold publishedUpstream in Hp. destruct (decodeCRLChain b); simplify_eq.
    by apply list_elem_of_filter in Hpub as [? _].
  - rewrite Hsig. apply dedupe_nodup.
Qed.

(** What the operator's chain file can do to the published upstream CRLs.
    When the file is taken up, every CRL to be published is signed by a
    certificate of the stored CA bundle and not by this CA, at most one is
    published per signer, and none is older than a CRL of the same signer that
    is already published: a stale or rolled-back file cannot un-revoke anything
    an ancestor has revoked. *)
Theorem upstreamCRLs_monotone b pass w crls w' :
  upstreamCRLs b pass w = (Ok (crls, true), w') ->
  exists bundle issuers published,
    blobs (be (st w)) !! KeyCACert = Some bundle /\ ParseCABundle bundle = Ok issuers /\
    publishedUpstream (ca w) b = Ok published /\
    (forall crl, crl ∈ crls ->
       ownsCRL (ca w) crl = false /\ (exists s, signerOf issuers crl = Some s) /\
       forall p, p ∈ published -> signerOf issuers p = signerOf issuers crl ->
         newerCRL p crl = false) /\
    NoDup (omap (signerOf issuers) crls).
Proof. apply upstreamCRLs_spec. Qed.
