(* ===== verification/CRL.v ===== *)
(** * The CRL: signing, caching, refreshing, and revoking one serial

    Models internal/ca/crl.go, crlsync.go, [loadCRLCache] of init.go,
    [RefreshCRLChainFile] of crlchainfile.go, [ResignStoredCRL] of
    cabundle.go, and the serial half of revoke.go. *)

From S2P Require Import Prelude GoStrings GoTime Sha256 X509 Inventory Storage InventorySpec.
From S2P Require Import Policy CAState CRLChain.

(** ** The OCSP cache entries of a serial (ocsp.go) *)

Definition evict_ocsp (serial : string) (m : gmap (string * hash) ocspCacheEntry)
    : gmap (string * hash) ocspCacheEntry :=
  fold_left (fun m h => delete (serial, h) m) ocspCacheHashes m.
Definition evictOCSPLocked (serial : string) (c : CA) : CA :=
  set_ocspCache (evict_ocsp serial (ocspCache c)) c.

(** ** Installing a CRL in memory *)

Definition revoked_serials (crl : RevocationList) : list Z :=
  map rle_SerialNumber (RevokedCertificateEntries crl).

(** Drop the cached answers of every serial the new CRL adds. *)
Definition invalidateOCSPForNewlyRevokedLocked (previous : option RevocationList)
    (current : RevocationList) (c : CA) : CA :=
  let was := match previous with
             | None => []
             | Some p => map serialHexStr (revoked_serials p)
             end in
  fold_left (fun c serial =>
    let key := serialHexStr serial in
    if bool_decide (key ∈ was) then c else evictOCSPLocked key c) (revoked_serials current) c.

Definition installCachedCRLLocked (next : RevocationList) (c : CA) : CA :=
  invalidateOCSPForNewlyRevokedLocked (cachedCRL c) next (set_cachedCRL (Some next) c).

(** ** Reading the stored CRL *)

Record storedCRL := mkStored { own : RevocationList; sc_blob : blob }.

Definition parseStoredCRL : MW storedCRL :=
  crlPEM ← wrapping "failed to load CRL" (lift GetCRL);
  match pem_Decode crlPEM with
  | (None, _) => fail (Msg "failed to decode CRL PEM")
  | (Some block, _) =>
      match ParseRevocationList (Bytes block) with
      | Err e => fail (Wrap "failed to parse CRL" [e])
      | Ok crl =>
          c ← get_ca id;
          if negb (ownsCRL c crl) then fail (Sentinel ErrForeignStoredCRL)
          else match selectOwnCRL c crlPEM with
          | Ok (Some newest, _) =>
              mret (mkStored (if newerCRL newest crl then newest else crl) crlPEM)
          | _ => mret (mkStored crl crlPEM)
          end
      end
  end.

Definition readStoredCRL : MW storedCRL := counting crlUpdateFailures parseStoredCRL.

(** ** Signing a new CRL *)

(** Sign with the CA certificate and key, both loaded. *)
Definition create_crl (number : Z) (revoked : list RevocationListEntry) (now : Time)
    (validity : Duration) : MW RevocationList :=
  c ← get_ca id;
  _ ← signer_available;
  match CACert c, CAKey c with
  | Some cert, Some key =>
      of_result (CreateRevocationList (Some number) revoked now (now + validity) cert key)
  | _, _ => fail (Sentinel ErrNotInitialized)
  end.

Definition signCRLLocked (prev : storedCRL) (revoked : list RevocationListEntry) : MW unit :=
  let nextNum := match Number (own prev) with Some n => n + 1 | None => 1 end in
  c ← get_ca id;
  now ← lift time_Now;
  _ ← counting crlUpdateFailures
        (wrapping "waiting for a CA signing slot to re-sign the CRL" acquireSigningSlot);
  parsedCRL ← counting crlUpdateFailures
        (wrapping "failed to sign CRL" (create_crl nextNum revoked now (CRLValidityDuration (cfg c))));
  r ← try (crlChainLocked parsedCRL (sc_blob prev));
  match r with
  | Err e =>
      _ ← when (negb (errors_Is e ErrChainFileFault)) (count crlUpdateFailures); fail e
  | Ok newCRLPEM =>
      _ ← counting crlUpdateFailures (wrapping "failed to write CRL" (lift (UpdateCRL newCRLPEM)));
      _ ← upd_ca (installCachedCRLLocked parsedCRL);
      upd_ca (set_crlNotify true)
  end.

(** A fresh CRL with number 1 and no entries. *)
Definition newEmptyCRL (cert : Certificate) (key : PublicKey) (validity : Duration)
    : MW RevocationList :=
  now ← lift time_Now;
  _ ← signer_available;
  wrapping "failed to create initial CRL"
    (of_result (CreateRevocationList (Some 1) [] now (now + validity) cert key)).

(** A lock that is never obtained counts as a failed CRL update; a body that
    ran does its own counting. *)
Definition withCRLLockCounted {A} (fn : MW A) : MW A :=
  '(r, ran) ← WithLockRan lockNameCRL fn;
  match r with
  | Ok a => mret a
  | Err e => _ ← when (negb ran) (count crlUpdateFailures); fail e
  end.

Definition reissueCRLLocked : MW unit :=
  stored ← readStoredCRL;
  signCRLLocked stored (RevokedCertificateEntries (own stored)).

Definition ReissueCRL : MW unit := withCRLLockCounted reissueCRLLocked.

(** [time.Until(t) > d]. *)
Definition RefreshCRLIfDue (refreshBefore : Duration) : MW bool :=
  withCRLLockCounted
    (stored ← readStoredCRL;
     now ← lift time_Now;
     if refreshBefore <? time_Sub (NextUpdate (own stored)) now then
       c ← get_ca id;
       let newer :=
         match Number (own stored), cachedCRL c with
         | None, _ => false
         | Some _, None => true
         | Some n, Some cached => match Number cached with None => true | Some m => m <? n end
         end in
       _ ← when newer (upd_ca (installCachedCRLLocked (own stored)));
       mret false
     else
       _ ← signCRLLocked stored (RevokedCertificateEntries (own stored));
       mret true).

(** ** Refreshing the in-memory CRL *)

Definition SyncCRLCache : MW bool :=
  b ← counting crlSyncFailures (wrapping "failed to load CRL" (lift GetCRL));
  c ← get_ca id;
  match selectOwnCRL c b with
  | Err e => _ ← count crlSyncFailures; fail (Wrap "decoding the stored CRL chain" [e])
  | Ok (None, _) => _ ← count crlSyncFailures; fail (Msg "the stored CRL chain holds no CRL of this CA")
  | Ok (Some ours, _) =>
      match cachedCRL c with
      | Some cached =>
          if bool_decide (ours = cached) then mret false
          else if ownsCRL c cached && negb (newerCRL ours cached) then mret false
          else _ ← upd_ca (installCachedCRLLocked ours); mret true
      | None => _ ← upd_ca (installCachedCRLLocked ours); mret true
      end
  end.

Definition loadCRLCache : MW unit :=
  crlPEM ← wrapping "reading CRL" (lift GetCRL);
  match pem_Decode crlPEM with
  | (None, _) => fail (Msg "CRL is empty or not PEM-encoded")
  | (Some block, _) =>
      match ParseRevocationList (Bytes block) with
      | Err e => fail (Wrap "parsing CRL" [e])
      | Ok crl =>
          c ← get_ca id;
          let chosen :=
            match selectOwnCRL c crlPEM with
            | Ok (Some newest, position) =>
                if 0 <? position then newest else if newerCRL newest crl then newest else crl
            | _ => crl
            end in
          upd_ca (installCachedCRLLocked chosen)
      end
  end.

(** [(number, ok)] of the CRL in memory, and its summary. *)
Definition CachedCRLNumber (c : CA) : option Z := crl ← cachedCRL c; Number crl.
Definition CRLSnapshot (c : CA) : option (option Z * Time * nat) :=
  crl ← cachedCRL c; Some (Number crl, NextUpdate crl, length (RevokedCertificateEntries crl)).

(** ** Publishing a changed chain file *)

Definition RefreshCRLChainFile : MW bool :=
  c ← get_ca id;
  if bool_decide (CRLChainFile (cfg c) = "") then mret false
  else
    '(r, _) ← WithLockRan lockNameCRL
      (current ← try (wrapping "reading the stored CRL" (lift GetCRL));
       match current with
       | Err e => mret (Some (e, false), false)
       | Ok current =>
           u ← try (upstreamCRLs current decidingUpstream);
           match u with
           | Err e => mret (Some (e, false), false)
           | Ok (_, false) => mret (None, false)
           | Ok (wanted, true) =>
               match publishedUpstream c current with
               | Err e => mret (Some (e, false), false)
               | Ok storedUpstream =>
                   if sameCRLSet storedUpstream wanted then mret (None, false)
                   else
                     x ← try reissueCRLLocked;
                     match x with
                     | Err e => mret (Some (e, true), true)
                     | Ok _ => mret (None, true)
                     end
               end
           end
       end);
    match r with
    | Err e => _ ← count crlUpdateFailures; fail e
    | Ok (Some (e, counted), _) =>
        _ ← when (negb (errors_Is e ErrChainFileFault) && negb counted) (count crlUpdateFailures);
        fail e
    | Ok (None, rewritten) => mret rewritten
    end.

(** The stored entries re-signed under another certificate and key, for an
    import; no stored CRL yields nothing. *)
Definition ResignStoredCRL (cert : Certificate) (signer : PublicKey) (validity : Duration)
    : MW (option blob) :=
  r ← try (lift GetCRL);
  match r with
  | Err e =>
      if errors_Is e FsErrNotExist then mret None else fail (Wrap "reading the existing CRL" [e])
  | Ok existing =>
      match pem_Decode existing with
      | (None, _) => fail (Msg "the stored CRL is not PEM-encoded")
      | (Some block, _) =>
          old ← wrapping "parsing the existing CRL" (of_result (ParseRevocationList (Bytes block)));
          let next := match Number old with Some n => n + 1 | None => 1 end in
          now ← lift time_Now;
          _ ← signer_available;
          crl ← wrapping "re-signing the CRL under the imported certificate"
                  (of_result (CreateRevocationList (Some next) (RevokedCertificateEntries old)
                     now (now + validity) cert signer));
          mret (Some (encodeCRLChain [crl]))
      end
  end.

(** ** Revoking one serial (revoke.go) *)

Definition markCertRevokedIndex (serialStr : string) (at_ : Time) : MW unit :=
  ignore (lift (MarkCertRevoked serialStr at_)).

Definition serialInCRL (crl : RevocationList) (serial : Z) : bool :=
  existsb (fun e => rle_SerialNumber e =? serial) (RevokedCertificateEntries crl).

Definition find_revocation (serial : Z) (entries : list RevocationListEntry)
    : option RevocationListEntry :=
  head (base.filter (fun e => rle_SerialNumber e = serial) entries).

Definition revokeSerialLocked (serialStr : string) : MW unit :=
  match SetString16 serialStr with
  | None => _ ← count crlUpdateFailures; fail (Msg "malformed serial")
  | Some serialInt =>
      stored ← readStoredCRL;
      match find_revocation serialInt (RevokedCertificateEntries (own stored)) with
      | Some entry => markCertRevokedIndex serialStr (RevocationTime entry)
      | None =>
          now ← lift time_Now;
          _ ← signCRLLocked stored
                (RevokedCertificateEntries (own stored) ++ [RLE serialInt now]);
          _ ← markCertRevokedIndex serialStr now;
          upd_ca (evictOCSPLocked (serialHexStr serialInt))
      end
  end.

Definition IsRevokedSerial (serial : Z) : MW bool :=
  crl ← get_ca cachedCRL;
  match crl with
  | None => fail (Msg "CRL not loaded")
  | Some crl => mret (serialInCRL crl serial)
  end.

(** For display: no certificate or no CRL reads as not revoked. *)
Definition IsRevoked (subject : string) : MW bool :=
  r ← try (lift (GetCert subject));
  match r with
  | Err _ => mret false
  | Ok pem =>
      match decode_cert pem with
      | None => mret false
      | Some cert =>
          crl ← get_ca cachedCRL;
          mret (match crl with None => false | Some crl => serialInCRL crl (SerialNumber cert) end)
      end
  end.

(** ** Lemmas *)

(** The stored CRL blob is the encoding of a chain, as every writer of it
    produces. *)
Definition stored_chain (w : World) (chain : list RevocationList) : Prop :=
  blobs (be (st w)) !! KeyCRL = Some (encodeCRLChain chain).

Lemma stored_chain_inj w c1 c2 : stored_chain w c1 -> stored_chain w c2 -> c1 = c2.
Proof.
  unfold stored_chain. intros E1 E2. rewrite E1 in E2. injection E2 as E.
  pose proof (decode_encode c1) as D1. rewrite E, decode_encode in D1. by simplify_eq.
Qed.

Lemma serialInCRL_spec crl n : serialInCRL crl n = true <-> n ∈ revoked_serials crl.
Proof.
  unfold serialInCRL, revoked_serials. rewrite existsb_exists_elem, list_elem_of_fmap.
  setoid_rewrite Z.eqb_eq. naive_solver.
Qed.
Lemma serialInCRL_false crl n : serialInCRL crl n = false <-> n ∉ revoked_serials crl.
Proof. rewrite <- serialInCRL_spec. by destruct (serialInCRL crl n). Qed.

Lemma counting_Ok {A} name (m : MW A) w a w' : counting name m w = (Ok a, w') -> m w = (Ok a, w').
Proof. unfold counting. intros H. minv. done. Qed.

Lemma mono_counting {A} (R : relation World) `{!PreOrder R} name (m : MW A) :
  mono R (count name) -> mono R m -> mono R (counting name m).
Proof. intros Hc Hm. unfold counting. mono_tac. Qed.

Lemma WithLockRan_Ok {A} name (fn : MW A) w r ran w' :
  WithLockRan name fn w = (Ok (r, ran), w') ->
  (ran = false /\ (exists e, r = Err e) /\ same_ca w w' /\ same_store w w' /\ ca w' = ca w) \/
  (ran = true /\ exists w1, ca w1 = ca w /\ same_store w w1 /\ fn w1 = (r, w')).
Proof.
  unfold WithLockRan. intros H. apply bind_Ok in H as (l & w1 & Hl & H). apply try_Ok in Hl.
  apply lift_run in Hl as (s1 & Hl & ->).
  assert (same_data (st w) s1) as HS.
  { eapply (mono_run same_data); [|exact Hl]. apply WithLock_same. mono_tac. }
  destruct l as [u|e].
  - right. apply bind_Ok in H as (a & w2 & Ha & H). apply try_Ok in Ha.
    apply ret_Ok in H as [E ->]. simplify_eq. split; [done|]. eexists. by split_and!; [| |exact Ha].
  - apply ret_Ok in H as [E ->]. simplify_eq. left. repeat split; try done; try (by eexists); apply HS.
Qed.

Lemma parseStored_spec w stored w' chain :
  stored_chain w chain -> parseStoredCRL w = (Ok stored, w') ->
  ca w' = ca w /\ same_store w w' /\ sc_blob stored = encodeCRLChain chain /\
  ownCRLIn chain (CACert (ca w)) = Some (own stored) /\ ownsCRL (ca w) (own stored) = true.
Proof.
  intros Hst. unfold parseStoredCRL. intros H.
  apply bind_Ok in H as (pem & w1 & Hg & H). apply wrapping_Ok in Hg.
  apply lift_Ok in Hg as (s1 & Hg & ->).
  assert (same_data (st w) s1) as HS.
  { eapply (mono_run same_data); [|exact Hg]. unfold GetCRL. mono_tac. }
  unfold GetCRL in Hg. apply backend_Ok in Hg as [Hg _].
  apply be_Get_Ok in Hg as [Hg _]; [|by apply on_rows_other].
  rewrite Hst in Hg. injection Hg as <-.
  destruct chain as [|lead rest]; [done|].
  cbn [encodeCRLChain map pem_encode pem_Decode ParseRevocationList Bytes] in H.
  apply bind_Ok in H as (c & w2 & Hc & H). apply gets_Ok in Hc as [-> ->]. cbn [id ca set_st] in H.
  destruct (ownsCRL (ca w) lead) eqn:Hown; [|by apply fail_Ok in H]. cbn [negb] in H.
  change (BPem _ _) with (encodeCRLChain (lead :: rest)) in H.
  unfold selectOwnCRL in H. rewrite decode_encode in H.
  destruct (ownCRLIn_cons (CACert (ca w)) lead rest Hown) as (o & Ho & Hlead).
  rewrite Ho in H. apply ret_Ok in H as [-> ->]. cbn [own sc_blob].
  split; [done|]. split; [done|]. split; [done|].
  replace (if newerCRL o lead then o else lead) with o
    by (destruct Hlead as [->| ->]; by repeat case_match).
  split; [done|]. by apply ownCRLIn_Some in Ho as (_ & ? & _).
Qed.

Lemma same_ca_upd f :
  (forall c, CACert (f c) = CACert c /\ CAKey (f c) = CAKey c /\ cfg (f c) = cfg c) ->
  mono same_ca (upd_ca f).
Proof. intros H. apply mono_upd_ca. intros w. apply H. Qed.

(** The chain a re-signing publishes: our CRL, then no other CRL of ours; with
    no chain file, exactly the foreign blocks already stored. *)
Lemma crlChainLocked_spec crl b w out w' :
  crlChainLocked crl b w = (Ok out, w') ->
  same_core w w' /\ same_store w w' /\
  exists others, out = encodeCRLChain (crl :: others) /\
    (forall x, x ∈ others -> ownsCRL (ca w) x = false) /\
    (CRLChainFile (cfg (ca w)) = "" -> forall stored, decodeCRLChain b = Ok stored ->
       others = base.filter (fun x => ownsCRL (ca w) x = false) stored).
Proof.
  unfold crlChainLocked, get_ca. intros H.
  apply bind_Ok in H as (c & w1 & Hc & H). apply gets_Ok in Hc as [-> ->]. cbn [id] in H.
  apply bind_Ok in H as ([up stated] & w1 & Hu & H).
  pose proof (mono_run _ _ _ _ _ (upstreamCRLs_same_core _ _) Hu) as C1.
  pose proof (mono_run _ _ _ _ _ (upstreamCRLs_same_store _ _) Hu) as S1.
  destruct stated.
  - apply ret_Ok in H as [-> ->]. split; [done|]. split; [done|]. exists up. split; [done|].
    assert (CRLChainFile (cfg (ca w)) <> "") as Hf.
    { intros E. unfold upstreamCRLs, get_ca in Hu. minv. rewrite E in *. by minv. }
    apply upstreamCRLs_spec in Hu as (bundle & issuers & published & _ & _ & _ & Hall & _).
    split; [|done]. intros x Hx. by apply Hall.
  - apply bind_Ok in H as (stored & w2 & Hs & H). apply of_result_Ok in Hs as [Hs ->].
    apply ret_Ok in H as [-> ->]. split; [done|]. split; [done|]. eexists. split; [done|].
    destruct (decodeCRLChain b) as [l|]; simplify_eq. split; [|intros; by simplify_eq].
    intros x Hx. by apply list_elem_of_filter in Hx as [? _].
Qed.

Lemma create_crl_spec number revoked now validity w crl w' :
  create_crl number revoked now validity w = (Ok crl, w') ->
  ca w' = ca w /\ same_store w w' /\
  exists cert key, CACert (ca w) = Some cert /\ CAKey (ca w) = Some key /\
    CreateRevocationList (Some number) revoked now (now + validity) cert key = Ok crl.
Proof.
  unfold create_crl, get_ca, signer_available. intros H.
  apply bind_Ok in H as (c & w1 & Hc & H). apply gets_Ok in Hc as [-> ->]. cbn [id] in H.
  apply bind_Ok in H as (u & w1 & Hs & H). apply lift_Ok in Hs as (s1 & Hs & ->).
  pose proof (mono_run _ _ _ _ _ (same_data_external _) Hs) as HS.
  destruct (CACert (ca w)) as [cert|] eqn:E1; [|by apply fail_Ok in H].
  destruct (CAKey (ca w)) as [key|] eqn:E2; [|by apply fail_Ok in H].
  apply of_result_Ok in H as [H ->]. split; [done|]. split; [done|]. eauto 10.
Qed.

Lemma UpdateCRL_Ok b s u s' :
  UpdateCRL b s = (Ok u, s') ->
  blobs (be s') !! KeyCRL = Some b /\
  (forall k, k <> KeyCRL -> blobs (be s') !! k = blobs (be s) !! k) /\
  rows (be s') = rows (be s) /\ structured (be s') = structured (be s) /\ hmacKey s' = hmacKey s.
Proof.
  unfold UpdateCRL. intros (H & Hk & _)%backend_Ok. unfold be_Put, guarded in H.
  change (validateKey KeyCRL) with (@None error) in H. rewrite on_rows_other in H by done.
  injection H as _ Hb. rewrite <- Hb. simpl. split; [by rewrite lookup_insert_eq|].
  split; [|done]. intros k Hne. by rewrite lookup_insert_ne.
Qed.

Lemma install_fields next c :
  let c' := installCachedCRLLocked next c in
  CACert c' = CACert c /\ CAKey c' = CAKey c /\ cfg c' = cfg c /\ cachedCRL c' = Some next /\
  serialIndex c' = serialIndex c /\ serialIndexEpoch c' = serialIndexEpoch c /\
  serialIndexRemovalEpoch c' = serialIndexRemovalEpoch c.
Proof.
  unfold installCachedCRLLocked, invalidateOCSPForNewlyRevokedLocked.
  generalize (match cachedCRL c with None => [] | Some p => map serialHexStr (revoked_serials p) end).
  intros was. generalize (revoked_serials next). intros l.
  assert (forall c0, cachedCRL c0 = Some next ->
    let c' := fold_left (fun c serial => if bool_decide (serialHexStr serial ∈ was) then c
              else evictOCSPLocked (serialHexStr serial) c) l c0 in
    CACert c' = CACert c0 /\ CAKey c' = CAKey c0 /\ cfg c' = cfg c0 /\ cachedCRL c' = Some next /\
    serialIndex c' = serialIndex c0 /\ serialIndexEpoch c' = serialIndexEpoch c0 /\
    serialIndexRemovalEpoch c' = serialIndexRemovalEpoch c0) as H.
  { induction l as [|x l IH]; intros c0 H0; cbn [fold_left]; [done|].
    case_bool_decide; [by apply IH|]. exact (IH (evictOCSPLocked (serialHexStr x) c0) H0). }
  exact (H (set_cachedCRL (Some next) c) eq_refl).
Qed.

(** *** A successful re-signing *)

Definition next_number (o : RevocationList) : Z :=
  match Number o with Some n => n + 1 | None => 1 end.

Definition blobs_same : relation World := fun w w' =>
  forall k, blobs (be (st w')) !! k = blobs (be (st w)) !! k.

(** What a successful [signCRLLocked] leaves behind. *)
Record signed_ok (prev : storedCRL) (revoked : list RevocationListEntry) (w w' : World)
    (crl : RevocationList) (others : list RevocationList) : Prop := {
  so_ca : same_ca w w';
  so_stored : stored_chain w' (crl :: others);
  so_cached : cachedCRL (ca w') = Some crl;
  so_number : Number crl = Some (next_number (own prev));
  so_serials : revoked_serials crl = map rle_SerialNumber revoked;
  so_signed : exists key, CAKey (ca w) = Some key /\ crl_SignedBy crl = key;
  so_foreign : forall x, x ∈ others -> ownsCRL (ca w) x = false;
  so_others : CRLChainFile (cfg (ca w)) = "" -> forall stored,
    decodeCRLChain (sc_blob prev) = Ok stored ->
    others = base.filter (fun x => ownsCRL (ca w) x = false) stored;
  so_frame : forall k, k <> KeyCRL -> blobs (be (st w')) !! k = blobs (be (st w)) !! k;
  so_rows : rows (be (st w')) = rows (be (st w));
  so_index : serialIndex (ca w') = serialIndex (ca w) }.

Lemma signCRL_spec prev revoked w u w' :
  signCRLLocked prev revoked w = (Ok u, w') -> exists crl others, signed_ok prev revoked w w' crl others.
Proof.
  unfold signCRLLocked, get_ca, acquireSigningSlot. intros H.
  apply bind_Ok in H as (c & w1 & Hc & H). apply gets_Ok in Hc as [-> ->]. cbn [id] in H.
  apply bind_Ok in H as (now & w1 & Ht & H). apply lift_Ok in Ht as (s1 & Ht & ->).
  pose proof (mono_run _ _ _ _ _ same_data_time_Now Ht) as S1.
  apply bind_Ok in H as (u1 & w2 & Hs & H). apply counting_Ok, wrapping_Ok in Hs.
  apply lift_Ok in Hs as (s2 & Hs & ->).
  pose proof (mono_run _ _ _ _ _ (same_data_external _) Hs) as S2. cbn [st set_st] in S2.
  apply bind_Ok in H as (crl & w3 & Hcr & H). apply counting_Ok, wrapping_Ok in Hcr.
  apply create_crl_spec in Hcr as (C3 & S3 & cert & key & Hcert & Hkey & Hcreate).
  cbn [ca set_st] in *.
  apply bind_Ok in H as (r & w4 & Hch & H). apply try_Ok in Hch. destruct r as [out|e]; [|by minv].
  apply crlChainLocked_spec in Hch as (C4 & S4 & others & -> & Hfor & Hoth).
  apply bind_Ok in H as (u5 & w5 & Hup & H). apply counting_Ok, wrapping_Ok in Hup.
  apply lift_Ok in Hup as (s5 & Hup & ->). apply UpdateCRL_Ok in Hup as (Hb & Hfr & Hrows & _).
  apply bind_Ok in H as (u6 & w6 & Hi & H). apply modify_Ok in Hi. apply modify_Ok in H. subst w6 w'.
  apply CreateRevocationList_Ok in Hcreate as (Hnum & _ & Hser & _ & _ & Hsig).
  rewrite C3 in Hfor, Hoth. cbn [ca set_st] in Hfor, Hoth.
  assert (same_core w w4) as C. { etrans; [|exact C4]. unfold same_core. by rewrite C3. }
  assert (be (st w4) = be (st w)) as EB.
  { destruct S4 as (E4 & _), S3 as (E3 & _), S2 as (E2 & _), S1 as (E1 & _).
    rewrite E4, E3. cbn [st set_st]. by rewrite E2, E1. }
  pose proof (install_fields crl (ca w4)) as (F1 & F2 & F3 & F4 & F5 & _).
  exists crl, others. constructor; cbn [st ca set_ca set_st set_crlNotify CACert CAKey cfg cachedCRL serialIndex].
  - apply same_core_ca in C as (? & ? & ?). unfold same_ca.
    cbn [ca set_ca set_crlNotify CACert CAKey cfg]. rewrite F1, F2, F3. done.
  - exact Hb.
  - exact F4.
  - exact Hnum.
  - exact Hser.
  - eauto.
  - exact Hfor.
  - exact Hoth.
  - intros k Hk. by rewrite (Hfr k Hk), EB.
  - by rewrite Hrows, EB.
  - rewrite F5. unfold same_core, core in C. by simplify_eq.
Qed.

(** *** Revoking a serial *)

Lemma find_revocation_Some n l e :
  find_revocation n l = Some e -> e ∈ l /\ rle_SerialNumber e = n.
Proof.
  unfold find_revocation. intros H.
  assert (e ∈ base.filter (fun e => rle_SerialNumber e = n) l) as He
    by (destruct (base.filter _ l); simplify_eq/=; by left).
  by apply list_elem_of_filter in He as [? ?].
Qed.

Lemma newer_next o crl : Number crl = Some (next_number o) -> newerCRL crl o = true.
Proof.
  unfold newerCRL, next_number. intros ->. destruct (Number o); [|done]. apply Z.ltb_lt. lia.
Qed.

(** The index update changes rows only. *)
Definition blobs_frame : relation World := fun w w' =>
  blobs (be (st w')) = blobs (be (st w)) /\ ca w' = ca w.
#[global] Instance blobs_frame_preorder : PreOrder blobs_frame.
Proof. split; [done|]. intros ? ? ? (?&?) (?&?). split; congruence. Qed.

Lemma mark_frame s t : mono blobs_frame (markCertRevokedIndex s t).
Proof.
  unfold markCertRevokedIndex. apply mono_ignore; [typeclasses eauto|].
  apply (mono_lift _ (fun s s' => blobs (be s') = blobs (be s))); [|done].
  unfold MarkCertRevoked, on_index, is_structured. intros x. unfold exec, mbind, M_bind, gets.
  destruct (structured (be x)); [|done].
  destruct (backend _ x) as [r x'] eqn:E. apply backend_cases in E as (_ & _ & E).
  simpl. destruct E as [[_ ->]|(e & _ & [->| ->])]; done.
Qed.

Lemma signed_by_owner cert key crl old c :
  key_matches c -> CACert c = Some cert -> CAKey c = Some key -> crl_SignedBy crl = key ->
  ownsCRL c old = true -> ownsCRL c crl = true.
Proof.
  intros Hm Hc Hk Hs. unfold ownsCRL, crlSignedBy, crl_CheckSignatureFrom. rewrite Hc.
  rewrite (Hm cert key Hc Hk) in Hs. intros [-> _]%andb_true_iff. simpl.
  by apply bool_decide_eq_true.
Qed.

(** The chain after a successful re-signing, seen from its reader. *)
Lemma signed_ok_own prev revoked w w' crl others :
  key_matches (ca w) -> ownsCRL (ca w) (own prev) = true ->
  signed_ok prev revoked w w' crl others ->
  ownsCRL (ca w) crl = true /\ ownCRLIn (crl :: others) (CACert (ca w')) = Some crl /\
  newerCRL crl (own prev) = true.
Proof.
  intros Hm Ho S. destruct (so_signed _ _ _ _ _ _ S) as (key & Hk & Hs).
  assert (exists cert, CACert (ca w) = Some cert) as [cert Hc].
  { unfold ownsCRL, crlSignedBy in Ho. destruct (CACert (ca w)); [by eauto|done]. }
  assert (ownsCRL (ca w) crl = true) as Hown
    by (by apply (signed_by_owner cert key crl (own prev))).
  split; [done|]. split; [|apply newer_next, (so_number _ _ _ _ _ _ S)].
  destruct (so_ca _ _ _ _ _ _ S) as (-> & _). apply ownCRLIn_lead; [exact Hown|].
  apply (so_foreign _ _ _ _ _ _ S).
Qed.

(** What a successful revocation of a serial leaves in storage. *)
Lemma revokeSerial_spec s n w w' chain old :
  key_matches (ca w) -> stored_chain w chain -> ownCRLIn chain (CACert (ca w)) = Some old ->
  SetString16 s = Some n -> revokeSerialLocked s w = (Ok tt, w') ->
  exists chain' new,
    stored_chain w' chain' /\ ownCRLIn chain' (CACert (ca w')) = Some new /\
    n ∈ revoked_serials new /\ (forall m, m ∈ revoked_serials old -> m ∈ revoked_serials new) /\
    ((chain' = chain /\ new = old) \/
     (newerCRL new old = true /\ cachedCRL (ca w') = Some new /\
      revoked_serials new = revoked_serials old ++ [n] /\
      exists others, chain' = new :: others /\
        (CRLChainFile (cfg (ca w)) = "" ->
         others = base.filter (fun x => ownsCRL (ca w) x = false) chain))).
Proof.
  intros Hm Hst Hold Hn H. unfold revokeSerialLocked in H. rewrite Hn in H.
  apply bind_Ok in H as (stored & w1 & Hr & H). apply counting_Ok in Hr.
  eapply parseStored_spec in Hr as (C1 & S1 & Hblob & Hown & Howns); [|exact Hst].
  rewrite Hold in Hown. injection Hown as ->.
  destruct (find_revocation n _) as [e|] eqn:Hf.
  - pose proof (mono_run _ _ _ _ _ (mark_frame _ _) H) as (Eb & Ec).
    exists chain, (own stored). rewrite Ec, C1. unfold stored_chain. rewrite Eb.
    destruct S1 as (-> & _). split; [exact Hst|]. split; [done|]. split; [|by split; [|left]].
    apply find_revocation_Some in Hf as [He <-]. unfold revoked_serials.
    by apply list_elem_of_fmap_2.
  - apply bind_Ok in H as (now & w2 & Ht & H). apply lift_Ok in Ht as (s2 & _ & ->).
    apply bind_Ok in H as (u & w3 & Hs & H).
    apply bind_Ok in H as (u' & w4 & Hmk & H). apply modify_Ok in H. subst w'.
    apply signCRL_spec in Hs as (crl & others & S).
    destruct (fun H1 H2 => signed_ok_own _ _ _ _ _ _ H1 H2 S) as (Hcown & Hlead & Hnew);
      [cbn [ca set_st]; by rewrite C1..|].
    pose proof (mono_run _ _ _ _ _ (mark_frame _ _) Hmk) as (Eb & Ec).
    assert (revoked_serials crl = revoked_serials (own stored) ++ [n]) as Hrs.
    { rewrite (so_serials _ _ _ _ _ _ S), map_app. done. }
    exists (crl :: others), crl. unfold stored_chain. cbn [ca st set_ca]. rewrite Eb, Ec.
    split; [exact (so_stored _ _ _ _ _ _ S)|]. split; [exact Hlead|].
    rewrite Hrs. split; [apply elem_of_app; right; by left|].
    split; [intros m Hx; apply elem_of_app; by left|]. right. split; [exact Hnew|].
    split; [exact (so_cached _ _ _ _ _ _ S)|]. split; [done|].
    exists others. split; [done|]. intros Hcf. rewrite <- C1.
    apply (so_others _ _ _ _ _ _ S); [cbn [ca set_st]; by rewrite C1|].
    by rewrite Hblob, decode_encode.
Qed.

(** C6: revoking a serial publishes it and loses nothing.  After a successful
    revocation the CRL this CA has stored lists the serial and every serial it
    listed before.  Either the serial was already listed and the chain is
    untouched, or a strictly newer CRL of this CA leads the chain, is the one
    in memory, lists exactly the old serials followed by the new one, and (with
    no chain file) is followed by exactly the foreign CRLs that were stored. *)
Theorem revokeSerialLocked_publishes s n w w' chain old :
  key_matches (ca w) -> stored_chain w chain -> ownCRLIn chain (CACert (ca w)) = Some old ->
  SetString16 s = Some n -> revokeSerialLocked s w = (Ok tt, w') ->
  exists chain' new,
    stored_chain w' chain' /\ ownCRLIn chain' (CACert (ca w')) = Some new /\
    n ∈ revoked_serials new /\ (forall m, m ∈ revoked_serials old -> m ∈ revoked_serials new) /\
    ((chain' = chain /\ new = old) \/
     (newerCRL new old = true /\ cachedCRL (ca w') = Some new /\
      revoked_serials new = revoked_serials old ++ [n] /\
      exists others, chain' = new :: others /\
        (CRLChainFile (cfg (ca w)) = "" ->
         others = base.filter (fun x => ownsCRL (ca w) x = false) chain))).
Proof. apply revokeSerial_spec. Qed.
