(* ===== verification/OCSP.v ===== *)
(** * The serial index and the OCSP responder

    Models internal/ca/ocsp.go and serialsync.go.  [AnswerOCSP] and
    [SyncSerialIndex] release the CA's mutex between their locked sections, so
    each section is an action of its own and the invariants are proved for the
    sections separately: they hold however other operations interleave.

    An OCSP request arrives parsed (golang.org/x/crypto/ocsp does that); the
    issuer hashes it carries are symbolic, a pair of algorithm and preimage. *)

From S2P Require Import Prelude GoStrings GoTime X509 Inventory Storage InventorySpec Policy.
From S2P Require Import CAState CRLChain CRL.

(** ** The serial index *)

Definition readSerialIndex : MW (gmap string string) :=
  entries ← lift InventoryEntries;
  mret (fold_left (fun index e =>
    match SetString16 (ie_Serial e) with
    | None => index
    | Some n => <[serialHexStr n := ie_Subject e]> index
    end) entries ∅).

Definition buildSerialIndex : MW unit :=
  index ← readSerialIndex; upd_ca (set_serialIndex index).

Definition bump_epoch (c : CA) : CA :=
  set_epochs (inc64 (serialIndexEpoch c)) (serialIndexRemovalEpoch c) c.
Definition bump_removal (c : CA) : CA :=
  set_epochs (serialIndexEpoch c) (inc64 (serialIndexRemovalEpoch c)) c.

Definition indexSerialLocked (serial subject : string) (c : CA) : CA :=
  bump_epoch (set_serialIndex (<[serial := subject]> (serialIndex c)) c).
Definition dropSerialLocked (serial : string) (c : CA) : CA :=
  bump_removal (evictOCSPLocked serial (set_serialIndex (delete serial (serialIndex c)) c)).
Definition unindexSerialLocked (serial : string) (c : CA) : CA :=
  bump_epoch (dropSerialLocked serial c).

Record SerialIndexDelta := mkDelta { Added : nat; Removed : nat; Total : nat }.

(** The additions of a reconciliation, one inventory serial at a time. *)
Definition add_serial (acc : gmap string string * nat) (kv : string * string)
    : gmap string string * nat :=
  let '(index, added) := acc in let '(serial, subject) := kv in
  match index !! serial with
  | None => (<[serial := subject]> index, S added)
  | Some known =>
      (if bool_decide (known = subject) then index else <[serial := subject]> index, added)
  end.
Definition add_serials (l : list (string * string)) (start : gmap string string * nat)
    : gmap string string * nat := fold_left add_serial l start.

(** The removals: every indexed serial the inventory no longer lists. *)
Definition drop_serials (stored : gmap string string) (l : list string) (start : CA * nat)
    : CA * nat :=
  fold_left (fun '(c, removed) serial =>
    match stored !! serial with
    | Some _ => (c, removed)
    | None => (dropSerialLocked serial c, S removed)
    end) l start.

Definition reconcileSerialIndexLocked (stored : gmap string string) (readEpoch readRemovalEpoch : Z)
    (c : CA) : CA * SerialIndexDelta :=
  let raced := negb (serialIndexEpoch c =? readEpoch) in
  let sawRemoval := negb (serialIndexRemovalEpoch c =? readRemovalEpoch) in
  let '(index, added) :=
    if sawRemoval then (serialIndex c, O)
    else add_serials (map_to_list stored) (serialIndex c, O) in
  let c1 := set_serialIndex index c in
  let c2 := if bool_decide (0 < added)%nat then bump_epoch c1 else c1 in
  let '(c3, removed) :=
    if raced then (c2, O)
    else drop_serials stored (map fst (map_to_list (serialIndex c2))) (c2, O) in
  (c3, mkDelta added removed (size (serialIndex c3))).

(** First locked section: the epochs; then the inventory read; then, under the
    lock again, the reconciliation. *)
Definition sync_begin : MW (Z * Z) :=
  get_ca (fun c => (serialIndexEpoch c, serialIndexRemovalEpoch c)).
Definition sync_end (stored : gmap string string) (epochs : Z * Z) : MW SerialIndexDelta := fun w =>
  let '(c, delta) := reconcileSerialIndexLocked stored epochs.1 epochs.2 (ca w) in
  (Ok delta, set_ca c w).
Definition SyncSerialIndex : MW SerialIndexDelta :=
  epochs ← sync_begin;
  stored ← counting serialIndexSyncFailures
    (wrapping "reading the inventory to refresh the OCSP serial index" readSerialIndex);
  sync_end stored epochs.

(** ** OCSP answers *)

Definition OCSPValidity : Duration := 4 * Hour.
Definition maxNonceLen : nat := 34.

Record OCSPRequest := mkReq {
  q_SerialNumber : Z;
  q_HashAlgorithm : hash;
  q_IssuerNameHash : hash * Name;
  q_IssuerKeyHash : hash * PublicKey;
  q_Nonce : option string }.

Definition hash_available (h : hash) : bool := match h with HashOther _ => false | _ => true end.

Definition checkOCSPIssuer (req : OCSPRequest) (issuer : Certificate) : option error :=
  if negb (hash_available (q_HashAlgorithm req)) then
    Some (Msg "OCSP request hash algorithm is not available")
  else if negb (bool_decide (q_IssuerNameHash req = (q_HashAlgorithm req, Subject issuer))) then
    Some (Sentinel ErrNotAuthoritative)
  else if negb (bool_decide (q_IssuerKeyHash req = (q_HashAlgorithm req, PubKey issuer))) then
    Some (Sentinel ErrNotAuthoritative)
  else None.

Definition decideOCSPStatus (crl : option RevocationList) (serial : Z) (known : bool)
    : result (OCSPStatus * Time) :=
  if negb known then Ok (Unknown, zero_time)
  else match crl with
  | None => Err (Msg "CRL not loaded")
  | Some crl =>
      match find_revocation serial (RevokedCertificateEntries crl) with
      | Some e => Ok (Revoked, RevocationTime e)
      | None => Ok (Good, zero_time)
      end
  end.

Definition is_known (c : CA) (serial : string) : bool :=
  bool_decide (is_Some (serialIndex c !! serial)).

Record OCSPAnswer := mkAnswer { DER : OCSPResponse; MaxAge : Duration }.

(** What the first locked section hands to the rest. *)
Inductive lookup_result :=
  | Hit (a : OCSPAnswer)
  | Miss (caCert : Certificate) (caKey : option PublicKey) (known : bool)
         (crlSnapshot : option RevocationList).

Definition effective_nonce (req : OCSPRequest) : option string :=
  match q_Nonce req with
  | Some n => if bool_decide (maxNonceLen < String.length n)%nat then None else Some n
  | None => None
  end.

Definition ocsp_lookup (req : OCSPRequest) : MW lookup_result :=
  let serialHex := serialHexStr (q_SerialNumber req) in
  c ← get_ca id;
  match CACert c with
  | None => fail (Sentinel ErrNotInitialized)
  | Some caCert =>
      _ ← check (match checkOCSPIssuer req caCert with
                 | Some e => Some (Wrap "OCSP request" [e])
                 | None => None
                 end);
      let miss := Miss caCert (CAKey c) (is_known c serialHex) (cachedCRL c) in
      match effective_nonce req with
      | Some _ => mret miss
      | None =>
          match ocspCache c !! (serialHex, q_HashAlgorithm req) with
          | None => mret miss
          | Some entry =>
              now ← lift time_Now;
              if now <? oc_expiresAt entry then
                later ← lift time_Now;
                mret (Hit (mkAnswer (oc_der entry) (time_Sub (oc_expiresAt entry) later)))
              else mret miss
          end
      end
  end.

(** Errors of the responder itself are internal; only a shed request is not. *)
Definition internal {A} (m : MW A) : MW A :=
  r ← try m;
  match r with
  | Ok a => mret a
  | Err e => if errors_Is e ErrSigningBusy then fail e
             else fail (Wrap "internal" [Sentinel ErrInternal; e])
  end.

(** Decide and sign, with no lock held. *)
Definition ocsp_sign (req : OCSPRequest) (caKey : option PublicKey) (known : bool)
    (crlSnapshot : option RevocationList) : MW OCSPResponse :=
  now ← lift time_Now;
  '(status, revokedAt) ← internal (of_result (decideOCSPStatus crlSnapshot (q_SerialNumber req) known));
  _ ← internal acquireSigningSlotOrShed;
  _ ← internal signer_available;
  match caKey with
  | None => fail (Sentinel ErrInternal)
  | Some key =>
      mret (mkOCSP (q_SerialNumber req) status revokedAt now
        (if bool_decide (status = Unknown) then None else Some (now + OCSPValidity))
        (q_HashAlgorithm req) (effective_nonce req) key)
  end.

(** Under the lock again: cache the answer only if the state still says the
    same. *)
Definition ocsp_store (req : OCSPRequest) (resp : OCSPResponse) : MW OCSPAnswer :=
  let serialHex := serialHexStr (q_SerialNumber req) in
  if bool_decide (effective_nonce req = None) && negb (bool_decide (o_Status resp = Unknown))
     && ocspCacheableHash (q_HashAlgorithm req)
  then
    c ← get_ca id;
    match decideOCSPStatus (cachedCRL c) (q_SerialNumber req) (is_known c serialHex) with
    | Ok (stillStatus, stillRevokedAt) =>
        if bool_decide (stillStatus = o_Status resp) && bool_decide (stillRevokedAt = o_RevokedAt resp)
        then
          _ ← upd_ca (fun c => set_ocspCache
                (<[(serialHex, q_HashAlgorithm req) :=
                     mkOCSPEntry resp (o_ThisUpdate resp + OCSPValidity)]> (ocspCache c)) c);
          mret (mkAnswer resp OCSPValidity)
        else mret (mkAnswer resp 0)
    | Err _ => mret (mkAnswer resp 0)
    end
  else mret (mkAnswer resp 0).

Definition AnswerOCSP (req : OCSPRequest) : MW OCSPAnswer :=
  l ← ocsp_lookup req;
  match l with
  | Hit a => mret a
  | Miss _ caKey known crlSnapshot =>
      resp ← ocsp_sign req caKey known crlSnapshot;
      ocsp_store req resp
  end.
Definition OCSPResponse_of (req : OCSPRequest) : MW OCSPResponse :=
  a ← AnswerOCSP req; mret (DER a).

(** ** Cache coherence *)

(** What a cached answer guarantees: it is for the serial it is filed under,
    the serial is indexed, it carries no nonce, and if it says Good then the
    CRL in memory does not list the serial. *)
Definition entry_ok (c : CA) (k : string) (h : hash) (entry : ocspCacheEntry) : Prop :=
  h ∈ ocspCacheHashes /\
  exists n, k = serialHexStr n /\ o_SerialNumber (oc_der entry) = n /\
    is_Some (serialIndex c !! k) /\ o_Nonce (oc_der entry) = None /\
    o_Status (oc_der entry) <> Unknown /\
    (o_Status (oc_der entry) = Good ->
       exists crl, cachedCRL c = Some crl /\ n ∉ revoked_serials crl).

Definition coherent (c : CA) : Prop :=
  forall k h entry, ocspCache c !! (k, h) = Some entry -> entry_ok c k h entry.

Lemma evict_lookup serial m k h :
  evict_ocsp serial m !! (k, h) =
    if decide (k = serial /\ h ∈ ocspCacheHashes) then None else m !! (k, h).
Proof.
  unfold evict_ocsp, ocspCacheHashes. cbn [fold_left]. rewrite !lookup_delete.
  repeat case_decide; simplify_eq; try done; set_solver.
Qed.

Lemma evict_coherent serial c : coherent c -> coherent (evictOCSPLocked serial c).
Proof.
  intros H k h e. unfold evictOCSPLocked. simpl. rewrite evict_lookup.
  case_decide; [done|]. apply H.
Qed.

Lemma find_revocation_None n l : find_revocation n l = None -> n ∉ map rle_SerialNumber l.
Proof.
  unfold find_revocation. intros H [e [-> He]]%list_elem_of_fmap.
  assert (e ∈ base.filter (fun x => rle_SerialNumber x = rle_SerialNumber e) l) as Hin
    by (by apply list_elem_of_filter).
  destruct (base.filter _ l); [by apply elem_of_nil in Hin|done].
Qed.

(** After the loop over the new CRL, no serial it visited and that was not on
    the previous CRL has an entry left. *)
Lemma invalidate_lookup (was : list string) (l : list Z) c k h entry :
  ocspCache (fold_left (fun c serial => if bool_decide (serialHexStr serial ∈ was) then c
               else evictOCSPLocked (serialHexStr serial) c) l c) !! (k, h) = Some entry ->
  ocspCache c !! (k, h) = Some entry /\
  (h ∈ ocspCacheHashes -> forall n, n ∈ l -> k = serialHexStr n -> k ∈ was).
Proof.
  revert c. induction l as [|x l IH]; intros c H; cbn [fold_left] in H.
  { split; [done|]. intros _ n Hn. by apply elem_of_nil in Hn. }
  case_bool_decide as Hx.
  - apply IH in H as [H1 H2]. split; [done|]. intros Hh n [->|Hn]%elem_of_cons Hk; [by subst|by eauto].
  - apply IH in H as [H1 H2]. unfold evictOCSPLocked in H1. cbn [ocspCache set_ocspCache] in H1.
    rewrite evict_lookup in H1. case_decide as Hd; [done|]. split; [done|].
    intros Hh n [->|Hn]%elem_of_cons Hk; [|by eauto]. exfalso. by apply Hd.
Qed.

Lemma install_coherent next c : coherent c -> coherent (installCachedCRLLocked next c).
Proof.
  intros H k h e He. pose proof (install_fields next c) as (_ & _ & _ & F4 & F5 & _).
  unfold installCachedCRLLocked, invalidateOCSPForNewlyRevokedLocked in He.
  apply invalidate_lookup in He as [He Hinv]. cbn [ocspCache set_cachedCRL] in He.
  destruct (H k h e He) as (Hh & n & -> & Hn & Hidx & Hnc & Hst & Hgood).
  split; [done|]. exists n. rewrite F4, F5. split_and!; try done.
  intros Hg. destruct (Hgood Hg) as (crl & Hcrl & Hnot). exists next. split; [done|].
  intros Hin. specialize (Hinv Hh n Hin eq_refl). rewrite Hcrl in Hinv.
  apply list_elem_of_fmap in Hinv as (m & Hm & Hmin). apply hexX_inj in Hm. by subst m.
Qed.

Lemma drop_coherent serial c : coherent c -> coherent (dropSerialLocked serial c).
Proof.
  intros H k h e. unfold dropSerialLocked, bump_removal, evictOCSPLocked, set_epochs, set_ocspCache,
    set_serialIndex. cbn [ocspCache].
  rewrite evict_lookup. case_decide as Hd; [done|]. intros He.
  destruct (H k h e He) as (Hh & n & Hk & Hn & Hidx & Hrest).
  split; [done|]. exists n. cbn [serialIndex cachedCRL]. split; [done|]. split; [done|].
  split; [|exact Hrest]. rewrite lookup_delete_ne; [done|]. intros ->. by apply Hd.
Qed.

(** ** Reconciling the serial index *)

Lemma add_serials_lookup l index added k :
  NoDup (map fst l) ->
  (add_serials l (index, added)).1 !! k =
    match (list_to_map l : gmap string string) !! k with Some v => Some v | None => index !! k end.
Proof.
  revert index added. induction l as [|[s v] l IH]; intros index added Hnd; [done|].
  cbn [map] in Hnd. apply NoDup_cons in Hnd as [Hs Hnd]. cbn [list_to_map foldr fst snd curry uncurry].
  assert ((list_to_map l : gmap string string) !! s = None) as Hl.
  { apply not_elem_of_list_to_map. exact Hs. }
  unfold add_serials in *. cbn [fold_left]. unfold add_serial at 2.
  assert (forall (index' : gmap string string) added',
    (forall k, index' !! k = if decide (k = s) then Some v else index !! k) ->
    (fold_left add_serial l (index', added')).1 !! k =
    match (<[s := v]> (list_to_map l) : gmap string string) !! k with
    | Some v => Some v | None => index !! k end) as Hgo.
  { intros index' added' Hi. rewrite IH by done. rewrite lookup_insert.
    destruct (decide (s = k)) as [->|Hne].
    - rewrite Hl, Hi. by rewrite decide_True.
    - rewrite Hi, decide_False by congruence. done. }
  destruct (index !! s) as [known|] eqn:Hk.
  - case_bool_decide; apply Hgo; intros k'.
    + case_decide; [by subst|done].
    + rewrite lookup_insert. repeat case_decide; congruence.
  - apply Hgo. intros k'. rewrite lookup_insert. repeat case_decide; congruence.
Qed.

Lemma add_serials_stored stored index added k :
  (add_serials (map_to_list stored) (index, added)).1 !! k =
    match stored !! k with Some v => Some v | None => index !! k end.
Proof.
  rewrite add_serials_lookup by apply NoDup_fst_map_to_list. by rewrite list_to_map_to_list.
Qed.

Lemma dropSerial_index serial c : serialIndex (dropSerialLocked serial c) = delete serial (serialIndex c).
Proof. done. Qed.

Lemma drop_serials_spec stored l c removed :
  let c' := (drop_serials stored l (c, removed)).1 in
  (forall k, serialIndex c' !! k =
     if decide (k ∈ l /\ stored !! k = None) then None else serialIndex c !! k) /\
  (coherent c -> coherent c') /\ cachedCRL c' = cachedCRL c.
Proof.
  unfold drop_serials. revert c removed. induction l as [|s l IH]; intros c removed; cbn [fold_left].
  { split; [|done]. intros k. rewrite decide_False; [done|]. intros [H _]. by apply elem_of_nil in H. }
  destruct (stored !! s) as [v|] eqn:Hs.
  - destruct (IH c removed) as (H1 & H2 & H3). split_and!; [|done|done].
    intros k. rewrite H1. apply decide_ext. rewrite elem_of_cons. naive_solver congruence.
  - destruct (IH (dropSerialLocked s c) (S removed)) as (H1 & H2 & H3). split_and!.
    + intros k. rewrite H1, dropSerial_index, lookup_delete. repeat case_decide; set_solver.
    + intros Hc. apply H2. by apply drop_coherent.
    + exact H3.
Qed.

Lemma coherent_index index c :
  coherent c -> (forall k, is_Some (serialIndex c !! k) -> is_Some (index !! k)) ->
  coherent (set_serialIndex index c).
Proof.
  intros H Hi k h e He. destruct (H k h e He) as (Hh & n & Hk & Hn & Hidx & Hrest).
  split; [done|]. exists n. cbn [serialIndex cachedCRL set_serialIndex].
  split; [done|]. split; [done|]. split; [by apply Hi|exact Hrest].
Qed.

Lemma bump_coherent c : coherent c -> coherent (bump_epoch c).
Proof. done. Qed.

(** What one reconciliation does to the index. *)
Lemma reconcile_spec stored e r c :
  let c' := (reconcileSerialIndexLocked stored e r c).1 in
  let raced := negb (serialIndexEpoch c =? e) in
  let sawRemoval := negb (serialIndexRemovalEpoch c =? r) in
  (forall k, serialIndex c' !! k =
     match stored !! k with
     | Some v => if sawRemoval then serialIndex c !! k else Some v
     | None => if raced then serialIndex c !! k else None
     end) /\
  (coherent c -> coherent c').
Proof.
  unfold reconcileSerialIndexLocked.
  set (raced := negb (serialIndexEpoch c =? e)). set (saw := negb (serialIndexRemovalEpoch c =? r)).
  destruct (if saw then _ else _) as [index added] eqn:EI.
  assert (forall k, index !! k = match stored !! k with
            | Some v => if saw then serialIndex c !! k else Some v
            | None => serialIndex c !! k end) as Hidx.
  { intros k. destruct saw; simplify_eq; [by case_match|].
    rewrite <- (add_serials_stored stored (serialIndex c) 0 k), EI. done. }
  set (c2 := if bool_decide (0 < added)%nat then _ else _).
  assert (serialIndex c2 = index) as E2 by (unfold c2; by case_bool_decide).
  assert (coherent c -> coherent c2) as H2.
  { intros Hc. assert (coherent (set_serialIndex index c)).
    { apply coherent_index; [done|]. intros k [v Hv]. rewrite Hidx, Hv.
      destruct (stored !! k), saw; eauto. }
    unfold c2. case_bool_decide; [by apply bump_coherent|done]. }
  destruct raced.
  - split; cbn [fst]; [|done]. intros k. rewrite E2, Hidx. done.
  - pose proof (drop_serials_spec stored (map fst (map_to_list (serialIndex c2))) c2 0) as (D1 & D2 & _).
    destruct (drop_serials _ _ _) as [c3 removed]. cbn [fst] in *. split; [|by auto].
    intros k. rewrite D1, E2, Hidx. destruct (stored !! k) as [v|] eqn:Hk.
    + rewrite decide_False by naive_solver. done.
    + case_decide as Hd; [done|]. destruct (serialIndex c !! k) as [v|] eqn:Hv; [|done].
      exfalso. apply Hd. split; [|done]. apply list_elem_of_fmap. exists (k, v). split; [done|].
      apply elem_of_map_to_list. rewrite Hidx, Hk. done.
Qed.

(** Refreshing the serial index from the inventory.  If nothing touched
    the index since the inventory was read, the index becomes exactly what was
    read.  If a serial was indexed in between, no indexed serial is lost.  If a
    serial was removed in between, none is brought back.  In every case the
    OCSP cache stays coherent with the index. *)
Theorem reconcileSerialIndex_sound stored e r c :
  let c' := (reconcileSerialIndexLocked stored e r c).1 in
  (serialIndexEpoch c = e -> serialIndexRemovalEpoch c = r -> serialIndex c' = stored) /\
  (serialIndexEpoch c <> e -> forall k, is_Some (serialIndex c !! k) -> is_Some (serialIndex c' !! k)) /\
  (serialIndexRemovalEpoch c <> r -> forall k, serialIndex c !! k = None -> serialIndex c' !! k = None) /\
  (coherent c -> coherent c').
Proof.
  destruct (reconcile_spec stored e r c) as [H1 H2]. cbv zeta in *. split_and!; [| | |exact H2].
  - intros <- <-. apply map_eq. intros k. rewrite H1, !Z.eqb_refl. simpl. by destruct (stored !! k).
  - intros He k [v Hv]. rewrite H1, Hv, (proj2 (Z.eqb_neq _ _) He). simpl.
    destruct (stored !! k), (negb _); eauto.
  - intros Hr k Hk. rewrite H1, Hk, (proj2 (Z.eqb_neq _ _) Hr). simpl. by repeat case_match.
Qed.

(** ** Every locked section keeps the cache coherent *)

Definition keeps_coherent : relation World := fun w w' => coherent (ca w) -> coherent (ca w').
#[global] Instance keeps_coherent_preorder : PreOrder keeps_coherent.
Proof. split; unfold keeps_coherent; [auto|]. intros ? ? ? ? ?. auto. Qed.

Lemma coh_lift {A} (m : MS A) : mono keeps_coherent (lift m).
Proof. apply (mono_lift _ (fun _ _ => True)); [done|]. intros w s _ H. exact H. Qed.
Lemma coh_upd f : (forall c, coherent c -> coherent (f c)) -> mono keeps_coherent (upd_ca f).
Proof. intros H. apply mono_upd_ca. intros w Hc. exact (H _ Hc). Qed.
Lemma same_core_coherent w w' : same_core w w' -> keeps_coherent w w'.
Proof.
  intros H Hc. unfold same_core, core in H. simplify_eq.
  intros k h e He. rename select (ocspCache _ = _) into E1. rewrite E1 in He.
  destruct (Hc k h e He) as (Hh & n & Hk & Hn & Hidx & Hrest).
  rename select (serialIndex _ = _) into E2. rename select (cachedCRL _ = _) into E3.
  split; [done|]. exists n. rewrite E2, E3. by split_and!; try apply Hrest.
Qed.
Lemma coh_core {A} (m : MW A) : mono same_core m -> mono keeps_coherent m.
Proof. apply mono_weaken, same_core_coherent. Qed.
Lemma coh_count name : mono keeps_coherent (count name).
Proof. apply coh_core, same_core_count. Qed.
Lemma coh_install crl : mono keeps_coherent (upd_ca (installCachedCRLLocked crl)).
Proof. apply coh_upd. intros. by apply install_coherent. Qed.
Lemma coh_evict s : mono keeps_coherent (upd_ca (evictOCSPLocked s)).
Proof. apply coh_upd. intros. by apply evict_coherent. Qed.
Lemma coh_notify b : mono keeps_coherent (upd_ca (set_crlNotify b)).
Proof. by apply coh_upd. Qed.
Lemma coh_unindex s : mono keeps_coherent (upd_ca (unindexSerialLocked s)).
Proof. apply coh_upd. intros. by apply bump_coherent, drop_coherent. Qed.
Lemma coh_index s subject : mono keeps_coherent (upd_ca (indexSerialLocked s subject)).
Proof.
  apply coh_upd. intros c Hc. apply bump_coherent, coherent_index; [done|].
  intros k [v Hv]. rewrite lookup_insert. case_decide; eauto.
Qed.
Lemma coh_counting {A} name (m : MW A) : mono keeps_coherent m -> mono keeps_coherent (counting name m).
Proof. intros. apply mono_counting; auto using coh_count. typeclasses eauto. Qed.
Lemma coh_upstream b pass : mono keeps_coherent (upstreamCRLs b pass).
Proof. apply coh_core, upstreamCRLs_same_core. Qed.
#[export] Hint Resolve coh_lift coh_count coh_install coh_evict coh_notify coh_unindex coh_index
  coh_counting coh_upstream : mono.

Lemma coh_lockran {A} name (fn : MW A) : mono keeps_coherent fn -> mono keeps_coherent (WithLockRan name fn).
Proof. intros. unfold WithLockRan. mono_tac. Qed.
Lemma coh_lock {A} name (fn : MW A) : mono keeps_coherent fn -> mono keeps_coherent (WithLockW name fn).
Proof. intros. unfold WithLockW. mono_tac. by apply coh_lockran. Qed.
#[export] Hint Resolve coh_lockran coh_lock : mono.
Lemma coh_crllock {A} (fn : MW A) : mono keeps_coherent fn -> mono keeps_coherent (withCRLLockCounted fn).
Proof. intros. unfold withCRLLockCounted. mono_tac. Qed.
#[export] Hint Resolve coh_crllock : mono.
(** Walk through a CA action; locks and counted calls are transparent. *)
Ltac coh_tac :=
  repeat first [ mono_step | apply coh_counting | apply coh_lock | apply coh_lockran
               | apply coh_crllock ].

Lemma coh_readStored : mono keeps_coherent readStoredCRL.
Proof. unfold readStoredCRL, parseStoredCRL, get_ca. coh_tac. Qed.
#[export] Hint Resolve coh_readStored : mono.
Lemma coh_sign prev revoked : mono keeps_coherent (signCRLLocked prev revoked).
Proof.
  unfold signCRLLocked, create_crl, crlChainLocked, acquireSigningSlot, signer_available, get_ca.
  coh_tac.
Qed.
#[export] Hint Resolve coh_sign : mono.
Lemma coh_revoke s : mono keeps_coherent (revokeSerialLocked s).
Proof. unfold revokeSerialLocked, markCertRevokedIndex. coh_tac. Qed.
Lemma coh_sync : mono keeps_coherent SyncCRLCache.
Proof. unfold SyncCRLCache, get_ca. coh_tac. Qed.
Lemma coh_load : mono keeps_coherent loadCRLCache.
Proof. unfold loadCRLCache, get_ca. coh_tac. Qed.
#[export] Hint Resolve coh_revoke coh_sync coh_load : mono.
Lemma coh_reissue : mono keeps_coherent reissueCRLLocked.
Proof. unfold reissueCRLLocked. coh_tac. Qed.
#[export] Hint Resolve coh_reissue : mono.
Lemma coh_ReissueCRL : mono keeps_coherent ReissueCRL.
Proof. unfold ReissueCRL. coh_tac. Qed.
Lemma coh_RefreshCRLIfDue d : mono keeps_coherent (RefreshCRLIfDue d).
Proof. unfold RefreshCRLIfDue, get_ca. apply coh_crllock. coh_tac. Qed.
Lemma coh_RefreshCRLChainFile : mono keeps_coherent RefreshCRLChainFile.
Proof. unfold RefreshCRLChainFile, get_ca. coh_tac. Qed.

(** ** Correctness of answers *)

Lemma decide_cases crl n known status at_ :
  decideOCSPStatus crl n known = Ok (status, at_) ->
  (known = false /\ status = Unknown) \/
  (known = true /\ exists l, crl = Some l /\
     ((status = Good /\ n ∉ revoked_serials l) \/
      (status = Revoked /\ n ∈ revoked_serials l /\
         exists e, e ∈ RevokedCertificateEntries l /\ rle_SerialNumber e = n /\ at_ = RevocationTime e))).
Proof.
  unfold decideOCSPStatus. destruct known; simpl; [|intros; simplify_eq; by left].
  destruct crl as [l|]; [|done]. right. split; [done|]. exists l. split; [done|].
  destruct (find_revocation n _) as [e|] eqn:Hf; simplify_eq.
  - right. split; [done|]. apply find_revocation_Some in Hf as [He <-]. split; [by apply list_elem_of_fmap_2|by exists e].
  - left. split; [done|]. by apply find_revocation_None.
Qed.

Lemma coh_store req resp :
  o_SerialNumber resp = q_SerialNumber req -> o_Nonce resp = effective_nonce req ->
  mono keeps_coherent (ocsp_store req resp).
Proof.
  intros Hser Hnonce w. unfold ocsp_store, exec, get_ca.
  destruct (bool_decide (effective_nonce req = None) && _ && _) eqn:Hg; [|by intros ?].
  bool_hyps. unfold mbind, M_bind, gets. cbn [id].
  destruct (decideOCSPStatus _ _ _) as [[status at_]|] eqn:Hd; [|by intros ?].
  destruct (bool_decide (status = _) && _) eqn:He; [|by intros ?]. bool_hyps. subst status.
  unfold mret, M_ret, upd_ca, modify, set_ca, set_ocspCache. intros Hc k h e. cbn [snd ca ocspCache].
  rewrite lookup_insert. case_decide as Hk; [|exact (Hc k h e)].
  intros [= <-]. injection Hk as <- <-.
  apply decide_cases in Hd as [[_ ?]|(Hkn & l & Hl & Hs)]; [congruence|].
  rename select (ocspCacheableHash _ = true) into Hch. unfold ocspCacheableHash in Hch.
  apply bool_decide_eq_true in Hch. split; [done|]. exists (q_SerialNumber req).
  cbn [oc_der serialIndex cachedCRL set_ocspCache]. apply bool_decide_eq_true in Hkn.
  split; [done|]. split; [done|]. split; [done|]. split; [congruence|]. split; [done|].
  intros Hgood. exists l. split; [done|]. destruct Hs as [[_ ?]|[? _]]; [done|congruence].
Qed.

Lemma internal_Ok {A} (m : MW A) w a w' : internal m w = (Ok a, w') -> m w = (Ok a, w').
Proof. unfold internal. intros H. minv. done. Qed.

Lemma core_shed : mono same_core acquireSigningSlotOrShed.
Proof.
  intros w. unfold exec, acquireSigningSlotOrShed. destruct (pop_fault (st w)) as [[] s]; done.
Qed.
Lemma core_internal {A} (m : MW A) : mono same_core m -> mono same_core (internal m).
Proof. intros. unfold internal. mono_tac. Qed.
#[export] Hint Resolve core_shed core_internal : mono.

Lemma sign_same_core req key known crl : mono same_core (ocsp_sign req key known crl).
Proof.
  unfold ocsp_sign, signer_available.
  repeat first [mono_step | apply core_internal].
Qed.

Lemma lookup_same_core req : mono same_core (ocsp_lookup req).
Proof. unfold ocsp_lookup, get_ca. mono_tac. Qed.

Lemma sign_spec req key known crl w resp w' :
  ocsp_sign req key known crl w = (Ok resp, w') ->
  o_SerialNumber resp = q_SerialNumber req /\ o_Nonce resp = effective_nonce req /\
  decideOCSPStatus crl (q_SerialNumber req) known = Ok (o_Status resp, o_RevokedAt resp).
Proof.
  unfold ocsp_sign. intros H. apply bind_Ok in H as (now & w1 & _ & H).
  apply bind_Ok in H as ([status at_] & w2 & Hd & H). apply internal_Ok, of_result_Ok in Hd as [Hd ->].
  apply bind_Ok in H as (u1 & w3 & _ & H). apply bind_Ok in H as (u2 & w4 & _ & H).
  destruct key; [|by apply fail_Ok in H]. apply ret_Ok in H as [-> ->]. simpl. eauto.
Qed.

Lemma store_answer req resp w a w' : ocsp_store req resp w = (Ok a, w') -> DER a = resp.
Proof. unfold ocsp_store, get_ca. intros H. repeat case_match; minv; done. Qed.

(** The answer was in the cache. *)
Definition from_cache (c : CA) (req : OCSPRequest) (resp : OCSPResponse) : Prop :=
  exists entry, ocspCache c !! (serialHexStr (q_SerialNumber req), q_HashAlgorithm req) = Some entry /\ resp = oc_der entry.

(** What the responder may say about a serial, given the index and the CRL in
    memory.  A cached Revoked may outlive an entry that was dropped from the CRL
    because its certificate had expired. *)
Definition answer_ok (c : CA) (req : OCSPRequest) (resp : OCSPResponse) : Prop :=
  let n := q_SerialNumber req in
  o_SerialNumber resp = n /\ o_Nonce resp = effective_nonce req /\
  (is_known c (serialHexStr n) = false -> o_Status resp = Unknown) /\
  (is_known c (serialHexStr n) = true -> o_Status resp <> Unknown) /\
  (o_Status resp = Good -> exists crl, cachedCRL c = Some crl /\ n ∉ revoked_serials crl) /\
  (o_Status resp = Revoked ->
     (exists crl e, cachedCRL c = Some crl /\ e ∈ RevokedCertificateEntries crl /\
        rle_SerialNumber e = n /\ o_RevokedAt resp = RevocationTime e) \/
     from_cache c req resp).

Lemma lookup_hit req w a w' :
  coherent (ca w) -> ocsp_lookup req w = (Ok (Hit a), w') -> answer_ok (ca w) req (DER a).
Proof.
  intros Hc H. unfold ocsp_lookup, get_ca in H. apply bind_Ok in H as (c & w1 & Hg & H).
  apply gets_Ok in Hg as [-> ->]. cbn [id] in H. destruct (CACert (ca w)); [|by apply fail_Ok in H].
  apply bind_Ok in H as (u & w1 & Hck & H). apply check_Ok in Hck as [_ ->].
  destruct (effective_nonce req) as [nn|] eqn:Hn; [by apply ret_Ok in H as [? _]|].
  destruct (ocspCache (ca w) !! _) as [entry|] eqn:He; [|by apply ret_Ok in H as [? _]].
  apply bind_Ok in H as (now & w2 & _ & H). destruct (now <? _); [|by apply ret_Ok in H as [? _]].
  apply bind_Ok in H as (later & w3 & _ & H). apply ret_Ok in H as [[= ->] _]. cbn [DER].
  destruct (Hc _ _ _ He) as (_ & n & Hk & Hs & Hidx & Hnc & Hu & Hgood).
  apply hexX_inj in Hk. subst n. unfold answer_ok, is_known. rewrite Hn.
  split_and!; auto; [intros Hf; by apply bool_decide_eq_false in Hf|]. intros _. right. by exists entry.
Qed.

Lemma lookup_miss req w cert key known crl w' :
  ocsp_lookup req w = (Ok (Miss cert key known crl), w') ->
  known = is_known (ca w) (serialHexStr (q_SerialNumber req)) /\ crl = cachedCRL (ca w).
Proof.
  unfold ocsp_lookup, get_ca. intros H. apply bind_Ok in H as (c & w1 & Hg & H).
  apply gets_Ok in Hg as [-> ->]. cbn [id] in H. destruct (CACert (ca w)); [|by apply fail_Ok in H].
  apply bind_Ok in H as (u & w1 & Hck & H). apply check_Ok in Hck as [_ ->].
  repeat case_match; minv; done.
Qed.

(** The cache gains at most the answer that was given. *)
Definition caches_only (resp : OCSPResponse) (c c' : CA) : Prop :=
  forall k entry, ocspCache c' !! k = Some entry -> ocspCache c !! k = Some entry \/ oc_der entry = resp.

Lemma store_caches req resp w r w' : ocsp_store req resp w = (r, w') -> caches_only resp (ca w) (ca w').
Proof.
  unfold ocsp_store, get_ca, mbind, M_bind, gets, upd_ca, modify, mret, M_ret, caches_only. intros H k entry.
  repeat case_match; simplify_eq; cbn; eauto. rewrite lookup_insert_Some.
  intros [[_ <-]|[_ ?]]; auto.
Qed.
Lemma core_caches resp w w' : same_core w w' -> caches_only resp (ca w) (ca w').
Proof. intros H k entry He. left. unfold same_core, core in H. simplify_eq. congruence. Qed.

Lemma answer_spec req w a w' :
  coherent (ca w) -> AnswerOCSP req w = (Ok a, w') ->
  answer_ok (ca w) req (DER a) /\ coherent (ca w') /\ caches_only (DER a) (ca w) (ca w').
Proof.
  intros Hc H. unfold AnswerOCSP in H. apply bind_Ok in H as (l & w1 & Hl & H).
  pose proof (mono_run _ _ _ _ _ (lookup_same_core req) Hl) as C1.
  assert (coherent (ca w1)) as Hc1
    by (by apply (mono_run _ _ _ _ _ (coh_core _ (lookup_same_core req)) Hl)).
  destruct l as [hit|cert key known crl].
  - apply ret_Ok in H as [-> ->]. split_and!; [by eapply lookup_hit|done|by apply core_caches].
  - apply lookup_miss in Hl as [-> ->]. apply bind_Ok in H as (resp & w2 & Hs & H).
    pose proof (mono_run _ _ _ _ _ (sign_same_core _ _ _ _) Hs) as C2.
    assert (coherent (ca w2)) as Hc2
      by (by apply (mono_run _ _ _ _ _ (coh_core _ (sign_same_core _ _ _ _)) Hs)).
    apply sign_spec in Hs as (H1 & H2 & Hd). pose proof (store_answer _ _ _ _ _ H) as Ha.
    split; [|split; [by apply (mono_run _ _ _ _ _ (coh_store req resp H1 H2) H)|]].
    + rewrite Ha. unfold answer_ok.
      apply decide_cases in Hd as [[Hk ->]|(Hk & l & Hl & Hs)]; rewrite Hk, ?Hl; split_and!; try done.
      * destruct Hs as [[-> _]|[-> _]]; done.
      * intros Hg. exists l. destruct Hs as [[_ ?]|[? _]]; [done|congruence].
      * intros Hg. left. destruct Hs as [[? _]|(_ & _ & e & He)]; [congruence|]. exists l, e. tauto.
    + rewrite Ha. intros k entry He. apply store_caches in H. apply H in He as [He|He]; [|by right].
      apply (core_caches resp _ _ C2) in He as [He|He]; [|by right]. by apply (core_caches resp _ _ C1).
Qed.

(** C24: OCSP answers are right and the cache stays coherent.  From a coherent
    cache, an answer is for the serial asked about and echoes the nonce.  It is
    Unknown exactly when the serial is not indexed; Good only if the CRL in
    memory does not list the serial; and Revoked, with the time of the entry,
    only if the CRL lists it or the answer was already in the cache.  The cache
    gains no answer but the one given, and is coherent afterwards. *)
Theorem AnswerOCSP_correct req w a w' :
  coherent (ca w) -> AnswerOCSP req w = (Ok a, w') ->
  answer_ok (ca w) req (DER a) /\ coherent (ca w') /\ caches_only (DER a) (ca w) (ca w').
Proof. apply answer_spec. Qed.
