(* ===== verification/CRLSafety.v ===== *)
(** * The stored CRL only grows

    Every operation that rewrites the stored CRL, other than the removal of
    expired entries, leaves a CRL of this CA that is the old one or strictly
    newer and that lists everything the old one listed.  This is proved for
    every outcome, successful or not, and every script of failures, including
    a write that took effect but was reported as failed. *)

From S2P Require Import Prelude GoStrings GoTime X509 Inventory Storage InventorySpec Policy.
From S2P Require Import CAState CRLChain CRL.

(** The CRL of this CA in storage. *)
Definition own_stored (w : World) (o : RevocationList) : Prop :=
  exists chain, stored_chain w chain /\ ownCRLIn chain (CACert (ca w)) = Some o.

Lemma own_stored_inj w a b : own_stored w a -> own_stored w b -> a = b.
Proof.
  intros (c1 & S1 & O1) (c2 & S2 & O2). rewrite (stored_chain_inj _ _ _ S1 S2) in O1. congruence.
Qed.

Definition grows_to (o o' : RevocationList) : Prop :=
  (o' = o \/ newerCRL o' o = true) /\ forall n, n ∈ revoked_serials o -> n ∈ revoked_serials o'.

Lemma grows_refl o : grows_to o o.
Proof. split; auto. Qed.
Lemma grows_trans a b c : grows_to a b -> grows_to b c -> grows_to a c.
Proof.
  intros [[->|H1] I1] [[->|H2] I2]; split; auto. right. by eapply newer_trans.
Qed.

(** The CRL in memory, when it is one of ours, is the stored one or an earlier
    one. *)
Definition behind (c : CA) (o : RevocationList) : Prop :=
  forall x, cachedCRL c = Some x -> ownsCRL c x = true -> grows_to x o.

Definition crl_grows : relation World := fun w w' =>
  same_ca w w' /\
  (key_matches (ca w) -> forall o, own_stored w o ->
   exists o', own_stored w' o' /\ grows_to o o' /\ (behind (ca w) o -> behind (ca w') o')).

Lemma key_matches_same w w' : same_ca w w' -> key_matches (ca w) -> key_matches (ca w').
Proof. intros (E1 & E2 & _) H. unfold key_matches. by rewrite E1, E2. Qed.

#[global] Instance crl_grows_preorder : PreOrder crl_grows.
Proof.
  split.
  - intros w. split; [done|]. intros _ o Ho. exists o. auto using grows_refl.
  - intros w1 w2 w3 [C1 H1] [C2 H2]. split; [by etrans|].
    intros Hm o Ho. destruct (H1 Hm o Ho) as (o2 & Ho2 & G1 & B1).
    destruct (H2 (key_matches_same _ _ C1 Hm) o2 Ho2) as (o3 & Ho3 & G2 & B2).
    exists o3. split_and!; eauto using grows_trans.
Qed.

(** Leaving the CRL key alone. *)
Lemma own_stored_frame w w' o :
  same_ca w w' -> blobs (be (st w')) !! KeyCRL = blobs (be (st w)) !! KeyCRL ->
  own_stored w o -> own_stored w' o.
Proof.
  intros (E1 & _) E (chain & Hst & Ho). exists chain. unfold stored_chain. by rewrite E, E1.
Qed.
Lemma grows_frame w w' :
  same_ca w w' -> cachedCRL (ca w') = cachedCRL (ca w) ->
  blobs (be (st w')) !! KeyCRL = blobs (be (st w)) !! KeyCRL -> crl_grows w w'.
Proof.
  intros C Ec E. split; [done|]. intros _ o Ho. exists o.
  split; [by eapply own_stored_frame|]. split; [apply grows_refl|].
  intros B x Hx Hox. rewrite Ec in Hx. apply B; [done|]. by rewrite <- (same_ca_owns w w').
Qed.

Lemma grows_lift_frame {A} K (m : MS A) : mono (frame K) m -> ~ K KeyCRL -> mono crl_grows (lift m).
Proof.
  intros Hm HK. eapply mono_lift; [exact Hm|]. intros w s' (_ & _ & Hf).
  apply grows_frame; [done|done|]. by apply Hf.
Qed.
Lemma grows_lift_same {A} (m : MS A) : mono same_data m -> mono crl_grows (lift m).
Proof. intros Hm. apply (grows_lift_frame (fun _ => False)); [by apply frame_of_same|auto]. Qed.
Lemma grows_upd f :
  (forall c, CACert (f c) = CACert c /\ CAKey (f c) = CAKey c /\ cfg (f c) = cfg c /\
        cachedCRL (f c) = cachedCRL c) ->
  mono crl_grows (upd_ca f).
Proof.
  intros H. apply mono_upd_ca. intros w. destruct (H (ca w)) as (?&?&?&?). by apply grows_frame.
Qed.
Lemma grows_count name : mono crl_grows (count name).
Proof. by apply grows_upd. Qed.
(** Installing what is stored. *)
Lemma grows_install_stored w crl :
  (forall o, own_stored w o -> ownsCRL (ca w) crl = true -> crl = o) ->
  crl_grows w (set_ca (installCachedCRLLocked crl (ca w)) w).
Proof.
  intros Hcrl. pose proof (install_fields crl (ca w)) as (F1 & F2 & F3 & F4 & _).
  assert (same_ca w (set_ca (installCachedCRLLocked crl (ca w)) w)) as C by done.
  split; [done|]. intros _ o Ho. exists o.
  split; [by eapply own_stored_frame|]. split; [apply grows_refl|].
  intros _ x Hx Hox. cbn [ca set_ca] in Hx. rewrite F4 in Hx. injection Hx as <-.
  rewrite (same_ca_owns _ _ _ C) in Hox. rewrite (Hcrl o Ho Hox). apply grows_refl.
Qed.
Lemma grows_counting {A} name (m : MW A) : mono crl_grows m -> mono crl_grows (counting name m).
Proof. intros. apply mono_counting; auto using grows_count. typeclasses eauto. Qed.
Lemma grows_evict s : mono crl_grows (upd_ca (evictOCSPLocked s)).
Proof. by apply grows_upd. Qed.
Lemma grows_mark s t : mono crl_grows (markCertRevokedIndex s t).
Proof.
  eapply mono_weaken; [|apply mark_frame]. intros w w' (E & C). apply grows_frame.
  - unfold same_ca. by rewrite C.
  - by rewrite C.
  - by rewrite E.
Qed.
#[export] Hint Resolve grows_lift_same grows_count grows_evict grows_mark : mono.

(** ** Re-signing, whatever its outcome *)

Lemma UpdateCRL_any b s r s' :
  UpdateCRL b s = (r, s') ->
  blobs (be s') !! KeyCRL = blobs (be s) !! KeyCRL \/ blobs (be s') !! KeyCRL = Some b.
Proof.
  unfold UpdateCRL. intros (_ & _ & H)%backend_cases.
  assert (blobs (be_Put KeyCRL b (be s)).2 !! KeyCRL = Some b) as HP.
  { unfold be_Put, guarded. change (validateKey KeyCRL) with (@None error).
    rewrite on_rows_other by done. simpl. by rewrite lookup_insert_eq. }
  destruct H as [[_ ->]|(e & _ & [->| ->])]; auto.
Qed.

(** The steps before the write touch no data. *)
Definition quiet : relation World := fun w w' => same_core w w' /\ same_store w w'.
#[global] Instance quiet_preorder : PreOrder quiet.
Proof. split; [done|]. intros ? ? ? [] []. split; by etrans. Qed.

Lemma quiet_intro {A} (m : MW A) : mono same_core m -> mono same_store m -> mono quiet m.
Proof. intros H1 H2 w. split; [apply H1|apply H2]. Qed.
Lemma quiet_grows w w' : quiet w w' -> crl_grows w w'.
Proof.
  intros [C S]. apply grows_frame; [by apply same_core_ca| |by destruct S as (-> & _)].
  unfold same_core, core in C. by simplify_eq.
Qed.
Lemma grows_quiet {A} (m : MW A) : mono quiet m -> mono crl_grows m.
Proof. apply mono_weaken. apply quiet_grows. Qed.
Lemma quiet_lift {A} (m : MS A) : mono same_data m -> mono quiet (lift m).
Proof. intros. apply quiet_intro; auto with mono. Qed.
Lemma quiet_count name : mono quiet (count name).
Proof. apply quiet_intro; auto with mono. Qed.
Lemma quiet_counting {A} name (m : MW A) : mono quiet m -> mono quiet (counting name m).
Proof. intros. apply mono_counting; auto using quiet_count. typeclasses eauto. Qed.
#[export] Hint Resolve quiet_lift quiet_count quiet_counting : mono.

Lemma quiet_create n revoked now v : mono quiet (create_crl n revoked now v).
Proof. unfold create_crl, signer_available, get_ca. mono_tac. Qed.
Lemma quiet_chain crl b : mono quiet (crlChainLocked crl b).
Proof.
  unfold crlChainLocked, get_ca. mono_tac.
  apply quiet_intro; [apply upstreamCRLs_same_core|apply upstreamCRLs_same_store].
Qed.
Lemma GetCRL_same : mono same_data GetCRL.
Proof. unfold GetCRL. mono_tac. Qed.
#[export] Hint Resolve quiet_create quiet_chain GetCRL_same : mono.
Lemma quiet_readStored : mono quiet readStoredCRL.
Proof. unfold readStoredCRL, parseStoredCRL, get_ca. apply quiet_counting. mono_tac. Qed.
#[export] Hint Resolve quiet_readStored : mono.
Lemma grows_readStored : mono crl_grows readStoredCRL.
Proof. apply grows_quiet, quiet_readStored. Qed.
#[export] Hint Resolve grows_readStored : mono.

(** A chain as [signCRLLocked] writes it. *)
Definition resigned (prev : storedCRL) (revoked : list RevocationListEntry) (c : CA)
    (crl : RevocationList) (others : list RevocationList) : Prop :=
  Number crl = Some (next_number (own prev)) /\
  revoked_serials crl = map rle_SerialNumber revoked /\
  CAKey c = Some (crl_SignedBy crl) /\ (forall x, x ∈ others -> ownsCRL c x = false).

(** Either neither storage nor memory holds the new CRL, or storage does and
    memory may. *)
Definition written (out : blob) (crl : RevocationList) : relation World := fun w w' =>
  same_ca w w' /\
  (blobs (be (st w')) !! KeyCRL = blobs (be (st w)) !! KeyCRL /\
   cachedCRL (ca w') = cachedCRL (ca w) \/
   blobs (be (st w')) !! KeyCRL = Some out /\
   (cachedCRL (ca w') = cachedCRL (ca w) \/ cachedCRL (ca w') = Some crl)).

(** The last part of a re-signing: write, then update the memory. *)
Lemma sign_write_any crl out w r w' :
  (_ ← counting crlUpdateFailures (wrapping "failed to write CRL" (lift (UpdateCRL out)));
   _ ← upd_ca (installCachedCRLLocked crl); upd_ca (set_crlNotify true)) w = (r, w') ->
  written out crl w w'.
Proof.
  intros H. apply bind_run in H as [(e & H & ->)|(u & w1 & H & Hk)].
  - unfold counting in H. apply bind_run in H as [(e' & H & _)|(x & w1 & H & Hc)].
    { by apply try_Err in H. }
    apply try_Ok in H. unfold wrapping in H. destruct (lift (UpdateCRL out) w) as [y w2] eqn:HL.
    apply lift_run in HL as (s2 & HL & ->). apply UpdateCRL_any in HL.
    assert (w1 = set_st s2 w) as -> by (destruct y; by simplify_eq).
    destruct x as [u|e']; [done|].
    pose proof (mono_run quiet (_ ← count crlUpdateFailures; fail e') _ _ _ ltac:(mono_tac) Hc) as [C S].
    destruct S as (S & _). pose proof (same_core_ca _ _ C) as Cca. split; [exact Cca|].
    assert (cachedCRL (ca w') = cachedCRL (ca w)) as -> by (unfold same_core, core in C; by simplify_eq/=).
    rewrite S. cbn [st set_st]. destruct HL as [->| ->]; auto.
  - apply counting_Ok, wrapping_Ok in H. apply lift_Ok in H as (s2 & H & ->).
    apply UpdateCRL_Ok in H as (H & _).
    unfold mbind, M_bind, upd_ca, modify in Hk. injection Hk as <- <-.
    pose proof (install_fields crl (ca w)) as (F1 & F2 & F3 & F4 & _).
    unfold written, same_ca. cbn [ca st set_ca set_crlNotify CACert CAKey cfg cachedCRL set_st].
    rewrite F1, F2, F3, F4. auto.
Qed.

(** Step over a quiet action: either it failed and nothing moved, or go on. *)
Lemma bind_quiet {A B} (m : MW A) (k : A -> MW B) w r w' :
  mono quiet m -> (m ≫= k) w = (r, w') ->
  quiet w w' \/ exists a w1, quiet w w1 /\ m w = (Ok a, w1) /\ k a w1 = (r, w').
Proof.
  intros Hm [(e & H & _)|(a & w1 & H & Hk)]%bind_run.
  - left. by eapply mono_run.
  - right. exists a, w1. split; [by eapply mono_run|done].
Qed.

Lemma sign_any prev revoked w r w' :
  signCRLLocked prev revoked w = (r, w') ->
  same_ca w w' /\
  (crl_grows w w' /\ blobs (be (st w')) !! KeyCRL = blobs (be (st w)) !! KeyCRL \/
   exists crl others, stored_chain w' (crl :: others) /\ resigned prev revoked (ca w) crl others /\
     (cachedCRL (ca w') = cachedCRL (ca w) \/ cachedCRL (ca w') = Some crl)).
Proof.
  unfold signCRLLocked, get_ca, acquireSigningSlot. intros H.
  match goal with |- ?G => assert (quiet w w' -> G) as Hq end.
  { intros Q. split; [apply same_core_ca, Q|]. left. split; [by apply quiet_grows|].
    destruct Q as [_ (E & _)]. by rewrite E. }
  apply bind_run in H as [(e & H & _)|(c & w1 & H & Hk)]; [done|]. apply gets_Ok in H as [-> ->].
  cbn [id] in Hk. apply bind_quiet in Hk as [Q|(now & w1 & Q1 & _ & Hk)]; [by apply Hq| |mono_tac].
  apply bind_quiet in Hk as [Q|(u & w2 & Q2 & _ & Hk)];
    [apply Hq; by etrans| |apply quiet_counting; mono_tac].
  apply bind_quiet in Hk as [Q|(crl & w3 & Q3 & H3 & Hk)];
    [apply Hq; etrans; [exact Q1|]; by etrans| |apply quiet_counting; mono_tac].
  apply counting_Ok, wrapping_Ok in H3.
  apply create_crl_spec in H3 as (_ & _ & cert & key & Hcert & Hkey & Hcreate).
  apply bind_run in Hk as [(e & H4 & _)|(x & w4 & H4 & Hk)]; [by apply try_Err in H4|].
  apply try_Ok in H4. pose proof (mono_run quiet _ _ _ _ (quiet_chain _ _) H4) as Q4.
  assert (quiet w w3) as Q. { etrans; [exact Q1|]. by etrans. }
  destruct x as [out|e].
  - apply crlChainLocked_spec in H4 as (_ & _ & others & -> & Hfor & _).
    apply sign_write_any in Hk as [C5 H5]. pose proof (transitivity Q Q4) as QQ.
    assert (same_ca w w4) as C4 by (apply same_core_ca, QQ).
    assert (cachedCRL (ca w4) = cachedCRL (ca w)) as M4.
    { destruct QQ as [Cq _]. unfold same_core, core in Cq. by simplify_eq. }
    split; [by etrans|]. destruct H5 as [[H5 M5]|[H5 M5]].
    + assert (blobs (be (st w')) !! KeyCRL = blobs (be (st w)) !! KeyCRL) as HB.
      { rewrite H5. destruct QQ as [_ (-> & _)]. done. }
      left. split; [|done]. apply grows_frame; [by etrans|congruence|done].
    + right. exists crl, others. split; [done|]. split; [|destruct M5; [left; congruence|by right]].
      apply CreateRevocationList_Ok in Hcreate as (Hn & _ & Hs & _ & _ & Hsig).
      pose proof (same_core_ca _ _ (proj1 (transitivity Q1 Q2))) as (E1 & E2 & _).
      split; [done|]. split; [done|]. split; [congruence|].
      intros y Hy. rewrite <- (same_ca_owns w w3); [by apply Hfor|]. apply same_core_ca, Q.
  - apply Hq. etrans; [exact Q|]. etrans; [exact Q4|].
    eapply (mono_run quiet); [|exact Hk]. mono_tac.
Qed.

(** Re-signing over the stored CRL with at least its entries. *)
Lemma sign_grows prev revoked w r w' :
  own_stored w (own prev) ->
  (forall n, n ∈ revoked_serials (own prev) -> n ∈ map rle_SerialNumber revoked) ->
  signCRLLocked prev revoked w = (r, w') -> crl_grows w w'.
Proof.
  intros Hown Hsub H.
  apply sign_any in H as [C [[H _]|(crl & others & Hst & (Hn & Hs & Hk & Hf) & Hmem)]]; [done|].
  split; [done|]. intros Hm o Ho.
  assert (o = own prev) as -> by (by eapply own_stored_inj).
  assert (ownsCRL (ca w) (own prev) = true) as Howns.
  { destruct Hown as (c & _ & Hc). by apply ownCRLIn_Some in Hc as (_ & ? & _). }
  assert (exists cert, CACert (ca w) = Some cert) as [cert Hc].
  { unfold ownsCRL, crlSignedBy in Howns. destruct (CACert (ca w)); [by eauto|done]. }
  assert (grows_to (own prev) crl) as HG.
  { split; [right; by apply newer_next|]. intros n Hin. rewrite Hs. by apply Hsub. }
  exists crl. split_and!.
  - exists (crl :: others). split; [done|]. destruct C as (-> & _).
    apply ownCRLIn_lead; [|exact Hf]. exact (signed_by_owner cert _ crl _ _ Hm Hc Hk eq_refl Howns).
  - exact HG.
  - intros B x Hx Hox. rewrite (same_ca_owns _ _ _ C) in Hox. destruct Hmem as [E|E]; rewrite E in Hx.
    + eapply grows_trans; [by apply B|done].
    + injection Hx as <-. apply grows_refl.
Qed.

Lemma same_ca_sign prev revoked : mono same_ca (signCRLLocked prev revoked).
Proof.
  intros w. unfold exec. destruct (signCRLLocked prev revoked w) as [r w'] eqn:E.
  by apply sign_any in E as [? _].
Qed.
Lemma same_ca_install crl : mono same_ca (upd_ca (installCachedCRLLocked crl)).
Proof. apply same_ca_upd. intros c. pose proof (install_fields crl c). naive_solver. Qed.
Lemma same_ca_evict s : mono same_ca (upd_ca (evictOCSPLocked s)).
Proof. by apply same_ca_upd. Qed.
#[export] Hint Resolve same_ca_sign same_ca_install same_ca_evict : mono.

(** An action on the stored CRL that has just been read. *)
Lemma grows_read_bind {B} (k : storedCRL -> MW B) :
  (forall stored, mono same_ca (k stored)) ->
  (forall stored w r w', own_stored w (own stored) -> k stored w = (r, w') -> crl_grows w w') ->
  mono crl_grows (readStoredCRL ≫= k).
Proof.
  intros Hca Hk w. unfold exec. destruct ((readStoredCRL ≫= k) w) as [r w'] eqn:E. cbn [snd].
  apply bind_quiet in E as [Q|(stored & w1 & Q & Hr & Hkw)];
    [by apply quiet_grows| |exact quiet_readStored].
  split.
  { etrans; [apply same_core_ca, Q|]. by eapply mono_run. }
  intros Hm o Ho. destruct Ho as (chain & Hst & Hown).
  unfold readStoredCRL in Hr. apply counting_Ok in Hr.
  eapply parseStored_spec in Hr as (C1 & S1 & _ & Hs & _); [|exact Hst].
  assert (own_stored w1 (own stored)) as Ho1.
  { exists chain. unfold stored_chain. destruct S1 as (-> & _). rewrite C1. done. }
  rewrite Hown in Hs. injection Hs as ->.
  destruct (Hk _ _ _ _ Ho1 Hkw) as [_ G]. rewrite C1 in G. by apply G.
Qed.

(** Running the pieces after the signature. *)
Lemma grows_sign_then {A} prev revoked (k : unit -> MW A) w r w' :
  own_stored w (own prev) ->
  (forall n, n ∈ revoked_serials (own prev) -> n ∈ map rle_SerialNumber revoked) ->
  (forall u, mono crl_grows (k u)) ->
  (signCRLLocked prev revoked ≫= k) w = (r, w') -> crl_grows w w'.
Proof.
  intros Ho Hsub Hk [(e & H & _)|(u & w1 & H & Hkw)]%bind_run; [by eapply sign_grows|].
  etrans; [by eapply sign_grows|]. by eapply mono_run.
Qed.

(** Step to a later world in which the same CRL is stored. *)
Lemma own_stored_quiet w w' o : quiet w w' -> own_stored w o -> own_stored w' o.
Proof.
  intros [C (S & _)] (chain & Hst & Ho). exists chain. unfold stored_chain. rewrite S.
  split; [done|]. by destruct (same_core_ca _ _ C) as (-> & _).
Qed.

Lemma grows_bind_quiet {A B} (m : MW A) (k : A -> MW B) (P : World -> Prop) w r w' :
  mono quiet m -> P w -> (forall w w', quiet w w' -> P w -> P w') ->
  (forall a w r w', P w -> k a w = (r, w') -> crl_grows w w') ->
  (m ≫= k) w = (r, w') -> crl_grows w w'.
Proof.
  intros Hm HP Hq Hk [Q|(a & w1 & Q & _ & Hkw)]%bind_quiet; [by apply quiet_grows| |done].
  etrans; [by apply quiet_grows|]. eapply Hk; [by eapply Hq|done].
Qed.

Lemma grows_revokeSerial s : mono crl_grows (revokeSerialLocked s).
Proof.
  unfold revokeSerialLocked. destruct (SetString16 s) as [n|]; [|mono_tac].
  apply grows_read_bind.
  - intros stored. case_match; [|mono_tac]; unfold markCertRevokedIndex; mono_tac.
  - intros stored w r w' Ho. destruct (find_revocation _ _).
    { intros H. eapply mono_run; [|exact H]. mono_tac. }
    apply (grows_bind_quiet _ _ (fun w => own_stored w (own stored)));
      [mono_tac|done|intros; by eapply own_stored_quiet|].
    clear w r w' Ho. intros now w r w' Ho. apply grows_sign_then; [done| |intros; mono_tac].
    intros m Hm. rewrite map_app, elem_of_app. by left.
Qed.

Lemma grows_sign_same stored w r w' :
  own_stored w (own stored) ->
  signCRLLocked stored (RevokedCertificateEntries (own stored)) w = (r, w') -> crl_grows w w'.
Proof. intros Ho. by apply sign_grows. Qed.

Lemma grows_reissue : mono crl_grows reissueCRLLocked.
Proof. apply grows_read_bind; [intros; mono_tac|]. intros stored w r w'. apply grows_sign_same. Qed.
#[export] Hint Resolve grows_revokeSerial grows_reissue : mono.

Lemma grows_lockran {A} name (fn : MW A) : mono crl_grows fn -> mono crl_grows (WithLockRan name fn).
Proof. intros. unfold WithLockRan. mono_tac. apply grows_lift_same, WithLock_same. mono_tac. Qed.
Lemma grows_lock {A} name (fn : MW A) : mono crl_grows fn -> mono crl_grows (WithLockW name fn).
Proof. intros. unfold WithLockW. mono_tac. by apply grows_lockran. Qed.
Lemma grows_crllock {A} (fn : MW A) : mono crl_grows fn -> mono crl_grows (withCRLLockCounted fn).
Proof. intros. unfold withCRLLockCounted. mono_tac. by apply grows_lockran. Qed.
#[export] Hint Resolve grows_lockran grows_lock grows_crllock : mono.

Lemma grows_upstream b pass : mono crl_grows (upstreamCRLs b pass).
Proof. apply grows_quiet, quiet_intro; [apply upstreamCRLs_same_core|apply upstreamCRLs_same_store]. Qed.
#[export] Hint Resolve grows_upstream : mono.

Ltac grows_tac :=
  repeat first [ mono_step | apply grows_counting | apply grows_lock | apply grows_lockran
               | apply grows_crllock ].

Lemma grows_ReissueCRL : mono crl_grows ReissueCRL.
Proof. unfold ReissueCRL. grows_tac. Qed.

(** A reload installs the newest CRL of ours that is stored. *)
Lemma index_zero chain o lead rest :
  chain = lead :: rest -> o ∈ chain -> indexOfCRL chain o <= 0 -> o = lead.
Proof.
  intros -> Ho. cbn [indexOfCRL]. case_bool_decide as E; [done|]. apply elem_of_cons in Ho as [->|Ho]; [done|].
  assert (0 <= indexOfCRL rest o) as H.
  { clear E. induction rest as [|c rest IH]; [by apply elem_of_nil in Ho|]. cbn [indexOfCRL].
    case_bool_decide; [lia|]. apply elem_of_cons in Ho as [->|Ho]; [done|].
    specialize (IH Ho). destruct (Z.ltb_spec (indexOfCRL rest o) 0); lia. }
  destruct (Z.ltb_spec (indexOfCRL rest o) 0); lia.
Qed.

Lemma read_own w b w1 o :
  lift GetCRL w = (Ok b, w1) -> own_stored w1 o ->
  exists chain, b = encodeCRLChain chain /\ o ∈ chain /\
    selectOwnCRL (ca w1) b = Ok (Some o, indexOfCRL chain o).
Proof.
  intros H. pose proof (mono_run quiet _ _ _ _ (quiet_lift _ GetCRL_same) H) as [_ (S & _)].
  apply lift_Ok in H as (s1 & Hg & ->). unfold GetCRL in Hg. apply backend_Ok in Hg as [Hg _].
  apply be_Get_Ok in Hg as [Hg _]; [|by apply on_rows_other].
  intros (chain & Hst & Ho). unfold stored_chain in Hst. rewrite S, Hg in Hst. injection Hst as ->.
  exists chain. split; [done|]. split; [by apply ownCRLIn_Some in Ho as (? & _)|].
  unfold selectOwnCRL. by rewrite decode_encode, Ho.
Qed.

(** What [SyncCRLCache] leaves in memory. *)
Lemma sync_run w r w' :
  SyncCRLCache w = (r, w') ->
  (quiet w w' /\ forall o, own_stored w o -> behind (ca w) o -> is_ok r = true ->
     cachedCRL (ca w') = Some o) \/
  exists b w1 o pos, quiet w w1 /\ lift GetCRL w = (Ok b, w1) /\
    selectOwnCRL (ca w1) b = Ok (Some o, pos) /\ w' = set_ca (installCachedCRLLocked o (ca w1)) w1.
Proof.
  intros H. unfold SyncCRLCache, get_ca in H.
  apply bind_run in H as [(e & H & ->)|(b & w1 & H1 & H)].
  { left. split; [|done]. eapply mono_run; [|exact H]. apply quiet_counting; mono_tac. }
  apply counting_Ok, wrapping_Ok in H1.
  pose proof (mono_run quiet _ _ _ _ (quiet_lift _ GetCRL_same) H1) as Q.
  apply bind_run in H as [(e & H & _)|(c & w2 & Hc & H)]; [done|]. apply gets_Ok in Hc as [-> ->].
  cbn [id] in H. destruct (selectOwnCRL (ca w1) b) as [[[ours|] pos]|e] eqn:Hs.
  2-3: left; split; [etrans; [exact Q|]; eapply mono_run; [|exact H]; mono_tac|];
    apply bind_run in H as [(? & _ & ->)|(? & ? & _ & H)]; [done|];
    injection H as <- _; done.
  destruct (cachedCRL (ca w1)) as [cached|] eqn:Hcached.
  2: right; exists b, w1, ours, pos; by injection H as _ <-.
  destruct (bool_decide (ours = cached)) eqn:E1; [|destruct (ownsCRL (ca w1) cached && _) eqn:E2].
  3: right; exists b, w1, ours, pos; by injection H as _ <-.
  all: injection H as <- <-; left; split; [done|]; intros o Ho Hb _.
  all: assert (ours = o) as -> by (apply (own_stored_quiet _ _ _ Q), (read_own _ _ _ _ H1) in Ho
    as (chain & _ & _ & Ho); congruence).
  - apply bool_decide_eq_true in E1. by subst.
  - apply andb_true_iff in E2 as [Eo En]. apply negb_true_iff in En.
    assert (grows_to cached o) as [[->|Hn] _]; [|done|congruence].
    destruct Q as [C _]. apply Hb; [unfold same_core, core in C; congruence|].
    by rewrite <- (same_ca_owns _ _ _ (same_core_ca _ _ C)).
Qed.

Lemma grows_SyncCRLCache : mono crl_grows SyncCRLCache.
Proof.
  intros w. unfold exec. destruct (SyncCRLCache w) as [r w'] eqn:E. cbn [snd].
  apply sync_run in E as [[Q _]|(b & w1 & o & pos & Q & H & Hs & ->)]; [by apply quiet_grows|].
  etrans; [by apply quiet_grows|]. apply grows_install_stored. intros o' Ho' _.
  apply (read_own _ _ _ _ H) in Ho' as (chain & _ & _ & Ho'). congruence.
Qed.

Lemma sync_installs w u w' o :
  SyncCRLCache w = (Ok u, w') -> own_stored w o -> behind (ca w) o ->
  cachedCRL (ca w') = Some o /\ same_ca w w' /\ same_store w w'.
Proof.
  intros H Ho Hb. apply sync_run in H as [[Q H]|(b & w1 & o' & pos & Q & H & Hs & ->)].
  - split; [eapply H; eauto|]. split; [apply same_core_ca, Q|apply Q].
  - apply (own_stored_quiet _ _ _ Q), (read_own _ _ _ _ H) in Ho as (chain & _ & _ & Ho).
    assert (o' = o) as -> by congruence.
    pose proof (install_fields o (ca w1)) as (F1 & F2 & F3 & F4 & _). split; [done|].
    split; [|apply Q]. etrans; [apply same_core_ca, Q|]. done.
Qed.

Lemma grows_loadCRLCache : mono crl_grows loadCRLCache.
Proof.
  intros w. unfold exec. destruct (loadCRLCache w) as [r w'] eqn:H. cbn [snd].
  unfold loadCRLCache, get_ca in H.
  apply bind_quiet in H as [Q|(b & w1 & Q & H1 & H)]; [by apply quiet_grows| |mono_tac].
  etrans; [by apply quiet_grows|]. apply wrapping_Ok in H1.
  destruct (pem_Decode b) as [[block|] rest] eqn:Hb; [|by injection H as _ <-].
  destruct (ParseRevocationList (Bytes block)) as [crl|e] eqn:Hp; [|by injection H as _ <-].
  apply bind_run in H as [(e & H & _)|(c & w2 & Hc & H)]; [done|]. apply gets_Ok in Hc as [-> ->].
  cbn [id] in H. injection H as _ <-. apply grows_install_stored. intros o Ho _.
  apply (read_own _ _ _ _ H1) in Ho as (chain & -> & Hin & ->).
  destruct (0 <? indexOfCRL chain o) eqn:Hz; [done|]. apply Z.ltb_ge in Hz.
  destruct chain as [|lead others]; [by apply elem_of_nil in Hin|].
  assert (o = lead) as -> by (by eapply index_zero).
  injection Hb as <- _. injection Hp as ->. by case_match.
Qed.
Lemma grows_RefreshCRLChainFile : mono crl_grows RefreshCRLChainFile.
Proof. unfold RefreshCRLChainFile, get_ca. grows_tac. Qed.
Lemma grows_RefreshCRLIfDue d : mono crl_grows (RefreshCRLIfDue d).
Proof.
  unfold RefreshCRLIfDue, get_ca. apply grows_crllock, grows_read_bind; [intros; mono_tac|].
  intros stored w r w' Ho.
  apply (grows_bind_quiet _ _ (fun w => own_stored w (own stored)));
    [mono_tac|done|intros; by eapply own_stored_quiet|].
  clear w r w' Ho. intros now w r w' Ho. destruct (d <? _).
  - intros H. apply bind_run in H as [(e & H & _)|(c & w2 & Hc & H)]; [done|].
    apply gets_Ok in Hc as [-> ->]. cbv zeta in H.
    destruct (match Number (own stored) with Some _ => _ | None => _ end);
      injection H as _ <-; [|done]. apply grows_install_stored. intros o Ho' _. by eapply own_stored_inj.
  - apply grows_sign_then; [done|done|intros; mono_tac].
Qed.
#[export] Hint Resolve grows_ReissueCRL grows_SyncCRLCache grows_loadCRLCache
  grows_RefreshCRLChainFile grows_RefreshCRLIfDue : mono.
