(* ===== verification/Supersede.v ===== *)
(** * Revocation by subject, and certificates superseded by a renewal

    Models internal/ca/supersede.go and the subject half of revoke.go.  The
    pending supersessions are a JSON list in storage; an entry leaves it only
    once its serial is on the CRL. *)

From S2P Require Import Prelude GoStrings GoTime X509 Inventory Storage InventorySpec Policy.
From S2P Require Import CAState CRLChain CRL OCSP CRLSafety.

(** ** The pending list *)

(** No stored list reads as no data. *)
Definition loadSuperseded : MW (option blob) :=
  r ← try (lift GetSuperseded);
  match r with
  | Ok d => mret (Some d)
  | Err e => if errors_Is e FsErrNotExist then mret None
             else fail (Msg "reading pending certificate revocations")
  end.

(** The entries recovered and the JSON error, if any. *)
Definition parseSuperseded (data : option blob) : list supersededEntry * option error :=
  match data with
  | None | Some (BText "") => ([], None)
  | Some (BSuperseded true es) => (es, None)
  | Some (BSuperseded false es) => (es, Some (Msg "json: cannot unmarshal"))
  | Some _ => ([], Some (Msg "json: invalid character"))
  end.

Definition writeSuperseded (entries : list supersededEntry) : MW unit :=
  r ← try (lift (SaveSuperseded (BSuperseded true entries)));
  match r with
  | Ok _ => mret tt
  | Err _ => fail (Msg "saving pending certificate revocations")
  end.

(** [(entries, corrupt, err)]. *)
Definition readSuperseded : MW (list supersededEntry * bool) :=
  data ← loadSuperseded;
  match parseSuperseded data with
  | (entries, Some _) => _ ← count supersedeFailures; mret (entries, true)
  | (entries, None) => mret (entries, false)
  end.

Definition PendingSupersessions : MW nat :=
  data ← loadSuperseded; mret (length (parseSuperseded data).1).

(** A presented certificate whose serial is pending may not renew; nor may any
    while the list cannot be read. *)
Definition refuseIfSuperseded (presentedCert : option Certificate) (subject : string) : MW unit :=
  match presentedCert with
  | None => mret tt
  | Some cert =>
      let serial := serialHexStr (SerialNumber cert) in
      r ← try loadSuperseded;
      match r with
      | Err e => _ ← count supersedeFailures; fail (Wrap "rejecting renewal" [e])
      | Ok data =>
          match parseSuperseded data with
          | (_, Some _) => fail (Wrap "rejecting renewal" [Sentinel ErrCertSuperseded])
          | (entries, None) =>
              if existsb (fun e => match NormaliseSerial (se_Serial e) with
                              | Ok stored => bool_decide (stored = serial)
                              | Err _ => false
                              end) entries
              then fail (Wrap "rejecting renewal" [Sentinel ErrCertSuperseded])
              else mret tt
          end
      end
  end.

Definition recordSuperseded (subject serial : string) (after : Duration) : MW unit :=
  match NormaliseSerial serial with
  | Err e => _ ← count supersedeFailures; fail (Wrap "malformed serial" [e])
  | Ok canonical =>
      now ← lift time_Now;
      let revokeAt := now + after in
      counting supersedeFailures
        (WithLockW lockNameCRL
           ('(entries, _) ← readSuperseded;
            writeSuperseded (entries ++ [mkSuperseded canonical subject revokeAt])))
  end.

(** A replaced certificate is revoked at once, or after a window. *)
Definition supersedeReplacedAfter (subject oldSerial : string) (after : Duration) : MW unit :=
  if after <=? 0 then WithLockW lockNameCRL (revokeSerialLocked oldSerial)
  else recordSuperseded subject oldSerial after.
Definition supersedeReplaced (subject oldSerial : string) : MW unit :=
  c ← get_ca cfg; supersedeReplacedAfter subject oldSerial (SupersedeAfter c).

(** ** Draining the entries that are due *)

(** One pass over the serials to add: those not yet listed are appended, once
    each; the map gives the revocation time of every one. *)
Definition add_entry (now : Time)
    (acc : gmap string Time * gmap string Time * list RevocationListEntry * nat) (n : Z)
    : gmap string Time * gmap string Time * list RevocationListEntry * nat :=
  let '(listed, revokedAt, revoked, appended) := acc in
  let key := serialHexStr n in
  match listed !! key with
  | Some at_ => (listed, <[key := at_]> revokedAt, revoked, appended)
  | None => (<[key := now]> listed, <[key := now]> revokedAt, revoked ++ [RLE n now], S appended)
  end.

Definition listed_map (entries : list RevocationListEntry) : gmap string Time :=
  fold_left (fun m e => <[serialHexStr (rle_SerialNumber e) := RevocationTime e]> m) entries ∅.

Definition appendCRLEntriesLocked (add : list Z) : MW (gmap string Time) :=
  stored ← readStoredCRL;
  let entries := RevokedCertificateEntries (own stored) in
  now ← lift time_Now;
  let '(_, revokedAt, revoked, appended) :=
    fold_left (add_entry now) add (listed_map entries, ∅, entries, O) in
  if bool_decide (appended = O) then mret revokedAt
  else _ ← signCRLLocked stored revoked; mret revokedAt.

Record drainOutcome := mkOutcome {
  do_revoked : nat;
  do_failed : list supersededEntry;
  do_deferred : list supersededEntry;
  do_discarded : nat }.

(** The due entries with a serial that parses, and how many have none. *)
Fixpoint due_batch (due : list supersededEntry) : list (supersededEntry * string * Z) * nat :=
  match due with
  | [] => ([], O)
  | e :: due =>
      let '(batch, discarded) := due_batch due in
      match NormaliseSerial (se_Serial e) with
      | Err _ => (batch, S discarded)
      | Ok canon =>
          match SetString16 canon with
          | None => (batch, S discarded)
          | Some number => ((e, canon, number) :: batch, discarded)
          end
      end
  end.

Definition drainDueLocked (due : list supersededEntry) : MW drainOutcome :=
  let '(batch, discarded) := due_batch due in
  if bool_decide (batch = []) then mret (mkOutcome 0 [] [] discarded)
  else
    r ← try (appendCRLEntriesLocked (map snd batch));
    match r with
    | Err _ => mret (mkOutcome 0 (map (fun d => d.1.1) batch) [] discarded)
    | Ok revokedAt =>
        _ ← for_each (fun d => markCertRevokedIndex d.1.2 (default zero_time (revokedAt !! d.1.2))) batch;
        mret (mkOutcome (length batch) [] [] discarded)
    end.

(** Entries are revoked earliest first. *)
Definition due_order (a b : supersededEntry) : Prop := RevokeAt a <= RevokeAt b.
#[global] Instance due_order_dec a b : Decision (due_order a b).
Proof. unfold due_order. apply _. Defined.

(** The locked body of the sweep: the number revoked and the error of the final
    write, which does not undo them. *)
Definition reconcile_body : MW (nat * option error) :=
  r ← try readSuperseded;
  match r with
  | Err e => mret (O, Some e)
  | Ok (entries, corrupt) =>
      if bool_decide (entries = []) then
        if (corrupt : bool) then
          x ← try (writeSuperseded []);
          mret (O, match x with Ok _ => None | Err e => Some e end)
        else mret (O, None)
      else
        now ← lift time_Now;
        let pending := base.filter (fun e => now < RevokeAt e) entries in
        let due := base.filter (fun e => ~ now < RevokeAt e) entries in
        if bool_decide (due = []) && negb corrupt then mret (O, None)
        else
          outcome ← drainDueLocked (merge_sort due_order due);
          _ ← when (negb (bool_decide (do_failed outcome = []))
                    || negb (bool_decide (do_deferred outcome = []))
                    || bool_decide (0 < do_discarded outcome)%nat)
                (count supersedeFailures);
          x ← try (writeSuperseded (pending ++ do_failed outcome ++ do_deferred outcome));
          mret (do_revoked outcome, match x with Ok _ => None | Err e => Some e end)
  end.

Definition reconcile_locked : MW (nat * option error) :=
  '(x, _) ← WithLockRan lockNameCRL reconcile_body;
  match x with
  | Err e => _ ← count supersedeFailures; mret (O, Some e)
  | Ok (n, Some e) => _ ← count supersedeFailures; mret (n, Some e)
  | Ok (n, None) => mret (n, None)
  end.

(** An empty readable list needs no lock. *)
Definition ReconcileSuperseded : MW (nat * option error) :=
  r ← try loadSuperseded;
  match r with
  | Ok data =>
      match parseSuperseded data with
      | ([], None) => mret (O, None)
      | _ => reconcile_locked
      end
  | Err _ => reconcile_locked
  end.

(** ** Revocation by subject and by serial (revoke.go) *)

(** Revoke the subject's superseded certificates too.  An entry that could not
    be revoked stays pending. *)
Fixpoint retire_each (mine : list supersededEntry) : MW (list supersededEntry) :=
  match mine with
  | [] => mret []
  | e :: mine =>
      r ← try (revokeSerialLocked (se_Serial e));
      failed ← retire_each mine;
      mret (match r with Ok _ => failed | Err _ => e :: failed end)
  end.

Definition retireSupersededForSubjectLocked (subject : string) : MW unit :=
  r ← try readSuperseded;
  match r with
  | Err _ => count supersedeFailures
  | Ok (entries, _) =>
      let mine := base.filter (fun e => se_Subject e = subject) entries in
      let kept := base.filter (fun e => se_Subject e <> subject) entries in
      if bool_decide (mine = []) then mret tt
      else
        failed ← retire_each mine;
        _ ← when (negb (bool_decide (failed = []))) (count supersedeFailures);
        x ← try (writeSuperseded (kept ++ failed));
        match x with Ok _ => mret tt | Err _ => count supersedeFailures end
  end.

Definition findSerialForSubject (subject : string) : MW string :=
  lift (LatestSerialForSubject subject).

Definition revokeLocked (subject : string) : MW unit :=
  _ ← retireSupersededForSubjectLocked subject;
  r ← try (findSerialForSubject subject);
  match r with
  | Err e =>
      if errors_Is e FsErrNotExist then fail (Wrap subject [Sentinel ErrSubjectUnknown])
      else _ ← count crlUpdateFailures; fail (Wrap "could not find certificate for subject" [e])
  | Ok serialStr => wrapping "revoking serial for subject" (revokeSerialLocked serialStr)
  end.

Definition Revoke (subject : string) : MW unit :=
  _ ← check (ValidateSubject subject);
  WithLockW (subjectLockName subject) (withCRLLockCounted (revokeLocked subject)).

(** The serial of the certificate stored for a subject. *)
Definition storedCertSerial (subject : string) : MW string :=
  certPEM ← lift (GetCert subject);
  match pem_Decode certPEM with
  | (None, _) => fail (Msg "stored certificate is not valid PEM")
  | (Some block, _) =>
      match ParseCertificate (Bytes block) with
      | Err e => fail (Wrap "parsing stored certificate" [e])
      | Ok cert => mret (serialHexStr (SerialNumber cert))
      end
  end.

Definition revokeSerialCheckedLocked (serial : string) (force : bool) : MW unit :=
  r ← try (lift (SubjectForSerial serial));
  match r with
  | Err e =>
      if errors_Is e FsErrNotExist then fail (Wrap serial [Sentinel ErrSerialUnknown])
      else _ ← count crlUpdateFailures; fail (Wrap "looking up serial in inventory" [e])
  | Ok subject =>
      live ← try (storedCertSerial subject);
      _ ← check (match live with
                 | Err e => if negb (errors_Is e FsErrNotExist) && negb force
                            then Some (Sentinel ErrSerialStateUnknown) else None
                 | Ok l => if bool_decide (l = serial) && negb force
                           then Some (Sentinel ErrSerialIsCurrent) else None
                 end);
      revokeSerialLocked serial
  end.

Definition RevokeSerial (serial : string) (force : bool) : MW unit :=
  normalised ← of_result (NormaliseSerial serial);
  withCRLLockCounted (revokeSerialCheckedLocked normalised force).

(** ** Lemmas *)

Definition on_crl (w : World) (n : Z) : Prop :=
  exists o, own_stored w o /\ n ∈ revoked_serials o.

Lemma on_crl_grows w w' n : crl_grows w w' -> key_matches (ca w) -> on_crl w n -> on_crl w' n.
Proof.
  intros [_ H] Hm (o & Ho & Hn). destruct (H Hm o Ho) as (o' & Ho' & [_ Hsub] & _). exists o'. auto.
Qed.

Lemma listed_map_lookup entries k :
  is_Some (listed_map entries !! k) -> exists n, n ∈ map rle_SerialNumber entries /\ k = serialHexStr n.
Proof.
  unfold listed_map.
  assert (forall m, is_Some (fold_left (fun m e => <[serialHexStr (rle_SerialNumber e) := RevocationTime e]> m)
    entries m !! k) -> is_Some ((m : gmap string Time) !! k) \/
    exists n, n ∈ map rle_SerialNumber entries /\ k = serialHexStr n) as H.
  { induction entries as [|e entries IH]; intros m H; cbn [fold_left] in H; [by left|].
    apply IH in H as [H|(n & Hn & ->)]; cbn [map].
    - rewrite lookup_insert in H. case_decide as Hk; [|by left].
      right. exists (rle_SerialNumber e). split; [by left|done].
    - right. exists n. split; [by right|done]. }
  intros Hk. destruct (H ∅ Hk) as [[v Hv]|]; [by rewrite lookup_empty in Hv|done].
Qed.

(** The pass over the serials to add lists all of them and keeps what was
    listed. *)
Definition add_inv (entries : list RevocationListEntry) (done : list Z)
    (acc : gmap string Time * gmap string Time * list RevocationListEntry * nat) : Prop :=
  let '(listed, _, revoked, appended) := acc in
  (forall k, is_Some (listed !! k) -> exists n, n ∈ map rle_SerialNumber revoked /\ k = serialHexStr n) /\
  (forall n, n ∈ map rle_SerialNumber entries -> n ∈ map rle_SerialNumber revoked) /\
  (forall n, n ∈ done -> n ∈ map rle_SerialNumber revoked) /\
  (appended = O -> revoked = entries).

Lemma add_inv_step now entries done acc n :
  add_inv entries done acc -> add_inv entries (done ++ [n]) (add_entry now acc n).
Proof.
  destruct acc as [[[listed revokedAt] revoked] appended]. unfold add_inv, add_entry.
  intros (I1 & I2 & I3 & I4). destruct (listed !! serialHexStr n) as [at_|] eqn:Hl.
  - split_and!; auto. intros m [Hm|Hm]%elem_of_app; [by auto|].
    apply list_elem_of_singleton in Hm as ->.
    destruct (I1 (serialHexStr n)) as (n' & Hn' & E); [by eauto|]. by apply hexX_inj in E as ->.
  - rewrite map_app. cbn [map rle_SerialNumber]. split_and!.
    + intros k Hk. rewrite lookup_insert in Hk. case_decide as E.
      * exists n. split; [apply elem_of_app; right; by left|done].
      * destruct (I1 k Hk) as (m & Hm & ->). exists m. split; [apply elem_of_app; by left|done].
    + intros m Hm. apply elem_of_app. left. auto.
    + intros m [Hm|Hm]%elem_of_app; apply elem_of_app; [left|right]; auto.
    + done.
Qed.

Lemma add_entries_spec now entries add :
  add_inv entries add (fold_left (add_entry now) add (listed_map entries, ∅, entries, O)).
Proof.
  induction add as [|n add IH] using rev_ind.
  - split_and!; auto; [apply listed_map_lookup|]. intros n Hn. by apply elem_of_nil in Hn.
  - rewrite fold_left_app. by apply add_inv_step.
Qed.

Lemma grows_append add : mono crl_grows (appendCRLEntriesLocked add).
Proof.
  unfold appendCRLEntriesLocked. apply grows_read_bind.
  - intros stored. mono_tac.
  - intros stored w r w' Ho.
    apply (grows_bind_quiet _ _ (fun w => own_stored w (own stored)));
      [mono_tac|done|intros; by eapply own_stored_quiet|].
    clear w r w' Ho. intros now w r w' Ho.
    pose proof (add_entries_spec now (RevokedCertificateEntries (own stored)) add) as Hi.
    destruct (fold_left _ add _) as [[[listed revokedAt] revoked] appended].
    destruct Hi as (_ & I2 & _ & _). case_bool_decide.
    + intros H'. eapply mono_run; [|exact H']. mono_tac.
    + apply grows_sign_then; [done|exact I2|intros; mono_tac].
Qed.
#[export] Hint Resolve grows_append : mono.

(** When it succeeds, every serial it was given is on the stored CRL. *)
Lemma append_lists add w m w' o :
  key_matches (ca w) -> own_stored w o -> appendCRLEntriesLocked add w = (Ok m, w') ->
  forall n, n ∈ add -> on_crl w' n.
Proof.
  intros Hm (chain & Hst & Hown) H. unfold appendCRLEntriesLocked in H.
  apply bind_Ok in H as (stored & w1 & Hr & H). unfold readStoredCRL in Hr. apply counting_Ok in Hr.
  eapply parseStored_spec in Hr as (C1 & S1 & Hblob & Hs & Howns); [|exact Hst].
  apply bind_Ok in H as (now & w2 & Ht & H). apply lift_Ok in Ht as (s2 & Ht & ->).
  pose proof (mono_run _ _ _ _ _ same_data_time_Now Ht) as S2.
  pose proof (add_entries_spec now (RevokedCertificateEntries (own stored)) add) as Hi.
  destruct (fold_left _ add _) as [[[listed revokedAt] revoked] appended].
  destruct Hi as (_ & _ & I3 & I4). case_bool_decide as Ha.
  - apply ret_Ok in H as [-> ->]. intros n Hn. exists (own stored). split.
    + exists chain. unfold stored_chain. cbn [st ca set_st]. destruct S1 as (E1 & _), S2 as (E2 & _).
      rewrite E2, E1, C1. done.
    + unfold revoked_serials. rewrite <- (I4 Ha). by apply I3.
  - apply bind_Ok in H as (u & w3 & Hsign & H). apply ret_Ok in H as [-> ->].
    apply signCRL_spec in Hsign as (crl & others & S). intros n Hn. exists crl.
    destruct (fun H1 H2 => signed_ok_own _ _ _ _ _ _ H1 H2 S) as (_ & Hlead & _);
      [cbn [ca set_st]; by rewrite C1..|].
    split; [|rewrite (so_serials _ _ _ _ _ _ S); by apply I3].
    exists (crl :: others). split; [exact (so_stored _ _ _ _ _ _ S)|exact Hlead].
Qed.

(** *** The pending list across an action *)

Definition pending_list (w : World) : list supersededEntry :=
  (parseSuperseded (blobs (be (st w)) !! KeySuperseded)).1.

Definition sup_same : relation World := fun w w' =>
  blobs (be (st w')) !! KeySuperseded = blobs (be (st w)) !! KeySuperseded.
#[global] Instance sup_same_preorder : PreOrder sup_same.
Proof. split; unfold sup_same; [done|]. intros ? ? ? ? ?. congruence. Qed.

Lemma sup_lift {A} K (m : MS A) : mono (frame K) m -> ~ K KeySuperseded -> mono sup_same (lift m).
Proof. intros Hm HK. eapply mono_lift; [exact Hm|]. intros w s' (_ & _ & Hf). by apply Hf. Qed.
Lemma sup_quiet {A} (m : MW A) : mono quiet m -> mono sup_same m.
Proof. apply mono_weaken. intros w w' [_ (E & _)]. unfold sup_same. by rewrite E. Qed.
Lemma sup_upd f : mono sup_same (upd_ca f).
Proof. by apply mono_upd_ca. Qed.
Lemma sup_count name : mono sup_same (count name).
Proof. by apply mono_upd_ca. Qed.
Lemma sup_UpdateCRL b : mono sup_same (lift (UpdateCRL b)).
Proof. apply (sup_lift (fun k => k = KeyCRL)); [by apply frame_Put|done]. Qed.
Lemma sup_mark s t : mono sup_same (markCertRevokedIndex s t).
Proof.
  eapply mono_weaken; [|apply mark_frame]. intros w w' (E & _). unfold sup_same. by rewrite E.
Qed.
Lemma sup_counting {A} name (m : MW A) : mono sup_same m -> mono sup_same (counting name m).
Proof. intros. apply mono_counting; auto using sup_count. typeclasses eauto. Qed.
#[export] Hint Resolve sup_upd sup_count sup_UpdateCRL sup_mark : mono.
#[export] Hint Extern 2 (mono sup_same _) => apply sup_quiet; solve [eauto with mono] : mono.

Lemma sup_sign prev revoked : mono sup_same (signCRLLocked prev revoked).
Proof.
  unfold signCRLLocked, acquireSigningSlot, get_ca.
  repeat first [mono_step | apply sup_counting].
Qed.
#[export] Hint Resolve sup_sign : mono.
Lemma sup_append add : mono sup_same (appendCRLEntriesLocked add).
Proof. unfold appendCRLEntriesLocked. mono_tac. Qed.
#[export] Hint Resolve sup_append : mono.
Lemma sup_drain due : mono sup_same (drainDueLocked due).
Proof. unfold drainDueLocked. mono_tac. Qed.

(** The number a pending entry stands for, if its serial parses. *)
Definition serial_number (e : supersededEntry) : option Z :=
  match NormaliseSerial (se_Serial e) with Ok c => SetString16 c | Err _ => None end.

Lemma due_batch_spec due e :
  e ∈ due -> serial_number e = None \/
  exists c n, serial_number e = Some n /\ (e, c, n) ∈ (due_batch due).1.
Proof.
  intros He. induction due as [|x due IH]; [by apply elem_of_nil in He|].
  cbn [due_batch]. destruct (due_batch due) as [batch discarded]. cbn [fst] in IH.
  apply elem_of_cons in He as [->|He].
  - unfold serial_number. destruct (NormaliseSerial (se_Serial x)) as [c|]; [|by left].
    destruct (SetString16 c) as [n|] eqn:E; [|by left]. right. exists c, n. split; [done|]. by left.
  - destruct (IH He) as [?|(c & n & Hs & Hin)]; [by left|]. right. exists c, n. split; [done|].
    repeat case_match; cbn [fst]; try done. by right.
Qed.

Lemma drain_spec due w out w' o :
  key_matches (ca w) -> own_stored w o -> drainDueLocked due w = (Ok out, w') ->
  forall e, e ∈ due ->
    e ∈ do_failed out \/ serial_number e = None \/ exists n, serial_number e = Some n /\ on_crl w' n.
Proof.
  intros Hm Ho H e He. unfold drainDueLocked in H.
  pose proof (due_batch_spec due e He) as Hb. destruct (due_batch due) as [batch discarded].
  destruct Hb as [Hn|(c & n & Hs & Hin)]; [by auto|]. cbn [fst] in Hin.
  case_bool_decide as Hbe; [subst; by apply elem_of_nil in Hin|].
  apply bind_Ok in H as (r & w1 & Hr & H). apply try_Ok in Hr. destruct r as [revokedAt|e'].
  - apply bind_Ok in H as (u & w2 & Hf & H). apply ret_Ok in H as [-> ->].
    right. right. exists n. split; [done|].
    assert (crl_grows w1 w2) as G by (eapply mono_run; [|exact Hf]; mono_tac).
    assert (same_ca w w1) as C. { apply (mono_run crl_grows _ _ _ _ (grows_append _) Hr). }
    eapply on_crl_grows; [exact G|by eapply key_matches_same|].
    eapply append_lists; [exact Hm|exact Ho|exact Hr|].
    apply list_elem_of_fmap. by exists (e, c, n).
  - apply ret_Ok in H as [-> ->]. left. cbn [do_failed]. apply list_elem_of_fmap. by exists (e, c, n).
Qed.

Lemma grows_drain due : mono crl_grows (drainDueLocked due).
Proof. unfold drainDueLocked. mono_tac. Qed.

Lemma SaveSuperseded_any b s r s' :
  SaveSuperseded b s = (r, s') ->
  frame (fun k => k = KeySuperseded) s s' /\
  (blobs (be s') !! KeySuperseded = blobs (be s) !! KeySuperseded \/
   blobs (be s') !! KeySuperseded = Some b).
Proof.
  intros H. split; [eapply mono_run; [|exact H]; by apply frame_Put|].
  unfold SaveSuperseded in H. apply backend_cases in H as (_ & _ & H).
  assert (blobs (be_Put KeySuperseded b (be s)).2 !! KeySuperseded = Some b) as HP.
  { unfold be_Put, guarded. change (validateKey KeySuperseded) with (@None error).
    rewrite on_rows_other by done. simpl. by rewrite lookup_insert_eq. }
  destruct H as [[_ ->]|(e & _ & [->| ->])]; auto.
Qed.

(** A write of the list leaves the old list or the new one, and the CRL. *)
Lemma writeSuperseded_any es w r w' :
  try (writeSuperseded es) w = (r, w') ->
  ca w' = ca w /\ blobs (be (st w')) !! KeyCRL = blobs (be (st w)) !! KeyCRL /\
  (pending_list w' = pending_list w \/ pending_list w' = es).
Proof.
  unfold try, writeSuperseded. intros H.
  destruct ((try _ ≫= _) w) as [x w1] eqn:E. injection H as _ <-.
  apply bind_run in E as [(e & E & _)|(y & w2 & E & Hk)]; [by apply try_Err in E|].
  apply try_Ok in E. apply lift_run in E as (s2 & E & ->).
  apply SaveSuperseded_any in E as [(_ & _ & F) B].
  assert (w1 = set_st s2 w) as -> by (destruct y; by injection Hk as _ <-).
  split; [done|]. split; [by apply F|]. unfold pending_list. cbn [st set_st].
  destruct B as [->| ->]; auto.
Qed.

Lemma GetSuperseded_same : mono same_data GetSuperseded.
Proof. unfold GetSuperseded. mono_tac. Qed.
#[export] Hint Resolve GetSuperseded_same : mono.
Lemma quiet_loadSuperseded : mono quiet loadSuperseded.
Proof. unfold loadSuperseded. mono_tac. Qed.
#[export] Hint Resolve quiet_loadSuperseded : mono.
Lemma quiet_readSuperseded : mono quiet readSuperseded.
Proof. unfold readSuperseded. mono_tac. Qed.
#[export] Hint Resolve quiet_readSuperseded : mono.

Lemma loadSuperseded_Ok w d w' :
  loadSuperseded w = (Ok d, w') -> d = blobs (be (st w)) !! KeySuperseded.
Proof.
  unfold loadSuperseded. intros H. apply bind_Ok in H as (r & w1 & Hr & H). apply try_Ok in Hr.
  apply lift_run in Hr as (s1 & Hr & ->). unfold GetSuperseded in Hr. destruct r as [b|e].
  - apply ret_Ok in H as [-> _]. apply backend_Ok in Hr as [Hr _].
    by apply be_Get_Ok in Hr as [-> _]; [|apply on_rows_other].
  - destruct (errors_Is e FsErrNotExist) eqn:E; [|by apply fail_Ok in H]. apply ret_Ok in H as [-> _].
    eapply backend_Err_is in Hr as [Hr _]; [|exact E].
    destruct (be_Get KeySuperseded (be (st w))) as [r b'] eqn:G. simpl in Hr. subst r.
    by eapply be_Get_missing in G.
Qed.

Lemma readSuperseded_Ok w es corrupt w' :
  readSuperseded w = (Ok (es, corrupt), w') -> es = pending_list w.
Proof.
  unfold readSuperseded. intros H. apply bind_Ok in H as (d & w1 & Hd & H).
  apply loadSuperseded_Ok in Hd as ->. unfold pending_list.
  destruct (parseSuperseded _) as [es' [e|]]; by minv.
Qed.

(** An entry is accounted for: still pending, revoked, or with a serial that
    names no certificate. *)
Definition accounted (w : World) (e : supersededEntry) : Prop :=
  e ∈ pending_list w \/ serial_number e = None \/ exists n, serial_number e = Some n /\ on_crl w n.

Lemma quiet_pending w w' : quiet w w' -> pending_list w' = pending_list w.
Proof. intros [_ (E & _)]. unfold pending_list. by rewrite E. Qed.

Lemma reconcile_body_accounts w r w' o :
  key_matches (ca w) -> own_stored w o -> reconcile_body w = (r, w') ->
  forall e, e ∈ pending_list w -> accounted w' e.
Proof.
  intros Hm Ho H e He.
  assert (forall w1, quiet w w1 -> accounted w1 e) as Hq.
  { intros w1 Q. left. by rewrite (quiet_pending _ _ Q). }
  unfold reconcile_body in H. apply bind_quiet in H as [Q|(x & w1 & Q1 & Hr & H)];
    [by apply Hq| |mono_tac].
  apply try_Ok in Hr. destruct x as [[entries corrupt]|e']; [|injection H as _ <-; by apply Hq].
  apply readSuperseded_Ok in Hr as ->.
  case_bool_decide as Hemp; [by rewrite Hemp in He; apply elem_of_nil in He|].
  apply bind_quiet in H as [Q|(now & w2 & Q2 & _ & H)]; [apply Hq; by etrans| |mono_tac].
  assert (quiet w w2) as Q by (by etrans).
  destruct (bool_decide (_ = []) && negb corrupt); [injection H as _ <-; by apply Hq|].
  apply bind_run in H as [(e' & H & _)|(out & w3 & Hd & H)].
  { left. apply (mono_run sup_same _ _ _ _ (sup_drain _)) in H.
    unfold pending_list. rewrite H. by rewrite <- (quiet_pending _ _ Q) in He. }
  pose proof (mono_run sup_same _ _ _ _ (sup_drain _) Hd) as S3.
  assert (pending_list w3 = pending_list w) as P3.
  { unfold pending_list at 1. rewrite S3. exact (quiet_pending _ _ Q). }
  assert (key_matches (ca w2)) as Hm2
    by (eapply key_matches_same; [apply same_core_ca, Q|exact Hm]).
  pose proof (drain_spec _ _ _ _ o Hm2 (own_stored_quiet _ _ _ Q Ho) Hd) as Hdrain.
  assert (key_matches (ca w3)) as Hm3.
  { eapply key_matches_same; [|exact Hm2]. apply (mono_run crl_grows _ _ _ _ (grows_drain _) Hd). }
  apply bind_quiet in H as [Q4|(u & w4 & Q4 & _ & H)]; [| |mono_tac].
  { left. by rewrite (quiet_pending _ _ Q4), P3. }
  apply bind_run in H as [(e' & H & _)|(x & w5 & Hw & H)]; [by apply try_Err in H|].
  injection H as _ <-. apply writeSuperseded_any in Hw as (C5 & B5 & [P5|P5]).
  { left. by rewrite P5, (quiet_pending _ _ Q4), P3. }
  unfold accounted. rewrite P5, !elem_of_app.
  destruct (decide (now < RevokeAt e)) as [Hp|Hp].
  { left. left. by apply list_elem_of_filter. }
  destruct (Hdrain e) as [?|[?|(n & Hs & Hn)]]; [|by auto|by auto|].
  { rewrite merge_sort_Permutation. by apply list_elem_of_filter. }
  right. right. exists n. split; [done|].
  eapply on_crl_grows; [|exact Hm3|exact Hn]. etrans; [by apply quiet_grows|].
  apply grows_frame; [unfold same_ca; by rewrite C5|by rewrite C5|done].
Qed.

(** No pending supersession is forgotten.  Whatever the sweep reports and
    whichever storage calls failed, every certificate that was pending before
    is afterwards still pending, or on the stored CRL of this CA, or was filed
    under a serial that names no certificate. *)
Theorem ReconcileSuperseded_accounts w r w' o :
  key_matches (ca w) -> own_stored w o -> ReconcileSuperseded w = (r, w') ->
  forall e, e ∈ pending_list w -> accounted w' e.
Proof.
  intros Hm Ho H e He. unfold ReconcileSuperseded in H.
  assert (forall w1, quiet w w1 -> accounted w1 e) as Hq.
  { intros w1 Q. left. by rewrite (quiet_pending _ _ Q). }
  apply bind_quiet in H as [Q|(x & w1 & Q1 & _ & H)]; [by apply Hq| |mono_tac].
  assert (reconcile_locked w1 = (r, w') \/ w' = w1) as [HL| ->]; [|clear H|by apply Hq].
  { repeat case_match; auto. injection H as _ <-. by right. }
  unfold reconcile_locked in HL. apply bind_run in HL as [(e' & HL & _)|([y ran] & w2 & HL & H)].
  { unfold WithLockRan in HL. apply bind_run in HL as [(? & HL & _)|(l & w3 & _ & HL)];
      [by apply try_Err in HL|]. destruct l; [|done].
    apply bind_run in HL as [(? & HL & _)|(? & ? & _ & HL)]; [by apply try_Err in HL|done]. }
  assert (quiet w2 w') as Q2.
  { eapply (mono_run quiet); [|exact H]. mono_tac. }
  apply WithLockRan_Ok in HL as [(_ & _ & _ & S & C)|(_ & w3 & C3 & S3 & Hb)].
  - apply Hq. etrans; [exact Q1|]. etrans; [|exact Q2]. split; [|done].
    unfold same_core. by rewrite C.
  - assert (quiet w w3) as Q3. { etrans; [exact Q1|]. split; [unfold same_core; by rewrite C3|done]. }
    assert (accounted w2 e) as A.
    { eapply reconcile_body_accounts; [|by eapply own_stored_quiet|exact Hb|].
      - eapply key_matches_same; [apply same_core_ca, Q3|done].
      - by rewrite (quiet_pending _ _ Q3). }
    destruct A as [A|[A|(n & Hs & A)]].
    + left. by rewrite (quiet_pending _ _ Q2).
    + by right; left.
    + right. right. exists n. split; [done|]. destruct A as (o' & Ho' & Hn). exists o'.
      split; [by eapply own_stored_quiet|done].
Qed.

(** ** Revoking a subject *)

(** The inventory entries are untouched; cached state of rows may change. *)
Definition inv_kept : relation World := fun w w' =>
  structured (be (st w')) = structured (be (st w)) /\
  map cr_entry (rows (be (st w'))) = map cr_entry (rows (be (st w))) /\
  blobs (be (st w')) !! KeyInventory = blobs (be (st w)) !! KeyInventory.
#[global] Instance inv_kept_preorder : PreOrder inv_kept.
Proof. split; [done|]. intros ? ? ? (?&?&?) (?&?&?). unfold inv_kept. split_and!; congruence. Qed.

Lemma inv_kept_view w w' : inv_kept w w' -> inv_view (be (st w')) = inv_view (be (st w)).
Proof. intros (E1 & E2 & E3). unfold inv_view, inventory_text. by rewrite E1, E2, E3. Qed.

Lemma kept_quiet {A} (m : MW A) : mono quiet m -> mono inv_kept m.
Proof. apply mono_weaken. intros w w' [_ (E & _)]. unfold inv_kept. by rewrite E. Qed.
Lemma kept_upd f : mono inv_kept (upd_ca f).
Proof. by apply mono_upd_ca. Qed.
Lemma kept_count name : mono inv_kept (count name).
Proof. by apply mono_upd_ca. Qed.
Lemma kept_counting {A} name (m : MW A) : mono inv_kept m -> mono inv_kept (counting name m).
Proof. intros. apply mono_counting; auto using kept_count. typeclasses eauto. Qed.

Lemma kept_backend {A} (op : BOp A) :
  (forall b, structured (op b).2 = structured b /\ map cr_entry (rows (op b).2) = map cr_entry (rows b) /\
        blobs (op b).2 !! KeyInventory = blobs b !! KeyInventory) ->
  mono inv_kept (lift (backend op)).
Proof.
  intros H w. unfold exec, lift. destruct (backend op (st w)) as [r s'] eqn:E.
  apply backend_cases in E as (_ & _ & E). destruct (H (be (st w))) as (H1 & H2 & H3).
  unfold inv_kept. cbn [snd st set_st].
  destruct E as [[_ ->]|(e & _ & [->| ->])]; done.
Qed.

Lemma kept_Put key d : key <> KeyInventory -> mono inv_kept (lift (backend (be_Put key d))).
Proof.
  intros Hk. apply kept_backend. intros b. unfold be_Put, guarded. rewrite on_rows_other by done.
  case_match; [done|]. simpl. by rewrite lookup_insert_ne.
Qed.
Lemma kept_UpdateCRL b : mono inv_kept (lift (UpdateCRL b)).
Proof. by apply kept_Put. Qed.
Lemma kept_SaveSuperseded b : mono inv_kept (lift (SaveSuperseded b)).
Proof. by apply kept_Put. Qed.
Lemma kept_mark s t : mono inv_kept (markCertRevokedIndex s t).
Proof.
  unfold markCertRevokedIndex, MarkCertRevoked, on_index, is_structured. apply mono_ignore; [typeclasses eauto|].
  intros w. unfold lift, exec, mbind, M_bind, gets. destruct (structured (be (st w))) eqn:E; [|done].
  apply (kept_backend (sql_SetRevoked s t)). intros b. unfold sql_SetRevoked, update_rows. simpl.
  split_and!; [done| |done]. rewrite map_map. apply map_ext. intros r. by repeat case_bool_decide.
Qed.
#[export] Hint Resolve kept_upd kept_count kept_UpdateCRL kept_SaveSuperseded kept_mark : mono.
#[export] Hint Extern 2 (mono inv_kept _) => apply kept_quiet; solve [eauto with mono] : mono.

Lemma kept_sign prev revoked : mono inv_kept (signCRLLocked prev revoked).
Proof.
  unfold signCRLLocked, acquireSigningSlot, get_ca. repeat first [mono_step | apply kept_counting].
Qed.
#[export] Hint Resolve kept_sign : mono.
Lemma kept_revokeSerial s : mono inv_kept (revokeSerialLocked s).
Proof. unfold revokeSerialLocked. mono_tac. Qed.
#[export] Hint Resolve kept_revokeSerial : mono.
Lemma kept_retire_each mine : mono inv_kept (retire_each mine).
Proof. induction mine; simpl; mono_tac. Qed.
#[export] Hint Resolve kept_retire_each : mono.
Lemma kept_retire subject : mono inv_kept (retireSupersededForSubjectLocked subject).
Proof. unfold retireSupersededForSubjectLocked, writeSuperseded. mono_tac. Qed.

Lemma grows_write es : mono crl_grows (writeSuperseded es).
Proof.
  unfold writeSuperseded. mono_tac.
  apply (grows_lift_frame (fun k => k = KeySuperseded)); [by apply frame_Put|done].
Qed.
#[export] Hint Resolve grows_write : mono.
Lemma grows_readSuperseded : mono crl_grows readSuperseded.
Proof. apply grows_quiet. mono_tac. Qed.
#[export] Hint Resolve grows_readSuperseded : mono.
Lemma grows_retire_each mine : mono crl_grows (retire_each mine).
Proof. induction mine; simpl; mono_tac. Qed.
#[export] Hint Resolve grows_retire_each : mono.
Lemma grows_retire subject : mono crl_grows (retireSupersededForSubjectLocked subject).
Proof. unfold retireSupersededForSubjectLocked. mono_tac. Qed.
#[export] Hint Resolve grows_retire : mono.

Lemma revoke_on_crl s n w u w' o :
  key_matches (ca w) -> own_stored w o -> SetString16 s = Some n ->
  revokeSerialLocked s w = (Ok u, w') -> on_crl w' n.
Proof.
  intros Hm (chain & Hst & Ho) Hn H. destruct u.
  destruct (revokeSerial_spec _ _ _ _ _ _ Hm Hst Ho Hn H) as (chain' & new & S' & O' & Hin & _).
  exists new. split; [by exists chain'|done].
Qed.

Lemma revokeLocked_spec subject w u w' o :
  key_matches (ca w) -> own_stored w o -> revokeLocked subject w = (Ok u, w') ->
  exists e n,
    last_match (fun e => bool_decide (ie_Subject e = subject)) (inv_view (be (st w))) = Some e /\
    SetString16 (ie_Serial e) = Some n /\ on_crl w' n.
Proof.
  intros Hm Ho H. unfold revokeLocked in H. apply bind_Ok in H as (u1 & w1 & H1 & H).
  pose proof (mono_run _ _ _ _ _ (grows_retire _) H1) as G1.
  pose proof (inv_kept_view _ _ (mono_run _ _ _ _ _ (kept_retire _) H1)) as V1.
  apply bind_Ok in H as (r & w2 & H2 & H). apply try_Ok in H2. destruct r as [serial|e]; [|by minv].
  unfold findSerialForSubject in H2. apply lift_Ok in H2 as (s2 & H2 & ->).
  assert (frame (fun k => k = KeyInventoryHMAC) (st w1) s2) as F.
  { eapply mono_run; [|exact H2]. apply latest_frame. }
  apply LatestSerialForSubject_last in H2 as (e & He & Hs). rewrite V1 in He.
  apply wrapping_Ok in H.
  assert (crl_grows w1 (set_st s2 w1)) as G2.
  { apply grows_frame; [done|done|]. destruct F as (_ & _ & F). by apply F. }
  pose proof (transitivity G1 G2) as [C G]. destruct (G Hm o Ho) as (o' & Ho' & _).
  destruct (SetString16 serial) as [n|] eqn:En.
  - exists e, n. split; [done|]. split; [by rewrite Hs|].
    eapply revoke_on_crl; [by eapply key_matches_same|exact Ho'|exact En|exact H].
  - unfold revokeSerialLocked in H. rewrite En in H. by minv.
Qed.

(** Revoking a subject revokes the certificate the inventory lists last for it. *)
Lemma Revoke_latest subject w w' o :
  key_matches (ca w) -> own_stored w o -> Revoke subject w = (Ok tt, w') ->
  exists e n,
    last_match (fun e => bool_decide (ie_Subject e = subject)) (inv_view (be (st w))) = Some e /\
    SetString16 (ie_Serial e) = Some n /\ on_crl w' n.
Proof.
  intros Hm Ho H. unfold Revoke in H. apply bind_Ok in H as (u & w0 & Hv & H).
  apply check_Ok in Hv as [_ ->]. unfold WithLockW, withCRLLockCounted in H.
  apply bind_Ok in H as ([r1 ran1] & w1 & H1 & H). apply of_result_Ok in H as [-> ->].
  apply WithLockRan_Ok in H1 as [(_ & [e ?] & _)|(_ & w2 & C2 & S2 & H2)]; [done|].
  apply bind_Ok in H2 as ([r2 ran2] & w3 & H3 & H2). destruct r2 as [u2|]; [|by minv].
  apply ret_Ok in H2 as [_ ->].
  apply WithLockRan_Ok in H3 as [(_ & [e ?] & _)|(_ & w4 & C4 & S4 & H4)]; [done|].
  assert (quiet w w4) as Q.
  { split; [unfold same_core; by rewrite C4, C2|]. by etrans. }
  assert (inv_view (be (st w4)) = inv_view (be (st w))) as V.
  { destruct Q as [_ (E & _)]. by rewrite E. }
  apply (revokeLocked_spec _ _ _ _ o) in H4 as (e & n & He & Hn & Hc).
  - exists e, n. by rewrite V in He.
  - eapply key_matches_same; [apply same_core_ca, Q|done].
  - by eapply own_stored_quiet.
Qed.

