(* ===== verification/Signing.v ===== *)
(** * Issuing certificates

    Models internal/ca/signing.go: requests, signing, renewal, automatic
    renewal, cleaning, and their bulk forms, with the projection of
    certindex.go.  The decision of the autosign policy (a file of globs or an
    external program, autosign.go) is read from a script. *)

From S2P Require Import Prelude GoStrings GoTime X509 Inventory Storage InventorySpec Policy.
From S2P Require Import CAState CRLChain CRL OCSP CRLSafety Supersede.

(** ** The shared tail of every issuance *)

Definition certProjectionFor (cert : Certificate) : CertProjection :=
  mkProj (Some cert) (DNSNames (cert_sans cert)) (IPAddresses (cert_sans cert))
    (AuthExtensionMap (Extensions cert)).

Definition defaultLeafExtKeyUsage : list ExtKeyUsage := [EKUServerAuth; EKUClientAuth].

(** The validity asked for, before the cap by the CA's own. *)
Definition leaf_validity (c : Config) (ttl : Duration) : Duration :=
  if 0 <? ttl then ttl
  else if 0 <? LeafValidityDays c then days_duration (LeafValidityDays c)
  else certValidity.

Definition leaf_template (c : Config) (caCert : Certificate) (serial : Z) (now : Time)
    (validity : Duration) (name : Name) (pub : PublicKey) (sans : subjectAltNames)
    (extra : list Extension) (eku : list ExtKeyUsage) : Template :=
  mkTemplate serial name (now - leafBackdate c) (now + validity)
    (Z.lor KeyUsageDigitalSignature KeyUsageKeyEncipherment)
    (if bool_decide (eku = []) then defaultLeafExtKeyUsage else eku)
    true false (KeyIdSha1 pub) (SubjectKeyId caCert) sans (CRLURLs c)
    ((if bool_decide (OCSPURLs c = []) then [] else [Ext OIDAIA false (AURLs (OCSPURLs c))]) ++ extra)
    0 false.

Definition issueLeafLocked (subject : string) (name : Name) (pub : PublicKey)
    (sans : subjectAltNames) (extra : list Extension) (eku : list ExtKeyUsage) (ttl : Duration)
    : MW blob :=
  c ← get_ca id;
  match CACert c, CAKey c with
  | Some caCert, Some caKey =>
      _ ← check (match validatePublicKey pub with
                 | Some e => Some (Wrap "rejecting certificate" [e])
                 | None => None
                 end);
      serialInt ← wrapping "failed to generate serial" (lift (rand_Int (2 ^ 128)));
      let serialStr := serialHexStr serialInt in
      now ← lift time_Now;
      let caRemaining := time_Sub (NotAfter caCert) now in
      if caRemaining <=? 0 then fail (Msg "ca certificate has expired")
      else
        let validity := Z.min (leaf_validity (cfg c) ttl) caRemaining in
        let template := leaf_template (cfg c) caCert serialInt now validity name pub sans extra eku in
        _ ← wrapping "waiting for a CA signing slot" acquireSigningSlot;
        _ ← wrapping "failed to sign certificate" signer_available;
        cert ← wrapping "failed to sign certificate"
                 (of_result (CreateCertificate template caCert pub caKey));
        let certPEM := encode_cert cert in
        _ ← wrapping "failed to save cert" (lift (SaveCert subject certPEM));
        let proj := match ParseCertificate (DerCert cert) with
                    | Ok signed => Some (certProjectionFor signed)
                    | Err _ => None
                    end in
        let line := FormatInventoryLine serialStr (t_NotBefore template) (t_NotAfter template) subject in
        r ← try (lift (AppendInventoryRecord line proj));
        match r with
        | Err e =>
            _ ← ignore (lift (DeleteCert subject));
            fail (Wrap "failed to update inventory" [e])
        | Ok _ =>
            _ ← upd_ca (indexSerialLocked serialStr subject);
            mret certPEM
        end
  | _, _ => fail (Sentinel ErrNotInitialized)
  end.

(** ** Signing a request *)

(** The stored request of a subject, decoded and with a valid signature. *)
Definition decode_csr (pem : blob) : result CertificateRequest :=
  match pem_Decode pem with
  | (None, _) => Err (Msg "failed to decode CSR PEM")
  | (Some block, _) =>
      match ParseCertificateRequest (Bytes block) with
      | Err e => Err (Wrap "failed to parse CSR" [e])
      | Ok csr => if csr_CheckSignature csr then Ok csr else Err (Msg "invalid CSR signature")
      end
  end.

Definition asks_for_ca (csr : CertificateRequest) : bool :=
  existsb (fun ext => bool_decide (ext_Id ext = oidBasicConstraints) &&
             match ext_Value ext with ABasicConstraints isCA _ => isCA | _ => false end)
    (csr_Extensions csr).

(** Puppet extensions of the request, authorisation extensions left out. *)
Definition requested_extensions (csr : CertificateRequest) : list Extension :=
  base.filter (fun ext => IsPuppetOID (ext_Id ext) && negb (IsAuthOID (ext_Id ext)) = true)
    (csr_Extensions csr).

Definition requested_dns (promote : bool) (csr : CertificateRequest) : list string :=
  let dns := DNSNames (csr_sans csr) in
  if promote && bool_decide (dns = []) && negb (bool_decide (CommonName (csr_Subject csr) = ""))
  then [CommonName (csr_Subject csr)] else dns.

Definition signWithDuration (subject : string) (ttl : Duration) : MW blob :=
  c ← get_ca id;
  if negb (IsReady c) then fail (Sentinel ErrNotInitialized)
  else
    _ ← check (ValidateSubject subject);
    csrPEM ← wrapping "CSR not found" (lift (GetCSR subject));
    csr ← of_result (decode_csr csrPEM);
    _ ← check (if asks_for_ca csr then Some (Wrap "[2.5.29.19]" [Sentinel ErrDisallowedExtensions])
               else None);
    _ ← check (checkSubjectAltNames (AllowSubjectAltNames (cfg c)) subject csr);
    certPEM ← issueLeafLocked subject (csr_Subject csr) (csr_PublicKey csr)
                (SANs (requested_dns (PromoteCNToSAN (cfg c)) csr) [] [] [])
                (requested_extensions csr) [] ttl;
    _ ← ignore (lift (DeleteCSR subject));
    mret certPEM.

Definition SignWithTTL (subject : string) (ttl : Duration) : MW blob :=
  _ ← check (ValidateSubject subject);
  WithLockW (subjectLockName subject) (signWithDuration subject ttl).
Definition Sign (subject : string) : MW blob := SignWithTTL subject 0.

Record SignResult := mkSignResult {
  Signed : list string; NoCSR : list string; SigningErrors : list string }.

Fixpoint SignMultiple (subjects : list string) : MW SignResult :=
  match subjects with
  | [] => mret (mkSignResult [] [] [])
  | subject :: subjects =>
      has ← lift (HasCSR subject);
      if negb has then
        r ← SignMultiple subjects;
        mret (mkSignResult (Signed r) (subject :: NoCSR r) (SigningErrors r))
      else
        x ← try (Sign subject);
        r ← SignMultiple subjects;
        mret (match x with
              | Ok _ => mkSignResult (subject :: Signed r) (NoCSR r) (SigningErrors r)
              | Err _ => mkSignResult (Signed r) (NoCSR r) (subject :: SigningErrors r)
              end)
  end.
Definition SignAll : MW SignResult :=
  subjects ← wrapping "listing CSRs" (lift ListCSRs); SignMultiple subjects.

(** ** Submitting and withdrawing requests *)

Definition storedCertLocked (subject : string) : MW (option Certificate) :=
  r ← try (lift (GetCert subject));
  mret (match r with Ok pem => decode_cert pem | Err _ => None end).

Definition revokedLocked (c : CA) (cert : option Certificate) : bool :=
  match cert, cachedCRL c with
  | Some cert, Some crl => serialInCRL crl (SerialNumber cert)
  | _, _ => false
  end.

Definition DuplicateRequested := "requested".
Definition DuplicateSigned := "signed".
Definition DuplicateRevoked := "revoked".

Definition checkDuplicateLocked (subject : string) : MW unit :=
  c ← get_ca id;
  hasCert ← wrapping "checking for an existing certificate" (lift (CertExists subject));
  state ←
    (if (hasCert : bool) then
       held ← storedCertLocked subject;
       mret (Some (if revokedLocked c held then DuplicateRevoked else DuplicateSigned))
     else
       hasCSR ← wrapping "checking for a pending CSR" (lift (CSRExists subject));
       mret (if (hasCSR : bool) then Some DuplicateRequested else None));
  match state with
  | None => mret tt
  | Some state =>
      if AllowDuplicateCerts (cfg c) then mret tt else fail (DuplicateCertError subject state)
  end.

(** The autosign decision for the next request. *)
Definition CheckAutosign : MW bool := fun w =>
  match autosigns w with
  | [] => (Ok false, w)
  | r :: rs => (r, mkWorld (st w) (ca w) (chainReads w) rs)
  end.

Definition SaveRequest (subject : string) (csrPEM : blob) : MW bool :=
  _ ← check (ValidateSubject subject);
  csr ← of_result (decode_csr csrPEM);
  if negb (bool_decide (CommonName (csr_Subject csr) = subject)) then
    fail (Msg "instance name does not match requested key")
  else
    WithLockW (subjectLockName subject)
      (_ ← checkDuplicateLocked subject;
       _ ← wrapping "failed to save CSR" (lift (SaveCSR subject csrPEM));
       shouldSign ← wrapping "autosign check failed" CheckAutosign;
       if (shouldSign : bool) then _ ← signWithDuration subject 0; mret true else mret false).

Definition DeleteRequest (subject : string) : MW unit :=
  _ ← check (ValidateSubject subject);
  WithLockW (subjectLockName subject)
    (r ← try (lift (DeleteCSR subject));
     match r with
     | Ok _ => mret tt
     | Err e => if errors_Is e FsErrNotExist then fail (Sentinel ErrNoCSR)
                else fail (Wrap "failed to delete CSR" [e])
     end).

(** ** Renewal *)

(** Only a certificate this CA signed may be renewed here. *)
Definition assertOwnCertificate (c : CA) (cert : Certificate) : option error :=
  match CACert c with
  | None => Some (Sentinel ErrNotInitialized)
  | Some caCert => if CheckSignatureFrom cert caCert then None
                   else Some (Wrap "foreign" [Sentinel ErrForeignCertificate])
  end.

Definition refuseIfRevoked (presentedCert : option Certificate) (subject : string) : MW unit :=
  match presentedCert with
  | None => mret tt
  | Some cert =>
      _ ← ignore SyncCRLCache;
      revoked ← wrapping "rejecting renewal: cannot determine revocation status"
                  (IsRevokedSerial (SerialNumber cert));
      if (revoked : bool) then fail (Wrap "rejecting renewal" [Sentinel ErrCertRevoked])
      else refuseIfSuperseded presentedCert subject
  end.

Definition renewalRefreshedExtensions : list OID :=
  [oidAuthorityKeyId; oidSubjectKeyId; oidCRLDistributionPoints; OIDAIA; oidBasicConstraints].

Definition carried_extensions (original : Certificate) : list Extension :=
  base.filter (fun ext => ext_Id ext ∉ renewalRefreshedExtensions) (Extensions original).

Definition reissueLeafLocked (subject : string) (original : Certificate) (pub : PublicKey) : MW blob :=
  issueLeafLocked subject (Subject original) pub no_sans (carried_extensions original) [] 0.

Definition Renew (subject : string) (csrPEM : blob) (presentedCert : option Certificate) : MW blob :=
  match presentedCert with
  | None => fail (Wrap "no client certificate was presented" [Sentinel ErrForeignCertificate])
  | Some presented =>
      c ← get_ca id;
      _ ← check (assertOwnCertificate c presented);
      _ ← refuseIfRevoked presentedCert subject;
      _ ← check (if bool_decide (CommonName (Subject presented) = subject) then None
                 else Some (Sentinel ErrRenewalSubjectMismatch));
      _ ← check (ValidateSubject subject);
      csr ← of_result (decode_csr csrPEM);
      _ ← check (if bool_decide (CommonName (csr_Subject csr) = subject) then None
                 else Some (Msg "CSR CN does not match subject"));
      WithLockW (subjectLockName subject)
        (_ ← refuseIfRevoked presentedCert subject;
         r ← try (lift (LatestSerialForSubject subject));
         oldSerial ← of_result (match r with
                                | Ok s => Ok (Some s)
                                | Err e => if errors_Is e FsErrNotExist then Ok None
                                           else Err (Wrap "looking up existing certificate" [e])
                                end);
         certPEM ← reissueLeafLocked subject presented (csr_PublicKey csr);
         _ ← ignore (lift (DeleteCSR subject));
         _ ← (match oldSerial with
              | None => mret tt
              | Some old => ignore (supersedeReplaced subject old)
              end);
         mret certPEM)
  end.

Definition AutoRenew (presentedCert : option Certificate) : MW blob :=
  match presentedCert with
  | None => fail (Wrap "no client certificate was presented" [Sentinel ErrForeignCertificate])
  | Some presented =>
      c ← get_ca id;
      _ ← check (assertOwnCertificate c presented);
      let subject := CommonName (Subject presented) in
      _ ← check (ValidateSubject subject);
      _ ← refuseIfRevoked presentedCert subject;
      WithLockW (subjectLockName subject)
        (_ ← refuseIfRevoked presentedCert subject;
         certPEM ← reissueLeafLocked subject presented (PubKey presented);
         _ ← when (RevokeOnAutoRenew (cfg c))
               (ignore (supersedeReplaced subject (serialHexStr (SerialNumber presented))));
         mret certPEM)
  end.

(** ** Cleaning *)

Definition Clean (subject : string) : MW unit :=
  _ ← check (ValidateSubject subject);
  WithLockW (subjectLockName subject)
    (hasCert ← lift (HasCert subject);
     hasCSR ← lift (HasCSR subject);
     if negb hasCert && negb hasCSR then fail (Sentinel ErrNotFound)
     else
       _ ← when hasCert
             (_ ← ignore (WithLockW lockNameCRL (revokeLocked subject));
              ignore (lift (DeleteCert subject)));
       when hasCSR (ignore (lift (DeleteCSR subject)))).

Record CleanResult := mkCleanResult {
  Cleaned : list string; NotFound : list string; CleanErrors : list string }.

Fixpoint CleanMultiple (subjects : list string) : MW CleanResult :=
  match subjects with
  | [] => mret (mkCleanResult [] [] [])
  | subject :: subjects =>
      x ← try (Clean subject);
      r ← CleanMultiple subjects;
      mret (match x with
            | Ok _ => mkCleanResult (subject :: Cleaned r) (NotFound r) (CleanErrors r)
            | Err e =>
                if errors_Is e ErrNotFound
                then mkCleanResult (Cleaned r) (subject :: NotFound r) (CleanErrors r)
                else mkCleanResult (Cleaned r) (NotFound r) (subject :: CleanErrors r)
            end)
  end.

(** ** Lemmas: what an issued certificate looks like *)

Lemma wrap_quiet {A} msg (m : MW A) : mono quiet m -> mono quiet (wrapping msg m).
Proof. apply mono_wrapping. Qed.

Lemma time_Sub_live t u : 0 < time_Sub t u -> time_Sub t u <= t - u.
Proof. unfold time_Sub, int64_min, int64_max. lia. Qed.

(** Everything a successful issuance establishes. *)
Record issued (w w' : World) (subject : string) (name : Name) (pub : PublicKey)
    (sans : subjectAltNames) (extra : list Extension) (eku : list ExtKeyUsage) (ttl : Duration)
    (pem : blob) (caCert cert : Certificate) (now : Time) : Prop := {
  is_ca : CACert (ca w) = Some caCert;
  is_pem : pem = encode_cert cert;
  is_key : validatePublicKey pub = None;
  is_serial : 0 <= SerialNumber cert < 2 ^ 128;
  is_clock : clock (st w) <= now;
  is_live : 0 < time_Sub (NotAfter caCert) now;
  is_created : CreateCertificate
    (leaf_template (cfg (ca w)) caCert (SerialNumber cert) now
       (Z.min (leaf_validity (cfg (ca w)) ttl) (time_Sub (NotAfter caCert) now))
       name pub sans extra eku) caCert pub (PubKey caCert) = Ok cert;
  is_indexed : serialIndex (ca w') = <[serialHexStr (SerialNumber cert) := subject]> (serialIndex (ca w));
  is_appended : exists s1 s2 proj,
    blobs (be s1) = <[CertKey subject := pem]> (blobs (be (st w))) /\
    rows (be s1) = rows (be (st w)) /\ structured (be s1) = structured (be (st w)) /\
    hmacKey s1 = hmacKey (st w) /\
    AppendInventoryRecord (FormatInventoryLine (serialHexStr (SerialNumber cert))
      (now - leafBackdate (cfg (ca w)))
      (now + Z.min (leaf_validity (cfg (ca w)) ttl) (time_Sub (NotAfter caCert) now)) subject)
      proj s1 = (Ok tt, s2) /\ st w' = s2 }.

Lemma SaveCert_Ok subject pem s u s' :
  SaveCert subject pem s = (Ok u, s') ->
  blobs (be s') = <[CertKey subject := pem]> (blobs (be s)) /\ rows (be s') = rows (be s) /\
  structured (be s') = structured (be s) /\ hmacKey s' = hmacKey s.
Proof.
  unfold SaveCert. intros (H & Hk & _)%backend_Ok. unfold be_Put, guarded in H.
  destruct (validateKey _); [done|]. rewrite on_rows_other in H by done.
  injection H as _ <-. done.
Qed.

Lemma rand_Int_range n s r s' : rand_Int n s = (Ok r, s') -> 0 < n -> 0 <= r < n.
Proof. unfold rand_Int. intros H Hn. case_match; simplify_eq. by apply Z.mod_pos_bound. Qed.

Lemma rand_Int_clock n s r s' : rand_Int n s = (r, s') -> clock s' = clock s.
Proof. unfold rand_Int. intros H. by case_match; simplify_eq. Qed.
Lemma time_Now_clock s now s' : time_Now s = (Ok now, s') -> clock s <= now.
Proof. unfold time_Now. intros H. case_match; simplify_eq; lia. Qed.

Lemma issueLeaf_spec subject name pub sans extra eku ttl w pem w' :
  issueLeafLocked subject name pub sans extra eku ttl w = (Ok pem, w') ->
  exists caCert cert now, issued w w' subject name pub sans extra eku ttl pem caCert cert now.
Proof.
  unfold issueLeafLocked, get_ca, acquireSigningSlot, signer_available. intros H.
  apply bind_Ok in H as (c & w0 & Hc & H). apply gets_Ok in Hc as [-> ->]. cbn [id] in H.
  destruct (CACert (ca w)) as [caCert|] eqn:HC; [|by minv].
  destruct (CAKey (ca w)) as [caKey|] eqn:HK; [|by minv].
  apply bind_Ok in H as (u & w1 & Hv & H). apply check_Ok in Hv as [Hv ->].
  apply bind_Ok in H as (serial & w1 & Hr & H). apply wrapping_Ok in Hr.
  apply lift_Ok in Hr as (s1 & Hr & ->).
  pose proof (mono_run _ _ _ _ _ (same_data_rand_Int _) Hr) as S1.
  pose proof (rand_Int_clock _ _ _ _ Hr) as Hclock. apply rand_Int_range in Hr; [|lia].
  apply bind_Ok in H as (now & w2 & Ht & H). apply lift_Ok in Ht as (s2 & Ht & ->).
  pose proof (mono_run _ _ _ _ _ same_data_time_Now Ht) as S2. cbn [st set_st] in S2.
  apply time_Now_clock in Ht. cbn [st set_st] in Ht. rewrite Hclock in Ht.
  destruct (time_Sub (NotAfter caCert) now <=? 0) eqn:Hrem; [by minv|].
  apply bind_Ok in H as (u3 & w3 & Hs & H). apply wrapping_Ok in Hs. apply lift_Ok in Hs as (s3 & Hs & ->).
  pose proof (mono_run _ _ _ _ _ (same_data_external _) Hs) as S3. cbn [st set_st] in S3.
  apply bind_Ok in H as (u4 & w4 & Hs' & H). apply wrapping_Ok in Hs'. apply lift_Ok in Hs' as (s4 & Hs' & ->).
  pose proof (mono_run _ _ _ _ _ (same_data_external _) Hs') as S4. cbn [st set_st] in S4.
  apply bind_Ok in H as (cert & w5 & Hcr & H). apply wrapping_Ok, of_result_Ok in Hcr as [Hcr ->].
  apply bind_Ok in H as (u5 & w5 & Hsv & H). apply wrapping_Ok in Hsv. apply lift_Ok in Hsv as (s5 & Hsv & ->).
  apply SaveCert_Ok in Hsv as (B5 & R5 & T5 & K5). cbn [st set_st] in B5, R5, T5, K5.
  apply bind_Ok in H as (r & w6 & Ha & H). apply try_Ok in Ha. apply lift_run in Ha as (s6 & Ha & ->).
  cbn [st set_st] in Ha. destruct r as [[]|e]; [|by minv].
  apply bind_Ok in H as (u7 & w7 & Hi & H). apply modify_Ok in Hi. subst w7. apply ret_Ok in H as [-> ->].
  pose proof (CreateCertificate_Ok _ _ _ _ _ Hcr) as (Hser & _ & _ & _ & _ & Hsig & _).
  cbn [t_SerialNumber leaf_template] in Hser.
  assert (same_data (st w) s4) as (E & EK & _) by (do 3 (etrans; [eassumption|]); eassumption).
  exists caCert, cert, now. constructor; try done.
  - by destruct (validatePublicKey pub).
  - by rewrite Hser.
  - by apply Z.leb_gt in Hrem.
  - rewrite Hser. unfold CreateCertificate in Hcr |- *. rewrite bool_decide_eq_true_2 by done.
    repeat case_match; bool_hyps; by subst.
  - cbn [ca set_ca set_st]. unfold indexSerialLocked. simpl. by rewrite Hser.
  - rewrite Hser. eexists s5, s6, _. rewrite B5, R5, T5, K5, E, EK. repeat split. exact Ha.
Qed.

(** *** Extensions of an issued leaf *)

Lemma filter_unless oid o b crit v :
  base.filter (fun e => ext_Id e = oid) (if b : bool then [Ext o crit v] else []) =
  if b && bool_decide (o = oid) then [Ext o crit v] else [].
Proof.
  destruct b; [|done]. rewrite filter_cons, filter_nil. simpl. case_decide as E; simpl in E.
  - by rewrite bool_decide_eq_true_2.
  - by rewrite bool_decide_eq_false_2.
Qed.

Lemma has_ext_filter oid l : has_ext oid l = false -> base.filter (fun e => ext_Id e = oid) l = [].
Proof. intros H. apply filter_none. intros e He. by eapply has_ext_false. Qed.

(** The template's own BasicConstraints stands unless the extras override it. *)
Lemma template_constraints t aki :
  t_BasicConstraintsValid t = true ->
  has_ext oidBasicConstraints (t_ExtraExtensions t) = false ->
  find_ext oidBasicConstraints (buildCertExtensions t aki) =
    Some (ABasicConstraints (t_IsCA t) (encoded_path_len t)).
Proof.
  intros Hv He. unfold find_ext, buildCertExtensions.
  rewrite !filter_app, !filter_unless, Hv, He, (has_ext_filter _ _ He).
  rewrite !(bool_decide_eq_false_2 (_ = oidBasicConstraints)) by done.
  rewrite !andb_false_r. rewrite bool_decide_eq_true_2 by done. done.
Qed.

(** An extension of a leaf comes from the template's fields or from the extras. *)
Lemma leaf_ext_source t aki e :
  e ∈ buildCertExtensions t aki ->
  e ∈ t_ExtraExtensions t \/
  ext_Id e ∈ [oidKeyUsage; oidExtKeyUsage; oidBasicConstraints; oidSubjectKeyId; oidAuthorityKeyId;
              oidSubjectAltName; oidCRLDistributionPoints].
Proof.
  unfold buildCertExtensions. rewrite !elem_of_app.
  intros [H|[H|[H|[H|[H|[H|[H|H]]]]]]]; [right..|by left];
    (case_match; [|by apply elem_of_nil in H]);
    apply list_elem_of_singleton in H as ->; simpl; set_solver.
Qed.

Lemma leaf_extra c caCert serial now validity name pub sans extra eku :
  t_ExtraExtensions (leaf_template c caCert serial now validity name pub sans extra eku) =
  (if bool_decide (OCSPURLs c = []) then [] else [Ext OIDAIA false (AURLs (OCSPURLs c))]) ++ extra.
Proof. done. Qed.

Lemma has_ext_app oid a b : has_ext oid (a ++ b) = has_ext oid a || has_ext oid b.
Proof. unfold has_ext. by rewrite existsb_app. Qed.

(** *** Issued certificates *)

Lemma issued_bounds w w' subject name pub sans extra eku ttl pem caCert cert now :
  issued w w' subject name pub sans extra eku ttl pem caCert cert now ->
  has_ext oidBasicConstraints extra = false ->
  PubKey cert = pub /\ Subject cert = name /\ SignedBy cert = PubKey caCert /\
  IsCA cert = false /\ BasicConstraintsValid cert = true /\ NotAfter cert <= NotAfter caCert.
Proof.
  intros I He. pose proof (CreateCertificate_Ok _ _ _ _ _ (is_created _ _ _ _ _ _ _ _ _ _ _ _ _ I))
    as (_ & Hn & Hp & _ & Hna & Hs & _ & aki & Hx).
  assert (find_ext oidBasicConstraints (Extensions cert) = Some (ABasicConstraints false (-1))) as Hbc.
  { rewrite Hx. rewrite template_constraints; [done|done|]. rewrite leaf_extra, has_ext_app, He.
    by case_bool_decide. }
  split; [done|]. split; [done|]. split; [done|]. split; [by unfold IsCA; rewrite Hbc|]. split.
  - unfold BasicConstraintsValid.
    destruct (has_ext oidBasicConstraints (Extensions cert)) eqn:E; [done|].
    unfold find_ext in Hbc. by rewrite (has_ext_filter _ (Extensions cert) E) in Hbc.
  - rewrite Hna. cbn [t_NotAfter leaf_template].
    pose proof (time_Sub_live _ _ (is_live _ _ _ _ _ _ _ _ _ _ _ _ _ I)).
    etrans; [apply trunc_sec_le|]. lia.
Qed.

(** C3: no issued leaf outlives or out-ranks its CA.  Whenever the shared tail
    of signing, renewal and generation returns a certificate, that certificate
    is for the requested key and name, the key meets the key policy, the
    certificate is signed with the CA's key, is not a CA certificate, does not
    expire after the CA's certificate, and has a 128-bit serial that is now in
    the serial index.  The only requirement is that the caller passes no
    BasicConstraints extension. *)
Theorem issueLeafLocked_bounds subject name pub sans extra eku ttl w pem w' :
  issueLeafLocked subject name pub sans extra eku ttl w = (Ok pem, w') ->
  has_ext oidBasicConstraints extra = false ->
  exists caCert cert, CACert (ca w) = Some caCert /\ pem = encode_cert cert /\
    PubKey cert = pub /\ validatePublicKey pub = None /\ Subject cert = name /\
    SignedBy cert = PubKey caCert /\ IsCA cert = false /\ NotAfter cert <= NotAfter caCert /\
    0 <= SerialNumber cert < 2 ^ 128 /\
    serialIndex (ca w') !! serialHexStr (SerialNumber cert) = Some subject.
Proof.
  intros (caCert & cert & now & I)%issueLeaf_spec He.
  destruct (issued_bounds _ _ _ _ _ _ _ _ _ _ _ _ _ I He) as (H1 & H2 & H3 & H4 & _ & H6).
  destruct I. exists caCert, cert. split_and!; try done; try apply is_serial0.
  rewrite is_indexed0. by rewrite lookup_insert_eq.
Qed.

(** *** Issuance is recorded *)

(** The inventory entry that describes a certificate. *)
Definition cert_entry (cert : Certificate) (subject : string) : InventoryEntry :=
  mkEntry (serialHexStr (SerialNumber cert)) (format_time (NotBefore cert))
    (format_time (NotAfter cert)) subject.

(** The inventory keeps whole seconds, as certificates do. *)
Lemma format_trunc t : format_time (trunc_sec t) = format_time t.
Proof.
  unfold format_time, format_stamp. replace (trunc_sec t / Second) with (t / Second); [done|].
  unfold trunc_sec, Second. dlia.
Qed.

Lemma leafBackdate_pos c : 0 < leafBackdate c.
Proof.
  unfold leafBackdate. destruct (0 <? LeafBackdate c) eqn:E; [by apply Z.ltb_lt in E|].
  unfold DefaultLeafBackdate, Minute, Second. lia.
Qed.

(** The line written for an issued certificate is the line of its entry. *)
Lemma issued_entry w w' subject name pub sans extra eku ttl pem caCert cert now :
  issued w w' subject name pub sans extra eku ttl pem caCert cert now ->
  ValidateSubject subject = None -> leafBackdate (cfg (ca w)) <= clock (st w) ->
  0 < leaf_validity (cfg (ca w)) ttl -> NotAfter caCert < year_10000 ->
  wf_entry (cert_entry cert subject) /\
  FormatInventoryLine (serialHexStr (SerialNumber cert)) (now - leafBackdate (cfg (ca w)))
    (now + Z.min (leaf_validity (cfg (ca w)) ttl) (time_Sub (NotAfter caCert) now)) subject =
  canonicalInventoryLine (cert_entry cert subject).
Proof.
  intros I Hsub Hclk Hv Hna. destruct I. pose proof (time_Sub_live _ _ is_live0).
  pose proof (leafBackdate_pos (cfg (ca w))).
  apply CreateCertificate_Ok in is_created0 as (_ & _ & _ & Hnb & Hnaf & _).
  cbn [t_NotBefore t_NotAfter leaf_template] in Hnb, Hnaf. unfold FormatInventoryLine, cert_entry.
  rewrite Hnb, Hnaf, !format_trunc. split; [|done].
  constructor; cbn [ie_Serial ie_NotBefore ie_NotAfter ie_Subject].
  - exists (SerialNumber cert). split; [apply is_serial0|done].
  - apply format_time_wf. lia.
  - apply format_time_wf. lia.
  - by apply subject_plain.
Qed.

Lemma inv_view_cert subject pem b b' :
  blobs b' = <[CertKey subject := pem]> (blobs b) -> rows b' = rows b -> structured b' = structured b ->
  inv_view b' = inv_view b /\ inventory_text b' = inventory_text b /\
  (forall k, integrity_value k b' = integrity_value k b).
Proof.
  intros Eb Er Es. assert (inventory_text b' = inventory_text b) as Et.
  { unfold inventory_text. by rewrite Eb, lookup_insert_ne by done. }
  unfold inv_view, integrity_value. by rewrite Es, Er, Et.
Qed.

(** C5: issuance and the inventory agree.  When a leaf is issued for a valid
    certname, its serial was not in the inventory, the inventory is the old one
    plus exactly the entry describing this certificate (serial, validity dates,
    certname), a valid integrity value stays valid, and the certificate is what
    is stored for the certname.  Requires an inventory of complete lines, a
    clock past the backdating interval, a CA that expires before the year
    10000, and a positive configured validity. *)
Theorem issueLeafLocked_recorded subject name pub sans extra eku ttl w pem w' :
  issueLeafLocked subject name pub sans extra eku ttl w = (Ok pem, w') ->
  inventory_ok (be (st w)) -> ValidateSubject subject = None ->
  leafBackdate (cfg (ca w)) <= clock (st w) -> 0 < leaf_validity (cfg (ca w)) ttl ->
  (forall caCert, CACert (ca w) = Some caCert -> NotAfter caCert < year_10000) ->
  exists cert, pem = encode_cert cert /\
    spec_append (cert_entry cert subject) (inv_view (be (st w))) = Some (inv_view (be (st w'))) /\
    (integrity (st w) -> integrity (st w')) /\ inventory_ok (be (st w')) /\
    blobs (be (st w')) !! CertKey subject = Some pem.
Proof.
  intros (caCert & cert & now & I)%issueLeaf_spec Hok Hsub Hclk Hv Hna.
  destruct (issued_entry _ _ _ _ _ _ _ _ _ _ _ _ _ I Hsub Hclk Hv (Hna _ (is_ca _ _ _ _ _ _ _ _ _ _ _ _ _ I)))
    as [Hwf Hline].
  exists cert. destruct I. split; [done|].
  destruct is_appended0 as (s1 & s2 & proj & B1 & R1 & T1 & K1 & Ha & ->). rewrite Hline in Ha.
  destruct (inv_view_cert subject pem (be (st w)) (be s1) B1 R1 T1) as (V1 & X1 & IV1).
  assert (parseInventoryEntry (canonicalInventoryLine (cert_entry cert subject))
    = Some (cert_entry cert subject)) as Hp.
  { destruct Hwf as [(n & Hn & Hs) ? ? (? & ? & ?)]. apply parse_canonical; try done.
    rewrite Hs. by apply wf_field_hexX. }
  assert (frame (fun k => k = KeyInventory \/ k = KeyInventoryHMAC) s1 s2) as (_ & _ & F).
  { eapply mono_run; [apply append_frame|exact Ha]. }
  destruct (append_spec _ proj _ Hp s1 s2) as (A1 & A2 & A3); [|done|done|].
  { intros Hst. rewrite X1. apply Hok. congruence. }
  rewrite V1 in A1. split; [done|]. split; [|split; [done|]].
  - intros Hint. apply A3. intros k Hk. rewrite K1 in Hk. destruct (Hint k Hk) as (v & Hv1 & Hv2).
    exists v. rewrite B1, lookup_insert_ne, IV1 by done. done.
  - rewrite F, B1, lookup_insert_eq by (intros [?|?]; done). done.
Qed.

(** *** Failed issuance *)

(** What a step of an issuance that did not go through may leave. *)
Definition cert_slot (subject : string) (P : blob -> Prop) : relation World := fun w w' =>
  serialIndex (ca w') = serialIndex (ca w) /\
  (forall k, k <> CertKey subject -> k <> KeyInventory -> k <> KeyInventoryHMAC ->
     blobs (be (st w')) !! k = blobs (be (st w)) !! k) /\
  (blobs (be (st w')) !! CertKey subject = blobs (be (st w)) !! CertKey subject \/
   blobs (be (st w')) !! CertKey subject = None \/
   exists pem, blobs (be (st w')) !! CertKey subject = Some pem /\ P pem).
#[global] Instance cert_slot_preorder subject P : PreOrder (cert_slot subject P).
Proof.
  split; [intros w; unfold cert_slot; auto|]. intros w1 w2 w3 (I1 & F1 & C1) (I2 & F2 & C2).
  split; [congruence|]. split.
  - intros k H1 H2 H3. rewrite F2, F1; auto.
  - destruct C2 as [->|[->|C2]]; auto.
Qed.

Lemma slot_quiet subject P w w' : quiet w w' -> cert_slot subject P w w'.
Proof.
  intros [C (S & _)]. unfold cert_slot. rewrite S. split; [|auto].
  unfold same_core, core in C. by simplify_eq.
Qed.
Lemma slot_lift {A} K subject (P : blob -> Prop) (m : MS A) w r s' :
  mono (frame K) m -> m (st w) = (r, s') ->
  (forall k, K k -> k = CertKey subject \/ k = KeyInventory \/ k = KeyInventoryHMAC) ->
  (blobs (be s') !! CertKey subject = blobs (be (st w)) !! CertKey subject \/
   blobs (be s') !! CertKey subject = None \/
   exists pem, blobs (be s') !! CertKey subject = Some pem /\ P pem) ->
  cert_slot subject P w (set_st s' w).
Proof.
  intros Hm H HK Hc. split; [done|]. split; [|done]. intros k H1 H2 H3.
  destruct (mono_run _ _ _ _ _ Hm H) as (_ & _ & F). apply F. intros Hk. destruct (HK k Hk) as [?|[?|?]]; done.
Qed.

Lemma SaveCert_any subject pem s r s' :
  SaveCert subject pem s = (r, s') ->
  blobs (be s') !! CertKey subject = blobs (be s) !! CertKey subject \/
  blobs (be s') !! CertKey subject = Some pem.
Proof.
  unfold SaveCert. intros (_ & _ & H)%backend_cases. unfold be_Put, guarded in H.
  destruct (validateKey _); [destruct H as [[_ ->]|(x & _ & [->| ->])]; auto|].
  rewrite on_rows_other in H by done.
  destruct H as [[_ ->]|(x & _ & [->| ->])]; simpl; rewrite ?lookup_insert_eq; auto.
Qed.
Lemma DeleteCert_any subject s r s' :
  DeleteCert subject s = (r, s') ->
  blobs (be s') !! CertKey subject = blobs (be s) !! CertKey subject \/
  blobs (be s') !! CertKey subject = None.
Proof.
  unfold DeleteCert. intros (_ & _ & H)%backend_cases. unfold be_Delete, guarded in H.
  destruct (validateKey _); [destruct H as [[_ ->]|(x & _ & [->| ->])]; auto|].
  rewrite on_rows_other in H by done. destruct (blobs (be s) !! CertKey subject) eqn:E;
  destruct H as [[_ ->]|(x & _ & [->| ->])]; simpl; rewrite ?lookup_delete_eq; auto.
Qed.

Lemma issue_tail_failed subject cert line proj serialStr (P : blob -> Prop) w e w' :
  P (encode_cert cert) ->
  (_ ← wrapping "failed to save cert" (lift (SaveCert subject (encode_cert cert)));
   r ← try (lift (AppendInventoryRecord line proj));
   match r with
   | Err e => _ ← ignore (lift (DeleteCert subject)); fail (Wrap "failed to update inventory" [e])
   | Ok _ => _ ← upd_ca (indexSerialLocked serialStr subject); mret (encode_cert cert)
   end) w = (Err e, w') ->
  cert_slot subject P w w'.
Proof.
  intros HP H.
  assert (forall w r w', lift (SaveCert subject (encode_cert cert)) w = (r, w') ->
    cert_slot subject P w w') as HS.
  { intros w1 r w2 (s & Hs & ->)%lift_run.
    eapply (slot_lift (fun k => k = CertKey subject)); [by apply frame_Put|exact Hs|auto|].
    apply SaveCert_any in Hs as [?|?]; eauto. }
  apply bind_run in H as [(x & Hs & _)|(u3 & w7 & Hs & H)].
  { unfold wrapping in Hs. destruct (lift _ w) as [y w8] eqn:E. apply HS in E.
    destruct y; by simplify_eq. }
  apply wrapping_Ok, HS in Hs. etrans; [exact Hs|].
  apply bind_run in H as [(x & Ha & _)|(r & w8 & Ha & H)]; [by apply try_Err in Ha|].
  apply try_Ok in Ha. apply lift_run in Ha as (s8 & Ha & ->).
  assert (cert_slot subject P w7 (set_st s8 w7)) as H7.
  { eapply slot_lift; [apply append_frame|exact Ha|naive_solver|].
    left. destruct (mono_run _ _ _ _ _ (append_frame _ _) Ha) as (_ & _ & F). by apply F; intros [?|?]. }
  etrans; [exact H7|]. destruct r as [u4|x].
  { apply bind_run in H as [(? & H & _)|(? & ? & _ & H)]; done. }
  apply bind_run in H as [(y & H & _)|(u5 & w9 & Hd & H)]; [by apply ignore_Err in H|].
  injection H as _ <-. apply ignore_Ok in Hd. subst w9. unfold exec.
  destruct (lift (DeleteCert subject) (set_st s8 w7)) as [z w9] eqn:Hd. cbn [snd].
  apply lift_run in Hd as (s9 & Hd & ->).
  eapply (slot_lift (fun k => k = CertKey subject)); [by apply frame_Delete|exact Hd|auto|].
  apply DeleteCert_any in Hd. tauto.
Qed.

(** A certificate made by this attempt. *)
Definition attempted (c : CA) (name : Name) (pub : PublicKey) (pem : blob) : Prop :=
  exists caCert cert, CACert c = Some caCert /\ pem = encode_cert cert /\
    Subject cert = name /\ PubKey cert = pub /\ SignedBy cert = PubKey caCert.

(** C35: What a failed issuance leaves behind.  The serial index, the CRL, the
    pending requests and supersessions and every other certname's certificate
    are as before; for the certname itself the stored certificate is the old
    one, or none, or the one this attempt made. *)
Theorem issueLeafLocked_failure subject name pub sans extra eku ttl w e w' :
  issueLeafLocked subject name pub sans extra eku ttl w = (Err e, w') ->
  cert_slot subject (attempted (ca w) name pub) w w'.
Proof.
  unfold issueLeafLocked, get_ca, acquireSigningSlot, signer_available. intros H.
  apply bind_run in H as [(x & H & _)|(c & w0 & Hc & H)]; [done|]. apply gets_Ok in Hc as [-> ->].
  cbn [id] in H. set (P := attempted (ca w) name pub).
  assert (forall w', quiet w w' -> cert_slot subject P w w') as Hq by (intros; by apply slot_quiet).
  destruct (CACert (ca w)) as [caCert|] eqn:HC; [|by apply Hq; injection H as _ <-].
  destruct (CAKey (ca w)) as [caKey|]; [|by apply Hq; injection H as _ <-].
  apply bind_quiet in H as [Q|(u & w1 & Q1 & _ & H)]; [by apply Hq| |mono_tac].
  apply bind_quiet in H as [Q|(serial & w2 & Q2 & _ & H)]; [apply Hq; by etrans| |mono_tac].
  apply bind_quiet in H as [Q|(now & w3 & Q3 & _ & H)];
    [apply Hq; etrans; [exact Q1|]; by etrans| |mono_tac].
  pose proof (transitivity Q1 (transitivity Q2 Q3)) as Q0. clear Q1 Q2 Q3 w1 w2.
  destruct (time_Sub (NotAfter caCert) now <=? 0); [apply Hq; by injection H as _ <-|].
  apply bind_quiet in H as [Q|(u1 & w4 & Q4 & _ & H)]; [apply Hq; by etrans| |mono_tac].
  apply bind_quiet in H as [Q|(u2 & w5 & Q5 & _ & H)];
    [apply Hq; etrans; [exact Q0|]; by etrans| |mono_tac].
  pose proof (transitivity Q0 (transitivity Q4 Q5)) as Q. clear Q0 Q4 Q5 w3 w4.
  apply bind_run in H as [(x & Hc & _)|(cert & w6 & Hc & H)].
  { apply Hq. etrans; [exact Q|]. eapply mono_run; [|exact Hc]. mono_tac. }
  apply wrapping_Ok, of_result_Ok in Hc as [Hc ->].
  etrans; [apply slot_quiet, Q|]. eapply issue_tail_failed; [|exact H].
  apply CreateCertificate_Ok in Hc as (_ & Hn & Hp & _ & _ & Hs & _).
  exists caCert, cert. by rewrite Hn, Hp, Hs.
Qed.

(** *** Signing a request *)

Lemma auth_not_standard oid :
  oid ∈ [oidKeyUsage; oidExtKeyUsage; oidBasicConstraints; oidSubjectKeyId; oidAuthorityKeyId;
         oidSubjectAltName; oidCRLDistributionPoints] -> IsAuthOID oid = false.
Proof.
  intros H. repeat (apply elem_of_cons in H as [->|H]; [reflexivity|]). by apply elem_of_nil in H.
Qed.

Lemma requested_no_bc csr : has_ext oidBasicConstraints (requested_extensions csr) = false.
Proof.
  apply has_ext_false. intros e [He _]%list_elem_of_filter Eq.
  rewrite Eq in He. done.
Qed.

Lemma requested_not_auth csr e : e ∈ requested_extensions csr -> IsAuthOID (ext_Id e) = false.
Proof. intros [He _]%list_elem_of_filter. bool_hyps. done. Qed.

Lemma leaf_sans t aki :
  has_ext oidSubjectAltName (t_ExtraExtensions t) = false ->
  match find_ext oidSubjectAltName (buildCertExtensions t aki) with
  | Some (ASubjectAltNames s) => s
  | _ => no_sans
  end = t_SANs t.
Proof.
  intros He. unfold find_ext, buildCertExtensions.
  rewrite !filter_app, !filter_unless, He, (has_ext_filter _ _ He).
  rewrite !(bool_decide_eq_false_2 (_ = oidSubjectAltName)) by done.
  rewrite !andb_false_r, bool_decide_eq_true_2 by done.
  unfold sans_empty. case_bool_decide as E; [by rewrite E|done].
Qed.

Lemma checkSubjectAltNames_dns subject csr d :
  checkSubjectAltNames false subject csr = None -> d ∈ DNSNames (csr_sans csr) ->
  asciiLower d = asciiLower subject.
Proof.
  unfold checkSubjectAltNames. case_bool_decide as E; [|done]. intros _ Hd.
  assert ("DNS:" +:+ asciiLower d = "DNS:" +:+ asciiLower subject) as Heq.
  { destruct (decide ("DNS:" +:+ asciiLower d = "DNS:" +:+ asciiLower subject)); [done|]. exfalso.
    assert ("DNS:" +:+ asciiLower d ∈ base.filter
      (fun name => name <> "DNS:" +:+ asciiLower subject) (sanStrings (csr_sans csr))) as Hin.
    { apply list_elem_of_filter. split; [done|]. unfold sanStrings. rewrite !elem_of_app. left.
      apply list_elem_of_fmap. eauto. }
    rewrite E in Hin. by apply elem_of_nil in Hin. }
  by apply str_app_inj_l in Heq.
Qed.

Lemma requested_no_san csr : has_ext oidSubjectAltName (requested_extensions csr) = false.
Proof. apply has_ext_false. intros e [He _]%list_elem_of_filter Eq. rewrite Eq in He. done. Qed.

(** C4: what a signing request can obtain.  A certificate signed from a stored
    request is for the key whose possession the request proves and for the name
    it states; it is never a CA certificate and never carries an authorisation
    extension, whatever the request asked for; it has no alternative names but
    DNS names; and unless alternative names are allowed, each DNS name is the
    certname itself, up to letter case, or the common name of the request. *)
Theorem signWithDuration_authority subject ttl w pem w' :
  signWithDuration subject ttl w = (Ok pem, w') ->
  exists csrPEM csr caCert cert,
    blobs (be (st w)) !! CSRKey subject = Some csrPEM /\ decode_csr csrPEM = Ok csr /\
    CACert (ca w) = Some caCert /\ pem = encode_cert cert /\
    PubKey cert = csr_PublicKey csr /\ csr_SignedBy csr = csr_PublicKey csr /\
    Subject cert = csr_Subject csr /\ SignedBy cert = PubKey caCert /\
    NotAfter cert <= NotAfter caCert /\ IsCA cert = false /\
    (forall e, e ∈ Extensions cert -> IsAuthOID (ext_Id e) = false) /\
    IPAddresses (cert_sans cert) = [] /\ EmailAddresses (cert_sans cert) = [] /\
    URIs (cert_sans cert) = [] /\
    (AllowSubjectAltNames (cfg (ca w)) = false -> forall d, d ∈ DNSNames (cert_sans cert) ->
       asciiLower d = asciiLower subject \/ d = CommonName (csr_Subject csr)).
Proof.
  unfold signWithDuration, get_ca. intros H.
  apply bind_Ok in H as (c & w0 & Hc & H). apply gets_Ok in Hc as [-> ->]. cbn [id] in H.
  destruct (negb _); [by minv|]. apply bind_Ok in H as (u & w1 & Hv & H). apply check_Ok in Hv as [_ ->].
  apply bind_Ok in H as (csrPEM & w1 & Hg & H). apply wrapping_Ok in Hg. apply lift_Ok in Hg as (s1 & Hg & ->).
  unfold GetCSR in Hg. apply backend_Ok in Hg as [Hg _].
  apply be_Get_Ok in Hg as [Hg _]; [|by apply on_rows_other].
  apply bind_Ok in H as (csr & w2 & Hd & H). apply of_result_Ok in Hd as [Hd ->].
  apply bind_Ok in H as (u2 & w2 & Hk & H). apply check_Ok in Hk as [_ ->].
  apply bind_Ok in H as (u3 & w2 & Hk & H). apply check_Ok in Hk as [Hsan ->].
  apply bind_Ok in H as (pem' & w3 & Hi & H). apply bind_Ok in H as (u4 & w4 & _ & H).
  apply ret_Ok in H as [-> _]. apply issueLeaf_spec in Hi as (caCert & cert & now & I).
  destruct (issued_bounds _ _ _ _ _ _ _ _ _ _ _ _ _ I (requested_no_bc csr)) as (H1 & H2 & H3 & H4 & _ & H6).
  pose proof (CreateCertificate_Ok _ _ _ _ _ (is_created _ _ _ _ _ _ _ _ _ _ _ _ _ I))
    as (_ & _ & _ & _ & _ & _ & _ & aki & Hx).
  assert (cert_sans cert = SANs (requested_dns (PromoteCNToSAN (cfg (ca w))) csr) [] [] []) as Hs.
  { unfold cert_sans. rewrite Hx, leaf_sans; [done|]. rewrite leaf_extra, has_ext_app, requested_no_san.
    by case_bool_decide. }
  exists csrPEM, csr, caCert, cert. destruct I. split; [done|]. split; [done|].
  split; [done|]. split; [done|]. split; [done|]. split.
  { unfold decode_csr in Hd. repeat case_match; simplify_eq. unfold csr_CheckSignature in *.
    by bool_hyps. }
  split; [done|]. split; [done|]. split; [done|]. split; [done|]. split.
  { intros e He. rewrite Hx in He. apply leaf_ext_source in He as [He|He]; [|by apply auth_not_standard].
    rewrite leaf_extra, elem_of_app in He. destruct He as [He|He]; [|by eapply requested_not_auth].
    case_bool_decide; [by apply elem_of_nil in He|]. by apply list_elem_of_singleton in He as ->. }
  rewrite Hs. cbn [IPAddresses EmailAddresses URIs DNSNames]. split; [done|]. split; [done|]. split; [done|].
  intros Hallow d Hdn. rewrite Hallow in Hsan. unfold requested_dns in Hdn.
  destruct (_ && _ && _); [right; by apply list_elem_of_singleton in Hdn|].
  left. by eapply checkSubjectAltNames_dns.
Qed.

(** *** Renewal *)

(** The CRL a synchronisation would select from storage. *)
Definition selected (w : World) (o : RevocationList) : Prop :=
  exists b pos, blobs (be (st w)) !! KeyCRL = Some b /\ selectOwnCRL (ca w) b = Ok (Some o, pos).

Lemma selected_own w o o' : own_stored w o -> selected w o' -> o' = o.
Proof.
  intros (chain & Hst & Ho) (b & pos & Hb & Hs). rewrite Hst in Hb. injection Hb as <-.
  unfold selectOwnCRL in Hs. rewrite decode_encode, Ho in Hs. by simplify_eq.
Qed.

Lemma selected_same w w' o : same_store w w' -> same_ca w w' -> selected w' o -> selected w o.
Proof.
  intros (E & _) (C & _) (b & pos & Hb & Hs). exists b, pos. rewrite E in Hb. split; [done|].
  unfold selectOwnCRL in *. by rewrite C in Hs.
Qed.

Lemma sync_same : mono same_store SyncCRLCache.
Proof.
  unfold SyncCRLCache, get_ca.
  repeat first [ mono_step | apply mono_counting; [typeclasses eauto|apply same_store_count|] ].
Qed.
Lemma sync_ca : mono same_ca SyncCRLCache.
Proof.
  unfold SyncCRLCache, get_ca.
  repeat first [ mono_step | apply mono_counting; [typeclasses eauto|apply same_ca_count|] ].
Qed.
#[export] Hint Resolve sync_same sync_ca : mono.

(** After a synchronisation the CRL in memory is the old one or the selected. *)
Lemma sync_any w r w' :
  SyncCRLCache w = (r, w') ->
  cachedCRL (ca w') = cachedCRL (ca w) \/ exists o, cachedCRL (ca w') = Some o /\ selected w o.
Proof.
  unfold SyncCRLCache, get_ca. intros H.
  assert (forall w1, same_core w w1 -> cachedCRL (ca w1) = cachedCRL (ca w)) as Hc.
  { intros w1 E. unfold same_core, core in E. by simplify_eq. }
  apply bind_quiet in H as [[Q _]|(b & w1 & [Q S] & Hg & H)]; [left; by apply Hc| |].
  2:{ apply quiet_counting. mono_tac. }
  apply counting_Ok, wrapping_Ok in Hg. apply lift_Ok in Hg as (s1 & Hg & ->).
  unfold GetCRL in Hg. apply backend_Ok in Hg as [Hg _].
  apply be_Get_Ok in Hg as [Hg _]; [|by apply on_rows_other].
  unfold gets, mbind, M_bind in H. cbn [id ca set_st] in H.
  destruct (selectOwnCRL (ca w) b) as [[[ours|] pos]|e] eqn:Hs.
  - assert (selected w ours) as Hsel by (by exists b, pos).
    pose proof (install_fields ours (ca w)) as (_ & _ & _ & F & _).
    destruct (cachedCRL (ca w)) as [cached|] eqn:Hcc;
      [case_bool_decide; [|destruct (ownsCRL _ _ && _)]|]; injection H as _ <-;
      cbn [ca set_ca set_st]; rewrite ?Hcc; eauto.
  - left. injection H as _ <-. done.
  - left. injection H as _ <-. done.
Qed.

Lemma refuse_spec cert subject w u w' :
  refuseIfRevoked (Some cert) subject w = (Ok u, w') ->
  same_store w w' /\ same_ca w w' /\
  (exists crl, (cachedCRL (ca w) = Some crl \/ selected w crl) /\ cachedCRL (ca w') = Some crl /\
     SerialNumber cert ∉ revoked_serials crl) /\
  (forall e, e ∈ pending_list w -> serial_number e <> Some (SerialNumber cert)).
Proof.
  unfold refuseIfRevoked. intros H. apply bind_Ok in H as (u1 & w1 & Hs & H).
  apply ignore_Ok in Hs. destruct (SyncCRLCache w) as [r w1'] eqn:E. unfold exec in Hs. rewrite E in Hs.
  simpl in Hs. subst w1'.
  pose proof (mono_run _ _ _ _ _ sync_same E) as S1. pose proof (mono_run _ _ _ _ _ sync_ca E) as C1.
  apply sync_any in E. apply bind_Ok in H as (revoked & w2 & Hr & H). apply wrapping_Ok in Hr.
  unfold IsRevokedSerial, get_ca in Hr. apply bind_Ok in Hr as (crl & w3 & Hg & Hr).
  apply gets_Ok in Hg as [-> ->]. destruct (cachedCRL (ca w1)) as [crl|] eqn:Hc; [|by apply fail_Ok in Hr].
  apply ret_Ok in Hr as [-> ->]. destruct (serialInCRL crl (SerialNumber cert)) eqn:Hin; [by minv|].
  unfold refuseIfSuperseded in H. apply bind_Ok in H as (d & w4 & Hd & H). apply try_Ok in Hd.
  pose proof (mono_run quiet _ _ _ _ quiet_loadSuperseded Hd) as [Q4 S4].
  destruct d as [data|e]; [|by minv]. apply loadSuperseded_Ok in Hd as ->.
  destruct (parseSuperseded _) as [entries [e|]] eqn:Hp; [by minv|].
  destruct (existsb _ entries) eqn:Hex; [by minv|]. apply ret_Ok in H as [_ ->].
  split; [by etrans|]. split; [etrans; [exact C1|by apply same_core_ca]|]. split.
  - exists crl. split; [destruct E as [E|(o & E & Hsel)]; [left|right]; congruence|]. split.
    + unfold same_core, core in Q4. simplify_eq. congruence.
    + intros (x & Hx & Hxin)%list_elem_of_fmap. unfold serialInCRL in Hin.
      eapply existsb_false_elem in Hin; [|exact Hxin]. rewrite Hx in Hin. by rewrite Z.eqb_refl in Hin.
  - intros e He Hsn. unfold pending_list in He. destruct S1 as (E1 & _). rewrite E1 in Hp.
    rewrite Hp in He. simpl in He. eapply existsb_false_elem in Hex; [|exact He].
    unfold serial_number in Hsn. destruct (NormaliseSerial (se_Serial e)) as [c|] eqn:Hn; [|done].
    apply NormaliseSerial_value in Hn as (m & Hm & ->). rewrite SetString16_hexX in Hsn by done.
    simplify_eq. unfold serialHexStr in Hex. by rewrite bool_decide_eq_true_2 in Hex.
Qed.

Lemma carried_no_bc cert : has_ext oidBasicConstraints (carried_extensions cert) = false.
Proof.
  apply has_ext_false. intros e [He _]%list_elem_of_filter Eq. apply He. rewrite Eq. set_solver.
Qed.

(** What a renewal may give out, relative to the certificate presented. *)
Definition renewal_of (w : World) (presented : Certificate) (pub : PublicKey) (pem : blob) : Prop :=
  exists caCert cert, CACert (ca w) = Some caCert /\ pem = encode_cert cert /\
    CheckSignatureFrom presented caCert = true /\
    PubKey cert = pub /\ Subject cert = Subject presented /\ SignedBy cert = PubKey caCert /\
    IsCA cert = false /\ NotAfter cert <= NotAfter caCert /\
    (forall e, e ∈ Extensions cert -> IsAuthOID (ext_Id e) = true -> e ∈ Extensions presented).

Lemma reissue_spec subject presented pub w pem w' caCert :
  CACert (ca w) = Some caCert -> CheckSignatureFrom presented caCert = true ->
  reissueLeafLocked subject presented pub w = (Ok pem, w') -> renewal_of w presented pub pem.
Proof.
  intros Hc Hsig H. unfold reissueLeafLocked in H. apply issueLeaf_spec in H as (ca0 & cert & now & I).
  destruct (issued_bounds _ _ _ _ _ _ _ _ _ _ _ _ _ I (carried_no_bc presented))
    as (H1 & H2 & H3 & H4 & _ & H6).
  pose proof (CreateCertificate_Ok _ _ _ _ _ (is_created _ _ _ _ _ _ _ _ _ _ _ _ _ I))
    as (_ & _ & _ & _ & _ & _ & _ & aki & Hx).
  destruct I. assert (ca0 = caCert) as -> by congruence. exists caCert, cert. split_and!; try done.
  intros e He Hauth. rewrite Hx in He. apply leaf_ext_source in He as [He|He].
  - rewrite leaf_extra, elem_of_app in He. destruct He as [He|He].
    + case_bool_decide; [by apply elem_of_nil in He|]. by apply list_elem_of_singleton in He as ->.
    + by apply list_elem_of_filter in He as [_ ?].
  - apply auth_not_standard in He. congruence.
Qed.

Lemma renewal_same w w' presented pub pem :
  same_ca w w' -> renewal_of w' presented pub pem -> renewal_of w presented pub pem.
Proof. intros (C & _) (caCert & cert & H & R). exists caCert, cert. by rewrite C in H. Qed.

Lemma assertOwn_None c cert :
  assertOwnCertificate c cert = None ->
  exists caCert, CACert c = Some caCert /\ CheckSignatureFrom cert caCert = true.
Proof.
  unfold assertOwnCertificate. destruct (CACert c) as [x|]; [|done].
  destruct (CheckSignatureFrom cert x) eqn:E; [by eauto|done].
Qed.

(** The certificate was acceptable when it was presented: neither the CRL in
    memory nor, if storage was consulted, the stored CRL lists it, and it is
    not waiting to be revoked. *)
Definition acceptable (w : World) (cert : Certificate) : Prop :=
  (exists crl, (cachedCRL (ca w) = Some crl \/ selected w crl) /\
     SerialNumber cert ∉ revoked_serials crl) /\
  forall e, e ∈ pending_list w -> serial_number e <> Some (SerialNumber cert).

Lemma refuse_acceptable cert subject w u w' :
  refuseIfRevoked (Some cert) subject w = (Ok u, w') ->
  same_store w w' /\ same_ca w w' /\ acceptable w cert.
Proof.
  intros H. apply refuse_spec in H as (HS & HC & (crl & Hc & _ & Hn) & Hp).
  split; [exact HS|]. split; [exact HC|]. split; [|exact Hp]. exists crl. split; [exact Hc|exact Hn].
Qed.

(** The two checks and the re-issue, shared by both renewals. *)
Lemma WithLockW_Ok {A} name (fn : MW A) w a w' :
  WithLockW name fn w = (Ok a, w') -> exists w1, quiet w w1 /\ fn w1 = (Ok a, w').
Proof.
  unfold WithLockW. intros H. apply bind_Ok in H as ([r ran] & w1 & H1 & H).
  apply of_result_Ok in H as [-> ->].
  apply WithLockRan_Ok in H1 as [(_ & [e ?] & _)|(_ & w2 & C2 & S2 & H2)]; [done|].
  exists w2. split; [|done]. split; [unfold same_core; by rewrite C2|done].
Qed.

(** Automatic renewal hands out nothing new. *)
Lemma AutoRenew_spec presented w pem w' :
  AutoRenew (Some presented) w = (Ok pem, w') ->
  acceptable w presented /\ renewal_of w presented (PubKey presented) pem /\
  ValidateSubject (CommonName (Subject presented)) = None.
Proof.
  unfold AutoRenew, get_ca. intros H.
  apply bind_Ok in H as (c & w0 & Hc & H). apply gets_Ok in Hc as [-> ->]. cbn [id] in H.
  apply bind_Ok in H as (u & w1 & Ha & H). apply check_Ok in Ha as [Ha ->].
  apply assertOwn_None in Ha as (caCert & Hca & Hsig).
  apply bind_Ok in H as (u1 & w1 & Hv & H). apply check_Ok in Hv as [Hv ->].
  apply bind_Ok in H as (u2 & w2 & Hr & H). apply refuse_acceptable in Hr as (S2 & C2 & Hacc).
  apply WithLockW_Ok in H as (w3 & [Q3 S3] & H).
  apply bind_Ok in H as (u3 & w4 & Hr' & H). apply refuse_acceptable in Hr' as (S4 & C4 & _).
  apply bind_Ok in H as (pem' & w5 & Hi & H). apply bind_Ok in H as (u4 & w6 & _ & H).
  apply ret_Ok in H as [-> _].
  assert (same_ca w w4) as C. { etrans; [exact C2|]. etrans; [|exact C4]. by apply same_core_ca. }
  split; [done|]. split; [|done]. eapply renewal_same; [exact C|].
  eapply reissue_spec; [|exact Hsig|exact Hi]. destruct C as (-> & _). done.
Qed.

(** Renewal with a request changes the key and nothing else. *)
Lemma Renew_spec subject csrPEM presented w pem w' :
  Renew subject csrPEM (Some presented) w = (Ok pem, w') ->
  acceptable w presented /\ CommonName (Subject presented) = subject /\
  exists csr, decode_csr csrPEM = Ok csr /\ CommonName (csr_Subject csr) = subject /\
    renewal_of w presented (csr_PublicKey csr) pem.
Proof.
  unfold Renew, get_ca. intros H.
  apply bind_Ok in H as (c & w0 & Hc & H). apply gets_Ok in Hc as [-> ->]. cbn [id] in H.
  apply bind_Ok in H as (u & w1 & Ha & H). apply check_Ok in Ha as [Ha ->].
  apply assertOwn_None in Ha as (caCert & Hca & Hsig).
  apply bind_Ok in H as (u1 & w1 & Hr & H). apply refuse_acceptable in Hr as (S1 & C1 & Hacc).
  apply bind_Ok in H as (u2 & w2 & Hcn & H). apply check_Ok in Hcn as [Hcn ->].
  apply bind_Ok in H as (u3 & w3 & Hv & H). apply check_Ok in Hv as [_ ->].
  apply bind_Ok in H as (csr & w4 & Hd & H). apply of_result_Ok in Hd as [Hd ->].
  apply bind_Ok in H as (u4 & w4 & Hcc & H). apply check_Ok in Hcc as [Hcc ->].
  apply WithLockW_Ok in H as (w5 & [Q5 S5] & H).
  apply bind_Ok in H as (u5 & w6 & Hr' & H). apply refuse_acceptable in Hr' as (S6 & C6 & _).
  apply bind_Ok in H as (r & w7 & Hl & H). apply try_Ok in Hl.
  pose proof (mono_run same_ca _ _ _ _ (same_ca_lift _) Hl) as C7.
  apply bind_Ok in H as (old & w8 & Ho & H). apply of_result_Ok in Ho as [_ ->].
  apply bind_Ok in H as (pem' & w9 & Hi & H). apply bind_Ok in H as (u9 & w10 & _ & H).
  apply bind_Ok in H as (u10 & w11 & _ & H). apply ret_Ok in H as [-> _].
  assert (same_ca w w7) as C.
  { etrans; [exact C1|]. etrans; [by apply same_core_ca|]. by etrans. }
  case_bool_decide; [|done]. case_bool_decide; [|done].
  split; [done|]. split; [done|]. exists csr. split; [done|]. split; [done|].
  eapply renewal_same; [exact C|]. eapply reissue_spec; [|exact Hsig|exact Hi].
  destruct C as (-> & _). done.
Qed.

(** Renewal with a request changes the key and nothing else.  If it
    succeeds, the certificate presented was signed by this CA, is for the
    subject named, was not on the CRL consulted (the one in memory or the one
    this CA has stored) and not awaiting revocation; the request proves
    possession of the new key; and the new certificate has the old
    subject, the new key, and no authorisation extension the old one lacked. *)
Theorem Renew_sound subject csrPEM presented w pem w' :
  Renew subject csrPEM (Some presented) w = (Ok pem, w') ->
  acceptable w presented /\ CommonName (Subject presented) = subject /\
  exists csr, decode_csr csrPEM = Ok csr /\ CommonName (csr_Subject csr) = subject /\
    renewal_of w presented (csr_PublicKey csr) pem.
Proof. apply Renew_spec. Qed.

(** Without storage failures a synchronisation brings the stored CRL into
    memory. *)
Lemma GetCRL_fresh w b :
  faults (st w) = [] -> blobs (be (st w)) !! KeyCRL = Some b ->
  exists s', GetCRL (st w) = (Ok b, s') /\ same_data (st w) s'.
Proof.
  intros Hf Hb. unfold GetCRL, backend, pop_fault. rewrite Hf. unfold be_Get, guarded.
  change (validateKey KeyCRL) with (@None error). rewrite Hb, on_rows_other by done.
  eexists. split; [reflexivity|done].
Qed.

Lemma sync_fresh w o :
  faults (st w) = [] -> own_stored w o ->
  (forall c, cachedCRL (ca w) = Some c -> c = o \/ newerCRL o c = true) ->
  cachedCRL (ca (exec SyncCRLCache w)) = Some o.
Proof.
  intros Hf (chain & Hst & Ho) Hc. destruct (GetCRL_fresh w _ Hf Hst) as (s' & Hg & _).
  unfold exec, SyncCRLCache, counting, wrapping, try, lift, get_ca, gets, mbind, M_bind, mret, M_ret.
  rewrite Hg. cbn [ca set_st id]. unfold selectOwnCRL. rewrite decode_encode, Ho.
  pose proof (install_fields o (ca w)) as (_ & _ & _ & F & _).
  destruct (cachedCRL (ca w)) as [c|] eqn:E; [|exact F].
  destruct (bool_decide (o = c)) eqn:Eo; [apply bool_decide_eq_true in Eo; cbn [snd ca set_st]; congruence|].
  destruct (Hc c eq_refl) as [->|Hn]; [by rewrite bool_decide_eq_true_2 in Eo|].
  rewrite Hn, andb_false_r. exact F.
Qed.

Lemma refuse_revoked presented subject w o :
  faults (st w) = [] -> own_stored w o ->
  (forall c, cachedCRL (ca w) = Some c -> c = o \/ newerCRL o c = true) ->
  SerialNumber presented ∈ revoked_serials o ->
  exists e w', refuseIfRevoked (Some presented) subject w = (Err e, w') /\ same_store w w' /\
    errors_Is e ErrCertRevoked = true.
Proof.
  intros Hf Ho Hc Hin. pose proof (sync_fresh w o Hf Ho Hc) as Hs. unfold exec in Hs.
  destruct (SyncCRLCache w) as [r w1] eqn:E. simpl in Hs.
  pose proof (mono_run _ _ _ _ _ sync_same E) as S1.
  exists (Wrap "rejecting renewal" [Sentinel ErrCertRevoked]), w1. split; [|done].
  assert (serialInCRL o (SerialNumber presented) = true) as Hser.
  { unfold serialInCRL. apply existsb_exists_elem.
    apply list_elem_of_fmap in Hin as (x & Hx & Hxin). exists x. split; [done|]. by apply Z.eqb_eq. }
  unfold refuseIfRevoked, ignore, try, wrapping, IsRevokedSerial, get_ca, gets, mbind, M_bind, mret, M_ret.
  rewrite E, Hs, Hser. done.
Qed.

(** C25: a revoked certificate cannot be renewed.  If the CRL stored by this CA
    lists the serial of the certificate presented, storage is answering and the
    CRL in memory is no newer than the stored one, then both kinds of renewal
    return an error and write nothing. *)
Theorem revoked_cannot_renew presented w o :
  faults (st w) = [] -> own_stored w o ->
  (forall c, cachedCRL (ca w) = Some c -> c = o \/ newerCRL o c = true) ->
  SerialNumber presented ∈ revoked_serials o ->
  (exists e w', AutoRenew (Some presented) w = (Err e, w') /\ same_store w w') /\
  (forall subject csrPEM, exists e w',
     Renew subject csrPEM (Some presented) w = (Err e, w') /\ same_store w w').
Proof.
  intros Hf Ho Hc Hin. split.
  - destruct (refuse_revoked presented (CommonName (Subject presented)) w o Hf Ho Hc Hin)
      as (e & w' & Hr & S & _).
    unfold AutoRenew, get_ca, gets, check, mbind, M_bind, mret, M_ret, fail. cbn [id].
    destruct (assertOwnCertificate _ _); [by eexists _, w|].
    destruct (ValidateSubject _); [by eexists _, w|]. rewrite Hr. eauto.
  - intros subject csrPEM. destruct (refuse_revoked presented subject w o Hf Ho Hc Hin)
      as (e & w' & Hr & S & _).
    unfold Renew, get_ca, gets, check, mbind, M_bind, mret, M_ret, fail. cbn [id].
    destruct (assertOwnCertificate _ _); [by eexists _, w|]. rewrite Hr. eauto.
Qed.

(** *** Bounds of the configured validity *)

(** C34: [leaf_validity_days] is exact up to 106751 days and never beyond.  From
    106752 days on the nanosecond duration has wrapped around and is not the one
    asked for; up to 213503 days it is negative, so that the leaf a signing
    produces has expired before it is signed, and at 213504 days it is a little
    over twenty-five minutes. *)
Theorem leaf_validity_range c :
  (0 < LeafValidityDays c <= 106751 ->
     leaf_validity c 0 = LeafValidityDays c * 86400 * Second) /\
  (106752 <= LeafValidityDays c -> leaf_validity c 0 < LeafValidityDays c * 86400 * Second) /\
  (106752 <= LeafValidityDays c <= 213503 -> leaf_validity c 0 < 0) /\
  (LeafValidityDays c = 213504 -> 0 < leaf_validity c 0 < 26 * Minute).
Proof.
  unfold leaf_validity, days_duration, wrap64, Hour, Minute, Second. cbn [Z.ltb Z.compare].
  split_and!; intros H; rewrite (proj2 (Z.ltb_lt _ _)) by lia; dlia.
Qed.
