(* ===== verification/Lifecycle.v ===== *)
(** * Cleanup of expired certificates, generation, and index repair

    Models internal/ca/cleanup.go, generate.go, the repair pass of certindex.go,
    and the eviction of a revoked certificate from signing.go. *)

From S2P Require Import Prelude GoStrings GoTime X509 Inventory Storage InventorySpec Policy.
From S2P Require Import CAState CRLChain CRL OCSP CRLSafety Supersede Signing.

(** ** Expired certificates (cleanup.go) *)

(** Keep an entry whose expiry is unreadable or not before the cutoff. *)
Definition keep_entry (cutoff : Time) (e : InventoryEntry) : bool :=
  match parse_time (ie_NotAfter e) with
  | None => true
  | Some notAfter => negb (notAfter <? cutoff)
  end.

(** The serials of the dropped entries that parse, in order. *)
Definition dropped_serials (dropped : list InventoryEntry) : list Z :=
  omap (fun e => SetString16 (ie_Serial e)) dropped.

Definition dropCRLEntriesLocked (removed : list Z) : MW unit :=
  stored ← readStoredCRL;
  let entries := RevokedCertificateEntries (own stored) in
  let kept := base.filter (fun e => rle_SerialNumber e ∉ removed) entries in
  if bool_decide (length kept = length entries) then mret tt
  else signCRLLocked stored kept.

Definition deleteStoredCertIfSerialMatches (subject expectSerial : string) : MW unit :=
  r ← try (lift (GetCert subject));
  match r with
  | Err _ => mret tt
  | Ok pem =>
      match decode_cert pem, SetString16 expectSerial with
      | Some cert, Some want =>
          if bool_decide (serialHexStr (SerialNumber cert) = serialHexStr want)
          then ignore (lift (DeleteCert subject)) else mret tt
      | _, _ => mret tt
      end
  end.

Definition join_errors (a b : option error) : option error :=
  match a, b with
  | None, None => None
  | Some e, None | None, Some e => Some (Wrap "" [e])
  | Some e1, Some e2 => Some (Wrap "" [e1; e2])
  end.

(** The number removed, and the error. *)
Definition cleanup_body (cutoff : Time) : MW (nat * option error) :=
  '(dropped, pruneErr) ← lift (PruneInventory (keep_entry cutoff));
  if bool_decide (dropped = []) then mret (O, pruneErr)
  else
    _ ← upd_ca (fun c => fold_left (fun c n => unindexSerialLocked (serialHexStr n) c)
                           (dropped_serials dropped) c);
    x ← try (dropCRLEntriesLocked (dropped_serials dropped));
    _ ← for_each (fun e => deleteStoredCertIfSerialMatches (ie_Subject e) (ie_Serial e)) dropped;
    mret (length dropped, join_errors pruneErr (match x with Ok _ => None | Err e => Some e end)).

Definition CleanupExpiredCerts (retain : Duration) : MW (nat * option error) :=
  now ← lift time_Now;
  let cutoff := now - Z.max 0 retain in
  '(r, ran) ← WithLockRan lockNameCRL (cleanup_body cutoff);
  match r with
  | Ok x => mret x
  | Err e => _ ← when (negb ran) (count crlUpdateFailures); mret (O, Some e)
  end.

(** ** Generated certificates (generate.go) *)

Record GenerateOptions := mkGenOpts {
  go_DNSAltNames : list string;
  go_AuthGrants : list AuthGrant;
  go_TTL : Duration;
  go_ReplaceExisting : bool;
  go_RetainPrivateKeyInStorage : bool;
  go_EmitKey : bool }.

Record GenerateResult := mkGenResult {
  PrivateKeyPEM : blob;
  CertificatePEM : blob;
  Replaced : bool }.

Definition marshalPrivateKeyPEM (key : PublicKey) : blob :=
  pem_encode [match key with
              | RSAKey _ _ => mkBlock "RSA PRIVATE KEY" (DerPrivateKey PKCS1 key)
              | ECDSAKey _ _ => mkBlock "EC PRIVATE KEY" (DerPrivateKey SEC1 key)
              | _ => mkBlock "PRIVATE KEY" (DerPrivateKey PKCS8 key)
              end].

(** Parsing is by the format the PEM type announces. *)
Definition parse_key (f : keyfmt) (d : der) : option PublicKey :=
  match d with DerPrivateKey g k => if bool_decide (g = f) then Some k else None | _ => None end.

Definition parsePrivateKeyDER (blockType : string) (d : der) : result PublicKey :=
  let with_format f msg := match parse_key f d with Some k => Ok k | None => Err (Msg msg) end in
  if bool_decide (blockType = "RSA PRIVATE KEY") then
    with_format PKCS1 "failed to parse RSA PKCS1 private key"
  else if bool_decide (blockType = "EC PRIVATE KEY") then
    with_format SEC1 "failed to parse EC private key"
  else if bool_decide (blockType = "PRIVATE KEY") then
    with_format PKCS8 "failed to parse PKCS8 private key"
  else match parse_key PKCS1 d with
       | Some k => Ok k
       | None => with_format PKCS8 "unrecognized PEM type"
       end.

Definition leafKeyConfig (c : Config) : KeyConfig :=
  let k := LeafKeyConfig c in
  if negb (bool_decide (kc_Algo k = "")) || negb (kc_Size k =? 0) then k else DefaultLeafKeyConfig.

(** A revoked certificate makes way for a new one; a live one does not. *)
Definition evictRevokedLocked (subject : string) : MW unit :=
  has ← lift (HasCert subject);
  if negb has then mret tt
  else
    held ← storedCertLocked subject;
    c ← get_ca id;
    if negb (revokedLocked c held) then fail (Wrap subject [Sentinel ErrCertExists])
    else ignore (lift (DeleteCert subject)).

Definition storedCertSerialLocked (subject : string) : MW string :=
  certPEM ← wrapping "reading the stored certificate" (lift (GetCert subject));
  match pem_Decode certPEM with
  | (None, _) => fail (Msg "the stored certificate cannot be decoded")
  | (Some block, _) =>
      match ParseCertificate (Bytes block) with
      | Err e => fail (Msg "the stored certificate cannot be parsed")
      | Ok cert => mret (serialHexStr (SerialNumber cert))
      end
  end.

Definition replacementFailed (replacing : bool) (e : error) : error :=
  if replacing then Wrap "the existing certificate was revoked, but no replacement was issued" [e]
  else e.

(** The stored certificate to be replaced, if any. *)
Definition generate_replacing (subject : string) (opts : GenerateOptions) : MW (option string) :=
  has ← lift (HasCert subject);
  if negb has then mret None
  else
    _ ← wrapping "refreshing CRL cache" loadCRLCache;
    if negb (go_ReplaceExisting opts) then mret None
    else s ← storedCertSerialLocked subject; mret (Some s).

(** The issuing part, whose failures read differently once a certificate has
    been revoked to make room. *)
Definition generate_issue (subject : string) (opts : GenerateOptions) (key : PublicKey)
    (dnsNames : list string) (extra : list Extension) (replacing : bool) : MW blob :=
  _ ← when replacing (wrapping "refreshing CRL cache" loadCRLCache);
  _ ← evictRevokedLocked subject;
  certPEM ← issueLeafLocked subject (mkName subject []) key (SANs dnsNames [] [] []) extra []
              (go_TTL opts);
  _ ← when (go_RetainPrivateKeyInStorage opts)
        (r ← try (lift (SavePrivateKey subject (marshalPrivateKeyPEM key)));
         match r with
         | Ok _ => mret tt
         | Err e => _ ← ignore (lift (DeleteCert subject)); fail (Wrap "failed to save private key" [e])
         end);
  mret certPEM.

(** The work under the subject's lock. *)
Definition generate_locked (subject : string) (opts : GenerateOptions) (key : PublicKey)
    (dnsNames : list string) (extra : list Extension) : MW GenerateResult :=
  old ← generate_replacing subject opts;
  let replacing := match old with Some _ => true | None => false end in
  _ ← (match old with
       | None => mret tt
       | Some serial => wrapping "could not revoke the existing certificate"
                          (WithLockW lockNameCRL (revokeSerialLocked serial))
       end);
  r ← try (generate_issue subject opts key dnsNames extra replacing);
  certPEM ← of_result (match r with Ok p => Ok p | Err e => Err (replacementFailed replacing e) end);
  hasCSR ← lift (HasCSR subject);
  _ ← when hasCSR (ignore (lift (DeleteCSR subject)));
  mret (mkGenResult (marshalPrivateKeyPEM key) certPEM replacing).

Definition GenerateWithOptions (subject : string) (opts : GenerateOptions) : MW GenerateResult :=
  _ ← check (ValidateSubject subject);
  _ ← check (CheckKeySubject subject);
  _ ← check (validateDNSAltNames (go_DNSAltNames opts));
  c ← get_ca id;
  if negb (IsReady c) then fail (Sentinel ErrNotInitialized)
  else
    extra ← of_result (authGrantExtensions (go_AuthGrants opts));
    id ← wrapping "failed to generate key" (lift (rand_Int (2 ^ 256)));
    key ← wrapping "failed to generate key" (of_result (generateKey (leafKeyConfig (cfg c)) id));
    _ ← when (go_EmitKey opts) (lift (external (Msg "emitting the private key")));
    let dnsNames := if PromoteCNToSAN (cfg c) && bool_decide (go_DNSAltNames opts = [])
                    then [subject] else go_DNSAltNames opts in
    WithLockW (subjectLockName subject) (generate_locked subject opts key dnsNames extra).
Definition Generate (subject : string) (dnsAltNames : list string) : MW GenerateResult :=
  GenerateWithOptions subject (mkGenOpts dnsAltNames [] 0 false true false).

(** ** Certificate index repair (certindex.go) *)

Definition RevokedSerials (c : CA) : gmap string Time :=
  match cachedCRL c with
  | None => ∅
  | Some crl => listed_map (RevokedCertificateEntries crl)
  end.

Definition backfillCertProjection (rec : CertRecord) : MW unit :=
  let e := cr_entry rec in
  r ← try (lift (GetCert (ie_Subject e)));
  match r with
  | Err _ => mret tt
  | Ok pem =>
      match decode_cert pem, SetString16 (ie_Serial e) with
      | Some cert, Some n =>
          if n =? SerialNumber cert
          then ignore (lift (SetCertProjection (ie_Serial e) (certProjectionFor cert)))
          else mret tt
      | _, _ => mret tt
      end
  end.

Definition repair_record (revoked : gmap string Time) (rec : CertRecord) : MW unit :=
  if bool_decide (State rec = CertStateUnknown) then mret tt
  else
    _ ← when (bool_decide (Fingerprint (cr_proj rec) = None)) (backfillCertProjection rec);
    match SetString16 (ie_Serial (cr_entry rec)) with
    | None => mret tt
    | Some n =>
        match revoked !! serialHexStr n with
        | Some at_ =>
            when (negb (bool_decide (State rec = CertStateRevoked)))
              (ignore (lift (MarkCertRevoked (ie_Serial (cr_entry rec)) at_)))
        | None =>
            when (bool_decide (State rec = CertStateRevoked))
              (ignore (lift (ClearCertRevoked (ie_Serial (cr_entry rec)))))
        end
    end.

Definition rebuildCertIndex : MW unit :=
  r ← try (lift (CertStatuses None));
  match r with
  | Ok (Some records) =>
      c ← get_ca id;
      for_each (repair_record (RevokedSerials c)) records
  | _ => mret tt
  end.

(** ** Lemmas *)

(** Dropping entries from the CRL keeps every other one, whatever the
    outcome. *)
Lemma drop_keeps removed w r w' o n :
  key_matches (ca w) -> own_stored w o -> dropCRLEntriesLocked removed w = (r, w') ->
  n ∈ revoked_serials o -> n ∉ removed -> on_crl w' n.
Proof.
  intros Hm Ho H Hn Hr. unfold dropCRLEntriesLocked in H.
  apply bind_quiet in H as [Q|(stored & w1 & Q & Hs & H)]; [| |exact quiet_readStored].
  { exists o. split; [by eapply own_stored_quiet|done]. }
  destruct Ho as (chain & Hst & Hown). unfold readStoredCRL in Hs. apply counting_Ok in Hs.
  eapply parseStored_spec in Hs as (C1 & S1 & _ & Hs & Howns); [|exact Hst].
  rewrite Hown in Hs. injection Hs as ->.
  assert (own_stored w1 (own stored)) as Ho1.
  { exists chain. unfold stored_chain. destruct S1 as (-> & _). rewrite C1. done. }
  case_bool_decide; [injection H as _ <-; by exists (own stored)|].
  apply sign_any in H as [C [[_ E]|(crl & others & Hst' & (Hnum & Hser & Hk & Hf) & _)]].
  - exists (own stored). split; [|done]. destruct Ho1 as (c1 & T1 & O1). exists c1.
    unfold stored_chain. rewrite E. destruct C as (-> & _). done.
  - assert (exists cert, CACert (ca w1) = Some cert) as [cert Hc].
    { rewrite <- C1 in Howns. unfold ownsCRL, crlSignedBy in Howns.
      destruct (CACert (ca w1)); [by eauto|done]. }
    exists crl. split.
    + exists (crl :: others). split; [done|]. destruct C as (-> & _).
      apply ownCRLIn_lead; [|exact Hf]. rewrite <- C1 in Hm, Howns.
      exact (signed_by_owner cert _ crl _ _ Hm Hc Hk eq_refl Howns).
    + rewrite Hser. apply list_elem_of_fmap in Hn as (x & -> & Hx).
      apply list_elem_of_fmap. exists x. split; [done|]. by apply list_elem_of_filter.
Qed.

Lemma unindex_same l c :
  let c' := fold_left (fun c n => unindexSerialLocked (serialHexStr n) c) l c in
  CACert c' = CACert c /\ CAKey c' = CAKey c /\ cfg c' = cfg c.
Proof.
  revert c. induction l as [|n l IH]; intros c; cbn [fold_left]; [done|].
  exact (IH (unindexSerialLocked (serialHexStr n) c)).
Qed.

Lemma frame_GetCert_Delete subject : mono (frame (fun k => k = CertKey subject)) (DeleteCert subject).
Proof. by apply frame_Delete. Qed.

Lemma grows_delete_cert subject : mono crl_grows (lift (DeleteCert subject)).
Proof. apply (grows_lift_frame (fun k => k = CertKey subject)); [apply frame_GetCert_Delete|done]. Qed.
Lemma HasCert_same s : mono same_data (HasCert s).
Proof. unfold HasCert, CertExists. mono_tac. Qed.
#[export] Hint Resolve HasCert_same : mono.

Lemma GetCert_same subject : mono same_data (GetCert subject).
Proof. unfold GetCert. mono_tac. Qed.
#[export] Hint Resolve grows_delete_cert GetCert_same : mono.

Lemma grows_delete_if subject s : mono crl_grows (deleteStoredCertIfSerialMatches subject s).
Proof. unfold deleteStoredCertIfSerialMatches. mono_tac. Qed.
#[export] Hint Resolve grows_delete_if : mono.

Lemma cleanup_body_keeps cutoff w r w' o n :
  key_matches (ca w) -> own_stored w o -> cleanup_body cutoff w = (r, w') ->
  n ∈ revoked_serials o ->
  (forall e, e ∈ inv_view (be (st w)) -> SetString16 (ie_Serial e) = Some n -> keep_entry cutoff e = true) ->
  on_crl w' n.
Proof.
  intros Hm Ho H Hn Hkeep. unfold cleanup_body in H.
  assert (crl_grows w (exec (lift (PruneInventory (keep_entry cutoff))) w)) as G0.
  { apply (grows_lift_frame (fun x => x = KeyInventory \/ x = KeyInventoryHMAC));
      [apply prune_frame|]. by intros [?|?]. }
  assert (on_crl w n) as Hon by (by exists o).
  apply bind_run in H as [(e & H & _)|([dropped perr] & w1 & Hp & H)].
  { unfold exec in G0. rewrite H in G0. by eapply on_crl_grows. }
  unfold exec in G0. rewrite Hp in G0. cbn [snd] in G0.
  apply lift_Ok in Hp as (s1 & Hp & ->). apply prune_removed in Hp.
  destruct G0 as [C0 G0]. destruct (G0 Hm o Ho) as (o1 & Ho1 & [_ Hsub] & _). apply Hsub in Hn.
  case_bool_decide as Hd; [injection H as _ <-; by exists o1|].
  destruct Hp as [->|Hp]; [done|].
  apply bind_run in H as [(e & H & _)|(u & w2 & Hu & H)]; [done|]. apply modify_Ok in Hu. subst w2.
  pose proof (unindex_same (dropped_serials dropped) (ca (set_st s1 w))) as (U1 & U2 & U3).
  set (c2 := fold_left _ _ _) in *. set (w2 := set_ca c2 _) in *.
  assert (same_ca (set_st s1 w) w2) as C2 by (unfold same_ca, w2; cbn [ca set_ca]; done).
  assert (own_stored w2 o1) as Ho2.
  { destruct Ho1 as (ch & T1 & O1). exists ch. split; [exact T1|].
    unfold w2. cbn [ca set_ca]. by rewrite U1. }
  assert (key_matches (ca w2)) as Hm2
    by (eapply key_matches_same; [exact C2|by eapply key_matches_same]).
  apply bind_run in H as [(e & H & _)|(x & w3 & Hx & H)]; [by apply try_Err in H|]. apply try_Ok in Hx.
  assert (on_crl w3 n) as Hon3.
  { eapply drop_keeps; [exact Hm2|exact Ho2|exact Hx|exact Hn|].
    intros (e & He & Hs)%list_elem_of_omap. rewrite Hp in He. apply list_elem_of_filter in He as [Hk He].
    rewrite (Hkeep e He Hs) in Hk. done. }
  assert (same_ca w2 w3) as C3.
  { eapply mono_run; [|exact Hx]. unfold dropCRLEntriesLocked. mono_tac.
    eapply mono_weaken; [|exact quiet_readStored]. intros ? ? [? _]. by apply same_core_ca. }
  eapply on_crl_grows; [|by eapply key_matches_same|exact Hon3].
  eapply mono_run; [|exact H]. mono_tac.
Qed.

