(* ===== verification/Import.v ===== *)
(** * Importing certificates issued elsewhere

    Models internal/ca/importcert.go: a certificate this CA signed, but whose
    record was lost or never made, is taken into the store and the inventory. *)

From S2P Require Import Prelude GoStrings GoTime X509 Inventory Storage InventorySpec Policy.
From S2P Require Import CAState CRLChain CRL OCSP CRLSafety Supersede Signing Lifecycle.

Record ImportResult := mkImport {
  im_Subject : string;
  im_Serial : string;
  im_NotBefore : Time;
  im_NotAfter : Time;
  Imported : bool }.

Definition certMatchesSubject (cert : Certificate) (subject : string) : bool :=
  bool_decide (CommonName (Subject cert) = subject) ||
  existsb (fun name => bool_decide (name = subject)) (DNSNames (cert_sans cert)).

Definition import_invalid (why : string) : error := Wrap why [Sentinel ErrImportInvalid].

(** The single certificate of the input, if it may be imported at all. *)
Definition importable (caCert : Certificate) (subject : string) (certPEM : blob) : result Certificate :=
  match pem_Decode certPEM with
  | (None, _) => Err (import_invalid "failed to decode certificate PEM")
  | (Some block, rest) =>
      match pem_Decode rest with
      | (Some _, _) => Err (import_invalid "PEM input contains more than one block")
      | (None, _) =>
          match ParseCertificate (Bytes block) with
          | Err e => Err (import_invalid "malformed certificate")
          | Ok cert =>
              if negb (CheckSignatureFrom cert caCert) then
                Err (import_invalid "certificate was not signed by this CA")
              else if IsCA cert then Err (import_invalid "refusing to import a CA certificate")
              else if negb (certMatchesSubject cert subject) then
                Err (import_invalid "subject matches neither the CN nor the DNS SANs")
              else if SerialNumber cert <=? 0 then Err (import_invalid "non-positive serial number")
              else if negb (NotBefore cert <? NotAfter cert) then
                Err (import_invalid "NotAfter is not after NotBefore")
              else Ok cert
          end
      end
  end.

Definition importCertificateLocked (subject serialStr : string) (cert : Certificate) (certPEM : blob)
    : MW ImportResult :=
  let res := mkImport subject serialStr (NotBefore cert) (NotAfter cert) in
  has ← lift (HasCert subject);
  same ← (if (has : bool) then
            held ← storedCertLocked subject; mret (bool_decide (held = Some cert))
          else mret false);
  if (same : bool) then mret (res false)
  else
    exists_ ← wrapping "failed to check serial uniqueness" (lift (SerialExists serialStr));
    if (exists_ : bool) then fail (Wrap serialStr [Sentinel ErrSerialExists])
    else
      _ ← evictRevokedLocked subject;
      _ ← wrapping "failed to save imported cert" (lift (SaveCert subject certPEM));
      r ← try (lift (AppendInventoryRecord
                (FormatInventoryLine serialStr (NotBefore cert) (NotAfter cert) subject)
                (Some (certProjectionFor cert))));
      match r with
      | Err e =>
          _ ← ignore (lift (DeleteCert subject));
          if errors_Is e ErrDuplicateSerial then fail (Wrap "duplicate" [Sentinel ErrSerialExists])
          else fail (Wrap "failed to update inventory" [e])
      | Ok _ =>
          _ ← upd_ca (indexSerialLocked serialStr subject);
          mret (res true)
      end.

Definition ImportCertificate (subject : string) (certPEM : blob) : MW ImportResult :=
  c ← get_ca id;
  match CACert c, CAKey c with
  | Some caCert, Some _ =>
      _ ← check (match ValidateSubject subject with
                 | Some _ => Some (import_invalid "subject")
                 | None => None
                 end);
      cert ← of_result (importable caCert subject certPEM);
      WithLockW (subjectLockName subject)
        (importCertificateLocked subject (serialHexStr (SerialNumber cert)) cert certPEM)
  | _, _ => fail (Sentinel ErrNotInitialized)
  end.

(** ** Lemmas *)

Lemma importable_Ok caCert subject pem cert :
  importable caCert subject pem = Ok cert ->
  decode_cert pem = Some cert /\ CheckSignatureFrom cert caCert = true /\ IsCA cert = false /\
  certMatchesSubject cert subject = true /\ 0 < SerialNumber cert /\ NotBefore cert < NotAfter cert.
Proof.
  unfold importable, decode_cert. destruct (pem_Decode pem) as [[block|] rest]; [|done].
  destruct (pem_Decode rest) as [[|] ?]; [done|].
  destruct (ParseCertificate (Bytes block)) as [c|]; [|done].
  destruct (CheckSignatureFrom c caCert) eqn:E1; [|done]. destruct (IsCA c) eqn:E2; [done|].
  destruct (certMatchesSubject c subject) eqn:E3; [|done]. cbn [negb].
  destruct (Z.leb_spec (SerialNumber c) 0); [done|]. destruct (Z.ltb_spec (NotBefore c) (NotAfter c)); [|done].
  cbn [negb]. intros [= ->]. done.
Qed.

(** The line written for an imported certificate is the line of its entry. *)
Lemma import_entry cert subject :
  0 < SerialNumber cert -> ValidateSubject subject = None ->
  0 <= NotBefore cert -> NotBefore cert < NotAfter cert -> NotAfter cert < year_10000 ->
  wf_entry (cert_entry cert subject) /\
  FormatInventoryLine (serialHexStr (SerialNumber cert)) (NotBefore cert) (NotAfter cert) subject =
  canonicalInventoryLine (cert_entry cert subject).
Proof.
  intros Hs Hv Hb Hlt Hy. split; [|done].
  constructor; cbn [ie_Serial ie_NotBefore ie_NotAfter ie_Subject cert_entry].
  - exists (SerialNumber cert). split; [lia|done].
  - apply format_time_wf. lia.
  - apply format_time_wf. lia.
  - by apply subject_plain.
Qed.

(** Only the blob under [key] may have changed. *)
Definition only_key (key : string) : relation Store := fun s s' =>
  structured (be s') = structured (be s) /\ rows (be s') = rows (be s) /\ hmacKey s' = hmacKey s /\
  forall k, k <> key -> blobs (be s') !! k = blobs (be s) !! k.
Notation only_cert subject := (only_key (CertKey subject)).
#[global] Instance only_key_preorder key : PreOrder (only_key key).
Proof.
  split; [done|]. intros s1 s2 s3 (A1 & A2 & A3 & A4) (B1 & B2 & B3 & B4). split_and!; [congruence..|].
  intros k Hk. by rewrite B4, A4.
Qed.

Lemma only_same {A} key (m : MS A) : mono same_data m -> mono (only_key key) m.
Proof. apply mono_weaken. intros s s' (E & K & _). unfold only_key. by rewrite E, K. Qed.

Lemma only_backend {A} key (op : BOp A) :
  (forall b, structured (op b).2 = structured b /\ rows (op b).2 = rows b /\
        forall k, k <> key -> blobs (op b).2 !! k = blobs b !! k) ->
  mono (only_key key) (backend op).
Proof.
  intros H s. unfold exec. destruct (backend op s) as [r s'] eqn:E.
  apply backend_cases in E as (Ek & _ & E). destruct (H (be s)) as (H1 & H2 & H3).
  unfold only_key. cbn [snd]. destruct E as [[_ ->]|(e & _ & [->| ->])]; done.
Qed.

Lemma only_Put key pem : key <> KeyInventory -> mono (only_key key) (backend (be_Put key pem)).
Proof.
  intros Hk. apply only_backend. intros b. unfold be_Put, guarded. destruct (validateKey _); [done|].
  rewrite on_rows_other by done. cbn. split_and!; [done..|]. intros k Hne. by rewrite lookup_insert_ne.
Qed.
Lemma only_Delete key : key <> KeyInventory -> mono (only_key key) (backend (be_Delete key)).
Proof.
  intros Hk. apply only_backend. intros b. unfold be_Delete, guarded. destruct (validateKey _); [done|].
  rewrite on_rows_other by done. destruct (blobs b !! key); [|done]. cbn.
  split_and!; [done..|]. intros k Hne. by rewrite lookup_delete_ne.
Qed.
Lemma only_cert_Save subject pem : mono (only_cert subject) (SaveCert subject pem).
Proof. by apply only_Put. Qed.
Lemma only_cert_Delete subject : mono (only_cert subject) (DeleteCert subject).
Proof. by apply only_Delete. Qed.
#[export] Hint Resolve only_same only_cert_Save only_cert_Delete : mono.

Lemma SerialExists_same s : mono same_data (SerialExists s).
Proof. unfold SerialExists, inventoryEntriesLocked, is_structured. mono_tac. Qed.
#[export] Hint Resolve SerialExists_same : mono.

Lemma only_cert_evict subject : mono (on_store (only_cert subject)) (evictRevokedLocked subject).
Proof.
  unfold evictRevokedLocked, storedCertLocked, get_ca, HasCert, CertExists, GetCert.
  repeat first [ apply mono_lift_store; mono_tac | mono_step ].
Qed.

(** What reached the locked part's end. *)
Lemma import_locked_Ok subject serial cert pem w res w' :
  importCertificateLocked subject serial cert pem w = (Ok res, w') ->
  res = mkImport subject serial (NotBefore cert) (NotAfter cert) (Imported res) /\
  if Imported res then
    exists s1 s2, only_cert subject (st w) s1 /\ blobs (be s1) !! CertKey subject = Some pem /\
      AppendInventoryRecord (FormatInventoryLine serial (NotBefore cert) (NotAfter cert) subject)
        (Some (certProjectionFor cert)) s1 = (Ok tt, s2) /\
      be (st w') = be s2 /\ hmacKey (st w') = hmacKey s2 /\
      serialIndex (ca w') !! serial = Some subject
  else
    same_store w w' /\ exists held, blobs (be (st w)) !! CertKey subject = Some held /\ decode_cert held = Some cert.
Proof.
  unfold importCertificateLocked. intros H.
  apply bind_Ok in H as (has & w1 & H1 & H).
  pose proof (mono_run same_store _ _ _ _ (same_store_lift _ (HasCert_same subject)) H1) as S1.
  apply bind_Ok in H as (same & w2 & H2 & H).
  assert (same_store w w2 /\ (same = true ->
    exists held, blobs (be (st w)) !! CertKey subject = Some held /\ decode_cert held = Some cert)) as [S2 Hsame].
  { destruct has; [|apply ret_Ok in H2 as [-> ->]; done].
    apply bind_Ok in H2 as (held & w3 & H3 & H2). apply ret_Ok in H2 as [-> ->].
    unfold storedCertLocked in H3. apply bind_Ok in H3 as (r & w4 & H4 & H3). apply try_Ok in H4.
    apply ret_Ok in H3 as [-> ->].
    pose proof (mono_run same_store _ _ _ _ (same_store_lift _ (GetCert_same subject)) H4) as S4.
    split; [by etrans|]. intros Heq%bool_decide_eq_true_1. destruct r as [held|]; [|done]. exists held. split; [|done].
    apply lift_Ok in H4 as (s4 & H4 & ->). unfold GetCert in H4. apply backend_Ok in H4 as [H4 _].
    apply be_Get_Ok in H4 as [H4 _]; [|by apply on_rows_other]. destruct S1 as (E & _). by rewrite E in H4. }
  destruct same.
  { apply ret_Ok in H as [-> ->]. cbn [Imported]. split; [done|]. split; [done|]. by apply Hsame. }
  apply bind_Ok in H as (ex & w3 & H3 & H). apply wrapping_Ok in H3.
  pose proof (mono_run same_store _ _ _ _ (same_store_lift _ (SerialExists_same serial)) H3) as S3.
  destruct ex; [by apply fail_Ok in H|].
  apply bind_Ok in H as (u4 & w4 & H4 & H).
  pose proof (mono_run _ _ _ _ _ (only_cert_evict subject) H4) as S4. unfold on_store in S4.
  apply bind_Ok in H as (u5 & w5 & H5 & H). apply wrapping_Ok in H5. apply lift_Ok in H5 as (s5 & H5 & ->).
  pose proof (mono_run _ _ _ _ _ (only_cert_Save subject pem) H5) as S5.
  apply bind_Ok in H as (r & w6 & H6 & H). apply try_Ok in H6. apply lift_run in H6 as (s6 & H6 & ->).
  cbn [st set_st] in H6. destruct r as [u6|e].
  2:{ apply bind_Ok in H as (? & ? & _ & H). destruct (errors_Is e ErrDuplicateSerial); by apply fail_Ok in H. }
  destruct u6. apply bind_Ok in H as (u7 & w7 & H7 & H). apply modify_Ok in H7. apply ret_Ok in H as [-> ->]. subst w7.
  cbn [Imported st ca set_st set_ca]. split; [done|].
  exists s5, s6. split_and!; [| |done..|cbn; by rewrite lookup_insert_eq].
  - etrans; [|exact S5]. etrans; [|exact S4]. destruct (transitivity S2 S3) as (E & K & _).
    unfold only_key. by rewrite E, K.
  - unfold SaveCert in H5. apply backend_Ok in H5 as [H5 _]. unfold be_Put, guarded in H5.
    destruct (validateKey _); [done|]. rewrite on_rows_other in H5 by done. injection H5 as _ <-.
    simpl. by rewrite lookup_insert_eq.
Qed.

Lemma inv_view_only_cert subject s s' :
  only_cert subject s s' ->
  inv_view (be s') = inv_view (be s) /\ inventory_text (be s') = inventory_text (be s) /\
  (forall k, integrity_value k (be s') = integrity_value k (be s)) /\ (integrity s -> integrity s').
Proof.
  intros (Es & Er & Ek & Eb). assert (inventory_text (be s') = inventory_text (be s)) as Et.
  { unfold inventory_text. by rewrite Eb by done. }
  assert (forall k, integrity_value k (be s') = integrity_value k (be s)) as Ei.
  { intros k. unfold integrity_value. by rewrite Es, Er, Et. }
  split_and!; [|done..|].
  - unfold inv_view. by rewrite Es, Er, Et.
  - intros Hint k Hk. rewrite Ek in Hk. destruct (Hint k Hk) as (v & Hv1 & Hv2).
    exists v. by rewrite Eb, Ei by done.
Qed.

(** An imported certificate's record is complete. *)
Definition recorded (subject : string) (pem : blob) (cert : Certificate) (w w' : World) : Prop :=
  spec_append (cert_entry cert subject) (inv_view (be (st w))) = Some (inv_view (be (st w'))) /\
  (integrity (st w) -> integrity (st w')) /\ inventory_ok (be (st w')) /\
  blobs (be (st w')) !! CertKey subject = Some pem /\
  serialIndex (ca w') !! serialHexStr (SerialNumber cert) = Some subject.

Lemma import_recorded subject pem cert w w1 w' :
  same_store w w1 -> inventory_ok (be (st w)) -> ValidateSubject subject = None ->
  0 < SerialNumber cert -> 0 <= NotBefore cert -> NotBefore cert < NotAfter cert -> NotAfter cert < year_10000 ->
  (exists s1 s2, only_cert subject (st w1) s1 /\ blobs (be s1) !! CertKey subject = Some pem /\
      AppendInventoryRecord (FormatInventoryLine (serialHexStr (SerialNumber cert)) (NotBefore cert) (NotAfter cert) subject)
        (Some (certProjectionFor cert)) s1 = (Ok tt, s2) /\
      be (st w') = be s2 /\ hmacKey (st w') = hmacKey s2 /\
      serialIndex (ca w') !! serialHexStr (SerialNumber cert) = Some subject) ->
  recorded subject pem cert w w'.
Proof.
  intros (Es & Ks & _) Hok Hsub Hser Hb Hval Hy (s1 & s2 & O & Hpem & Ha & Eb & Ek & Hix).
  destruct (import_entry cert subject) as [Hwf Hline]; [done..|]. rewrite Hline in Ha.
  destruct (inv_view_only_cert _ _ _ O) as (V & X & IV & I). rewrite Es in V, X. 
  assert (parseInventoryEntry (canonicalInventoryLine (cert_entry cert subject))
    = Some (cert_entry cert subject)) as Hp.
  { destruct Hwf as [(n & Hn & Hs) ? ? (? & ? & ?)]. apply parse_canonical; try done.
    rewrite Hs. by apply wf_field_hexX. }
  assert (frame (fun k => k = KeyInventory \/ k = KeyInventoryHMAC) s1 s2) as (_ & _ & F).
  { eapply mono_run; [apply append_frame|exact Ha]. }
  destruct (append_spec _ (Some (certProjectionFor cert)) _ Hp s1 s2) as (A1 & A2 & A3); [|done|done|].
  { intros Hst. rewrite X. apply Hok. rewrite <- Hst, <- Es. symmetry. apply O. }
  unfold recorded. rewrite Eb, <- V. split_and!; [done| |done| |done].
  - intros Hint. assert (integrity s2) as Hi2.
    { apply A3, I. intros k Hk. rewrite Es. apply Hint. by rewrite <- Ks. }
    intros k Hk. rewrite Eb. apply Hi2. by rewrite <- Ek.
  - by rewrite F by (intros [?|?]; done).
Qed.

(** An import cannot put a foreign certificate on record.  When it succeeds,
    the input is one certificate signed by this CA, not a CA certificate, issued
    to the subject named; and either that very certificate was already stored
    for the subject and nothing was written, or its serial was not in the
    inventory, the inventory is the old one plus exactly the certificate's entry
    with a matching integrity value, the certificate is stored, and the OCSP
    responder knows its serial. *)
Theorem ImportCertificate_recorded subject pem w res w' :
  ImportCertificate subject pem w = (Ok res, w') ->
  inventory_ok (be (st w)) ->
  (forall cert, decode_cert pem = Some cert -> 0 <= NotBefore cert /\ NotAfter cert < year_10000) ->
  exists caCert cert, CACert (ca w) = Some caCert /\ decode_cert pem = Some cert /\
    CheckSignatureFrom cert caCert = true /\ IsCA cert = false /\ certMatchesSubject cert subject = true /\
    im_Serial res = serialHexStr (SerialNumber cert) /\
    if Imported res then recorded subject pem cert w w'
    else same_store w w' /\ exists held, blobs (be (st w)) !! CertKey subject = Some held /\ decode_cert held = Some cert.
Proof.
  unfold ImportCertificate, get_ca. intros H Hok Hdates.
  apply bind_Ok in H as (c & w0 & H0 & H). apply gets_Ok in H0 as [-> ->]. unfold id in H. cbn beta in H.
  destruct (CACert (ca w)) as [caCert|] eqn:Eca; [|by apply fail_Ok in H].
  destruct (CAKey (ca w)); [|by apply fail_Ok in H].
  apply bind_Ok in H as (u & w0 & H0 & H). apply check_Ok in H0 as [Hsub ->].
  destruct (ValidateSubject subject) eqn:Ev; [done|].
  apply bind_Ok in H as (cert & w0 & H0 & H). apply of_result_Ok in H0 as [H0 ->].
  apply importable_Ok in H0 as (Hd & Hsig & HCA & Hm & Hser & Hval).
  apply WithLockW_Ok in H as (w1 & [Q1 S1] & H).
  exists caCert, cert. split; [done|]. split; [done|]. split; [done|]. split; [done|]. split; [done|].
  apply import_locked_Ok in H as [Hr H]. split; [by rewrite Hr|].
  destruct (Imported res); [|by rewrite <- (proj1 S1); destruct H; split; [etrans|]].
  destruct (Hdates _ Hd). eapply import_recorded; [..|exact H]; done.
Qed.
