(* ===== verification/ManagedCert.v ===== *)
(** * ManagedCert: certificates the CA keeps current by itself

    Models internal/ca/managedcert.go.  A managed certificate is a
    specification and a store of its own (files or a Kubernetes secret) that
    holds a certificate and its key.  A reconcile pass reads the store, decides
    whether what it holds will do, and if not issues a new certificate, writes
    it, and retires the old one.

    The state adds to the replica's [World] the contents of those stores and
    the record of failed writes.  A store reads and writes both parts at once,
    as its contract asks; a read or a write can fail, and a failed write may
    have taken effect. *)

From S2P Require Import Prelude GoStrings GoTime X509 Verify Inventory Storage InventorySpec Policy.
From S2P Require Import CAState CRLChain CRL OCSP CRLSafety Supersede Signing Lifecycle.

(** ** Data *)

(** Zero values stand for unset fields; a URI may be nil. *)
Record CertSpec := mkCertSpec {
  cs_Subject : string;
  cs_DNSNames : list string;
  cs_IPAddresses : list string;
  cs_EmailAddresses : list string;
  cs_URIs : list (option string);
  cs_ExtKeyUsage : list ExtKeyUsage;
  cs_TTL : Duration;
  cs_RenewBefore : Duration;
  cs_KeyConfig : KeyConfig;
  cs_ReuseKey : bool;
  cs_SupersedeAfter : option Duration }.

(** The place names the store its [Load] and [Save] act on; [None] when they
    are not set. *)
Record ManagedCert := mkManagedCert { mc_Spec : CertSpec; mc_Place : option string }.

Inductive issueReason :=
  | reasonCurrent | reasonAbsent | reasonUnparseable | reasonKeyUnusable | reasonKeyMismatch
  | reasonNotOurs | reasonNamesMissing | reasonUsageMismatch | reasonRevoked | reasonRenewWindow.
#[global] Instance issueReason_eq_dec : EqDecision issueReason.
Proof. solve_decision. Defined.

Record managedSaveFailure := mkSaveFailure { sf_count : Z; sf_last : Time }.

Record revocationState := mkRevocationState { rs_Revoked : bool; rs_Known : bool }.

Record Managed := mkManaged {
  mc_world : World;
  material : gmap string (blob * blob);
  saveFailures : gmap string managedSaveFailure }.

Notation MG := (M Managed).

Definition on_world {A} (m : MW A) : MG A := fun s =>
  let '(r, w) := m (mc_world s) in (r, mkManaged w (material s) (saveFailures s)).
Definition set_material (x : gmap string (blob * blob)) (s : Managed) : Managed :=
  mkManaged (mc_world s) x (saveFailures s).
Definition set_saveFailures (x : gmap string managedSaveFailure) (s : Managed) : Managed :=
  mkManaged (mc_world s) (material s) x.

(** [Load]: an empty store is not an error. *)
Definition Load (place : string) : MG (blob * blob) :=
  _ ← on_world (lift (external io_error));
  gets (fun s => default (empty_blob, empty_blob) (material s !! place)).

(** [Save]: certificate and key together. *)
Definition Save (place : string) (certPEM keyPEM : blob) : MG unit := fun s =>
  let stored := set_material (<[place := (certPEM, keyPEM)]> (material s)) s in
  let '(f, store) := pop_fault (st (mc_world s)) in
  let with_store (s : Managed) :=
    mkManaged (set_st store (mc_world s)) (material s) (saveFailures s) in
  match f with
  | FOk => (Ok tt, with_store stored)
  | FBefore => (Err io_error, with_store s)
  | FAfter => (Err io_error, with_store stored)
  end.

(** ** Specifications *)

Definition keyConfigFor (c : Config) (spec : CertSpec) : KeyConfig :=
  if negb (bool_decide (kc_Algo (cs_KeyConfig spec) = "")) || negb (kc_Size (cs_KeyConfig spec) =? 0)
  then cs_KeyConfig spec else leafKeyConfig c.

Definition supersedeAfterFor (c : Config) (spec : CertSpec) : Duration :=
  match cs_SupersedeAfter spec with Some d => d | None => SupersedeAfter c end.

Definition Validate (s : CertSpec) : option error :=
  match ValidateSubject (cs_Subject s) with Some e => Some e | None =>
  match CheckKeySubject (cs_Subject s) with Some e => Some (Wrap "managed certificate" [e]) | None =>
  if bool_decide (length (cs_DNSNames s) + length (cs_IPAddresses s) + length (cs_EmailAddresses s)
                  + length (cs_URIs s) = 0)%nat
  then Some (Msg "at least one subject alternative name is required")
  else match validateDNSAltNames (cs_DNSNames s) with Some e => Some e | None =>
  if existsb (fun ip => bool_decide (ip = "")) (cs_IPAddresses s)
  then Some (Msg "an IP address entry is empty")
  else if existsb (fun a => bool_decide (a = "")) (cs_EmailAddresses s)
  then Some (Msg "an email address entry is empty")
  else if existsb (fun u => match u with None => true | Some t => bool_decide (t = "") end) (cs_URIs s)
  then Some (Msg "a URI entry is nil or empty")
  else if bool_decide (maxDNSAltNames < length (cs_EmailAddresses s) + length (cs_URIs s)
                         + length (cs_IPAddresses s))%nat
  then Some (Msg "too many non-DNS alternative names")
  else if cs_TTL s <? 0 then Some (Msg "ttl must not be negative")
  else if cs_RenewBefore s <=? 0 then Some (Msg "renew_before must be positive")
  else match ValidateKeyConfig (cs_KeyConfig s) with Some e => Some (Wrap "managed certificate" [e]) | None =>
  match cs_SupersedeAfter s with
  | Some d => if d <? 0 then Some (Msg "revoke_after must not be negative") else None
  | None => None
  end end end end end.

(** ** The decision *)

(** [time.Duration] subtraction wraps; the quotient rounds towards zero. *)
Definition renewWindowFor (leaf : Certificate) (want : CertSpec) (backdate : Duration) : Duration :=
  let forward := wrap64 (time_Sub (NotAfter leaf) (NotBefore leaf) - backdate) in
  if forward <=? 0 then 0 else Z.min (cs_RenewBefore want) (forward ÷ 2).

Definition publicKeysEqual (a b : PublicKey) : bool := bool_decide (a = b).

Definition leafCarriesNames (leaf : Certificate) (want : CertSpec) : bool :=
  bool_decide (CommonName (Subject leaf) = cs_Subject want)
  && forallb (fun name => bool_decide (name ∈ DNSNames (cert_sans leaf))) (cs_DNSNames want)
  && forallb (fun ip => bool_decide (ip ∈ IPAddresses (cert_sans leaf))) (cs_IPAddresses want)
  && forallb (fun a => bool_decide (a ∈ EmailAddresses (cert_sans leaf))) (cs_EmailAddresses want)
  && forallb (fun u => match u with
                       | Some t => bool_decide (t ∈ URIs (cert_sans leaf))
                       | None => false
                       end) (cs_URIs want).

(** The numbering of [x509.ExtKeyUsage]. *)
Definition eku_code (u : ExtKeyUsage) : Z :=
  match u with EKUServerAuth => 1 | EKUClientAuth => 2 | EKUOther n => n end.

(** [slices.Compact]: runs of equal elements become one. *)
Fixpoint Compact (l : list Z) : list Z :=
  match l with
  | x :: ((y :: _) as l') => if x =? y then Compact l' else x :: Compact l'
  | _ => l
  end.

Definition leafCarriesUsages (leaf : Certificate) (want : CertSpec) : bool :=
  let wanted := if bool_decide (cs_ExtKeyUsage want = []) then defaultLeafExtKeyUsage
                else cs_ExtKeyUsage want in
  let sorted l := Compact (merge_sort Z.le (map eku_code l)) in
  bool_decide (sorted (cert_EKU leaf) = sorted wanted).

(** The certificate a store holds, if it parses. *)
Definition stored_leaf (certPEM : blob) : option Certificate :=
  match pem_Decode certPEM with
  | (None, _) => None
  | (Some block, _) => match ParseCertificate (Bytes block) with Ok leaf => Some leaf | Err _ => None end
  end.

Definition parseStoredKey (block : option pem_block) : result PublicKey :=
  match block with
  | None => Err (Msg "the stored key is not PEM")
  | Some b => parsePrivateKeyDER (Type_ b) (Bytes b)
  end.

(** The judgement on what a store holds: whether to issue, why, and the
    certificate found. *)
Definition issueDecision (certPEM keyPEM : blob) (want : CertSpec) (issuer : option Certificate)
    (backdate : Duration) (now : Time) (revoked : bool) : bool * issueReason * option Certificate :=
  if bool_decide (blob_text certPEM = "") then (true, reasonAbsent, None)
  else match stored_leaf certPEM with
  | None => (true, reasonUnparseable, None)
  | Some leaf =>
      match issuer with
      | None => (true, reasonNotOurs, Some leaf)
      | Some issuer =>
          if negb (CheckSignatureFrom leaf issuer) then (true, reasonNotOurs, Some leaf)
          else if bool_decide (blob_text keyPEM = "") then (true, reasonKeyUnusable, Some leaf)
          else match parseStoredKey (pem_Decode keyPEM).1 with
          | Err _ => (true, reasonKeyUnusable, Some leaf)
          | Ok key =>
              if negb (publicKeysEqual key (PubKey leaf)) then (true, reasonKeyMismatch, Some leaf)
              else if negb (leafCarriesNames leaf want) then (true, reasonNamesMissing, Some leaf)
              else if negb (leafCarriesUsages leaf want) then (true, reasonUsageMismatch, Some leaf)
              else if revoked then (true, reasonRevoked, Some leaf)
              else if negb (now <? NotAfter leaf - renewWindowFor leaf want backdate)
              then (true, reasonRenewWindow, Some leaf)
              else (false, reasonCurrent, Some leaf)
          end
      end
  end.

(** A certificate of this CA for this subject. *)
Definition currentIsThisSubjects (issuer current : option Certificate) (subject : string) : bool :=
  match issuer, current with
  | Some issuer, Some current =>
      negb (bool_decide (subject = "")) && CheckSignatureFrom current issuer
      && bool_decide (CommonName (Subject current) = subject)
  | _, _ => false
  end.

Definition storedKeyIsOurs (issuer current : option Certificate) (key : PublicKey) (subject : string) : bool :=
  currentIsThisSubjects issuer current subject
  && match current with Some cert => publicKeysEqual key (PubKey cert) | None => false end.

(** ** The record of failed writes *)

Definition managedSaveBackoffBase : Duration := 15 * Minute.
Definition managedSaveBackoffCap : Duration := 24 * Hour.

(** The wait after [n] failed writes in a row.  The shift is an [int64] shift:
    it wraps, and by 64 or more it gives zero. *)
Definition save_wait (n : Z) : Duration :=
  let wait := wrap64 (Z.shiftl managedSaveBackoffBase (n - 2)) in
  if (managedSaveBackoffCap <? wait) || (wait <=? 0) then managedSaveBackoffCap else wait.

(** How long a subject still has to wait, if at all; the first failure is
    retried at once. *)
Definition skipForSaveBackoff (subject : string) (now : Time) (s : Managed) : option Duration :=
  match saveFailures s !! subject with
  | None => None
  | Some f =>
      if sf_count f <=? 1 then None
      else
        let remaining := wrap64 (save_wait (sf_count f) - time_Sub now (sf_last f)) in
        if 0 <? remaining then Some remaining else None
  end.

Definition recordSaveOutcome (subject : string) (now : Time) (failed : bool) : MG unit :=
  modify (fun s =>
    if negb failed then set_saveFailures (delete subject (saveFailures s)) s
    else
      let count := match saveFailures s !! subject with Some f => sf_count f | None => 0 end in
      set_saveFailures (<[subject := mkSaveFailure (wrap64 (count + 1)) now]> (saveFailures s)) s).

(** ** Issuing *)

(** Whether the stored certificate is on the CRL, and whether that could be
    told. *)
Definition storedMaterialRevoked (certPEM : blob) : MW revocationState :=
  match stored_leaf certPEM with
  | None => mret (mkRevocationState false false)
  | Some leaf =>
      r ← try (IsRevokedSerial (SerialNumber leaf));
      mret (match r with
            | Ok revoked => mkRevocationState revoked true
            | Err _ => mkRevocationState false false
            end)
  end.

(** Whether an issuance displaces another certificate stored for the name;
    this decides a warning and nothing else. *)
Definition warnIfDisplacing (subject : string) (current : option Certificate) : MW bool :=
  r ← try (lift (GetCert subject));
  match r with
  | Err _ => mret false
  | Ok storedPEM =>
      match stored_leaf storedPEM with
      | None => mret false
      | Some stored =>
          if match current with Some c => SerialNumber stored =? SerialNumber c | None => false end
          then mret false
          else
            r ← try (IsRevokedSerial (SerialNumber stored));
            mret (match r with Ok true => false | _ => true end)
      end
  end.

(** The key to issue for: the stored one when the specification asks for reuse
    and everything about it is established, otherwise a fresh one. *)
Definition reusable_key (m : ManagedCert) (issuer current : option Certificate) (storedKeyPEM : blob)
    (revocation : revocationState) : option PublicKey :=
  if negb (cs_ReuseKey (mc_Spec m)) then None
  else match current with
  | None => None
  | Some _ =>
      if bool_decide (blob_text storedKeyPEM = "") then None
      else match parseStoredKey (pem_Decode storedKeyPEM).1 with
      | Err _ => None
      | Ok key =>
          if negb (storedKeyIsOurs issuer current key (cs_Subject (mc_Spec m))) then None
          else if rs_Revoked revocation then None
          else if negb (rs_Known revocation) then None
          else Some key
      end
  end.

Definition issuanceKeyFor (m : ManagedCert) (issuer current : option Certificate) (storedKeyPEM : blob)
    (revocation : revocationState) : MW PublicKey :=
  match reusable_key m issuer current storedKeyPEM revocation with
  | Some key => mret key
  | None =>
      c ← get_ca cfg;
      id ← wrapping "generating a key" (lift (rand_Int (2 ^ 256)));
      wrapping "generating a key" (of_result (generateKey (keyConfigFor c (mc_Spec m)) id))
  end.

Definition certSerialFromPEM (certPEM : blob) : result string :=
  match pem_Decode certPEM with
  | (None, _) => Err (Msg "no PEM block")
  | (Some block, _) =>
      match ParseCertificate (Bytes block) with
      | Ok cert => Ok (serialHexStr (SerialNumber cert))
      | Err e => Err e
      end
  end.

Definition spec_sans (spec : CertSpec) : subjectAltNames :=
  SANs (cs_DNSNames spec) (cs_IPAddresses spec) (cs_EmailAddresses spec) (omap id (cs_URIs spec)).

(** After a failed write: revoke the certificate nobody will hold, and put the
    predecessor back as the one on record.  Failures here are only logged. *)
Definition undo_issue (subject : string) (issuer current : option Certificate) (newSerial : result string)
    : MW unit :=
  _ ← (match newSerial with
       | Ok serial => ignore (WithLockW lockNameCRL (revokeSerialLocked serial))
       | Err _ => mret tt
       end);
  match current with
  | Some cert =>
      if currentIsThisSubjects issuer current subject
      then ignore (lift (SaveCert subject (encode_cert cert))) else mret tt
  | None => mret tt
  end.

(** After a successful write: retire the predecessor, if this CA issued it for
    the subject and it is not revoked already.  A failure is only logged. *)
Definition retire_current (spec : CertSpec) (issuer current : option Certificate)
    (revocation : revocationState) : MW unit :=
  match current with
  | Some cert =>
      if currentIsThisSubjects issuer current (cs_Subject spec) && negb (rs_Revoked revocation)
      then
        c ← get_ca cfg;
        ignore (supersedeReplacedAfter (cs_Subject spec) (serialHexStr (SerialNumber cert))
                  (supersedeAfterFor c spec))
      else mret tt
  | None => mret tt
  end.

Definition issueManaged (m : ManagedCert) (place : string) (issuer current : option Certificate)
    (storedKeyPEM : blob) (revocation : revocationState) : MG bool :=
  let spec := mc_Spec m in
  let subject := cs_Subject spec in
  key ← on_world (issuanceKeyFor m issuer current storedKeyPEM revocation);
  let keyPEM := marshalPrivateKeyPEM key in
  certPEM ← wrapping "signing a certificate"
    (on_world (issueLeafLocked subject (mkName subject []) key (spec_sans spec) []
       (cs_ExtKeyUsage spec) (cs_TTL spec)));
  let newSerial := certSerialFromPEM certPEM in
  saved ← try (Save place certPEM keyPEM);
  now ← on_world (lift time_Now);
  _ ← recordSaveOutcome subject now (negb (is_ok saved));
  match saved with
  | Err e =>
      _ ← on_world (undo_issue subject issuer current newSerial);
      fail (Wrap "writing the material to its store" [e])
  | Ok _ =>
      _ ← on_world (retire_current spec issuer current revocation);
      mret true
  end.

(** ** Reconciling *)

(** The part under the subject's lock. *)
Definition reconcile_under_lock (m : ManagedCert) (place : string) (now : Time)
    (issuer : option Certificate) : MG bool :=
  let subject := cs_Subject (mc_Spec m) in
  '(certPEM, keyPEM) ← wrapping "reading the stored material" (Load place);
  revocation ← on_world (storedMaterialRevoked certPEM);
  c ← on_world (get_ca cfg);
  let '(issue, reason, current) :=
    issueDecision certPEM keyPEM (mc_Spec m) issuer (leafBackdate c) now (rs_Revoked revocation) in
  if negb issue then mret false
  else
    wait ← gets (skipForSaveBackoff subject now);
    match wait with
    | Some _ => mret false
    | None =>
        _ ← on_world (warnIfDisplacing subject current);
        issueManaged m place issuer current keyPEM revocation
    end.

Definition reconcileManagedCert (m : ManagedCert) (now : Time) : MG bool :=
  _ ← check (Validate (mc_Spec m));
  match mc_Place m with
  | None => fail (Msg "store is not configured")
  | Some place =>
      c ← on_world (get_ca id);
      if negb (IsReady c) then fail (Sentinel ErrNotInitialized)
      else
        _ ← on_world (lift (WithLock (subjectLockName (cs_Subject (mc_Spec m))) (mret tt)));
        reconcile_under_lock m place now (CACert c)
  end.

Definition ReconcileManagedCert (m : ManagedCert) : MG bool :=
  now ← on_world (lift time_Now); reconcileManagedCert m now.

(** A failed entry does not stop the others; the first error is reported. *)
Fixpoint ReconcileManaged (l : list ManagedCert) : MG (nat * option error) :=
  match l with
  | [] => mret (O, None)
  | m :: l =>
      r ← try (ReconcileManagedCert m);
      '(issued, err) ← ReconcileManaged l;
      mret (match r with
            | Ok true => (S issued, err)
            | Ok false => (issued, err)
            | Err e => (issued, Some e)
            end)
  end.

(** One pass seen from the replica: the stores hold whatever they hold. *)
Definition managed_pass (l : list ManagedCert) (stores : gmap string (blob * blob))
    (failed : gmap string managedSaveFailure) : MW (nat * option error) := fun w =>
  let '(r, s) := ReconcileManaged l (mkManaged w stores failed) in (r, mc_world s).

(** ** Lemmas: passes move the world along whatever their parts move it along *)

Lemma on_world_run {A} (m : MW A) s r s' :
  on_world m s = (r, s') ->
  m (mc_world s) = (r, mc_world s') /\ material s' = material s /\ saveFailures s' = saveFailures s.
Proof. unfold on_world. destruct (m (mc_world s)). intros. by simplify_eq. Qed.

Lemma quiet_scripts w store : same_data (st w) store -> quiet w (set_st store w).
Proof. intros H. split; [|exact H]. done. Qed.

Lemma Save_run place c k s r s' :
  Save place c k s = (r, s') ->
  quiet (mc_world s) (mc_world s') /\ saveFailures s' = saveFailures s /\
  ((r = Ok tt \/ exists e, r = Err e) /\ material s' = <[place := (c, k)]> (material s) \/
   (exists e, r = Err e) /\ material s' = material s).
Proof.
  unfold Save. destruct (pop_fault (st (mc_world s))) as [f store] eqn:P.
  apply pop_fault_same in P. destruct f; intros [= <- <-];
    (split; [by apply quiet_scripts|]); cbn; naive_solver.
Qed.

Section Pass.
Context (R : relation World) `{!PreOrder R} (HQ : forall w w', quiet w w' -> R w w').
Context (Hissue : forall subject name pub sans extra eku ttl,
  mono R (issueLeafLocked subject name pub sans extra eku ttl)).
Context (Hrevoke : forall serial, mono R (WithLockW lockNameCRL (revokeSerialLocked serial))).
Context (Hsave : forall subject pem, mono R (lift (SaveCert subject pem))).
Context (Hretire : forall subject serial after, mono R (supersedeReplacedAfter subject serial after)).

Definition moves : relation Managed := fun s s' => R (mc_world s) (mc_world s').
#[local] Instance moves_preorder : PreOrder moves.
Proof. split; [by intros s; red|]. unfold moves. intros ? ? ? ? ?. by etrans. Qed.

Lemma moves_world {A} (m : MW A) : mono R m -> mono moves (on_world m).
Proof.
  intros H s. unfold exec, moves. destruct (on_world m s) as [r s'] eqn:E.
  apply on_world_run in E as [E _]. apply (mono_run _ _ _ _ _ H E).
Qed.
Lemma moves_quiet {A} (m : MW A) : mono quiet m -> mono R m.
Proof. intros H w. apply HQ, H. Qed.
Lemma moves_Save place c k : mono moves (Save place c k).
Proof.
  intros s. unfold exec, moves. destruct (Save place c k s) as [r s'] eqn:E.
  apply Save_run in E as [E _]. by apply HQ.
Qed.
Lemma moves_same (f : Managed -> Managed) :
  (forall s, mc_world (f s) = mc_world s) -> mono moves (modify f).
Proof. intros H s. unfold exec, moves, modify. cbn. by rewrite H. Qed.

Lemma moves_ReconcileManaged l : mono moves (ReconcileManaged l).
Proof.
  assert (forall m, mono moves (ReconcileManagedCert m)) as H.
  { intros m. unfold ReconcileManagedCert, reconcileManagedCert, reconcile_under_lock, Load, issueManaged,
      recordSaveOutcome, storedMaterialRevoked, warnIfDisplacing, issuanceKeyFor, IsRevokedSerial,
      undo_issue, retire_current, get_ca.
    repeat first
      [ apply moves_Save
      | apply moves_same; intros; by case_match
      | apply moves_world
      | apply Hissue | apply Hrevoke | apply Hsave | apply Hretire
      | apply moves_quiet, quiet_lift; (apply WithLock_same; mono_tac || (unfold GetCert; mono_tac))
      | apply moves_quiet; solve [mono_tac]
      | mono_step ]. }
  induction l as [|m l IH]; simpl; repeat first [apply H | apply IH | mono_step].
Qed.

Lemma moves_pass l stores failed : mono R (managed_pass l stores failed).
Proof.
  intros w. unfold exec, managed_pass.
  pose proof (moves_ReconcileManaged l (mkManaged w stores failed)) as H.
  unfold exec, moves in H. by destruct (ReconcileManaged l _).
Qed.
End Pass.
