(* ===== verification/CertConfig.v ===== *)
(** * The configuration of managed certificates

    Models internal/certstore/certconfig/certconfig.go: the certificates an
    operator asks for, what is made of each ([Spec]) and what is refused
    ([ValidateIn], [CheckExportOverlapIn], [CheckReservedPathsIn]).  A configuration that is
    accepted never has two certificates in each other's way
    ([accepted_entries_apart]), nor one in the CA's ([reserved_paths_kept]).

    Addresses and URIs are parsed by Go's libraries: the parsers are parameters. *)

From S2P Require Import Prelude GoStrings GoTime X509 Policy CAState Files CertStore ManagedCert.
From Stdlib Require Import Ascii.

(** ** Paths *)

(** The pieces between slashes. *)
Fixpoint split_slash (cur s : string) : list string :=
  match s with
  | "" => [cur]
  | String c s => if Ascii.eqb c "/"%char then cur :: split_slash "" s else split_slash (cur +:+ String c "") s
  end.

(** [filepath.Clean]: the pieces that remain, the last first. *)
Fixpoint clean_parts (rooted : bool) (done parts : list string) : list string :=
  match parts with
  | [] => done
  | p :: parts =>
      if bool_decide (p = "") || bool_decide (p = ".") then clean_parts rooted done parts
      else if bool_decide (p = "..") then
        match done with
        | d :: done' => if bool_decide (d = "..") then clean_parts rooted (p :: done) parts else clean_parts rooted done' parts
        | [] => clean_parts rooted (if rooted then [] else [p]) parts
        end
      else clean_parts rooted (p :: done) parts
  end.
Definition filepath_Clean (s : string) : string :=
  let rooted := HasPrefix s "/" in
  let parts := rev (clean_parts rooted [] (split_slash "" s)) in
  if rooted then "/" +:+ Join "/" parts else if bool_decide (parts = []) then "." else Join "/" parts.

Definition cleanPath (p : string) : string :=
  let p := TrimSpace p in if bool_decide (p = "") then "" else filepath_Clean p.

Example clean_examples :
  map cleanPath [" /etc/tls//a/../key.pem "; "/../x"; "a/./b/.."; ".."; "a/.."; ""; "/"] =
  ["/etc/tls/key.pem"; "/x"; "a"; ".."; "."; ""; "/"].
Proof. by vm_compute. Qed.

(** ** Entries *)

Record SecretStoreConfig := mkSecretStore { ss_Name : string; ss_Namespace : string }.
Record FileStoreConfig := mkFileStore { ff_Cert : string; ff_Key : string; ff_CA : string }.
Record StoreConfig := mkStoreConfig { sc_Secret : option SecretStoreConfig; sc_Files : option FileStoreConfig }.

Record Entry := mkEntry {
  en_Certname : string; en_Names : list string; en_IPAddresses : list string; en_EmailAddresses : list string;
  en_URIs : list string; en_Usages : list string; en_TTL : Duration; en_RenewBefore : Duration;
  en_RevokeAfter : option Duration; en_KeyAlgo : string; en_KeySize : Z; en_ReuseKey : bool; en_Store : StoreConfig }.

Definition NeedsKubernetes (c : list Entry) : bool :=
  existsb (fun e => match sc_Secret (en_Store e) with Some _ => true | None => false end) c.
Definition NeedsDefaultNamespace (c : list Entry) : bool :=
  existsb (fun e => match sc_Secret (en_Store e) with Some s => bool_decide (ss_Namespace s = "") | None => false end) c.

Fixpoint try_map {A B} (f : A -> result B) (l : list A) : result (list B) :=
  match l with
  | [] => Ok []
  | x :: l => match f x with
              | Err e => Err e
              | Ok y => match try_map f l with Ok ys => Ok (y :: ys) | Err e => Err e end
              end
  end.

Definition usageByName (name : string) : option ExtKeyUsage :=
  if bool_decide (name = "serverauth") then Some EKUServerAuth
  else if bool_decide (name = "clientauth") then Some EKUClientAuth else None.
(** Repeated usages are dropped. *)
Fixpoint ext_key_usage (seen : list ExtKeyUsage) (names : list string) : result (list ExtKeyUsage) :=
  match names with
  | [] => Ok []
  | name :: names =>
      match usageByName (ToLower (TrimSpace name)) with
      | None => Err (Msg "unknown usage")
      | Some u =>
          if bool_decide (u ∈ seen) then ext_key_usage seen names
          else match ext_key_usage (u :: seen) names with Ok us => Ok (u :: us) | Err e => Err e end
      end
  end.
Definition extKeyUsage (e : Entry) : result (list ExtKeyUsage) := ext_key_usage [] (en_Usages e).

(** [strings.LastIndexByte(text, '@')], counted from the left. *)
Fixpoint last_at (i : nat) (s : string) (found : option nat) : option nat :=
  match s with "" => found | String c s => last_at (S i) s (if Ascii.eqb c "@"%char then Some i else found) end.
Definition email (raw : string) : result string :=
  let text := TrimSpace raw in
  match last_at 0 text None with
  | None => Err (Msg "not an email address")
  | Some at_ =>
      if bool_decide (text = "") || bool_decide (at_ = 0%nat) || bool_decide (S at_ = String.length text) || any_byte (fun c => (code c =? 32) || (code c =? 9)) text
      then Err (Msg "not an email address") else Ok text
  end.

Section Config.
Context (net_ParseIP : string -> option string) (url_Parse : string -> result (string * bool)).

Definition ip_address (raw : string) : result string :=
  match net_ParseIP (TrimSpace raw) with Some ip => Ok ip | None => Err (Msg "not an IP address") end.
(** [url.Parse] gives the URI and whether it is absolute. *)
Definition uri (raw : string) : result (option string) :=
  match url_Parse (TrimSpace raw) with
  | Err e => Err (Wrap "not a URI" [e])
  | Ok (u, absolute) => if absolute then Ok (Some u) else Err (Msg "URI has no scheme")
  end.

Definition Spec (e : Entry) : result CertSpec :=
  match extKeyUsage e with Err x => Err x | Ok usages =>
  match try_map ip_address (en_IPAddresses e) with Err x => Err x | Ok ips =>
  match try_map uri (en_URIs e) with Err x => Err x | Ok uris =>
  match try_map email (en_EmailAddresses e) with Err x => Err x | Ok emails =>
    Ok (mkCertSpec (en_Certname e) (en_Names e) ips emails uris usages (en_TTL e) (en_RenewBefore e)
          (mkKeyConfig (ToLower (TrimSpace (en_KeyAlgo e))) (en_KeySize e)) (en_ReuseKey e) (en_RevokeAfter e))
  end end end end.

(** ** Validation *)

Definition namespacesMayCollide (a b : string) : bool :=
  bool_decide (a = b) || bool_decide (a = "") || bool_decide (b = "").

(** What earlier entries use: certnames, Secrets as [(namespace, name)],
    certificate and key files, and chain files. *)
Record in_use := mkInUse {
  iu_subjects : list string; iu_secrets : list (string * string); iu_material : list string; iu_chain : list string }.
Definition nothing_in_use : in_use := mkInUse [] [] [] [].

Definition secret_validate (u : in_use) (s : SecretStoreConfig) : result (SecretStoreConfig * in_use) :=
  let s := mkSecretStore (TrimSpace (ss_Name s)) (TrimSpace (ss_Namespace s)) in
  if bool_decide (ss_Name s = "") then Err (Msg "store.secret.name is required")
  else if existsb (fun prev => bool_decide (prev.2 = ss_Name s) && namespacesMayCollide prev.1 (ss_Namespace s)) (iu_secrets u)
  then Err (Msg "Secret is already the store of another")
  else Ok (s, mkInUse (iu_subjects u) (iu_secrets u ++ [(ss_Namespace s, ss_Name s)]) (iu_material u) (iu_chain u)).

Definition is_abs (p : string) : bool := HasPrefix p "/".
Definition files_validate (u : in_use) (f : FileStoreConfig) : result (FileStoreConfig * in_use) :=
  let f := mkFileStore (cleanPath (ff_Cert f)) (cleanPath (ff_Key f)) (cleanPath (ff_CA f)) in
  let taken p := bool_decide (p ∈ iu_material u) || bool_decide (p ∈ iu_chain u) in
  if bool_decide (ff_Cert f = "") || bool_decide (ff_Key f = "") then Err (Msg "store.files needs both cert and key")
  else if bool_decide (ff_Cert f = ff_Key f) ||
          (negb (bool_decide (ff_CA f = "")) && (bool_decide (ff_CA f = ff_Cert f) || bool_decide (ff_CA f = ff_Key f)))
  then Err (Msg "store.files paths must differ from one another")
  else if existsb (fun p => negb (bool_decide (p = "")) && negb (is_abs p)) [ff_Cert f; ff_Key f; ff_CA f]
  then Err (Msg "must be an absolute path")
  else if taken (ff_Cert f) || taken (ff_Key f) then Err (Msg "already used")
  else
    let u := mkInUse (iu_subjects u) (iu_secrets u) (ff_Cert f :: ff_Key f :: iu_material u) (iu_chain u) in
    if bool_decide (ff_CA f = "") then Ok (f, u)
    else if bool_decide (ff_CA f ∈ iu_material u) then Err (Msg "store.files.ca is the certificate or key of another")
    else Ok (f, mkInUse (iu_subjects u) (iu_secrets u) (iu_material u)
                  (if bool_decide (ff_CA f ∈ iu_chain u) then iu_chain u else ff_CA f :: iu_chain u)).

Definition store_validate (u : in_use) (s : StoreConfig) : result (StoreConfig * in_use) :=
  match sc_Secret s, sc_Files s with
  | None, None => Err (Msg "store must name where the certificate lives")
  | Some _, Some _ => Err (Msg "store names both secret and files")
  | Some x, None => match secret_validate u x with Ok (x, u) => Ok (mkStoreConfig (Some x) None, u) | Err e => Err e end
  | None, Some x => match files_validate u x with Ok (x, u) => Ok (mkStoreConfig None (Some x), u) | Err e => Err e end
  end.

Definition set_store (e : Entry) (s : StoreConfig) : Entry :=
  mkEntry (en_Certname e) (en_Names e) (en_IPAddresses e) (en_EmailAddresses e) (en_URIs e) (en_Usages e) (en_TTL e)
    (en_RenewBefore e) (en_RevokeAfter e) (en_KeyAlgo e) (en_KeySize e) (en_ReuseKey e) s.

Fixpoint validate_entries (u : in_use) (c : list Entry) : result (list Entry) :=
  match c with
  | [] => Ok []
  | e :: c =>
      match Spec e with Err x => Err (Wrap "entry" [x]) | Ok spec =>
      match Validate spec with Some x => Err (Wrap "entry" [x]) | None =>
      if bool_decide (en_Certname e ∈ iu_subjects u) then Err (Msg "certname is already used")
      else
        match store_validate (mkInUse (en_Certname e :: iu_subjects u) (iu_secrets u) (iu_material u) (iu_chain u)) (en_Store e) with
        | Err x => Err x
        | Ok (s, u) => match validate_entries u c with Ok c => Ok (set_store e s :: c) | Err x => Err x end
        end
      end end
  end.
(** The configuration is returned with its names and paths trimmed and cleaned. *)
Definition ValidateIn (c : list Entry) : result (list Entry) := validate_entries nothing_in_use c.
End Config.

(** Two writers of one Secret are refused. *)
Definition CheckExportOverlapIn (c : list Entry) (exportTargets : list (string * string)) : option error :=
  if existsb (fun e => match sc_Secret (en_Store e) with
                       | None => false
                       | Some s => existsb (fun t => bool_decide (t.2 = ss_Name s) && namespacesMayCollide t.1 (ss_Namespace s)) exportTargets
                       end) c
  then Some (Msg "is also a kubernetes_export target") else None.

Record ReservedPath := mkReserved { rp_Path : string; rp_Tree : bool }.
Definition reservedCovers (root : string) (tree : bool) (path : string) : bool :=
  if bool_decide (path = root) then true
  else if negb tree then false
  else if bool_decide (root = "/") then HasPrefix path root
  else HasPrefix path (root +:+ "/").

Definition entry_paths (f : FileStoreConfig) : list string :=
  base.filter (fun p => p <> "") [cleanPath (ff_Cert f); cleanPath (ff_Key f); cleanPath (ff_CA f)].

Fixpoint reserved_error (path : string) (reserved : list ReservedPath) : option error :=
  match reserved with
  | [] => None
  | r :: reserved =>
      let root := cleanPath (rp_Path r) in
      if bool_decide (root = "") then reserved_error path reserved
      else if negb (is_abs root) then Some (Msg "cannot compare: it is not an absolute path")
      else if reservedCovers root (rp_Tree r) path then Some (Msg "these are the CA's own files")
      else reserved_error path reserved
  end.
Fixpoint first_error {A} (f : A -> option error) (l : list A) : option error :=
  match l with [] => None | x :: l => match f x with Some e => Some e | None => first_error f l end end.
Definition CheckReservedPathsIn (c : list Entry) (reserved : list ReservedPath) : option error :=
  first_error (fun e => match sc_Files (en_Store e) with
                        | None => None
                        | Some f => first_error (fun p => reserved_error p reserved) (entry_paths f)
                        end) c.

(** ** What an accepted configuration is *)

Definition material (e : Entry) : list string :=
  match sc_Files (en_Store e) with Some f => [ff_Cert f; ff_Key f] | None => [] end.
Definition chain_file (e : Entry) : list string :=
  match sc_Files (en_Store e) with Some f => if bool_decide (ff_CA f = "") then [] else [ff_CA f] | None => [] end.
(** The Secret an entry writes, when the CA runs in a pod of this namespace. *)
Definition secret_target (pod : string) (e : Entry) : option (string * string) :=
  s ← sc_Secret (en_Store e);
  Some (if bool_decide (ss_Namespace s = "") then pod else ss_Namespace s, ss_Name s).

(** One entry by itself. *)
Record sound_entry (e : Entry) : Prop := SoundEntry {
  se_one_store : match sc_Secret (en_Store e), sc_Files (en_Store e) with Some _, None | None, Some _ => True | _, _ => False end;
  se_secret : forall s, sc_Secret (en_Store e) = Some s -> ss_Name s <> "";
  se_distinct : NoDup (material e ++ chain_file e);
  se_absolute : forall p, p ∈ material e ++ chain_file e -> is_abs p = true }.

(** Two entries do not touch each other's certificate: they have different
    names and Secrets, wherever the CA runs, and neither writes over the
    certificate or key file of the other. *)
Record apart (e f : Entry) : Prop := Apart {
  ap_name : en_Certname e <> en_Certname f;
  ap_secret : forall pod t, secret_target pod e = Some t -> secret_target pod f <> Some t;
  ap_files : forall p, p ∈ material e -> p ∉ material f ++ chain_file f;
  ap_chain : forall p, p ∈ material f -> p ∉ chain_file e }.

(** An entry keeps clear of what is in use. *)
Record clear (u : in_use) (e : Entry) : Prop := Clear {
  cl_name : en_Certname e ∉ iu_subjects u;
  cl_secret : forall s n, sc_Secret (en_Store e) = Some s -> n ∈ iu_secrets u ->
                n.2 = ss_Name s -> namespacesMayCollide n.1 (ss_Namespace s) = false;
  cl_material : forall p, p ∈ material e -> p ∉ iu_material u /\ p ∉ iu_chain u;
  cl_chain : forall p, p ∈ chain_file e -> p ∉ iu_material u }.

(** [u'] has what [u] has and what [e] uses. *)
Record with_entry (u u' : in_use) (e : Entry) : Prop := WithEntry {
  we_subjects : (en_Certname e :: iu_subjects u) ⊆ iu_subjects u';
  we_secrets : iu_secrets u ⊆ iu_secrets u' /\ forall s, sc_Secret (en_Store e) = Some s -> (ss_Namespace s, ss_Name s) ∈ iu_secrets u';
  we_material : material e ++ iu_material u ⊆ iu_material u';
  we_chain : chain_file e ++ iu_chain u ⊆ iu_chain u' }.

Lemma clear_before u u' e f : with_entry u u' e -> clear u' f -> clear u f.
Proof.
  intros [W1 [W2 _] W3 W4] [C1 C2 C3 C4]. split.
  - intros H. apply C1, W1. by right.
  - intros s n Hs Hn. apply C2; auto.
  - intros p Hp. destruct (C3 p Hp) as [H1 H2]. split; intros H; [apply H1, W3|apply H2, W4]; apply elem_of_app; by right.
  - intros p Hp H. apply (C4 p Hp), W3, elem_of_app. by right.
Qed.

Lemma collide_resolved pod a b : namespacesMayCollide a b = false ->
  (if bool_decide (a = "") then pod else a) <> (if bool_decide (b = "") then pod else b).
Proof.
  unfold namespacesMayCollide. intros [[H1 H2]%orb_false_iff H3]%orb_false_iff.
  apply bool_decide_eq_false in H1. by rewrite H2, H3.
Qed.

Lemma clear_apart u u' e f : with_entry u u' e -> clear u' f -> apart e f.
Proof.
  intros [W1 [_ W2] W3 W4] [C1 C2 C3 C4]. split.
  - intros E. apply C1, W1. rewrite E. by left.
  - intros pod t. unfold secret_target. destruct (sc_Secret (en_Store e)) as [s|] eqn:Es; [|done]. cbn. intros [= <-].
    destruct (sc_Secret (en_Store f)) as [s'|] eqn:Es'; [|done]. cbn. intros [= En Ename].
    specialize (C2 s' _ eq_refl (W2 s eq_refl) (eq_sym Ename)). cbn in C2. by apply (collide_resolved pod) in C2.
  - intros p Hp Hq. assert (p ∈ iu_material u') as Hin by (apply W3, elem_of_app; by left).
    apply elem_of_app in Hq as [Hq|Hq]; [by destruct (C3 p Hq)|by apply (C4 p Hq)].
  - intros p Hp Hq. destruct (C3 p Hp) as [_ Hn]. apply Hn, W4, elem_of_app. by left.
Qed.

Lemma files_validate_ok u f f' u' e :
  files_validate u f = Ok (f', u') -> sc_Secret (en_Store e) = None -> sc_Files (en_Store e) = Some f' ->
  sound_entry e /\ (forall p, p ∈ material e -> p ∉ iu_material u /\ p ∉ iu_chain u) /\
  (forall p, p ∈ chain_file e -> p ∉ iu_material u) /\
  iu_subjects u' = iu_subjects u /\ iu_secrets u' = iu_secrets u /\
  material e ++ iu_material u ⊆ iu_material u' /\ chain_file e ++ iu_chain u ⊆ iu_chain u'.
Proof.
  intros H Es Ef. unfold files_validate in H. set (g := mkFileStore _ _ _) in H. cbv beta zeta in H. clearbody g.
  destruct (bool_decide (ff_Cert g = "") || bool_decide (ff_Key g = "")) eqn:H1; [done|].
  destruct (bool_decide (ff_Cert g = ff_Key g) || _) eqn:H2; [done|].
  destruct (existsb _ [ff_Cert g; ff_Key g; ff_CA g]) eqn:H3; [done|].
  destruct (bool_decide (ff_Cert g ∈ iu_material u) || _ || _) eqn:H4; [done|].
  apply orb_false_iff in H1 as [Hc%bool_decide_eq_false_1 Hk%bool_decide_eq_false_1].
  apply orb_false_iff in H2 as [Hck%bool_decide_eq_false_1 Hcaeq].
  apply orb_false_iff in H4 as [[Hm1%bool_decide_eq_false_1 Hm2%bool_decide_eq_false_1]%orb_false_iff
    [Hm3%bool_decide_eq_false_1 Hm4%bool_decide_eq_false_1]%orb_false_iff]. cbn [existsb] in H3.
  rewrite !orb_false_iff, !(bool_decide_false (ff_Cert g = "")), !(bool_decide_false (ff_Key g = "")) in H3 by done.
  destruct H3 as (A1 & A2 & A3 & _). cbn in A1, A2. apply negb_false_iff in A1, A2.
  assert (f' = g /\ (ff_CA g <> "" -> ff_CA g ∉ ff_Cert g :: ff_Key g :: iu_material u) /\
    iu_subjects u' = iu_subjects u /\ iu_secrets u' = iu_secrets u /\ iu_material u' = ff_Cert g :: ff_Key g :: iu_material u /\
    iu_chain u ⊆ iu_chain u' /\ (ff_CA g <> "" -> ff_CA g ∈ iu_chain u')) as (-> & Hca & Hs1 & Hs2 & Hs3 & Hs4 & Hs5).
  { destruct (bool_decide_reflect (ff_CA g = "")) as [E|E]; [by injection H as <- <-|].
    match type of H with (if ?b then _ else _) = _ => destruct b eqn:Hn; [done|] end.
    apply bool_decide_eq_false_1 in Hn. injection H as <- <-. cbn [iu_subjects iu_secrets iu_material iu_chain].
    split; [done|]. split; [done|]. split; [done|]. split; [done|]. split; [done|].
    destruct (bool_decide_reflect (ff_CA g ∈ iu_chain u)); (split; [|intros _]); [done|done|intros p Hp; by right|by left]. }
  assert (material e = [ff_Cert g; ff_Key g]) as Em by (unfold material; by rewrite Ef).
  assert (forall p, p ∈ chain_file e <-> p = ff_CA g /\ ff_CA g <> "") as Hch.
  { intros p. unfold chain_file. rewrite Ef. case_bool_decide; set_solver. }
  assert (NoDup (chain_file e)) as Hnd by (unfold chain_file; rewrite Ef; case_bool_decide; [constructor|apply NoDup_singleton]).
  rewrite Em, Hs3. split; [|split; [set_solver|split; [|split; [done|split; [done|split; [set_solver|]]]]]].
  - split.
    + by rewrite Es, Ef.
    + by rewrite Es.
    + rewrite Em. apply NoDup_app. split; [by apply NoDup_cons; split; [set_solver|apply NoDup_singleton]|]. split; [|done].
      intros p Hp [-> Hne]%Hch. apply Hca; [done|set_solver].
    + intros p. rewrite elem_of_app, Em, Hch. intros [Hp|[-> Hne]]; [set_solver|].
      rewrite (bool_decide_false (ff_CA g = "")) in A3 by done. cbn in A3. by apply negb_false_iff in A3.
  - intros p [-> Hne]%Hch. specialize (Hca Hne). set_solver.
  - intros p [[-> Hne]%Hch|Hp]%elem_of_app; auto.
Qed.

Lemma store_validate_ok u st st' u' e :
  store_validate u st = Ok (st', u') -> en_Store e = st' -> sound_entry e /\
  (forall x n, sc_Secret st' = Some x -> n ∈ iu_secrets u -> n.2 = ss_Name x -> namespacesMayCollide n.1 (ss_Namespace x) = false) /\
  (forall p, p ∈ material e -> p ∉ iu_material u /\ p ∉ iu_chain u) /\ (forall p, p ∈ chain_file e -> p ∉ iu_material u) /\
  iu_subjects u' = iu_subjects u /\
  (iu_secrets u ⊆ iu_secrets u' /\ forall x, sc_Secret st' = Some x -> (ss_Namespace x, ss_Name x) ∈ iu_secrets u') /\
  material e ++ iu_material u ⊆ iu_material u' /\ chain_file e ++ iu_chain u ⊆ iu_chain u'.
Proof.
  intros H Ee. unfold store_validate in H. destruct (sc_Secret st) as [x|] eqn:Ex, (sc_Files st) as [y|] eqn:Ey; try done.
  - unfold secret_validate in H. set (g := mkSecretStore _ _) in H. cbv zeta in H.
    clearbody g. case_bool_decide as Hn; [done|]. destruct (existsb _ _) eqn:Hs; [done|]. injection H as <- <-.
    assert (material e = [] /\ chain_file e = []) as [Em Ec] by (unfold material, chain_file; by rewrite Ee).
    rewrite Em, Ec. split; [|split; [|split; [set_solver|split; [set_solver|split; [done|split; [|set_solver]]]]]].
    + split; rewrite ?Em, ?Ec, ?Ee; [done|by intros s [= <-]|constructor|set_solver].
    + intros x' n [= <-] Hin En. destruct (namespacesMayCollide n.1 (ss_Namespace g)) eqn:E; [|done].
      assert (existsb (fun prev => bool_decide (prev.2 = ss_Name g) && namespacesMayCollide prev.1 (ss_Namespace g)) (iu_secrets u) = true) as Ht.
      { apply existsb_exists. exists n. rewrite <- list_elem_of_In. split; [done|]. by rewrite bool_decide_true, E. }
      congruence.
    + split; [set_solver|]. intros x' [= <-]. set_solver.
  - destruct (files_validate u y) as [[f' u'']|] eqn:E; [|done]. injection H as <- <-.
    destruct (files_validate_ok _ _ _ _ e E) as (H1 & H2 & H3 & H4 & H5 & H6 & H7); [by rewrite Ee..|].
    cbn. rewrite H5. split_and!; try done.
Qed.

Lemma validate_entries_ok parse_ip parse_uri c : forall u c',
  validate_entries parse_ip parse_uri u c = Ok c' ->
  (forall e, e ∈ c' -> sound_entry e /\ clear u e) /\
  (forall i j e f, (i < j)%nat -> c' !! i = Some e -> c' !! j = Some f -> apart e f).
Proof.
  induction c as [|e c IH]; intros u c'; cbn [validate_entries].
  { intros [= <-]. split; [by intros e ?%not_elem_of_nil|]. intros i j e f _. by rewrite lookup_nil. }
  destruct (Spec _ _ e) as [spec|]; [|done]. destruct (Validate spec); [done|]. case_bool_decide as Hs; [done|].
  set (u0 := mkInUse _ _ _ _). destruct (store_validate u0 (en_Store e)) as [[st u']|] eqn:E; [|done].
  destruct (validate_entries _ _ u' c) as [c2|] eqn:Ec; [|done]. intros [= <-].
  destruct (store_validate_ok _ _ _ _ (set_store e st) E eq_refl) as (H1 & H2 & H3 & H4 & H5 & H6 & H7 & H8).
  destruct (IH _ _ Ec) as [Hc Hp].
  assert (with_entry u u' (set_store e st)) as Hw by (split; [by rewrite H5|done..]).
  assert (clear u (set_store e st)) as Hcl by (by split).
  split.
  - intros f [->|Hf]%elem_of_cons; [done|]. destruct (Hc f Hf) as [Hf1 Hf2]. split; [done|]. by eapply clear_before.
  - intros [|i] [|j] f g Hij Hi Hj; cbn in Hi, Hj; [lia| |lia|by apply (Hp i j); [lia|..]].
    injection Hi as <-. eapply clear_apart; [done|]. by eapply (Hc g), list_elem_of_lookup_2.
Qed.

(** C28: In a configuration of managed certificates that is accepted, each has one
    store, complete and with absolute paths, and no two are in each other's way:
    their certnames differ, they are in different Secrets whatever namespace the
    CA's pod is in, and neither writes over the other's certificate or key. *)
Theorem accepted_entries_apart parse_ip parse_uri c c' :
  ValidateIn parse_ip parse_uri c = Ok c' ->
  Forall sound_entry c' /\ forall i j e f, (i < j)%nat -> c' !! i = Some e -> c' !! j = Some f -> apart e f.
Proof.
  intros [H1 H2]%validate_entries_ok. split; [|done]. apply Forall_forall. intros e He. by apply H1.
Qed.

(** *** The files of an entry *)

(** The directory of a path and the name in it; the root directory is [""]. *)
Fixpoint split_path (s : string) : option path :=
  match s with
  | "" => None
  | String c r =>
      match split_path r with
      | Some (d, b) => Some (String c d, b)
      | None => if Ascii.eqb c "/"%char then Some ("", r) else None
      end
  end.
Definition path_of (s : string) : path := default ("", s) (split_path s).

Lemma split_path_join s d b : split_path s = Some (d, b) -> s = d +:+ "/" +:+ b.
Proof.
  revert d b. induction s as [|c s IH]; cbn; intros d b; [done|]. destruct (split_path s) as [[d' b']|].
  - intros [= <- <-]. cbn. f_equal. by apply IH.
  - destruct (Ascii.eqb_spec c "/"%char) as [->|]; [|done]. by intros [= <- <-].
Qed.
Lemma path_of_inj p q : is_abs p = true -> is_abs q = true -> path_of p = path_of q -> p = q.
Proof.
  assert (forall p, is_abs p = true -> exists d b, split_path p = Some (d, b)) as Habs.
  { intros r [x ->]%HasPrefix_true. cbn. destruct (split_path x) as [[d b]|]; eauto. }
  intros (d & b & Ep)%Habs (d' & b' & Eq)%Habs. unfold path_of. rewrite Ep, Eq. cbn. intros [= <- <-].
  by rewrite (split_path_join _ _ _ Ep), (split_path_join _ _ _ Eq).
Qed.

(** What the file store of an entry is given (NewFileStore). *)
Definition file_store_config (f : FileStoreConfig) : FilesConfig :=
  mkFilesConfig (path_of (ff_Cert f)) (path_of (ff_Key f)) (if bool_decide (ff_CA f = "") then None else Some (path_of (ff_CA f))).

(** The file store of an accepted entry writes different files. *)
Lemma sound_entry_files e f :
  sound_entry e -> sc_Files (en_Store e) = Some f -> NoDup (store_paths (file_store_config f)).
Proof.
  intros [_ _ Hd Ha] Ef. unfold material, chain_file in Hd, Ha. rewrite Ef in Hd, Ha.
  assert (store_paths (file_store_config f) ≡ₚ map path_of ([ff_Cert f; ff_Key f] ++ (if bool_decide (ff_CA f = "") then [] else [ff_CA f]))) as ->.
  { unfold store_paths, file_store_config. cbn [fc_Key fc_Cert fc_CA]. destruct (bool_decide (ff_CA f = "")); cbn; apply Permutation_swap. }
  apply NoDup_fmap_2_strong; [|done]. intros p q Hp Hq. apply path_of_inj; auto.
Qed.

(** *** The CA's own files *)

(** [path] is [root] or below it. *)
Definition below (root path : string) : Prop :=
  path = root \/ exists rest, path = root +:+ "/" +:+ rest \/ root = "/" /\ path = "/" +:+ rest.

Lemma reservedCovers_below root tree path :
  reservedCovers root tree path = true <-> path = root \/ tree = true /\ below root path.
Proof.
  unfold reservedCovers, below. case_bool_decide as E; [naive_solver|]. destruct tree; cbn; [|naive_solver].
  case_bool_decide as Er; rewrite HasPrefix_true.
  - subst root. split; [intros [r ->]; right; split; [done|]; right; exists r; by right|].
    intros [?|[_ [?|(r & [->|[_ ->]])]]]; [done|done|by exists ("/" +:+ r)|by exists r].
  - split; [intros [r ->]; right; split; [done|]; right; exists r; left; by rewrite str_app_assoc|].
    intros [?|[_ [?|(r & [->|[? _]])]]]; [done|done|exists r; by rewrite str_app_assoc|done].
Qed.

Lemma first_error_None {A} (f : A -> option error) l : first_error f l = None -> forall x, x ∈ l -> f x = None.
Proof.
  induction l as [|y l IH]; cbn; [by intros _ x ?%not_elem_of_nil|]. destruct (f y) eqn:E; [done|].
  intros H x [->|Hx]%elem_of_cons; [done|by apply IH].
Qed.

Lemma reserved_error_None path reserved :
  reserved_error path reserved = None -> forall r, r ∈ reserved -> cleanPath (rp_Path r) <> "" ->
  reservedCovers (cleanPath (rp_Path r)) (rp_Tree r) path = false.
Proof.
  induction reserved as [|q reserved IH]; cbn; [by intros _ r ?%not_elem_of_nil|].
  intros H r Hr Hne. apply elem_of_cons in Hr as [->|Hr].
  - rewrite bool_decide_false in H by done. destruct (negb _); [done|]. by destruct (reservedCovers _ _ path).
  - apply IH; [|done..]. case_bool_decide; [done|]. destruct (negb _); [done|]. by destruct (reservedCovers _ _ path).
Qed.

(** A configuration that passes the check writes none of the CA's own files: no
    store's file is a reserved file, or in a reserved directory or below it. *)
Lemma reserved_paths_kept c reserved e f p r :
  CheckReservedPathsIn c reserved = None -> e ∈ c -> sc_Files (en_Store e) = Some f -> p ∈ entry_paths f -> r ∈ reserved ->
  cleanPath (rp_Path r) <> "" ->
  p <> cleanPath (rp_Path r) /\ (rp_Tree r = true -> ~ below (cleanPath (rp_Path r)) p).
Proof.
  intros H He Hf Hp Hr Hne. pose proof (first_error_None _ _ H e He) as H1. cbn in H1. rewrite Hf in H1.
  pose proof (first_error_None _ _ H1 p Hp) as H2. pose proof (reserved_error_None _ _ H2 r Hr Hne) as H3.
  assert (~ (p = cleanPath (rp_Path r) \/ rp_Tree r = true /\ below (cleanPath (rp_Path r)) p)) as Hn.
  { rewrite <- reservedCovers_below. congruence. }
  split; [intros E; apply Hn; by left|intros Ht Hb; apply Hn; by right].
Qed.

(** *** An accepted configuration *)

Definition demo_entry_at (name : string) (s : StoreConfig) : Entry :=
  mkEntry name [name] [] [] [] ["serverAuth"; "ServerAuth "] 3600 600 None "ECDSA" 256 false s.
Definition demo_config : list Entry :=
  [demo_entry_at "web.example" (mkStoreConfig None (Some (mkFileStore "/etc/tls/web.crt" "/etc/tls//web.key" " /etc/tls/ca.crt")));
   demo_entry_at "db.example" (mkStoreConfig None (Some (mkFileStore "/etc/tls/db.crt" "/etc/tls/db.key" "/etc/tls/ca.crt")));
   demo_entry_at "pod.example" (mkStoreConfig (Some (mkSecretStore "pod-tls" "")) None)].
Definition demo_accepted : list Entry :=
  match ValidateIn (fun _ => None) (fun _ => Err (Msg "")) demo_config with Ok c => c | Err _ => [] end.

Lemma accepted_entries_apart_witness :
  length demo_accepted = 3%nat /\ Forall sound_entry demo_accepted /\
  exists e f, demo_accepted !! 0%nat = Some e /\ demo_accepted !! 1%nat = Some f /\ apart e f.
Proof.
  assert (ValidateIn (fun _ => None) (fun _ => Err (Msg "")) demo_config = Ok demo_accepted) as E by (vm_compute; reflexivity).
  destruct (accepted_entries_apart _ _ _ _ E) as [H1 H2]. split; [vm_compute; reflexivity|]. split; [exact H1|].
  assert (exists e f, demo_accepted !! 0%nat = Some e /\ demo_accepted !! 1%nat = Some f) as (e & f & He & Hf)
    by (do 2 eexists; split; vm_compute; reflexivity).
  exists e, f. split; [exact He|]. split; [exact Hf|]. exact (H2 0%nat 1%nat e f ltac:(lia) He Hf).
Defined.

(** Two entries in one Secret, one of which leaves its namespace out, are
    refused even though they may be in different namespaces. *)
Example ambiguous_namespace_refused :
  match ValidateIn (fun _ => None) (fun _ => Err (Msg ""))
    [demo_entry_at "a.example" (mkStoreConfig (Some (mkSecretStore "tls" "prod")) None);
     demo_entry_at "b.example" (mkStoreConfig (Some (mkSecretStore "tls" "")) None)] with
  | Ok _ => False | Err _ => True end.
Proof. by vm_compute. Qed.
