(* ===== verification/System.v ===== *)
(** * The system: replicas over one shared store

    Several replicas run the operations of the previous files against one
    backend.  A step runs one operation, or one locked section of an operation
    that releases the mutex midway, on one replica, under any script of
    storage failures, clock readings, random numbers, chain-file contents and
    autosign decisions.  The invariants below hold for every sequence of steps
    of every replica. *)

From S2P Require Import Prelude GoStrings GoTime X509 Inventory Storage InventorySpec Policy.
From S2P Require Import CAState CRLChain CRL OCSP CRLSafety Supersede Signing Lifecycle Import ManagedCert.

(** ** Operations *)

Inductive op :=
  | OpSaveRequest (subject : string) (csr : blob)
  | OpDeleteRequest (subject : string)
  | OpSign (subject : string) (ttl : Duration)
  | OpSignMultiple (subjects : list string)
  | OpSignAll
  | OpRenew (subject : string) (csr : blob) (cert : option Certificate)
  | OpAutoRenew (cert : option Certificate)
  | OpImport (subject : string) (certPEM : blob)
  | OpGenerate (subject : string) (opts : GenerateOptions)
  | OpRevoke (subject : string)
  | OpRevokeSerial (serial : string) (force : bool)
  | OpClean (subject : string)
  | OpCleanMultiple (subjects : list string)
  | OpReissueCRL
  | OpRefreshCRLIfDue (before : Duration)
  | OpRefreshCRLChainFile
  | OpSyncCRLCache
  | OpLoadCRLCache
  | OpReconcileSuperseded
  | OpRebuildCertIndex
  | OpCleanup (retain : Duration)
  (** a pass over the managed certificates, whatever their stores hold *)
  | OpManaged (l : list ManagedCert) (stores : gmap string (blob * blob))
      (failed : gmap string managedSaveFailure)
  (** the locked sections of an OCSP answer and of an index refresh; what they
      were given may have been computed in any earlier state *)
  | OpOCSPLookup (req : OCSPRequest)
  | OpOCSPStore (req : OCSPRequest) (resp : OCSPResponse)
  | OpSyncEnd (stored : gmap string string) (epochs : Z * Z).

Definition void {A} (m : MW A) : MW unit := _ ← m; mret tt.

Definition run_op (o : op) : MW unit :=
  match o with
  | OpSaveRequest s csr => void (SaveRequest s csr)
  | OpDeleteRequest s => void (DeleteRequest s)
  | OpSign s ttl => void (SignWithTTL s ttl)
  | OpSignMultiple l => void (SignMultiple l)
  | OpSignAll => void SignAll
  | OpRenew s csr cert => void (Renew s csr cert)
  | OpAutoRenew cert => void (AutoRenew cert)
  | OpImport s pem => void (ImportCertificate s pem)
  | OpGenerate s opts => void (GenerateWithOptions s opts)
  | OpRevoke s => void (Revoke s)
  | OpRevokeSerial s force => void (RevokeSerial s force)
  | OpClean s => void (Clean s)
  | OpCleanMultiple l => void (CleanMultiple l)
  | OpReissueCRL => void ReissueCRL
  | OpRefreshCRLIfDue d => void (RefreshCRLIfDue d)
  | OpRefreshCRLChainFile => void RefreshCRLChainFile
  | OpSyncCRLCache => void SyncCRLCache
  | OpLoadCRLCache => void loadCRLCache
  | OpReconcileSuperseded => void ReconcileSuperseded
  | OpRebuildCertIndex => rebuildCertIndex
  | OpCleanup retain => void (CleanupExpiredCerts retain)
  | OpManaged l stores failed => void (managed_pass l stores failed)
  | OpOCSPLookup req => void (ocsp_lookup req)
  | OpOCSPStore req resp => void (ocsp_store req resp)
  | OpSyncEnd stored epochs => void (sync_end stored epochs)
  end.

(** A response is stored for the request it was signed for. *)
Definition op_ok (o : op) : Prop :=
  match o with
  | OpOCSPStore req resp =>
      o_SerialNumber resp = q_SerialNumber req /\ o_Nonce resp = effective_nonce req
  | _ => True
  end.

Definition is_cleanup (o : op) : bool := match o with OpCleanup _ => true | _ => false end.

(** ** Clusters *)

Record Node := mkNode { n_ca : CA; n_hmac : option string; n_keyfiles : gmap string blob }.

(** What the environment supplies to one step. *)
Record Env := mkEnv {
  e_faults : list fault; e_clock : Time; e_ticks : list Z; e_rands : list Z;
  e_chain : list (result blob); e_autosign : list (result bool) }.

Record Cluster := mkCluster { shared : Backend; nodes : list Node }.

Definition world_of (b : Backend) (n : Node) (e : Env) : World :=
  mkWorld (mkStore b (n_hmac n) (n_keyfiles n) (e_faults e) (e_clock e) (e_ticks e) (e_rands e))
    (n_ca n) (e_chain e) (e_autosign e).
Definition node_of (w : World) : Node := mkNode (ca w) (hmacKey (st w)) (keyfiles (st w)).

Definition step_on (i : nat) (n : Node) (o : op) (e : Env) (cl : Cluster) : Cluster :=
  let w := exec (run_op o) (world_of (shared cl) n e) in
  mkCluster (be (st w)) (<[i := node_of w]> (nodes cl)).

Inductive step : op -> Cluster -> Cluster -> Prop :=
  | Step i n o e cl :
      nodes cl !! i = Some n -> op_ok o -> step o cl (step_on i n o e cl).

Inductive steps (P : op -> Prop) : Cluster -> Cluster -> Prop :=
  | Steps_refl cl : steps P cl cl
  | Steps_step o cl1 cl2 cl3 : P o -> step o cl1 cl2 -> steps P cl2 cl3 -> steps P cl1 cl3.

(** ** Every operation keeps each OCSP cache coherent *)

Lemma coh_lookup req : mono keeps_coherent (ocsp_lookup req).
Proof. apply coh_core, lookup_same_core. Qed.
Lemma coh_sync_end stored epochs : mono keeps_coherent (sync_end stored epochs).
Proof.
  intros w. unfold exec, sync_end.
  pose proof (reconcile_spec stored epochs.1 epochs.2 (ca w)) as [_ H]. cbv zeta in H.
  destruct (reconcileSerialIndexLocked _ _ _ _). exact H.
Qed.
Lemma coh_autosign : mono keeps_coherent CheckAutosign.
Proof. intros w H. unfold exec, CheckAutosign. by case_match. Qed.
#[export] Hint Resolve coh_lookup coh_sync_end coh_autosign : mono.

Lemma coh_issue subject name pub sans extra eku ttl :
  mono keeps_coherent (issueLeafLocked subject name pub sans extra eku ttl).
Proof. unfold issueLeafLocked, acquireSigningSlot, signer_available, get_ca. coh_tac. Qed.
#[export] Hint Resolve coh_issue : mono.
Lemma coh_signWith subject ttl : mono keeps_coherent (signWithDuration subject ttl).
Proof. unfold signWithDuration, get_ca. coh_tac. Qed.
#[export] Hint Resolve coh_signWith : mono.
Lemma coh_SignWithTTL subject ttl : mono keeps_coherent (SignWithTTL subject ttl).
Proof. unfold SignWithTTL. coh_tac. Qed.
#[export] Hint Resolve coh_SignWithTTL : mono.
Lemma coh_SignMultiple l : mono keeps_coherent (SignMultiple l).
Proof. induction l; simpl; unfold Sign; coh_tac. Qed.
#[export] Hint Resolve coh_SignMultiple : mono.
Lemma coh_SaveRequest s b : mono keeps_coherent (SaveRequest s b).
Proof. unfold SaveRequest, checkDuplicateLocked, storedCertLocked, get_ca. coh_tac. Qed.
Lemma coh_readSup : mono keeps_coherent readSuperseded.
Proof. apply coh_core. eapply mono_weaken; [|exact quiet_readSuperseded]. by intros ? ? [? _]. Qed.
#[export] Hint Resolve coh_readSup : mono.
Lemma coh_writeSup es : mono keeps_coherent (writeSuperseded es).
Proof. unfold writeSuperseded. coh_tac. Qed.
#[export] Hint Resolve coh_writeSup : mono.
Lemma coh_supersede s o : mono keeps_coherent (supersedeReplaced s o).
Proof. unfold supersedeReplaced, supersedeReplacedAfter, recordSuperseded, get_ca. coh_tac. Qed.
Lemma coh_refuse cert s : mono keeps_coherent (refuseIfRevoked cert s).
Proof.
  unfold refuseIfRevoked, refuseIfSuperseded, loadSuperseded, IsRevokedSerial, get_ca. coh_tac.
Qed.
#[export] Hint Resolve coh_supersede coh_refuse : mono.
Lemma coh_Renew s b cert : mono keeps_coherent (Renew s b cert).
Proof. unfold Renew, reissueLeafLocked, get_ca. coh_tac. Qed.
Lemma coh_AutoRenew cert : mono keeps_coherent (AutoRenew cert).
Proof. unfold AutoRenew, reissueLeafLocked, get_ca. coh_tac. Qed.
Lemma coh_retire_each mine : mono keeps_coherent (retire_each mine).
Proof. induction mine; simpl; coh_tac. Qed.
#[export] Hint Resolve coh_retire_each : mono.
Lemma coh_revokeLocked s : mono keeps_coherent (revokeLocked s).
Proof. unfold revokeLocked, retireSupersededForSubjectLocked, findSerialForSubject. coh_tac. Qed.
#[export] Hint Resolve coh_revokeLocked : mono.
Lemma coh_Clean s : mono keeps_coherent (Clean s).
Proof. unfold Clean. coh_tac. Qed.
#[export] Hint Resolve coh_Clean : mono.
Lemma coh_CleanMultiple l : mono keeps_coherent (CleanMultiple l).
Proof. induction l; simpl; coh_tac. Qed.
Lemma coh_append add : mono keeps_coherent (appendCRLEntriesLocked add).
Proof. unfold appendCRLEntriesLocked. coh_tac. Qed.
#[export] Hint Resolve coh_append : mono.
Lemma coh_Reconcile : mono keeps_coherent ReconcileSuperseded.
Proof.
  unfold ReconcileSuperseded, reconcile_locked, loadSuperseded, reconcile_body, drainDueLocked,
    markCertRevokedIndex. coh_tac.
Qed.
Lemma coh_unindex_all l :
  mono keeps_coherent (upd_ca (fun c => fold_left (fun c n => unindexSerialLocked (serialHexStr n) c) l c)).
Proof.
  apply coh_upd. intros c. revert c. induction l as [|n l IH]; intros c Hc; [done|].
  apply (IH (unindexSerialLocked (serialHexStr n) c)). by apply bump_coherent, drop_coherent.
Qed.
#[export] Hint Resolve coh_unindex_all : mono.
Lemma coh_Cleanup d : mono keeps_coherent (CleanupExpiredCerts d).
Proof.
  unfold CleanupExpiredCerts, cleanup_body, dropCRLEntriesLocked, deleteStoredCertIfSerialMatches. coh_tac.
Qed.
Lemma coh_Generate s opts : mono keeps_coherent (GenerateWithOptions s opts).
Proof.
  unfold GenerateWithOptions, generate_locked, generate_replacing, generate_issue, evictRevokedLocked, storedCertLocked,
    storedCertSerialLocked, get_ca. coh_tac.
Qed.
Lemma coh_Import s pem : mono keeps_coherent (ImportCertificate s pem).
Proof.
  unfold ImportCertificate, importCertificateLocked, evictRevokedLocked, storedCertLocked, get_ca. coh_tac.
Qed.
Lemma coh_rebuild : mono keeps_coherent rebuildCertIndex.
Proof. unfold rebuildCertIndex, repair_record, backfillCertProjection, get_ca. coh_tac. Qed.
#[export] Hint Resolve coh_SaveRequest coh_Renew coh_AutoRenew coh_CleanMultiple coh_Reconcile
  coh_Cleanup coh_Generate coh_Import coh_rebuild coh_ReissueCRL coh_RefreshCRLIfDue coh_RefreshCRLChainFile : mono.

Lemma coh_managed l stores failed : mono keeps_coherent (managed_pass l stores failed).
Proof.
  apply moves_pass; [typeclasses eauto| | | | |]; intros.
  - by apply same_core_coherent, H.
  - apply coh_issue.
  - coh_tac.
  - coh_tac.
  - unfold supersedeReplacedAfter, recordSuperseded. coh_tac.
Qed.
#[export] Hint Resolve coh_managed : mono.

Lemma coh_run_op o : op_ok o -> mono keeps_coherent (run_op o).
Proof.
  intros Hok. destruct o; unfold run_op, void; cbn [op_ok] in Hok; coh_tac.
  - unfold DeleteRequest. coh_tac.
  - unfold SignAll. coh_tac.
  - unfold Revoke. coh_tac.
  - unfold RevokeSerial, revokeSerialCheckedLocked, storedCertSerial. coh_tac.
  - apply coh_store; apply Hok.
Qed.

(** Every replica's OCSP cache agrees with the CRL and the index it holds. *)
Definition all_coherent (cl : Cluster) : Prop :=
  forall i n, nodes cl !! i = Some n -> coherent (n_ca n).

Lemma nodes_step i n o e cl :
  nodes cl !! i = Some n ->
  forall j m, nodes (step_on i n o e cl) !! j = Some m ->
    (j <> i /\ nodes cl !! j = Some m) \/
    (j = i /\ m = node_of (exec (run_op o) (world_of (shared cl) n e))).
Proof.
  intros Hi j m Hj. unfold step_on in Hj. cbn [nodes] in Hj.
  apply list_lookup_insert_Some in Hj as [(-> & <- & _)|[Hne Hj]]; auto.
Qed.

Lemma steps_coherent P cl cl' :
  all_coherent cl -> steps P cl cl' -> all_coherent cl'.
Proof.
  intros Hc H. induction H as [cl|o cl1 cl2 cl3 _ Hstep _ IH]; [done|]. apply IH.
  destruct Hstep as [i n o e cl Hi Hok]. intros j m Hj.
  apply (nodes_step i n o e cl Hi) in Hj as [[_ Hj]|[-> ->]]; [by eapply Hc|].
  apply (coh_run_op o Hok (world_of (shared cl) n e)). by eapply Hc.
Qed.

(** In every interleaving of the operations of any number of replicas,
    under every failure script, no replica ever caches an OCSP answer that
    contradicts the CRL and the serial index it holds. *)
Theorem replicas_coherent cl cl' :
  all_coherent cl -> steps (fun _ => True) cl cl' -> all_coherent cl'.
Proof. apply steps_coherent. Qed.
