(* ===== verification/Growth.v ===== *)
(** * Revocations survive every interleaving of the replicas' operations

    Every operation of every replica, other than the removal of expired
    entries, leaves in the shared store a CRL of this CA that lists all the
    previous one listed and whose number is not lower. *)

From S2P Require Import Prelude GoStrings GoTime X509 Inventory Storage InventorySpec Policy.
From S2P Require Import CAState CRLChain CRL OCSP CRLSafety Supersede Signing Lifecycle Import ManagedCert System.

(** ** Every operation but the cleanup lets the stored CRL only grow *)

(** A storage action that leaves the CRL alone. *)
Definition crl_kept : relation Store := fun s s' => blobs (be s') !! KeyCRL = blobs (be s) !! KeyCRL.
#[global] Instance crl_kept_preorder : PreOrder crl_kept.
Proof. split; unfold crl_kept; [done|]. intros ? ? ? ? ?. congruence. Qed.

Lemma grows_lift {A} (m : MS A) : mono crl_kept m -> mono crl_grows (lift m).
Proof. intros Hm. eapply mono_lift; [exact Hm|]. intros w s' H. by apply grows_frame. Qed.
Lemma kept_frame {A} K (m : MS A) : ~ K KeyCRL -> mono (frame K) m -> mono crl_kept m.
Proof. intros HK. apply mono_weaken. intros s s' (_ & _ & H). by apply H. Qed.
Lemma kept_same {A} (m : MS A) : mono same_data m -> mono crl_kept m.
Proof. apply mono_weaken. intros s s' (E & _). unfold crl_kept. by rewrite E. Qed.

Lemma kept_SaveCert s b : mono crl_kept (SaveCert s b).
Proof. apply (kept_frame (fun k => k = CertKey s)); [done|by apply frame_Put]. Qed.
Lemma kept_DeleteCert s : mono crl_kept (DeleteCert s).
Proof. apply (kept_frame (fun k => k = CertKey s)); [done|by apply frame_Delete]. Qed.
Lemma kept_SaveCSR s b : mono crl_kept (SaveCSR s b).
Proof. apply (kept_frame (fun k => k = CSRKey s)); [done|by apply frame_Put]. Qed.
Lemma kept_DeleteCSR s : mono crl_kept (DeleteCSR s).
Proof. apply (kept_frame (fun k => k = CSRKey s)); [done|by apply frame_Delete]. Qed.
Lemma kept_crl_SaveSuperseded b : mono crl_kept (SaveSuperseded b).
Proof. apply (kept_frame (fun k => k = KeySuperseded)); [done|by apply frame_Put]. Qed.
Lemma kept_verify k : mono crl_kept (verifyInventoryHMACLocked k).
Proof. eapply (kept_frame (fun x => x = KeyInventoryHMAC)); [done|apply verify_frame]. Qed.
Lemma kept_latest s : mono crl_kept (LatestSerialForSubject s).
Proof. eapply (kept_frame (fun x => x = KeyInventoryHMAC)); [done|apply latest_frame]. Qed.
Lemma kept_append l p : mono crl_kept (AppendInventoryRecord l p).
Proof. eapply kept_frame; [|apply append_frame]. naive_solver. Qed.
Lemma kept_index (op : BOp unit) : (forall b, blobs (op b).2 = blobs b) -> mono crl_kept (on_index op).
Proof.
  intros H. unfold on_index, is_structured. mono_tac.
  intros s. unfold exec, crl_kept. destruct (backend op s) as [r s'] eqn:E. simpl.
  apply backend_cases in E as (_ & _ & [[_ ->]|(e & _ & [->| ->])]); by rewrite ?H.
Qed.
Lemma kept_projection s p : mono crl_kept (SetCertProjection s p).
Proof. by apply kept_index. Qed.
Lemma kept_crl_mark s t : mono crl_kept (MarkCertRevoked s t).
Proof. by apply kept_index. Qed.
Lemma kept_clear s : mono crl_kept (ClearCertRevoked s).
Proof. by apply kept_index. Qed.
#[export] Hint Resolve grows_lift kept_same kept_SaveCert kept_DeleteCert kept_SaveCSR kept_DeleteCSR
  kept_crl_SaveSuperseded kept_verify kept_latest kept_append kept_projection kept_crl_mark kept_clear : mono.

Lemma kept_savekey s b : mono crl_kept (SavePrivateKey s b).
Proof. unfold SavePrivateKey. mono_tac. done. Qed.
Lemma kept_subjectfor s : mono crl_kept (SubjectForSerial s).
Proof. unfold SubjectForSerial, is_structured, inventoryEntriesLocked. mono_tac. Qed.
Lemma kept_HasCert s : mono crl_kept (HasCert s).
Proof. unfold HasCert, CertExists. mono_tac. Qed.
Lemma kept_HasCSR s : mono crl_kept (HasCSR s).
Proof. unfold HasCSR, CSRExists. mono_tac. Qed.
Lemma kept_statuses f : mono crl_kept (CertStatuses f).
Proof. unfold CertStatuses, is_structured. mono_tac. Qed.
#[export] Hint Resolve kept_statuses kept_savekey kept_subjectfor kept_HasCert kept_HasCSR : mono.

Lemma grows_ca_frame {A} (m : MW A) : mono same_core m -> mono same_store m -> mono crl_grows m.
Proof. intros. by apply grows_quiet, quiet_intro. Qed.
Lemma grows_index s subject : mono crl_grows (upd_ca (indexSerialLocked s subject)).
Proof. by apply grows_upd. Qed.
Lemma grows_autosign : mono crl_grows CheckAutosign.
Proof. intros w. unfold exec, CheckAutosign. case_match; by apply grows_frame. Qed.
#[export] Hint Resolve grows_index grows_autosign : mono.

Lemma grows_issue subject name pub sans extra eku ttl :
  mono crl_grows (issueLeafLocked subject name pub sans extra eku ttl).
Proof. unfold issueLeafLocked, acquireSigningSlot, signer_available, get_ca. grows_tac. Qed.
#[export] Hint Resolve grows_issue : mono.
Lemma grows_signWith subject ttl : mono crl_grows (signWithDuration subject ttl).
Proof. unfold signWithDuration, get_ca, GetCSR. grows_tac. Qed.
#[export] Hint Resolve grows_signWith : mono.
Lemma grows_SignMultiple l : mono crl_grows (SignMultiple l).
Proof. induction l; simpl; unfold Sign, SignWithTTL; grows_tac. Qed.
#[export] Hint Resolve grows_SignMultiple : mono.
Lemma grows_dup s : mono crl_grows (checkDuplicateLocked s).
Proof. unfold checkDuplicateLocked, storedCertLocked, get_ca. grows_tac. Qed.
#[export] Hint Resolve grows_dup : mono.
Lemma grows_SaveRequest s b : mono crl_grows (SaveRequest s b).
Proof. unfold SaveRequest, get_ca. grows_tac. Qed.
Lemma grows_supersede s o : mono crl_grows (supersedeReplaced s o).
Proof. unfold supersedeReplaced, supersedeReplacedAfter, recordSuperseded, get_ca. grows_tac. Qed.
Lemma grows_refuse cert s : mono crl_grows (refuseIfRevoked cert s).
Proof.
  unfold refuseIfRevoked, refuseIfSuperseded, loadSuperseded, IsRevokedSerial, get_ca. grows_tac.
Qed.
#[export] Hint Resolve grows_supersede grows_refuse : mono.
Lemma grows_Renew s b cert : mono crl_grows (Renew s b cert).
Proof. unfold Renew, reissueLeafLocked, get_ca. grows_tac. Qed.
Lemma grows_AutoRenew cert : mono crl_grows (AutoRenew cert).
Proof. unfold AutoRenew, reissueLeafLocked, get_ca. grows_tac. Qed.
Lemma grows_revokeLocked s : mono crl_grows (revokeLocked s).
Proof. unfold revokeLocked, findSerialForSubject. grows_tac. Qed.
#[export] Hint Resolve grows_revokeLocked : mono.
Lemma grows_Clean s : mono crl_grows (Clean s).
Proof. unfold Clean. grows_tac. Qed.
#[export] Hint Resolve grows_Clean : mono.
Lemma grows_CleanMultiple l : mono crl_grows (CleanMultiple l).
Proof. induction l; simpl; grows_tac. Qed.
Lemma grows_Reconcile : mono crl_grows ReconcileSuperseded.
Proof.
  unfold ReconcileSuperseded, reconcile_locked, loadSuperseded, reconcile_body, drainDueLocked. grows_tac.
Qed.
Lemma grows_Generate s opts : mono crl_grows (GenerateWithOptions s opts).
Proof.
  unfold GenerateWithOptions, generate_locked, generate_replacing, generate_issue, evictRevokedLocked, storedCertLocked,
    storedCertSerialLocked, get_ca. grows_tac.
Qed.
Lemma grows_Import s pem : mono crl_grows (ImportCertificate s pem).
Proof.
  unfold ImportCertificate, importCertificateLocked, evictRevokedLocked, storedCertLocked, get_ca. grows_tac.
Qed.
Lemma grows_rebuild : mono crl_grows rebuildCertIndex.
Proof. unfold rebuildCertIndex, repair_record, backfillCertProjection, get_ca. grows_tac. Qed.
#[export] Hint Resolve grows_SaveRequest grows_Renew grows_AutoRenew grows_CleanMultiple grows_Reconcile
  grows_Generate grows_Import grows_rebuild : mono.

Lemma kept_ListCSRs : mono crl_kept ListCSRs.
Proof. unfold ListCSRs. mono_tac. Qed.
Lemma grows_lookup req : mono crl_grows (ocsp_lookup req).
Proof. unfold ocsp_lookup, get_ca. mono_tac. Qed.
Lemma grows_cache f : mono crl_grows (upd_ca (fun c => set_ocspCache (f c) c)).
Proof. by apply grows_upd. Qed.
#[export] Hint Resolve kept_ListCSRs grows_lookup grows_cache : mono.
Lemma grows_store req resp : mono crl_grows (ocsp_store req resp).
Proof. unfold ocsp_store, get_ca. mono_tac. Qed.

(** Index reconciliation touches the index and the OCSP cache only. *)
Definition index_frame (c c' : CA) : Prop :=
  CACert c' = CACert c /\ CAKey c' = CAKey c /\ cfg c' = cfg c /\ cachedCRL c' = cachedCRL c.
Lemma drop_index_frame stored l c n : index_frame c (drop_serials stored l (c, n)).1.
Proof.
  unfold drop_serials. revert c n. induction l as [|s l IH]; intros c n; cbn [fold_left]; [done|].
  destruct (stored !! s); [apply IH|]. exact (IH (dropSerialLocked s c) (S n)).
Qed.
Lemma reconcile_index_frame stored e r c :
  index_frame c (reconcileSerialIndexLocked stored e r c).1.
Proof.
  unfold reconcileSerialIndexLocked. destruct (if negb _ then _ else _) as [index added].
  set (c2 := if bool_decide _ then _ else _).
  assert (index_frame c c2) as H by (unfold c2; by case_bool_decide).
  destruct (negb (serialIndexEpoch c =? e)); [exact H|].
  pose proof (drop_index_frame stored (map fst (map_to_list (serialIndex c2))) c2 0) as D.
  destruct (drop_serials _ _ _) as [c3 removed]. cbn [fst] in *. unfold index_frame in *. intuition congruence.
Qed.
Lemma grows_sync_end stored epochs : mono crl_grows (sync_end stored epochs).
Proof.
  intros w. unfold exec, sync_end.
  pose proof (reconcile_index_frame stored epochs.1 epochs.2 (ca w)) as (?&?&?&?).
  destruct (reconcileSerialIndexLocked _ _ _ _) as [c d]. cbn [fst snd] in *. by apply grows_frame.
Qed.
#[export] Hint Resolve grows_store grows_sync_end : mono.

Lemma grows_managed l stores failed : mono crl_grows (managed_pass l stores failed).
Proof.
  apply moves_pass; [typeclasses eauto| | | | |]; intros.
  - by apply quiet_grows.
  - apply grows_issue.
  - grows_tac.
  - apply grows_lift, kept_SaveCert.
  - unfold supersedeReplacedAfter, recordSuperseded. grows_tac.
Qed.
#[export] Hint Resolve grows_managed : mono.

Lemma grows_run_op o : is_cleanup o = false -> mono crl_grows (run_op o).
Proof.
  intros Hok. destruct o; try done; unfold run_op, void; clear Hok;
    unfold DeleteRequest, SignWithTTL, SignAll, Revoke, RevokeSerial, revokeSerialCheckedLocked,
      storedCertSerial; grows_tac.
Qed.

(** ** Clusters *)

(** The replicas hold the same CA certificate and its key. *)
Definition one_ca (cert : Certificate) (cl : Cluster) : Prop :=
  forall i n, nodes cl !! i = Some n ->
    CACert (n_ca n) = Some cert /\ CAKey (n_ca n) = Some (PubKey cert).

(** The CRL of that CA in the shared store. *)
Definition published (cert : Certificate) (cl : Cluster) (o : RevocationList) : Prop :=
  exists chain, blobs (shared cl) !! KeyCRL = Some (encodeCRLChain chain) /\
    ownCRLIn chain (Some cert) = Some o.

(** No replica remembers a CRL of this CA newer than the published one. *)
Definition none_ahead (cl : Cluster) (o : RevocationList) : Prop :=
  forall i n, nodes cl !! i = Some n -> behind (n_ca n) o.

Definition not_cleanup (o : op) : Prop := is_cleanup o = false.

(** What a step of one replica does to the shared CRL and to what every replica
    remembers of it. *)
Lemma step_grows cert o cl cl' crl :
  one_ca cert cl -> published cert cl crl -> not_cleanup o -> step o cl cl' ->
  one_ca cert cl' /\ exists crl', published cert cl' crl' /\ grows_to crl crl' /\
    (none_ahead cl crl -> none_ahead cl' crl').
Proof.
  intros Hone Hpub Hnc Hstep. destruct Hstep as [i n o e cl Hi _].
  destruct (Hone i n Hi) as [Ec Ek]. set (w := world_of (shared cl) n e).
  destruct (grows_run_op o Hnc w) as [(C1 & C2 & _) G].
  assert (key_matches (ca w)) as Hm.
  { intros cert' key E1 E2. change (ca w) with (n_ca n) in *. congruence. }
  assert (own_stored w crl) as Ho.
  { destruct Hpub as (chain & Hst & Ho). exists chain. split; [exact Hst|].
    change (ca w) with (n_ca n). by rewrite Ec. }
  destruct (G Hm crl Ho) as (crl' & (chain & Hst & Ho') & Hg & Hb).
  change (ca w) with (n_ca n) in C1, C2. rewrite Ec in C1. rewrite Ek in C2. split.
  - intros j m Hj. apply (nodes_step i n o e cl Hi) in Hj as [[_ Hj]|[-> ->]]; [by eapply Hone|done].
  - exists crl'. split_and!; [|exact Hg|].
    + exists chain. rewrite C1 in Ho'. done.
    + intros Ha j m Hj. apply (nodes_step i n o e cl Hi) in Hj as [[_ Hj]|[-> ->]].
      * intros x Hx Hox. eapply grows_trans; [by eapply Ha|exact Hg].
      * apply Hb. by eapply Ha.
Qed.

Lemma steps_grow cert cl cl' crl :
  steps not_cleanup cl cl' -> one_ca cert cl -> published cert cl crl ->
  one_ca cert cl' /\ exists crl', published cert cl' crl' /\ grows_to crl crl' /\
    (none_ahead cl crl -> none_ahead cl' crl').
Proof.
  intros H. revert crl. induction H as [cl|o cl1 cl2 cl3 Hnc Hstep _ IH]; intros crl Hone Hpub.
  - split; [done|]. exists crl. auto using grows_refl.
  - destruct (step_grows cert o cl1 cl2 crl Hone Hpub Hnc Hstep) as (Hone2 & crl2 & Hpub2 & G2 & B2).
    destruct (IH crl2 Hone2 Hpub2) as (Hone3 & crl3 & Hpub3 & G3 & B3).
    split; [done|]. exists crl3. split_and!; eauto using grows_trans.
Qed.

(** C1: a revocation, once published, stays published.  Whatever operations
    other than the cleanup of expired certificates the replicas run, in
    whatever order and with whatever failures, the shared store holds
    afterwards a CRL of this CA that is the earlier one or strictly newer and
    lists every serial the earlier one listed. *)
Theorem published_crl_grows cert cl cl' crl :
  one_ca cert cl -> published cert cl crl -> steps not_cleanup cl cl' ->
  exists crl', published cert cl' crl' /\ (crl' = crl \/ newerCRL crl' crl = true) /\
    forall n, n ∈ revoked_serials crl -> n ∈ revoked_serials crl'.
Proof.
  intros Hone Hpub H. destruct (steps_grow _ _ _ _ H Hone Hpub) as (_ & crl' & ? & [? ?] & _). eauto.
Qed.

(** The CRL a replica holds after a successful reload lists everything that was
    published as revoked before. *)
Lemma synced_crl cert cl cl' crl n i nd e u w :
  one_ca cert cl -> published cert cl crl -> none_ahead cl crl -> n ∈ revoked_serials crl ->
  steps not_cleanup cl cl' -> nodes cl' !! i = Some nd ->
  SyncCRLCache (world_of (shared cl') nd e) = (Ok u, w) ->
  exists o, cachedCRL (ca w) = Some o /\ n ∈ revoked_serials o.
Proof.
  intros Hone Hpub Ha Hn Hsteps Hi Hsync.
  destruct (steps_grow _ _ _ _ Hsteps Hone Hpub) as (Hone' & crl' & (chain & Hst & Ho) & [_ Hsub] & Hb).
  assert (own_stored (world_of (shared cl') nd e) crl') as Hown.
  { exists chain. split; [exact Hst|]. change (ca _) with (n_ca nd). by destruct (Hone' i nd Hi) as [-> _]. }
  destruct (sync_installs _ _ _ _ Hsync Hown (Hb Ha i nd Hi)) as (Hcached & _). eauto.
Qed.

(** C2: a revocation reaches every replica.  A serial published as revoked at
    some point is answered as revoked, or as unknown if the replica does not
    have it in its index, by any replica that has since reloaded the CRL with
    success, whatever operations and failures came in between except cleanups of
    expired certificates, which may drop the entry. *)
Theorem revocation_reaches_replica cert cl cl' crl n i nd e u w req e' a w' :
  all_coherent cl -> one_ca cert cl -> published cert cl crl -> none_ahead cl crl ->
  n ∈ revoked_serials crl ->
  steps not_cleanup cl cl' -> nodes cl' !! i = Some nd ->
  SyncCRLCache (world_of (shared cl') nd e) = (Ok u, w) ->
  q_SerialNumber req = n -> AnswerOCSP req (world_of (be (st w)) (node_of w) e') = (Ok a, w') ->
  o_Status (DER a) = if is_known (ca w) (serialHexStr n) then Revoked else Unknown.
Proof.
  intros Hcoh Hone Hpub Ha Hn Hsteps Hi Hsync <- Hans.
  pose proof (steps_coherent _ _ _ Hcoh Hsteps i nd Hi) as Hc.
  destruct (synced_crl _ _ _ _ _ _ _ _ _ _ Hone Hpub Ha Hn Hsteps Hi Hsync) as (o & Hcached & Hin).
  assert (coherent (ca w)) as Hcw.
  { eapply (mono_run keeps_coherent); [|exact Hsync|exact Hc]. mono_tac. }
  apply answer_spec in Hans as [(_ & _ & H1 & H2 & H3 & _) _]; [|exact Hcw].
  change (ca (world_of _ _ _)) with (ca w) in *. rewrite Hcached in H3.
  destruct (is_known (ca w) _); [|by auto]. destruct (o_Status (DER a)) eqn:E; [|done|by destruct (H2 eq_refl)].
  destruct (H3 eq_refl) as (x & [= <-] & Hx). by destruct Hx.
Qed.
