(* ===== verification/Generate.v ===== *)
(** * What server-side generation hands out

    Theorems about [GenerateWithOptions] of internal/ca/generate.go. *)

From S2P Require Import Prelude GoStrings GoTime X509 Inventory Storage InventorySpec Policy.
From S2P Require Import CAState CRLChain CRL OCSP CRLSafety Supersede Signing Lifecycle.
From S2P Require Import System Growth.

Lemma load_same_store : mono same_store loadCRLCache.
Proof. unfold loadCRLCache, get_ca. mono_tac. Qed.
#[export] Hint Resolve load_same_store : mono.

(** The certificate that is to be replaced. *)
Lemma generate_replacing_spec subject opts w old w1 :
  generate_replacing subject opts w = (Ok old, w1) ->
  crl_grows w w1 /\
  forall s, old = Some s -> exists pem cert,
    blobs (be (st w)) !! CertKey subject = Some pem /\ decode_cert pem = Some cert /\
    s = serialHexStr (SerialNumber cert).
Proof.
  intros H. split.
  { eapply mono_run; [|exact H]. unfold generate_replacing, storedCertSerialLocked. grows_tac. }
  intros s ->. unfold generate_replacing in H. apply bind_Ok in H as (has & w2 & H2 & H).
  pose proof (mono_run same_store _ _ _ _ (same_store_lift _ (HasCert_same _)) H2) as S2.
  destruct has; [|by minv]. cbn [negb] in H.
  apply bind_Ok in H as (u & w3 & H3 & H). apply wrapping_Ok in H3.
  pose proof (mono_run same_store _ _ _ _ load_same_store H3) as S3.
  destruct (go_ReplaceExisting opts); [|by minv]. cbn [negb] in H.
  apply bind_Ok in H as (s' & w4 & H4 & H). apply ret_Ok in H as [[= ->] ->].
  unfold storedCertSerialLocked in H4. apply bind_Ok in H4 as (pem & w5 & Hg & H4). apply wrapping_Ok in Hg.
  apply lift_Ok in Hg as (s5 & Hg & ->). unfold GetCert in Hg. apply backend_Ok in Hg as [Hg _].
  apply be_Get_Ok in Hg as [Hg _]; [|by apply on_rows_other].
  destruct (transitivity S2 S3) as (E & _). rewrite E in Hg.
  destruct (pem_Decode pem) as [[block|] rest] eqn:Hd; [|by minv].
  destruct (ParseCertificate (Bytes block)) as [cert|e] eqn:Hp; [|by minv]. apply ret_Ok in H4 as [-> _].
  exists pem, cert. split; [done|]. split; [|done]. unfold decode_cert. by rewrite Hd, Hp.
Qed.

(** The issuing part ends in the shared tail. *)
Lemma generate_issue_spec subject opts key dns extra replacing w pem w' :
  generate_issue subject opts key dns extra replacing w = (Ok pem, w') ->
  exists w1 w2 caCert cert now, crl_grows w w1 /\
    issued w1 w2 subject (mkName subject []) key (SANs dns [] [] []) extra [] (go_TTL opts) pem
      caCert cert now.
Proof.
  unfold generate_issue. intros H. apply bind_Ok in H as (u & w1 & H1 & H).
  apply bind_Ok in H as (u2 & w2 & H2 & H). apply bind_Ok in H as (pem' & w3 & H3 & H).
  apply bind_Ok in H as (u4 & w4 & _ & H). apply ret_Ok in H as [-> _].
  apply issueLeaf_spec in H3 as (caCert & cert & now & I). exists w2, w3, caCert, cert, now. split; [|done].
  transitivity w1.
  - eapply mono_run; [|exact H1]. grows_tac.
  - eapply mono_run; [|exact H2]. unfold evictRevokedLocked, storedCertLocked, get_ca. grows_tac.
Qed.

Lemma grants_extensions seen grants exts e :
  authGrantExtensions_from seen grants = Ok exts -> e ∈ exts ->
  exists g, g ∈ grants /\ e = Ext (ag_oid g) false (AString (ag_value g)).
Proof.
  revert seen exts. induction grants as [|g grants IH]; intros seen exts H He; cbn in H.
  { injection H as <-. by apply elem_of_nil in He. }
  unfold grant_extension in H. case_bool_decide; [done|]. case_bool_decide; [done|].
  destruct (authGrantExtensions_from _ grants) as [l|] eqn:E; [|done]. injection H as <-.
  apply elem_of_cons in He as [->|He]; [exists g; split; [by left|done]|].
  destruct (IH _ _ E He) as (g' & Hg & ->). exists g'. split; [by right|done].
Qed.

(** A serial printed for the CRL is read back. *)
Lemma SetString16_serial n : SetString16 (serialHexStr n) = Some n.
Proof.
  unfold serialHexStr. destruct (Z.lt_ge_cases n 0).
  - by apply SetString16_hexX_neg.
  - by apply SetString16_hexX.
Qed.

(** What generation may hand out. *)
Definition generated (w : World) (subject : string) (opts : GenerateOptions) (res : GenerateResult)
    : Prop :=
  exists caCert cert key, CACert (ca w) = Some caCert /\
    PrivateKeyPEM res = marshalPrivateKeyPEM key /\ CertificatePEM res = encode_cert cert /\
    PubKey cert = key /\ validatePublicKey key = None /\ Subject cert = mkName subject [] /\
    SignedBy cert = PubKey caCert /\ IsCA cert = false /\ NotAfter cert <= NotAfter caCert /\
    forall e, e ∈ Extensions cert -> IsAuthOID (ext_Id e) = true ->
      exists g, g ∈ go_AuthGrants opts /\ e = Ext (ag_oid g) false (AString (ag_value g)).

Lemma issued_generated w w1 w2 subject opts key dns extra pem caCert cert now b :
  same_ca w w1 -> authGrantExtensions (go_AuthGrants opts) = Ok extra ->
  (forall g, g ∈ go_AuthGrants opts -> g = PpCliAuth) ->
  issued w1 w2 subject (mkName subject []) key (SANs dns [] [] []) extra [] (go_TTL opts) pem
    caCert cert now ->
  generated w subject opts (mkGenResult (marshalPrivateKeyPEM key) pem b).
Proof.
  intros (C & _) Hx Hg I.
  assert (has_ext oidBasicConstraints extra = false) as Hbc.
  { apply has_ext_false. intros e He Eq. destruct (grants_extensions _ _ _ _ Hx He) as (g & Hin & ->).
    by rewrite (Hg g Hin) in Eq. }
  destruct (issued_bounds _ _ _ _ _ _ _ _ _ _ _ _ _ I Hbc) as (H1 & H2 & H3 & H4 & _ & H6).
  pose proof (CreateCertificate_Ok _ _ _ _ _ (is_created _ _ _ _ _ _ _ _ _ _ _ _ _ I))
    as (_ & _ & _ & _ & _ & _ & _ & aki & He). destruct I.
  exists caCert, cert, key. split_and!; try done; [congruence|].
  intros e Hin Hauth. rewrite He in Hin. apply leaf_ext_source in Hin as [Hin|Hin];
    [|apply auth_not_standard in Hin; congruence].
  rewrite leaf_extra, elem_of_app in Hin. destruct Hin as [Hin|Hin]; [|by eapply grants_extensions].
  case_bool_decide; [by apply elem_of_nil in Hin|]. by apply list_elem_of_singleton in Hin as ->.
Qed.

(** The part of generation under the subject's lock. *)
Lemma generate_locked_spec subject opts key dns extra w res w' o :
  key_matches (ca w) -> own_stored w o ->
  authGrantExtensions (go_AuthGrants opts) = Ok extra ->
  (forall g, g ∈ go_AuthGrants opts -> g = PpCliAuth) ->
  generate_locked subject opts key dns extra w = (Ok res, w') ->
  generated w subject opts res /\
  (Replaced res = true -> exists pem cert,
     blobs (be (st w)) !! CertKey subject = Some pem /\ decode_cert pem = Some cert /\
     on_crl w' (SerialNumber cert)).
Proof.
  intros Hm Ho Hx Hg. unfold generate_locked. intros H.
  apply bind_Ok in H as (old & w1 & H1 & H). apply generate_replacing_spec in H1 as [G1 Hold].
  apply bind_Ok in H as (u & w2 & H2 & H). apply bind_Ok in H as (r & w3 & H3 & H). apply try_Ok in H3.
  apply bind_Ok in H as (pem & w4 & H4 & H). apply of_result_Ok in H4 as [H4 ->].
  destruct r as [p|e]; [|done]. injection H4 as ->.
  apply bind_Ok in H as (has & w5 & H5 & H). apply bind_Ok in H as (u6 & w6 & H6 & H).
  apply ret_Ok in H as [-> ->].
  assert (crl_grows w1 w2) as G2.
  { destruct old as [s|]; (eapply mono_run; [|exact H2]); grows_tac. }
  destruct (generate_issue_spec _ _ _ _ _ _ _ _ _ H3) as (wa & wb & caCert & cert & now & Ga & I).
  assert (crl_grows w3 w6) as G6.
  { transitivity w5; (eapply mono_run; [|eassumption]); grows_tac. }
  assert (crl_grows w2 w3) as G3.
  { eapply mono_run; [|exact H3]. unfold generate_issue, evictRevokedLocked, storedCertLocked, get_ca.
    grows_tac. }
  split.
  - eapply issued_generated; [|exact Hx|exact Hg|exact I]. etrans; [apply G1|]. etrans; [apply G2|apply Ga].
  - cbn [Replaced]. destruct old as [s|]; [intros _|done].
    destruct (Hold s eq_refl) as (cpem & oldc & B & D & ->). exists cpem, oldc. split; [done|]. split; [done|].
    apply wrapping_Ok, WithLockW_Ok in H2 as (wq & Q & H2).
    assert (key_matches (ca w1)) as Hm1 by (by eapply key_matches_same; [apply G1|]).
    assert (key_matches (ca w2)) as Hm2 by (by eapply key_matches_same; [apply G2|]).
    destruct (proj2 G1 Hm o Ho) as (o1 & Ho1 & _).
    eapply on_crl_grows; [etrans; [exact G3|exact G6]|exact Hm2|].
    eapply revoke_on_crl; [|by eapply own_stored_quiet|apply SetString16_serial|exact H2].
    by eapply key_matches_same; [apply same_core_ca, Q|].
Qed.

(** Generation.  When it succeeds, the private key handed out is the key of
    the certificate handed out; the key meets the policy; the certificate bears
    the requested name and no other attribute, is signed by this CA, is no CA
    certificate, does not outlive the CA, and carries no authorisation extension
    but those the operator granted.  If it reports that it
    replaced a certificate, the replaced one, which was stored under the name,
    is on the stored CRL.  [PpCliAuth] is the only grant the code can make. *)
Theorem GenerateWithOptions_sound subject opts w res w' o :
  key_matches (ca w) -> own_stored w o ->
  (forall g, g ∈ go_AuthGrants opts -> g = PpCliAuth) ->
  GenerateWithOptions subject opts w = (Ok res, w') ->
  ValidateSubject subject = None /\ CheckKeySubject subject = None /\
  generated w subject opts res /\
  (Replaced res = true -> exists pem cert,
     blobs (be (st w)) !! CertKey subject = Some pem /\ decode_cert pem = Some cert /\
     on_crl w' (SerialNumber cert)).
Proof.
  intros Hm Ho Hg. unfold GenerateWithOptions, get_ca. intros H.
  apply bind_Ok in H as (u1 & w1 & H1 & H). apply check_Ok in H1 as [H1 ->].
  apply bind_Ok in H as (u2 & w2 & H2 & H). apply check_Ok in H2 as [H2 ->].
  apply bind_Ok in H as (u3 & w3 & H3 & H). apply check_Ok in H3 as [H3 ->].
  apply bind_Ok in H as (c & w4 & H4 & H). apply gets_Ok in H4 as [-> ->]. cbn [id] in H.
  destruct (IsReady (ca w)); [|by minv]. cbn [negb] in H.
  apply bind_Ok in H as (extra & w5 & H5 & H). apply of_result_Ok in H5 as [H5 ->].
  apply bind_Ok in H as (n & w6 & H6 & H). apply bind_Ok in H as (key & w7 & H7 & H).
  apply bind_Ok in H as (u8 & w8 & H8 & H).
  assert (quiet w w8) as Q.
  { transitivity w6; [eapply mono_run; [|exact H6]; mono_tac|].
    transitivity w7; (eapply mono_run; [|eassumption]); mono_tac. }
  split; [done|]. split; [done|]. apply WithLockW_Ok in H as (w9 & Q9 & H).
  assert (quiet w w9) as Q' by (by etrans).
  destruct (generate_locked_spec _ _ _ _ _ _ _ _ o (key_matches_same _ _ (same_core_ca _ _ (proj1 Q')) Hm)
    (own_stored_quiet _ _ _ Q' Ho) H5 Hg H) as [G R].
  destruct Q' as [Qc Qs]. split.
  - destruct G as (caCert & cert & k & Hc & G). exists caCert, cert, k. split; [|exact G].
    destruct (same_core_ca _ _ Qc) as (E & _). congruence.
  - destruct Qs as (E & _). rewrite E in R. exact R.
Qed.
