(* ===== verification/ManagedSafety.v ===== *)
(** * ManagedSafety: what reconciling managed certificates guarantees

    What a pass hands out, that it comes to rest, and how often a store that
    refuses its writes is tried. *)

From S2P Require Import Prelude GoStrings GoTime X509 Verify Inventory Storage InventorySpec Policy.
From S2P Require Import CAState CRLChain CRL OCSP CRLSafety Supersede Signing Lifecycle ManagedCert System Growth Generate.

(** ** Extensions of a managed leaf *)

Lemma leaf_eku t aki :
  t_ExtKeyUsage t <> [] -> has_ext oidExtKeyUsage (t_ExtraExtensions t) = false ->
  find_ext oidExtKeyUsage (buildCertExtensions t aki) = Some (AExtKeyUsage (t_ExtKeyUsage t)).
Proof.
  intros Hu He. unfold find_ext, buildCertExtensions.
  rewrite !filter_app, !filter_unless, He, (has_ext_filter _ _ He).
  rewrite !(bool_decide_eq_false_2 (_ = oidExtKeyUsage)) by done.
  rewrite !andb_false_r, (bool_decide_eq_false_2 (t_ExtKeyUsage t = [])) by done.
  by rewrite bool_decide_eq_true_2.
Qed.

Lemma unless_sublist (oid : OID) (b crit : bool) v :
  sublist (map ext_Id (if b then [Ext oid crit v] else [])) [oid].
Proof. destruct b; [done|]. apply sublist_nil_l. Qed.

Lemma leaf_no_duplicates t aki :
  (t_ExtraExtensions t = [] \/ exists v, t_ExtraExtensions t = [Ext OIDAIA false v]) ->
  duplicate_exts (buildCertExtensions t aki) = false.
Proof.
  intros Hx. unfold duplicate_exts. rewrite bool_decide_eq_true_2; [done|].
  assert (sublist (map ext_Id (buildCertExtensions t aki))
    ([oidKeyUsage] ++ [oidExtKeyUsage] ++ [oidBasicConstraints] ++ [oidSubjectKeyId]
     ++ [oidAuthorityKeyId] ++ [oidSubjectAltName] ++ [oidCRLDistributionPoints] ++ [OIDAIA])) as H.
  { unfold buildCertExtensions. rewrite !map_app.
    repeat (apply sublist_app; [apply unless_sublist|]).
    destruct Hx as [->|[v ->]]; [apply sublist_nil_l|done]. }
  eapply sublist_NoDup; [|exact H]. apply (bool_decide_unpack _). by vm_compute.
Qed.

(** ** What a pass hands out *)

(** A certificate that fills a specification, with its key. *)
Record fills (spec : CertSpec) (caCert cert : Certificate) (key : PublicKey) : Prop := {
  fl_key : PubKey cert = key;
  fl_policy : validatePublicKey key = None;
  fl_name : Subject cert = mkName (cs_Subject spec) [];
  fl_sans : cert_sans cert = spec_sans spec;
  fl_usage : cert_EKU cert = if bool_decide (cs_ExtKeyUsage spec = []) then defaultLeafExtKeyUsage
                             else cs_ExtKeyUsage spec;
  fl_signed : SignedBy cert = PubKey caCert;
  fl_leaf : IsCA cert = false;
  fl_until : NotAfter cert <= NotAfter caCert;
  fl_auth : forall e, e ∈ Extensions cert -> IsAuthOID (ext_Id e) = false;
  fl_parses : stored_leaf (encode_cert cert) = Some cert }.

(** It was made at [at_] to last as long as specified, or else as configured,
    but not beyond the CA, and to count from a little earlier. *)
Definition lasts (c : Config) (spec : CertSpec) (caCert cert : Certificate) (at_ : Time) : Prop :=
  NotBefore cert = trunc_sec (at_ - leafBackdate c) /\
  NotAfter cert = trunc_sec (at_ + Z.min (if 0 <? cs_TTL spec then cs_TTL spec else leaf_validity c 0)
                                         (time_Sub (NotAfter caCert) at_)).

Lemma issued_lasts spec key w w' pem caCert cert now :
  issued w w' (cs_Subject spec) (mkName (cs_Subject spec) []) key (spec_sans spec) []
    (cs_ExtKeyUsage spec) (cs_TTL spec) pem caCert cert now ->
  lasts (cfg (ca w)) spec caCert cert now.
Proof.
  intros I. pose proof (CreateCertificate_Ok _ _ _ _ _ (is_created _ _ _ _ _ _ _ _ _ _ _ _ _ I))
    as (_ & _ & _ & Hb & Ha & _). split; [done|]. rewrite Ha. cbn. unfold leaf_validity. by destruct (0 <? cs_TTL spec).
Qed.

Lemma issued_fills spec key w w' pem caCert cert now :
  issued w w' (cs_Subject spec) (mkName (cs_Subject spec) []) key (spec_sans spec) []
    (cs_ExtKeyUsage spec) (cs_TTL spec) pem caCert cert now ->
  fills spec caCert cert key.
Proof.
  intros I. destruct (issued_bounds _ _ _ _ _ _ _ _ _ _ _ _ _ I eq_refl) as (H1 & H2 & H3 & H4 & _ & H6).
  pose proof (CreateCertificate_Ok _ _ _ _ _ (is_created _ _ _ _ _ _ _ _ _ _ _ _ _ I))
    as (_ & _ & _ & _ & _ & _ & _ & aki & He). destruct I.
  set (t := leaf_template _ _ _ _ _ _ _ _ _ _) in He.
  assert (t_ExtraExtensions t = [] \/ exists v, t_ExtraExtensions t = [Ext OIDAIA false v]) as Hx.
  { subst t. rewrite leaf_extra, app_nil_r. case_bool_decide; [by left|right; by eexists]. }
  assert (forall oid, oid <> OIDAIA -> has_ext oid (t_ExtraExtensions t) = false) as Hno.
  { intros oid Ho. apply has_ext_false. intros e Hin E.
    destruct Hx as [Hx|[v Hx]]; rewrite Hx in Hin; [by apply elem_of_nil in Hin|].
    apply list_elem_of_singleton in Hin as ->. by apply Ho. }
  constructor; try done.
  - unfold cert_sans. rewrite He. by apply leaf_sans, Hno.
  - unfold cert_EKU. rewrite He, leaf_eku; [done| |by apply Hno].
    subst t. cbn. by case_bool_decide.
  - intros e Hin. rewrite He in Hin. apply leaf_ext_source in Hin as [Hin|Hin]; [|by apply auth_not_standard].
    destruct Hx as [Hx|[v Hx]]; rewrite Hx in Hin; [by apply elem_of_nil in Hin|].
    by apply list_elem_of_singleton in Hin as ->.
  - unfold stored_leaf. cbn. by rewrite He, leaf_no_duplicates.
Qed.

(** Where the key comes from: a fresh one of the configured kind, or the stored
    one when reuse is asked for and its certificate is this CA's, for this
    subject, for this key, and known not to be revoked. *)
Definition key_origin (w : World) (spec : CertSpec) (caCert : Certificate) (stored : blob * blob)
    (key : PublicKey) : Prop :=
  (exists id, generateKey (keyConfigFor (cfg (ca w)) spec) id = Ok key) \/
  (cs_ReuseKey spec = true /\ exists old crl,
     stored_leaf stored.1 = Some old /\ parseStoredKey (pem_Decode stored.2).1 = Ok key /\
     CheckSignatureFrom old caCert = true /\ CommonName (Subject old) = cs_Subject spec /\
     PubKey old = key /\ cachedCRL (ca w) = Some crl /\ serialInCRL crl (SerialNumber old) = false).

Lemma key_origin_quiet w w' spec caCert stored key :
  quiet w w' -> key_origin w' spec caCert stored key -> key_origin w spec caCert stored key.
Proof.
  intros [C _]. destruct (same_core_ca _ _ C) as (_ & _ & E). unfold key_origin. rewrite E.
  replace (cachedCRL (ca w')) with (cachedCRL (ca w)); [done|].
  unfold same_core, core in C. congruence.
Qed.

Lemma issueManaged_Ok m place issuer current kpem rev s s' :
  issueManaged m place issuer current kpem rev s = (Ok true, s') ->
  let spec := mc_Spec m in
  exists key w1 w2 pem caCert cert now,
    issuanceKeyFor m issuer current kpem rev (mc_world s) = (Ok key, w1) /\
    issued w1 w2 (cs_Subject spec) (mkName (cs_Subject spec) []) key (spec_sans spec) []
      (cs_ExtKeyUsage spec) (cs_TTL spec) pem caCert cert now /\
    material s' = <[place := (pem, marshalPrivateKeyPEM key)]> (material s) /\
    saveFailures s' = delete (cs_Subject spec) (saveFailures s).
Proof.
  intros H spec. unfold issueManaged in H. fold spec in H.
  apply bind_Ok in H as (key & s1 & (Hk & M1 & F1)%on_world_run & H).
  apply bind_Ok in H as (pem & s2 & Hi%wrapping_Ok & H). apply on_world_run in Hi as (Hi & M2 & F2).
  apply bind_Ok in H as (saved & s3 & Hs%try_Ok & H). apply Save_run in Hs as (_ & F3 & Hs).
  apply bind_Ok in H as (now & s4 & (_ & M4 & F4)%on_world_run & H).
  apply bind_Ok in H as (u & s5 & Hr%modify_Ok & H).
  destruct saved as [[]|e]; [|by apply bind_Ok in H as (? & ? & _ & ?%fail_Ok)].
  apply bind_Ok in H as (u' & s6 & (_ & M6 & F6)%on_world_run & [_ ->]%ret_Ok).
  apply issueLeaf_spec in Hi as (caCert & cert & now' & I).
  exists key, (mc_world s1), (mc_world s2), pem, caCert, cert, now'.
  split; [done|]. split; [done|]. rewrite M6, F6, Hr. cbn. rewrite M4, F4, F3, F2, F1.
  split; [|done]. destruct Hs as [[_ ->]|[[e ?] _]]; [|done]. by rewrite M2, M1.
Qed.

Lemma issuance_key_origin m caCert current stored s w1 key rev :
  CACert (ca (mc_world s)) = Some caCert ->
  issuanceKeyFor m (Some caCert) current stored.2 rev (mc_world s) = (Ok key, w1) ->
  (forall old, current = Some old -> stored_leaf stored.1 = Some old) ->
  (rs_Known rev = true -> rs_Revoked rev = false -> forall old, stored_leaf stored.1 = Some old ->
     exists crl, cachedCRL (ca (mc_world s)) = Some crl /\ serialInCRL crl (SerialNumber old) = false) ->
  key_origin (mc_world s) (mc_Spec m) caCert stored key /\ quiet (mc_world s) w1.
Proof.
  intros Hca H Hcur Hrev. unfold issuanceKeyFor in H.
  destruct (reusable_key _ _ _ _ _) as [k|] eqn:E.
  - apply ret_Ok in H as [-> ->]. split; [right|done]. unfold reusable_key in E.
    destruct (cs_ReuseKey (mc_Spec m)); [|done]. split; [done|]. cbn [negb] in E.
    destruct current as [old|]; [|done]. case_bool_decide; [done|].
    destruct (parseStoredKey _) as [k'|] eqn:P; [|done].
    destruct (storedKeyIsOurs _ _ _ _) eqn:O; [|done].
    destruct (rs_Revoked rev) eqn:Rv; [done|]. destruct (rs_Known rev) eqn:Kn; [|done]. injection E as ->.
    specialize (Hcur old eq_refl). destruct (Hrev eq_refl eq_refl old Hcur) as (crl & Hc & Hs).
    exists old, crl. unfold storedKeyIsOurs, currentIsThisSubjects, publicKeysEqual in O. bool_hyps.
    by split_and!.
  - unfold get_ca in H. apply bind_Ok in H as (c & w & [-> ->]%gets_Ok & H).
    apply bind_Ok in H as (id & w2 & Hid%wrapping_Ok & [Hg ->]%wrapping_Ok%of_result_Ok).
    split; [left; by exists id|]. eapply mono_run, Hid. apply quiet_lift. auto with mono.
Qed.

(** The material a pass finds. *)
Definition held (s : Managed) (place : string) : blob * blob :=
  default (empty_blob, empty_blob) (material s !! place).

Lemma revocation_of certPEM s r s' :
  on_world (storedMaterialRevoked certPEM) s = (Ok r, s') ->
  s' = s /\
  (rs_Known r = true -> rs_Revoked r = false -> forall old, stored_leaf certPEM = Some old ->
     exists crl, cachedCRL (ca (mc_world s)) = Some crl /\ serialInCRL crl (SerialNumber old) = false).
Proof.
  unfold on_world, storedMaterialRevoked, IsRevokedSerial, get_ca, try, gets, mbind, M_bind, mret, M_ret, fail.
  destruct s as [w mt sf]; cbn. destruct (stored_leaf certPEM) as [leaf|]; [|intros [= <- <-]; done].
  destruct (cachedCRL (ca w)) as [crl|]; intros [= <- <-]; cbn; (split; [done|]); [|done].
  intros _ Hr old [= <-]. by exists crl.
Qed.

Lemma decision_current cpem kpem want issuer backdate now revoked old :
  (issueDecision cpem kpem want issuer backdate now revoked).2 = Some old -> stored_leaf cpem = Some old.
Proof. unfold issueDecision. intros H. repeat case_match; cbn in H; congruence. Qed.

Lemma quiet_displacing subject current : mono quiet (warnIfDisplacing subject current).
Proof.
  unfold warnIfDisplacing, IsRevokedSerial, get_ca, GetCert.
  repeat first [apply quiet_lift; solve [auto with mono] | mono_step].
Qed.

(** Time does not go back. *)
Definition later : relation World := fun w w' => clock (st w) <= clock (st w').
#[local] Instance later_preorder : PreOrder later.
Proof. split; unfold later; [intros w; lia|intros ? ? ?; lia]. Qed.
Lemma later_backend {A} (op : BOp A) : mono later (lift (backend op)).
Proof.
  intros w. unfold exec, lift, backend, pop_fault, later. destruct (faults (st w)) as [|[] fs];
    try destruct (op _) as [r b]; cbn; lia.
Qed.
Lemma later_external e : mono later (lift (external e)).
Proof. intros w. unfold exec, lift, external, pop_fault, later. destruct (faults (st w)) as [|[] fs]; cbn; lia. Qed.
Lemma later_rand n : mono later (lift (rand_Int n)).
Proof. intros w. unfold exec, lift, rand_Int, later. destruct (rands (st w)); cbn; lia. Qed.
Lemma later_lock name : mono later (lift (WithLock name (mret tt))).
Proof.
  intros w. unfold exec, lift, WithLock, mbind, M_bind, external, pop_fault, later.
  destruct (faults (st w)) as [|[] fs]; cbn; lia.
Qed.
#[local] Hint Resolve later_backend later_external later_rand : mono.
Lemma later_displacing subject current : mono later (warnIfDisplacing subject current).
Proof. unfold warnIfDisplacing, IsRevokedSerial, get_ca, GetCert. mono_tac. Qed.
Lemma later_issuance m issuer current kpem rev : mono later (issuanceKeyFor m issuer current kpem rev).
Proof. unfold issuanceKeyFor, get_ca. mono_tac. Qed.

(** What a pass that issued did: the decision asked for it, and the store now
    holds what was issued. *)
Record passed (m : ManagedCert) (place : string) (now : Time) (caCert : Certificate) (s s' : Managed)
    (cert : Certificate) (key : PublicKey) (at_ : Time) : Prop := {
  ps_asked : exists revoked, (issueDecision (held s place).1 (held s place).2 (mc_Spec m) (Some caCert)
    (leafBackdate (cfg (ca (mc_world s)))) now revoked).1.1 = true;
  ps_origin : key_origin (mc_world s) (mc_Spec m) caCert (held s place) key;
  ps_issued : exists w1 w2, quiet (mc_world s) w1 /\
    issued w1 w2 (cs_Subject (mc_Spec m)) (mkName (cs_Subject (mc_Spec m)) []) key
      (spec_sans (mc_Spec m)) [] (cs_ExtKeyUsage (mc_Spec m)) (cs_TTL (mc_Spec m))
      (encode_cert cert) caCert cert at_;
  ps_clock : clock (st (mc_world s)) <= at_;
  ps_stored : material s' = <[place := (encode_cert cert, marshalPrivateKeyPEM key)]> (material s) }.

Lemma under_lock_Ok m place now s s' caCert :
  CACert (ca (mc_world s)) = Some caCert ->
  reconcile_under_lock m place now (Some caCert) s = (Ok true, s') ->
  exists cert key at_, passed m place now caCert s s' cert key at_.
Proof.
  intros Hca H. unfold reconcile_under_lock in H.
  apply bind_Ok in H as ([cpem kpem] & s3 & Hl%wrapping_Ok & H). unfold Load in Hl.
  apply bind_Ok in Hl as (u2 & s1 & (L1 & M1 & _)%on_world_run & [Hh ->]%gets_Ok).
  assert (quiet (mc_world s) (mc_world s1)) as Q1.
  { eapply mono_run, L1. apply quiet_lift. auto with mono. }
  assert (held s place = (cpem, kpem)) as Hheld by (unfold held; by rewrite <- M1).
  apply bind_Ok in H as (rev & s4 & [-> Hrev]%revocation_of & H).
  apply bind_Ok in H as (cf & s4 & Hcf & H). unfold on_world, get_ca, gets in Hcf. injection Hcf as <- <-.
  destruct s1 as [w1 mt1 sf1]. cbn [mc_world material saveFailures] in *.
  destruct (issueDecision _ _ _ _ _ _ _) as [[issue reason] current] eqn:D.
  destruct issue; [|by apply ret_Ok in H as [? _]]. cbn [negb] in H.
  apply bind_Ok in H as (wait & s5 & [-> ->]%gets_Ok & H).
  destruct (skipForSaveBackoff _ _ _); [by apply ret_Ok in H as [? _]|].
  apply bind_Ok in H as (dis & s6 & (W & M6 & _)%on_world_run & H). cbn [mc_world material] in W, M6.
  assert (quiet (mc_world s) (mc_world s6)) as Q6.
  { etrans; [exact Q1|]. eapply mono_run, W. apply quiet_displacing. }
  apply issueManaged_Ok in H as (key & w2 & w3 & pem & caCert' & cert & at_ & Hk & I & HM & _).
  destruct (same_core_ca _ _ (proj1 Q6)) as (EC & _ & _).
  destruct (issuance_key_origin m caCert current (cpem, kpem) s6 w2 key rev) as [Ho Q2]; [congruence|done|..].
  { intros old ->. exact (decision_current _ _ _ _ _ _ _ _ (f_equal snd D)). }
  { intros K R old Hold. destruct (Hrev K R old Hold) as (crl & Hc & Hs). exists crl. split; [|done].
    rewrite <- Hc. pose proof (proj1 Q1) as C1. pose proof (proj1 Q6) as C6.
    unfold same_core, core in C1, C6. congruence. }
  assert (caCert' = caCert) as ->.
  { pose proof (is_ca _ _ _ _ _ _ _ _ _ _ _ _ _ I) as E.
    destruct (same_core_ca _ _ (proj1 Q2)) as (EC2 & _ & _). congruence. }
  pose proof (is_pem _ _ _ _ _ _ _ _ _ _ _ _ _ I) as ->.
  assert (clock (st (mc_world s)) <= at_) as Hclock.
  { etrans; [exact (mono_run later _ _ _ _ (later_external _) L1)|].
    etrans; [exact (mono_run later _ _ _ _ (later_displacing _ _) W)|].
    etrans; [exact (mono_run later _ _ _ _ (later_issuance _ _ _ _ _) Hk)|]. apply (is_clock _ _ _ _ _ _ _ _ _ _ _ _ _ I). }
  exists cert, key, at_. split; [..|exact Hclock|].
  - exists (rs_Revoked rev). rewrite Hheld. cbn [fst snd].
    destruct (same_core_ca _ _ (proj1 Q1)) as (_ & _ & E).
    rewrite <- E. exact (f_equal (fun d => d.1.1) D).
  - rewrite Hheld. by eapply key_origin_quiet.
  - exists w2, w3. split; [by etrans|done].
  - by rewrite HM, M6, <- M1.
Qed.

Lemma reconcile_Ok m now s s' caCert :
  CACert (ca (mc_world s)) = Some caCert ->
  reconcileManagedCert m now s = (Ok true, s') ->
  Validate (mc_Spec m) = None /\
  exists place cert key at_, mc_Place m = Some place /\ passed m place now caCert s s' cert key at_.
Proof.
  intros Hca. unfold reconcileManagedCert. intros H.
  apply bind_Ok in H as (u & s1 & [HV ->]%check_Ok & H). split; [done|].
  destruct (mc_Place m) as [place|]; [|done].
  apply bind_Ok in H as (c & s1 & Hc & H). unfold on_world at 1, get_ca, gets in Hc. injection Hc as <- <-.
  cbn [id] in H. destruct (IsReady _); [|done]. cbn [negb] in H. rewrite Hca in H.
  apply bind_Ok in H as (u1 & s2 & (L & M2 & _)%on_world_run & H). cbn [mc_world material] in L, M2.
  assert (quiet (mc_world s) (mc_world s2)) as Q2.
  { eapply mono_run, L. apply quiet_lift, WithLock_same. mono_tac. }
  destruct (same_core_ca _ _ (proj1 Q2)) as (EC & _ & EF).
  pose proof (mono_run later _ _ _ _ (later_lock _) L) as HL. unfold later in HL.
  apply under_lock_Ok in H as (cert & key & at_ & [A O (w1 & w2 & Q & I) HC HM]); [|congruence].
  exists place, cert, key, at_. split; [done|]. unfold held in *. rewrite M2, EF in *. split; [done|..|lia|done].
  - by eapply key_origin_quiet.
  - exists w1, w2. split; [by etrans|done].
Qed.


(** ** A pass comes to rest *)

(** The part of a certificate's life that lies after its issue. *)
Definition forward_life (c : Config) (cert : Certificate) : Z :=
  NotAfter cert - NotBefore cert - leafBackdate c.

Lemma window_half leaf want c :
  leafBackdate c <= int64_max -> NotBefore leaf <= NotAfter leaf ->
  2 * renewWindowFor leaf want (leafBackdate c) <= Z.max 0 (forward_life c leaf).
Proof.
  intros Hb Hn. unfold renewWindowFor, forward_life. pose proof (leafBackdate_pos c).
  rewrite wrap64_id by (unfold time_Sub, int64_min, int64_max in *; lia).
  set (f := time_Sub _ _ - _). assert (f <= NotAfter leaf - NotBefore leaf - leafBackdate c) as Hf.
  { subst f. pose proof (time_Sub_le (NotAfter leaf) (NotBefore leaf) Hn). lia. }
  destruct (f <=? 0) eqn:E; [lia|]. apply Z.leb_gt in E.
  pose proof (Z.quot_le_mono f f 2). pose proof (Z.mul_quot_le f 2). lia.
Qed.

Lemma key_rereads key : parseStoredKey (pem_Decode (marshalPrivateKeyPEM key)).1 = Ok key.
Proof. by destruct key. Qed.

Lemma spec_uris spec : Validate spec = None ->
  forall u, u ∈ cs_URIs spec -> exists t, u = Some t /\ t ∈ omap id (cs_URIs spec).
Proof.
  intros H. assert (existsb (fun u => match u with None => true | Some t => bool_decide (t = "") end)
    (cs_URIs spec) = false) as Hu by (unfold Validate in H; repeat case_match; done).
  intros u Hin. assert (~ (match u with None => true | Some t => bool_decide (t = "") end = true)) as Hn.
  { intros E. apply not_true_iff_false in Hu. apply Hu. apply existsb_exists. exists u.
    split; [by apply list_elem_of_In|done]. }
  destruct u as [t|]; [|done]. exists t. split; [done|]. apply list_elem_of_omap. by exists (Some t).
Qed.

(** A certificate that fills its specification is current until half of its
    life is over. *)
Lemma filled_is_current spec caCert cert key c t :
  Validate spec = None -> fills spec caCert cert key ->
  parent_may_sign KeyUsageCertSign caCert = true ->
  leafBackdate c <= int64_max -> NotBefore cert <= t -> Z.max 0 (forward_life c cert) < 2 * (NotAfter cert - t) ->
  issueDecision (encode_cert cert) (marshalPrivateKeyPEM key) spec (Some caCert) (leafBackdate c) t false
    = (false, reasonCurrent, Some cert).
Proof.
  intros HV F Hs Hb Hnb Ht. destruct F. unfold issueDecision. rewrite fl_parses0.
  change (bool_decide (blob_text (encode_cert cert) = "")) with false. cbv iota.
  unfold CheckSignatureFrom. rewrite Hs, fl_signed0, bool_decide_eq_true_2 by done. cbn [andb negb].
  rewrite bool_decide_eq_false_2 by by destruct key. rewrite key_rereads.
  unfold publicKeysEqual. rewrite bool_decide_eq_true_2 by done. cbn [negb].
  assert (leafCarriesNames cert spec = true) as ->.
  { unfold leafCarriesNames. rewrite fl_name0, fl_sans0. cbn. rewrite bool_decide_eq_true_2 by done.
    rewrite !andb_true_iff, !forallb_forall. split_and!; [done|..].
    1-3: intros x Hx; by apply bool_decide_eq_true, list_elem_of_In.
    intros u Hu%list_elem_of_In. destruct (spec_uris _ HV u Hu) as (x & -> & Hx).
    by apply bool_decide_eq_true. }
  assert (leafCarriesUsages cert spec = true) as ->.
  { unfold leafCarriesUsages. rewrite fl_usage0. by apply bool_decide_eq_true. }
  cbn [negb]. pose proof (window_half cert spec c Hb). 
  assert (t <? NotAfter cert - renewWindowFor cert spec (leafBackdate c) = true) as ->; [|done].
  apply Z.ltb_lt. lia.
Qed.

(** A later state of the same CA: the store holds the certificate, the CRL in
    memory does not list it, and no failure is in store. *)
Record at_rest (m : ManagedCert) (place : string) (caCert cert : Certificate) (key : PublicKey)
    (backdate : Duration) (s : Managed) : Prop := {
  ar_place : mc_Place m = Some place;
  ar_ca : CACert (ca (mc_world s)) = Some caCert;
  ar_key : is_Some (CAKey (ca (mc_world s)));
  ar_backdate : leafBackdate (cfg (ca (mc_world s))) = backdate;
  ar_held : material s !! place = Some (encode_cert cert, marshalPrivateKeyPEM key);
  ar_live : forall crl, cachedCRL (ca (mc_world s)) = Some crl -> serialInCRL crl (SerialNumber cert) = false;
  ar_faults : faults (st (mc_world s)) = [] }.

Lemma bind_eval {S A B} (m : M S A) (k : A -> M S B) s a s1 :
  m s = (Ok a, s1) -> (m ≫= k) s = k a s1.
Proof. unfold mbind, M_bind. by intros ->. Qed.

Lemma quiet_step {A} (s : Managed) (m : MW A) (r : result A) :
  m (mc_world s) = (r, mc_world s) -> on_world m s = (r, s).
Proof. unfold on_world. destruct s. cbn. by intros ->. Qed.

Lemma no_fault {A} e (k : MS A) w :
  faults (st w) = [] -> lift (_ ← external e; k) w = lift k w.
Proof. intros H. unfold lift, mbind, M_bind, external, pop_fault. by rewrite H. Qed.

Lemma lift_ret {A} (a : A) w : lift (mret a) w = (Ok a, w).
Proof. by destruct w. Qed.

Lemma rest_revocation cert s :
  stored_leaf (encode_cert cert) = Some cert ->
  (forall crl, cachedCRL (ca (mc_world s)) = Some crl -> serialInCRL crl (SerialNumber cert) = false) ->
  exists r, rs_Revoked r = false /\ storedMaterialRevoked (encode_cert cert) (mc_world s) = (Ok r, mc_world s).
Proof.
  intros Hl Hc. unfold storedMaterialRevoked, IsRevokedSerial, get_ca. rewrite Hl.
  unfold try, mbind, M_bind, gets, mret, M_ret, fail.
  destruct (cachedCRL (ca (mc_world s))) as [crl|]; eexists; (split; [|reflexivity]); [|done].
  by apply Hc.
Qed.

Lemma rest_pass m place caCert cert key s t :
  Validate (mc_Spec m) = None -> fills (mc_Spec m) caCert cert key ->
  parent_may_sign KeyUsageCertSign caCert = true ->
  at_rest m place caCert cert key (leafBackdate (cfg (ca (mc_world s)))) s ->
  leafBackdate (cfg (ca (mc_world s))) <= int64_max -> NotBefore cert <= t ->
  Z.max 0 (forward_life (cfg (ca (mc_world s))) cert) < 2 * (NotAfter cert - t) ->
  reconcileManagedCert m t s = (Ok false, s).
Proof.
  intros HV F Hs [Rp Rc [k Rk] _ Rh Rl Rf] Hb Hnb Ht.
  destruct (rest_revocation cert s (fl_parses _ _ _ _ F) Rl) as (r & Hr & Hrun).
  unfold reconcileManagedCert. rewrite HV, Rp.
  erewrite bind_eval by reflexivity. erewrite bind_eval by (by apply quiet_step).
  unfold IsReady. cbn [id]. rewrite Rc, Rk. cbn [negb].
  erewrite bind_eval by (apply quiet_step; unfold WithLock; rewrite no_fault by done; apply lift_ret).
  unfold reconcile_under_lock.
  erewrite bind_eval.
  2: { unfold wrapping, Load. erewrite bind_eval.
       2: { apply quiet_step. unfold lift, external, pop_fault. rewrite Rf. by destruct (mc_world s). }
       unfold gets. by rewrite Rh. }
  cbn [from_option id]. erewrite bind_eval by (apply quiet_step; exact Hrun).
  erewrite bind_eval by (by apply quiet_step).
  rewrite Hr. by rewrite (filled_is_current _ _ _ _ (cfg (ca (mc_world s))) t HV F Hs Hb Hnb Ht).
Qed.

(** C37: reconciling comes to rest.  After a pass that issued, every later pass,
    until half of what then remained of the certificate's life is over, finds it
    current and changes nothing at all, as long as the store keeps it and the
    CRL does not list it: a renewal window longer than the certificate itself
    does not make every pass issue again.  The moment of issue itself, to which
    the certificate is backdated, is within that span for any certificate valid
    for at least two seconds. *)
Theorem managed_certificate_settles m now s s' caCert :
  CACert (ca (mc_world s)) = Some caCert ->
  parent_may_sign KeyUsageCertSign caCert = true ->
  leafBackdate (cfg (ca (mc_world s))) <= int64_max ->
  reconcileManagedCert m now s = (Ok true, s') ->
  let c := cfg (ca (mc_world s)) in
  exists place cert key at_, mc_Place m = Some place /\
    material s' !! place = Some (encode_cert cert, marshalPrivateKeyPEM key) /\
    NotBefore cert = trunc_sec (at_ - leafBackdate c) /\
    (forall s2 t, at_rest m place caCert cert key (leafBackdate c) s2 -> NotBefore cert <= t ->
       Z.max 0 (forward_life c cert) < 2 * (NotAfter cert - t) ->
       reconcileManagedCert m t s2 = (Ok false, s2)) /\
    (2 * Second <= leaf_validity c (cs_TTL (mc_Spec m)) -> 2 * Second <= NotAfter caCert - at_ ->
     Z.max 0 (forward_life c cert) < 2 * (NotAfter cert - at_)).
Proof.
  intros Hca Hs Hb H c. destruct (reconcile_Ok _ _ _ _ _ Hca H) as (HV & place & cert & key & at_ & Hp & P).
  destruct P as [_ _ (w1 & w2 & Q & I) _ HM]. pose proof (issued_fills _ _ _ _ _ _ _ _ I) as F.
  destruct (same_core_ca _ _ (proj1 Q)) as (_ & _ & EC). fold c in EC.
  pose proof (CreateCertificate_Ok _ _ _ _ _ (is_created _ _ _ _ _ _ _ _ _ _ _ _ _ I))
    as (_ & _ & _ & HB & HA & _). cbn in HB, HA. rewrite EC in HB, HA.
  pose proof (leafBackdate_pos c) as Hbp.
  exists place, cert, key, at_. split_and!; [done|..].
  - by rewrite HM, lookup_insert_eq.
  - done.
  - intros s2 t R Hnb Ht. pose proof (ar_backdate _ _ _ _ _ _ _ R) as E.
    eapply rest_pass; try done; [by rewrite E|by rewrite E|]. unfold forward_life in *. by rewrite E.
  - intros HL HR. unfold forward_life. rewrite HA, HB. unfold trunc_sec, Second in *.
    unfold time_Sub, int64_min, int64_max. dlia.
Qed.

(** ** A store that refuses its writes *)

Lemma small_waits :
  forallb (fun n => save_wait n =? managedSaveBackoffBase * 2 ^ (n - 2)) (seqZ 2 7) = true /\
  forallb (fun n => save_wait n =? managedSaveBackoffCap) (seqZ 9 46) = true.
Proof. split; vm_compute; reflexivity. Qed.

(** The wait doubles up to the seventh repeated failure and then stays at the
    cap, also where the shift overflows 64 bits. *)
Lemma save_wait_values n :
  (2 <= n < 9 -> save_wait n = managedSaveBackoffBase * 2 ^ (n - 2)) /\
  (9 <= n -> save_wait n = managedSaveBackoffCap).
Proof.
  destruct small_waits as [H1 H2]. rewrite !forallb_forall in H1, H2.
  split; intros Hn; [apply Z.eqb_eq, H1, list_elem_of_In, elem_of_seqZ; lia|].
  destruct (Z.le_gt_cases n 54); [apply Z.eqb_eq, H2, list_elem_of_In, elem_of_seqZ; lia|].
  unfold save_wait. rewrite Z.shiftl_mul_pow2 by lia.
  replace (managedSaveBackoffBase * 2 ^ (n - 2)) with (439453125 * 2 ^ (n - 55) * 2 ^ 64).
  - unfold wrap64. rewrite Z.add_comm, Z.mod_add by lia. reflexivity.
  - replace (n - 2) with (n - 55 + 53) by lia. rewrite Z.pow_add_r by lia.
    change managedSaveBackoffBase with (439453125 * 2 ^ 11). ring.
Qed.

Lemma save_wait_bounds n : 2 <= n ->
  managedSaveBackoffBase <= save_wait n <= managedSaveBackoffCap /\ save_wait n <= save_wait (n + 1).
Proof.
  intros Hn. assert (n = 2 \/ n = 3 \/ n = 4 \/ n = 5 \/ n = 6 \/ n = 7 \/ n = 8 \/ 9 <= n) as H by lia.
  destruct_or! H; [subst; vm_compute; done..|].
  rewrite !(proj2 (save_wait_values _)) by lia. vm_compute. done.
Qed.

(** Nothing but the scripts moved. *)
Definition unmoved : relation Managed := fun s s' =>
  quiet (mc_world s) (mc_world s') /\ material s' = material s /\ saveFailures s' = saveFailures s.
#[global] Instance unmoved_preorder : PreOrder unmoved.
Proof.
  split; [done|]. intros ? ? ? (? & ? & ?) (? & ? & ?). split; [by etrans|]. split; congruence.
Qed.

Lemma unmoved_world {A} (m : MW A) : mono quiet m -> mono unmoved (on_world m).
Proof.
  intros H s. unfold exec. destruct (on_world m s) as [r s'] eqn:E.
  apply on_world_run in E as (E & ? & ?). split; [|done]. apply (mono_run _ _ _ _ _ H E).
Qed.

Lemma backoff_skips subject now s f :
  saveFailures s !! subject = Some f -> 2 <= sf_count f ->
  sf_last f <= now < sf_last f + save_wait (sf_count f) ->
  is_Some (skipForSaveBackoff subject now s).
Proof.
  intros Hf Hc Hn. unfold skipForSaveBackoff. rewrite Hf.
  replace (sf_count f <=? 1) with false by (symmetry; apply Z.leb_gt; lia).
  destruct (save_wait_bounds _ Hc) as [Hb _].
  assert (managedSaveBackoffCap < 2 ^ 62) by (vm_compute; done).
  assert (time_Sub now (sf_last f) = now - sf_last f) as ->
    by (unfold time_Sub, int64_min, int64_max; lia).
  rewrite wrap64_id by (unfold int64_min, int64_max; lia).
  destruct (0 <? _) eqn:E; [by eexists|]. apply Z.ltb_ge in E. lia.
Qed.

(** A body that, for a given record of failures, issues nothing. *)
Definition idle (x : gmap string managedSaveFailure) (m : MG bool) : Prop :=
  forall s, saveFailures s = x -> (m s).1 <> Ok true /\ unmoved s (m s).2.

Lemma idle_bind {A} x (m : MG A) (k : A -> MG bool) :
  mono unmoved m -> (forall a, idle x (k a)) -> idle x (m ≫= k).
Proof.
  intros Hm Hk s Hs. specialize (Hm s). unfold exec in Hm. unfold mbind, M_bind.
  destruct (m s) as [[a|e] s1]; cbn in *; [|done].
  destruct (Hk a s1) as [? ?]; [destruct Hm as (_ & _ & ->); done|]. split; [done|by etrans].
Qed.

Lemma idle_fail x e : idle x (fail e).
Proof. by intros s _. Qed.
Lemma idle_false x : idle x (mret false).
Proof. by intros s _. Qed.

Lemma unmoved_revoked certPEM : mono unmoved (on_world (storedMaterialRevoked certPEM)).
Proof.
  apply unmoved_world. unfold storedMaterialRevoked, IsRevokedSerial, get_ca. mono_tac.
Qed.

Lemma under_lock_idle m place now issuer x :
  (forall s, saveFailures s = x -> is_Some (skipForSaveBackoff (cs_Subject (mc_Spec m)) now s)) ->
  idle x (reconcile_under_lock m place now issuer).
Proof.
  intros Hskip. unfold reconcile_under_lock.
  apply idle_bind.
  { unfold Load. repeat first [apply unmoved_world, quiet_lift; solve [auto with mono] | mono_step]. }
  intros [cpem kpem]. apply idle_bind; [apply unmoved_revoked|]. intros rev.
  apply idle_bind; [apply unmoved_world; unfold get_ca; mono_tac|]. intros c.
  destruct (issueDecision _ _ _ _ _ _ _) as [[issue reason] current].
  destruct issue; [|apply idle_false]. cbn [negb]. intros s Hs. destruct (Hskip s Hs) as [d Hd].
  unfold mbind, M_bind, gets. rewrite Hd. done.
Qed.

(** A store that refuses its writes costs a bounded number of revoked
    certificates.  After two or more failed writes in a row, no pass before the
    wait is over issues anything: nothing is written, nothing is revoked, and
    the count stays.  The wait is between fifteen minutes and a day, never gets
    shorter with further failures, and this holds for every count, also where
    the doubling would overflow 64 bits. *)
Theorem managed_write_backoff m now s r s' f :
  saveFailures s !! cs_Subject (mc_Spec m) = Some f -> 2 <= sf_count f ->
  sf_last f <= now < sf_last f + save_wait (sf_count f) ->
  reconcileManagedCert m now s = (r, s') ->
  r <> Ok true /\ unmoved s s' /\
  managedSaveBackoffBase <= save_wait (sf_count f) <= managedSaveBackoffCap /\
  save_wait (sf_count f) <= save_wait (sf_count f + 1).
Proof.
  intros Hf Hc Hn H. assert (r <> Ok true /\ unmoved s s') as [? ?];
    [|split_and!; try done; by apply save_wait_bounds].
  assert (idle (saveFailures s) (reconcileManagedCert m now)) as HI; [|by specialize (HI s eq_refl); rewrite H in HI].
  unfold reconcileManagedCert. apply idle_bind; [mono_tac|]. intros _.
  destruct (mc_Place m) as [place|]; [|apply idle_fail].
  apply idle_bind; [apply unmoved_world; unfold get_ca; mono_tac|]. intros c.
  destruct (IsReady c); [|apply idle_fail]. cbn [negb].
  apply idle_bind; [apply unmoved_world, quiet_lift, WithLock_same; mono_tac|]. intros _.
  apply under_lock_idle. intros s1 Hs. eapply backoff_skips; [by rewrite Hs|done..].
Qed.
