(* ===== verification/Process.v ===== *)
(** * Processes that share a store and a lock

    A process is a sequence of atomic actions on a shared state and a state of
    its own, with sections that run under one named lock of the store.  Other
    processes may act between any two actions of it; acquiring the lock may
    fail; a process may die at any moment, which frees the lock if it held it.

    [wp] is the rely-guarantee reading of a process: while it does not hold the
    lock it tolerates the changes [locked] of a lock holder and itself makes
    only changes [quiet]; while it holds the lock it is the other way round.
    [steps_sound] puts any number of such processes together. *)

From S2P Require Import Prelude.

Section Processes.
Context {S L E : Type}.

Inductive proc (A : Type) : Type :=
  | Done (r : result A)
  | Act {B : Type} (f : E -> S * L -> result B * (S * L)) (k : result B -> proc A)
  | Lock (k : bool -> proc A)
  | Unlock (k : proc A).
Arguments Done {A} r.
Arguments Act {A B} f k.
Arguments Lock {A} k.
Arguments Unlock {A} k.

(** Continue with the outcome of [p], value or error. *)
Fixpoint proc_then {A B} (p : proc A) (k : result A -> proc B) : proc B :=
  match p with
  | Done r => k r
  | Act f c => Act f (fun b => proc_then (c b) k)
  | Lock c => Lock (fun b => proc_then (c b) k)
  | Unlock c => Unlock (proc_then c k)
  end.

Definition proc_bind {A B} (k : A -> proc B) (p : proc A) : proc B :=
  proc_then p (fun r => match r with Ok a => k a | Err e => Done (Err e) end).
Definition ptry {A} (p : proc A) : proc (result A) := proc_then p (fun r => Done (Ok r)).
Definition pwrap {A} (msg : string) (p : proc A) : proc A :=
  proc_then p (fun r => match r with Ok a => Done (Ok a) | Err e => Done (Err (Wrap msg [e])) end).

(** [Storage.WithLock(ctx, name, fn)]: the lock is released on every path. *)
Definition locked_section {A} (e : error) (fn : proc A) : proc A :=
  Lock (fun ok : bool => if ok then proc_then fn (fun r => Unlock (Done r)) else Done (Err e)).

(** One process running alone: [env] supplies what the environment contributes
    to each action, and [h] says whether the process holds the lock.  There is
    no outcome if [env] is too short, if the process asks for the lock it
    holds, or if it returns without having released it. *)
Fixpoint run_from {A} (h : bool) (p : proc A) (env : list E) (x : S * L) : option (result A * (S * L)) :=
  match p with
  | Done r => if h then None else Some (r, x)
  | Act f k => match env with
               | [] => None
               | e :: env => let '(b, x') := f e x in run_from h (k b) env x'
               end
  | Lock k => if h then None else run_from true (k true) env x
  | Unlock k => if h then run_from false k env x else None
  end.
Definition run_proc {A} (p : proc A) := run_from false p.

(** ** Termination *)

(** At most [n] actions, however they turn out, and a lock that is taken only
    when not held and given back: from [h] on entry to [h'] on return. *)
Fixpoint within {A} (h : bool) (n : nat) (p : proc A) (h' : bool) : Prop :=
  match p with
  | Done _ => h = h'
  | Act _ k => match n with O => False | Datatypes.S n => forall b, within h n (k b) h' end
  | Lock k => h = false /\ within false n (k false) h' /\ within true n (k true) h'
  | Unlock k => h = true /\ within false n k h'
  end.

Lemma within_le {A} (p : proc A) h n m h' : (n <= m)%nat -> within h n p h' -> within h m p h'.
Proof.
  revert h n m. induction p as [r|B f k IH|k IH|k IH]; intros h n m Hle; simpl; [done|..].
  - destruct n as [|n]; [done|]. destruct m as [|m]; [lia|]. intros H b. apply (IH b h n); [lia|apply H].
  - intros (-> & H1 & H2). split; [done|]. split; by eapply IH.
  - intros (-> & H). split; [done|]. by eapply IH.
Qed.

Lemma within_then {A B} (p : proc A) (k : result A -> proc B) h a b h1 h' :
  within h a p h1 -> (forall r, within h1 b (k r) h') -> within h (a + b) (proc_then p k) h'.
Proof.
  intros Hp Hk. revert h a Hp. induction p as [r|C f c IH|c IH|c IH]; intros h a; simpl.
  - intros ->. eapply within_le; [|apply Hk]. lia.
  - destruct a as [|a]; [done|]. intros H x. by apply IH.
  - intros (-> & H1 & H2). split; [done|]. split; by apply IH.
  - intros (-> & H). split; [done|]. by apply IH.
Qed.

Lemma within_bind {A B} (p : proc A) (k : A -> proc B) h a b h' :
  within h a p h -> (forall r, within h b (k r) h') -> h = h' -> within h (a + b) (proc_bind k p) h'.
Proof. intros Hp Hk ->. eapply within_then; [exact Hp|]. by intros [r|e]. Qed.
Lemma within_try {A} (p : proc A) h n h' : within h n p h' -> within h n (ptry p) h'.
Proof. intros H. rewrite <- (Nat.add_0_r n). by eapply within_then. Qed.
Lemma within_wrap {A} msg (p : proc A) h n h' : within h n p h' -> within h n (pwrap msg p) h'.
Proof. intros H. rewrite <- (Nat.add_0_r n). eapply within_then; [exact H|]. by intros [r|e]. Qed.
Lemma within_locked {A} e (fn : proc A) n : within true n fn true -> within false n (locked_section e fn) false.
Proof.
  intros H. split; [done|]. split; [done|]. rewrite <- (Nat.add_0_r n). by eapply within_then.
Qed.

Lemma within_runs {A} (p : proc A) h n env x :
  within h n p false -> (n <= length env)%nat -> exists r x', run_from h p env x = Some (r, x').
Proof.
  revert h n env x. induction p as [r|B f k IH|k IH|k IH]; intros h n env x; simpl.
  - intros -> _. eauto.
  - destruct n as [|n]; [done|]. destruct env as [|e env]; [simpl; lia|]. intros H Hle.
    destruct (f e x) as [b x1]. eapply IH; [apply H|simpl in Hle; lia].
  - intros (-> & _ & H) Hle. by eapply IH.
  - intros (-> & H) Hle. by eapply IH.
Qed.

(** ** Contracts *)

Section Contracts.
Context (quiet locked : relation S) `{!PreOrder quiet} `{!PreOrder locked}.
Context (quiet_locked : forall s s', quiet s s' -> locked s s').

Definition rely (h : bool) : relation S := if h then quiet else locked.
Definition guar (h : bool) : relation S := if h then locked else quiet.

#[global] Instance rely_preorder h : PreOrder (rely h).
Proof. by destruct h. Qed.

Fixpoint wp {A} (h : bool) (p : proc A) (Q : bool -> result A -> S * L -> Prop) (x : S * L) : Prop :=
  match p with
  | Done r => Q h r x
  | Act f k => forall s, rely h x.1 s -> forall e,
      let '(b, x') := f e (s, x.2) in guar h s x'.1 /\ wp h (k b) Q x'
  | Lock k => h = false /\ forall s, rely h x.1 s -> wp false (k false) Q (s, x.2) /\ wp true (k true) Q (s, x.2)
  | Unlock k => h = true /\ forall s, rely h x.1 s -> wp false k Q (s, x.2)
  end.

Lemma proc_wp_mono {A} (p : proc A) (Q Q' : bool -> result A -> S * L -> Prop) h x :
  (forall h r y, Q h r y -> Q' h r y) -> wp h p Q x -> wp h p Q' x.
Proof.
  intros HQ. revert h x. induction p as [r|B f k IH|k IH|k IH]; intros h x; simpl; [apply HQ|..].
  - intros H s Hs e. specialize (H s Hs e). destruct (f e _). destruct H. split; [done|]. by apply IH.
  - intros [-> H]. split; [done|]. intros s Hs. destruct (H s Hs). split; by apply IH.
  - intros [-> H]. split; [done|]. intros s Hs. by apply IH, H.
Qed.

Lemma wp_then {A B} (p : proc A) (k : result A -> proc B) Q h x :
  wp h p (fun h r y => wp h (k r) Q y) x -> wp h (proc_then p k) Q x.
Proof.
  revert h x. induction p as [r|C f c IH|c IH|c IH]; intros h x; simpl; [done|..].
  - intros H s Hs e. specialize (H s Hs e). destruct (f e _). destruct H. split; [done|]. by apply IH.
  - intros [-> H]. split; [done|]. intros s Hs. destruct (H s Hs). split; by apply IH.
  - intros [-> H]. split; [done|]. intros s Hs. by apply IH, H.
Qed.

Lemma proc_wp_bind {A B} (p : proc A) (k : A -> proc B) Q h x :
  wp h p (fun h r y => match r with Ok a => wp h (k a) Q y | Err e => Q h (Err e) y end) x ->
  wp h (proc_bind k p) Q x.
Proof. intros H. apply wp_then. eapply proc_wp_mono; [|exact H]. by intros h' [a|e] y. Qed.

Lemma wp_try {A} (p : proc A) Q h x :
  wp h p (fun h r y => Q h (Ok r) y) x -> wp h (ptry p) Q x.
Proof. intros H. apply wp_then. eapply proc_wp_mono; [|exact H]. done. Qed.

Lemma wp_wrap {A} msg (p : proc A) Q h x :
  wp h p (fun h r y => match r with Ok a => Q h (Ok a) y | Err e => Q h (Err (Wrap msg [e])) y end) x ->
  wp h (pwrap msg p) Q x.
Proof. intros H. apply wp_then. eapply proc_wp_mono; [|exact H]. by intros h' [a|e] y. Qed.

(** A section under the lock, entered in any state the others may have reached
    and left by one that the others may move on from. *)
Lemma wp_locked_section {A} err (fn : proc A) Q x :
  (forall s, locked x.1 s ->
     Q false (Err err) (s, x.2) /\
     wp true fn (fun h r y => h = true /\ forall s', quiet y.1 s' -> Q false r (s', y.2)) (s, x.2)) ->
  wp false (locked_section err fn) Q x.
Proof.
  intros H. split; [done|]. intros s Hs. destruct (H s Hs) as [H1 H2]. split; [exact H1|].
  apply wp_then. eapply proc_wp_mono; [|exact H2]. intros h r y [-> HQ]. split; [done|]. intros s' Hs'. by apply HQ.
Qed.

Lemma proc_wp_run {A} (p : proc A) (Q : bool -> result A -> S * L -> Prop) h env x r x' :
  wp h p Q x -> run_from h p env x = Some (r, x') -> Q false r x'.
Proof.
  revert h env x. induction p as [r0|B f k IH|k IH|k IH]; intros h env x; simpl.
  - destruct h; [done|]. by intros ? [= -> ->].
  - destruct env as [|e env]; [done|]. intros H Hr. specialize (H x.1 (reflexivity _) e).
    rewrite <- surjective_pairing in H. destruct (f e x) as [b x1]. destruct H as [_ H]. by eapply IH.
  - intros [-> H] Hr. destruct (H x.1 (reflexivity _)) as [_ H2]. rewrite <- surjective_pairing in H2. by eapply IH.
  - intros [-> H] Hr. specialize (H x.1 (reflexivity _)). rewrite <- surjective_pairing in H. by eapply IH.
Qed.

(** ** Many processes *)

Record system := mkSys { sys_shared : S; holder : option nat; procs : list (L * proc unit) }.

Definition holds (y : system) (i : nat) : bool := bool_decide (holder y = Some i).
Definition released (y : system) (i : nat) : option nat := if holds y i then None else holder y.

Context (allowed : L -> proc unit -> Prop) (died : error).

Inductive sys_step : relation system :=
  | step_start y l p : allowed l p ->
      sys_step y (mkSys (sys_shared y) (holder y) (procs y ++ [(l, p)]))
  | step_act y i l B (f : E -> S * L -> result B * (S * L)) k e b s' l' :
      procs y !! i = Some (l, Act f k) -> f e (sys_shared y, l) = (b, (s', l')) ->
      sys_step y (mkSys s' (holder y) (<[i := (l', k b)]> (procs y)))
  | step_lock_fails y i l k :
      procs y !! i = Some (l, Lock k) ->
      sys_step y (mkSys (sys_shared y) (holder y) (<[i := (l, k false)]> (procs y)))
  | step_lock y i l k :
      procs y !! i = Some (l, Lock k) -> holder y = None ->
      sys_step y (mkSys (sys_shared y) (Some i) (<[i := (l, k true)]> (procs y)))
  | step_unlock y i l k :
      procs y !! i = Some (l, Unlock k) ->
      sys_step y (mkSys (sys_shared y) (released y i) (<[i := (l, k)]> (procs y)))
  | step_dies y i l p :
      procs y !! i = Some (l, p) ->
      sys_step y (mkSys (sys_shared y) (released y i) (<[i := (l, Done (Err died))]> (procs y))).

(** A process may run on its own while the others wait. *)
Lemma run_reaches (p : proc unit) ps h env s l r s' l' :
  run_from h p env (s, l) = Some (r, (s', l')) ->
  rtc sys_step (mkSys s (if h then Some (length ps) else None) (ps ++ [(l, p)]))
               (mkSys s' None (ps ++ [(l', Done r)])).
Proof.
  assert (forall q (t : L * proc unit), <[length ps := t]> (ps ++ [q]) = ps ++ [t]) as Hins.
  { intros q t. rewrite insert_app_r_alt, Nat.sub_diag by lia. done. }
  assert (forall t : L * proc unit, (ps ++ [t]) !! length ps = Some t) as Hat.
  { intros t. rewrite lookup_app_r, Nat.sub_diag by lia. done. }
  revert h env s l. induction p as [r0|B f k IH|k IH|k IH]; intros h env s l; simpl.
  - destruct h; [done|]. by intros [= -> -> ->].
  - destruct env as [|e env]; [done|]. destruct (f e (s, l)) as [b [s1 l1]] eqn:Hf. intros Hr.
    pose proof (step_act (mkSys s (if h then Some (length ps) else None) (ps ++ [(l, Act f k)]))
      (length ps) l B f k e b s1 l1 (Hat _) Hf) as Hstep. cbn [procs holder] in Hstep. rewrite Hins in Hstep.
    eapply rtc_l; [exact Hstep|by eapply IH].
  - destruct h; [done|]. intros Hr.
    pose proof (step_lock (mkSys s None (ps ++ [(l, Lock k)])) (length ps) l k (Hat _) eq_refl) as Hstep.
    cbn [procs sys_shared] in Hstep. rewrite Hins in Hstep.
    eapply rtc_l; [exact Hstep|by apply (IH true true env)].
  - destruct h; [|done]. intros Hr.
    pose proof (step_unlock (mkSys s (Some (length ps)) (ps ++ [(l, Unlock k)])) (length ps) l k (Hat _)) as Hstep.
    unfold released, holds in Hstep. cbn [procs sys_shared holder] in Hstep.
    rewrite Hins, bool_decide_eq_true_2 in Hstep by done. eapply rtc_l; [exact Hstep|by apply (IH false env)].
Qed.

(** *** Soundness *)

Context (Inv : S -> Prop) (Q : bool -> result unit -> S * L -> Prop).
Context (Inv_locked : forall s s', locked s s' -> Inv s -> Inv s').
Context (Q_stable : forall h r s s' l, Q h r (s, l) -> locked s s' -> Q h r (s', l)).
Context (Q_died : forall s l, Inv s -> Q false (Err died) (s, l)).
Context (allowed_wp : forall l p s, allowed l p -> Inv s -> wp false p Q (s, l)).

Lemma proc_wp_later {A} (p : proc A) h (Q' : bool -> result A -> S * L -> Prop) s s' l :
  (forall r, Q' h r (s, l) -> Q' h r (s', l)) -> rely h s s' -> wp h p Q' (s, l) -> wp h p Q' (s', l).
Proof.
  intros HQ Hs. destruct p as [r|B f k|k|k]; simpl; [apply HQ|..].
  - intros H t Ht. apply H. by etrans.
  - intros [-> H]. split; [done|]. intros t Ht. apply H. by etrans.
  - intros [-> H]. split; [done|]. intros t Ht. apply H. by etrans.
Qed.

Definition all_wp (y : system) : Prop :=
  forall i l p, procs y !! i = Some (l, p) -> wp (holds y i) p Q (sys_shared y, l).

(** Replacing one process, with the shared state moved by it. *)
Lemma all_wp_update y i s' hld' l' p' :
  all_wp y -> guar (holds y i) (sys_shared y) s' ->
  (hld' = holder y \/ ((hld' = None \/ hld' = Some i) /\ (holder y = None \/ holder y = Some i))) ->
  wp (bool_decide (hld' = Some i)) p' Q (s', l') ->
  locked (sys_shared y) s' /\ all_wp (mkSys s' hld' (<[i := (l', p')]> (procs y))).
Proof.
  intros Hall HG Hh Hp. split; [by destruct (holds y i); [|apply quiet_locked]|].
  intros j l p Hj. cbn [procs sys_shared] in *. unfold holds. cbn [holder].
  apply list_lookup_insert_Some in Hj as [(-> & [= -> ->] & _)|[Hne Hj]]; [done|].
  assert (bool_decide (hld' = Some j) = holds y j) as ->.
  { unfold holds. destruct Hh as [->|[H1 H2]]; [done|].
    destruct H1 as [->| ->], H2 as [->| ->]; repeat case_bool_decide; congruence. }
  assert (rely (holds y j) (sys_shared y) s') as HR.
  { unfold rely, guar, holds in *. destruct (bool_decide (holder y = Some j)) eqn:Ej.
    - rewrite bool_decide_eq_true in Ej. rewrite bool_decide_eq_false_2 in HG by congruence. done.
    - by destruct (bool_decide (holder y = Some i)); [|apply quiet_locked]. }
  eapply proc_wp_later; [|exact HR|by apply Hall]. intros r Hr. eapply Q_stable; [exact Hr|].
  unfold rely in HR. by destruct (holds y j); [apply quiet_locked|].
Qed.

Lemma guar_refl h s : guar h s s.
Proof. destruct h; reflexivity. Qed.

Definition holder_ok (y : system) : Prop := forall i, holder y = Some i -> (i < length (procs y))%nat.

Lemma sys_step_sound y z : Inv (sys_shared y) -> holder_ok y -> all_wp y -> sys_step y z ->
  locked (sys_shared y) (sys_shared z) /\ all_wp z.
Proof.
  intros HI Hh Hall Hstep. destruct Hstep as
    [y l p Hp|y i l B f k e b s' l' Hi Hf|y i l k Hi|y i l k Hi Hn|y i l k Hi|y i l p Hi].
  - split; [reflexivity|]. intros j l0 p0 Hj. cbn [procs sys_shared] in *. unfold holds. cbn [holder].
    apply lookup_app_Some in Hj as [Hj|[Hge Hj]]; [by apply Hall|].
    apply list_lookup_singleton_Some in Hj as [Hj [= <- <-]].
    rewrite bool_decide_eq_false_2; [by apply allowed_wp|]. intros Ej%Hh. lia.
  - specialize (Hall i l _ Hi) as Hw. cbn [wp] in Hw.
    specialize (Hw (sys_shared y) (reflexivity _) e). cbn [fst snd] in Hw. rewrite Hf in Hw.
    destruct Hw as [HG Hw]. apply all_wp_update; auto.
  - destruct (Hall i l _ Hi) as [Hf Hw]. apply all_wp_update; [done|apply guar_refl|by left|].
    change (bool_decide _) with (holds y i). rewrite Hf. by apply (Hw (sys_shared y)).
  - destruct (Hall i l _ Hi) as [Hf Hw]. apply all_wp_update; [done|apply guar_refl|auto|].
    rewrite bool_decide_eq_true_2 by done. by apply (Hw (sys_shared y)).
  - destruct (Hall i l _ Hi) as [Hf Hw]. unfold released. rewrite Hf.
    apply all_wp_update; [done|apply guar_refl| |by apply (Hw (sys_shared y))].
    right. split; [by left|]. right. by apply bool_decide_eq_true in Hf.
  - unfold released. destruct (holds y i) eqn:Hf.
    + apply all_wp_update; [done|apply guar_refl| |by apply Q_died].
      right. split; [by left|]. right. by apply bool_decide_eq_true in Hf.
    + apply all_wp_update; [done|apply guar_refl|by left|]. change (bool_decide _) with (holds y i).
      rewrite Hf. by apply Q_died.
Qed.

Lemma sys_step_holder y z : holder_ok y -> sys_step y z -> holder_ok z.
Proof.
  assert (forall y i j, released y i = Some j -> holder y = Some j) as Hrel.
  { intros ? ? ?. unfold released. by case_match. }
  intros Hh Hstep. destruct Hstep; intros j Hj; cbn [holder procs] in *;
    rewrite ?length_app, ?length_insert; try (by eauto).
  - specialize (Hh j Hj). lia.
  - simplify_eq. by eapply lookup_lt_Some.
Qed.

(** Every reachable system has moved along [locked] and keeps every contract. *)
Lemma steps_sound y z :
  rtc sys_step y z -> Inv (sys_shared y) -> holder_ok y -> all_wp y ->
  locked (sys_shared y) (sys_shared z) /\ Inv (sys_shared z) /\ all_wp z.
Proof.
  induction 1 as [y|y y' z Hstep _ IH]; intros HI Hh Hall; [done|].
  destruct (sys_step_sound y y' HI Hh Hall Hstep) as [HR Hall'].
  destruct IH as (HR' & HI' & Hall''); [by eapply Inv_locked|by eapply sys_step_holder|done|].
  split; [by etrans|]. done.
Qed.

(** What a process that has returned has achieved still holds. *)
Lemma returned_sound y z i l r :
  rtc sys_step y z -> Inv (sys_shared y) -> holder_ok y -> all_wp y ->
  procs z !! i = Some (l, Done r) -> Q (holds z i) r (sys_shared z, l).
Proof. intros Hs HI Hh Hall Hi. destruct (steps_sound y z Hs HI Hh Hall) as (_ & _ & H). exact (H i l _ Hi). Qed.
End Contracts.
End Processes.

Arguments proc S L E A : clear implicits.
Arguments Done {S L E A} r.
Arguments Act {S L E A B} f k.
Arguments Lock {S L E A} k.
Arguments Unlock {S L E A} k.
Arguments system S L E : clear implicits.

#[global] Instance proc_mret S L E : MRet (proc S L E) := fun A a => Done (Ok a).
#[global] Instance proc_mbind S L E : MBind (proc S L E) := fun A B => proc_bind.
