(* ===== verification/KeyCustody.v ===== *)
(** * Where the CA's private key lives

    Models internal/ca/keyenc.go (the passphrase and the encrypted envelope),
    keyprovider.go (the provider interface, [HasCAKey], [LoadOrCreateCAKey],
    [BuildCSR]), the key half of init.go ([loadCAKeyFromDisk]), and
    [parsePrivateKeyDER] and [savePubKeyPEM] of keys.go.

    The key derivation and the cipher come from libraries: they are the class
    [KeyCrypto], with the two facts the envelope relies on in [KeyCryptoLaws].
    A key provider is a class too: [KeyProviderLaws] states the contract its
    interface documents.

    The operations run as processes (Process.v), one storage or provider call
    per action: other replicas may act between any two of them. *)

From S2P Require Import Prelude GoStrings GoTime X509 Inventory Storage Policy CAState CRLChain CRL.
From S2P Require Import Lifecycle System Process.

(** ** Passphrases (keyenc.go) *)

Record KeyPassphraseConfig := mkPassCfg { PassphraseFile : string; PassphraseEnvVar : string }.

(** What the host offers: files, environment variables, and whether a path
    exists. *)
Record Host := mkHost {
  os_ReadFile : string -> result string;
  os_Getenv : string -> string;
  os_Stat : string -> bool }.

Definition DefaultPassphraseEnvVar := "OPENVOX_CA_KEY_PASSPHRASE".
Definition EnvVar (cfg : KeyPassphraseConfig) : string :=
  if negb (bool_decide (PassphraseEnvVar cfg = "")) then PassphraseEnvVar cfg
  else DefaultPassphraseEnvVar.

Fixpoint first_line (s : string) : string :=
  match s with
  | "" => ""
  | String c s => if (code c =? 10) || (code c =? 13) then "" else String c (first_line s)
  end.

Definition readPassphraseFile (h : Host) (path : string) : result string :=
  match os_ReadFile h path with
  | Err e => Err e
  | Ok data =>
      let data := first_line data in
      if bool_decide (String.length data = 0%nat)
      then Err (Msg ("passphrase file " +:+ path +:+ " is empty")) else Ok data
  end.

Definition autoPassphrasePath (caDir : string) : string := caDir +:+ "/private/.ca_key_passphrase".

Inductive passphraseNeed := needEncryptConfigured | needStoredKeyEncrypted.
Definition because (n : passphraseNeed) : string :=
  match n with
  | needStoredKeyEncrypted => "the CA key in the store is encrypted"
  | needEncryptConfigured => "encrypt_ca_key is set"
  end.

Definition resolvePassphrase (h : Host) (cfg : KeyPassphraseConfig) (caDir : string)
    (need : passphraseNeed) : result string :=
  if negb (bool_decide (PassphraseFile cfg = "")) then
    match readPassphraseFile h (PassphraseFile cfg) with
    | Err e => Err (Wrap ("reading --ca-key-passphrase-file " +:+ PassphraseFile cfg) [e])
    | Ok pp => Ok pp
    end
  else if negb (bool_decide (os_Getenv h (EnvVar cfg) = "")) then Ok (os_Getenv h (EnvVar cfg))
  else if os_Stat h (autoPassphrasePath caDir) then
    Err (Msg (because need +:+ " and no passphrase source is configured, but a file exists beside the key"))
  else Err (Msg (because need +:+ " but no passphrase source is configured")).

(** ** The encrypted envelope *)

Definition encryptedPEMType := "ENCRYPTED PRIVATE KEY".
Definition isEncryptedPEM (b : pem_block) : bool := bool_decide (Type_ b = encryptedPEMType).

Definition PassphraseNeeded (encryptCAKey : bool) (storedKeyPEM : blob) : bool :=
  match pem_Decode storedKeyPEM with
  | (Some block, _) => isEncryptedPEM block
  | (None, _) => encryptCAKey
  end.

Definition CheckKeyPassphrase (h : Host) (cfg : KeyPassphraseConfig) (caDir : string)
    (encryptCAKey : bool) (storedKeyPEM : blob) : option error :=
  if negb (PassphraseNeeded encryptCAKey storedKeyPEM) then None
  else
    let need := match pem_Decode storedKeyPEM with
                | (Some block, _) => if isEncryptedPEM block then needStoredKeyEncrypted else needEncryptConfigured
                | (None, _) => needEncryptConfigured
                end in
    match resolvePassphrase h cfg caDir need with Ok _ => None | Err e => Some e end.

Definition keyEncVersion : Z := 1.
Definition keyEncSaltLen : nat := 32.
Definition keyEncNonceLen : nat := 12.
Definition aes_BlockSize : nat := 16.
Definition keyEncMinLen : nat := 1 + keyEncSaltLen + keyEncNonceLen + aes_BlockSize.

(** Argon2id with the fixed cost parameters, AES-256-GCM, and PKCS#8. *)
Class KeyCrypto := {
  deriveKey : string -> string -> string;
  gcm_Seal : string -> string -> string -> string;
  gcm_Open : string -> string -> string -> option string;
  MarshalPKCS8PrivateKey : PublicKey -> result string;
  ParsePKCS8PrivateKey : string -> result PublicKey }.

Class KeyCryptoLaws {KC : KeyCrypto} : Prop := {
  open_seal key nonce m : gcm_Open key nonce (gcm_Seal key nonce m) = Some m;
  seal_tag key nonce m : (aes_BlockSize <= String.length (gcm_Seal key nonce m))%nat;
  parse_marshal_pkcs8 k d : MarshalPKCS8PrivateKey k = Ok d -> ParsePKCS8PrivateKey d = Ok k }.

(** The slices [s[:n]] and [s[n:]] of a string of at least [n] bytes. *)
Fixpoint slice_at (n : nat) (s : string) : string * string :=
  match n, s with
  | S n, String c s => let '(a, b) := slice_at n s in (String c a, b)
  | _, _ => ("", s)
  end.

Section Envelope.
Context {KC : KeyCrypto}.

Definition envelope (salt nonce ciphertext : string) : string :=
  String (chr keyEncVersion) (salt +:+ nonce +:+ ciphertext).

Definition encryptKeyPEM (pkcs8DER passphrase : string) : MS blob :=
  n ← wrapping "generating salt" (rand_Int (2 ^ 256));
  let salt := random_bytes keyEncSaltLen n in
  let key := deriveKey passphrase salt in
  n ← wrapping "generating nonce" (rand_Int (2 ^ 96));
  let nonce := random_bytes keyEncNonceLen n in
  let ciphertext := gcm_Seal key nonce pkcs8DER in
  mret (pem_encode [mkBlock encryptedPEMType (DerEnvelope (envelope salt nonce ciphertext))]).

Definition decryptKeyDER (envelope passphrase : string) : result string :=
  if (String.length envelope <? keyEncMinLen)%nat then Err (Msg "encrypted key envelope too short")
  else
    let '(version, rest) := slice_at 1 envelope in
    if negb (bool_decide (version = String (chr keyEncVersion) "")) then
      Err (Msg "unsupported encrypted key version")
    else
      let '(salt, rest) := slice_at keyEncSaltLen rest in
      let '(nonce, ciphertext) := slice_at keyEncNonceLen rest in
      match gcm_Open (deriveKey passphrase salt) nonce ciphertext with
      | None => Err (Msg "decryption failed (wrong passphrase?)")
      | Some plaintext => Ok plaintext
      end.

Definition encryptAndMarshalKey (key : PublicKey) (passphrase : string) : MS blob :=
  pkcs8DER ← wrapping "marshalling key to PKCS#8" (of_result (MarshalPKCS8PrivateKey key));
  encryptKeyPEM pkcs8DER passphrase.
End Envelope.

(** ** Private keys in PEM (keys.go) *)

(** [x509.MarshalPKIXPublicKey]: a key stands for its own encoding. *)
Definition MarshalPKIXPublicKey (k : PublicKey) : result PublicKey :=
  match k with
  | OtherKey _ => Err (Msg "x509: unsupported public key type")
  | ECDSAKey CurveOther _ => Err (Msg "x509: unsupported elliptic curve")
  | _ => Ok k
  end.

Definition savePubKeyPEM (pub : PublicKey) : MS unit :=
  der ← wrapping "marshalling the public key" (of_result (MarshalPKIXPublicKey pub));
  SaveCAPubKey (pem_encode [mkBlock "PUBLIC KEY" (DerPublicKey der)]).

Definition GetCAKey : MS blob := backend (be_Get KeyCAKey).
Definition SaveCAKey (data : blob) : MS unit := backend (be_Put KeyCAKey data).
Definition storage_HasCAKey : MS bool := backend (be_Exists KeyCAKey).
Definition EnsureDirs : MS unit := external (Msg "mkdir: permission denied").

(** ** Configuration of the start-up *)

Record CASubjectConfig := mkCASubject {
  Org : string; OrgUnit : string; Country : string; Locality : string; Province : string }.

Record BootConfig := mkBoot {
  b_Hostname : string;
  b_CASubject : CASubjectConfig;
  b_CAKeyConfig : KeyConfig;
  b_CAValidityDays : Z;
  b_CAPathLength : Z;
  b_NoBootstrap : bool;
  b_EncryptCAKey : bool;
  b_KeyPassphrase : KeyPassphraseConfig;
  b_CADir : string;
  b_host : Host;
  (** the frontend's remote signer, by the key it reports *)
  b_ExternalSigner : option PublicKey;
  (** is a key provider configured? *)
  b_KeyProvider : bool }.

(** [CASubjectName]: attributes in the order a distinguished name has them. *)
Definition CASubjectName (hostname : string) (cfg : CASubjectConfig) : Name :=
  let attr t v := if negb (bool_decide (v = "")) then [(t, v)] else [] in
  mkName ("Puppet CA: " +:+ hostname)
    (attr "C" (Country cfg) ++ attr "O" (Org cfg) ++ attr "OU" (OrgUnit cfg)
     ++ attr "L" (Locality cfg) ++ attr "ST" (Province cfg)).

Definition ca_key_config (bc : BootConfig) : KeyConfig :=
  if bool_decide (kc_Algo (b_CAKeyConfig bc) = "") then DefaultCAKeyConfig else b_CAKeyConfig bc.

(** A fresh key: [rand_Int] names it. *)
Definition fresh_key (cfg : KeyConfig) : MS PublicKey :=
  id ← rand_Int (2 ^ 256); of_result (generateKey cfg id).

Section Custody.
Context {KC : KeyCrypto}.

(** The key in the first PEM block of the stored blob. *)
Definition open_stored_key (bc : BootConfig) (block : pem_block) : result PublicKey :=
  if isEncryptedPEM block then
    match resolvePassphrase (b_host bc) (b_KeyPassphrase bc) (b_CADir bc) needStoredKeyEncrypted with
    | Err e => Err (Wrap "resolving CA key passphrase" [e])
    | Ok passphrase =>
        match Bytes block with
        | DerEnvelope bytes =>
            match decryptKeyDER bytes passphrase with
            | Err e => Err (Wrap "decrypting CA key" [e])
            | Ok pkcs8DER =>
                match ParsePKCS8PrivateKey pkcs8DER with
                | Err e => Err (Wrap "parsing decrypted CA key" [e])
                | Ok k => Ok k
                end
            end
        | _ => Err (Wrap "decrypting CA key" [Msg "encrypted key envelope too short"])
        end
    end
  else parsePrivateKeyDER (Type_ block) (Bytes block).

Definition marshalCAKeyForStorage (bc : BootConfig) (key : PublicKey) : MS blob :=
  if negb (b_EncryptCAKey bc) then mret (marshalPrivateKeyPEM key)
  else
    passphrase ← wrapping "resolving CA key passphrase" (of_result
      (resolvePassphrase (b_host bc) (b_KeyPassphrase bc) (b_CADir bc) needEncryptConfigured));
    wrapping "encrypting CA key" (encryptAndMarshalKey key passphrase).

(** *** Round trip *)

Lemma slice_at_app a b : slice_at (String.length a) (a +:+ b) = (a, b).
Proof. induction a as [|c a IH]; [by destruct b|]. simpl. by rewrite IH. Qed.

#[local] Arguments random_bytes : simpl never.

Lemma decrypt_envelope {KL : KeyCryptoLaws} salt nonce m pass :
  String.length salt = keyEncSaltLen -> String.length nonce = keyEncNonceLen ->
  decryptKeyDER (envelope salt nonce (gcm_Seal (deriveKey pass salt) nonce m)) pass = Ok m.
Proof.
  intros Hs Hn. pose proof (seal_tag (deriveKey pass salt) nonce m) as Ht.
  unfold decryptKeyDER, envelope. rewrite (proj2 (Nat.ltb_ge _ _)).
  2: { cbn [String.length]. rewrite !length_str_app, Hs, Hn. unfold keyEncMinLen. lia. }
  change (slice_at 1 (String ?c ?s)) with (String c "", s). cbv iota.
  rewrite bool_decide_eq_true_2 by done. cbn [negb]. rewrite <- Hs, slice_at_app.
  rewrite <- Hn, slice_at_app. by rewrite open_seal.
Qed.

Lemma resolve_need h cfg dir n m pp :
  resolvePassphrase h cfg dir n = Ok pp -> resolvePassphrase h cfg dir m = Ok pp.
Proof. unfold resolvePassphrase. repeat case_match; done. Qed.

Definition ca_key_pem (bc : BootConfig) (b : blob) (key : PublicKey) : Prop :=
  exists block rest, pem_Decode b = (Some block, rest) /\ open_stored_key bc block = Ok key.

Lemma marshal_plain bc key : ca_key_pem bc (marshalPrivateKeyPEM key) key.
Proof. destruct key; eexists _, _; by split; [reflexivity|]. Qed.

Lemma marshal_roundtrip {KL : KeyCryptoLaws} bc key s b s' :
  marshalCAKeyForStorage bc key s = (Ok b, s') -> ca_key_pem bc b key.
Proof.
  unfold marshalCAKeyForStorage. destruct (negb (b_EncryptCAKey bc)).
  { intros [-> _]%ret_Ok. apply marshal_plain. }
  intros (pp & s1 & H1 & H)%bind_Ok. apply wrapping_Ok, of_result_Ok in H1 as [H1 ->].
  apply wrapping_Ok in H. unfold encryptAndMarshalKey, encryptKeyPEM in H. minv.
  eexists _, _. split; [reflexivity|]. unfold open_stored_key, isEncryptedPEM. cbn [Type_ Bytes].
  rewrite bool_decide_eq_true_2 by done. rewrite (resolve_need _ _ _ _ _ _ H1).
  rewrite decrypt_envelope by apply random_bytes_length.
  match goal with H : MarshalPKCS8PrivateKey _ = Ok _ |- _ => apply parse_marshal_pkcs8 in H; by rewrite H end.
Qed.
End Custody.

(** ** Key providers (keyprovider.go) *)

Class KeyProvider (P : Type) := {
  kp_Load : M P PublicKey;
  kp_Generate : KeyConfig -> M P PublicKey }.

(** The documented contract.  [key_at] is the key the provider holds: [Load]
    returns it and reports "not found" only when there is none, and [Generate]
    fails, leaving it in place, when there is one. *)
Class KeyProviderLaws (P : Type) {KP : KeyProvider P} := {
  key_at : P -> option PublicKey;
  load_keeps p : key_at (kp_Load p).2 = key_at p;
  load_finds p k : (kp_Load p).1 = Ok k -> key_at p = Some k;
  load_missing p e : (kp_Load p).1 = Err e -> errors_Is e ErrKeyProviderKeyNotFound = true -> key_at p = None;
  generate_keeps cfg p k : key_at p = Some k ->
    key_at (kp_Generate cfg p).2 = Some k /\ is_ok (kp_Generate cfg p).1 = false;
  generate_creates cfg p k : (kp_Generate cfg p).1 = Ok k -> key_at (kp_Generate cfg p).2 = Some k }.

(** ** The processes of a replica *)

(** A replica that starts up ([r_starts]), or another command using the same
    store. *)
Record Replica := mkReplica { r_boot : BootConfig; r_starts : bool; r_node : Node }.

Section Processes.
Context {KC : KeyCrypto} {P : Type} {KP : KeyProvider P}.

Notation bproc := (proc (Backend * P) Replica Env).

(** One action of the replica on the shared backend and provider. *)
Definition embed {A} (m : M (World * P) A) (e : Env) (x : (Backend * P) * Replica)
    : result A * ((Backend * P) * Replica) :=
  let '((b, p), l) := x in
  let '(r, (w, p')) := m (world_of b (r_node l) e, p) in
  (r, ((be (st w), p'), mkReplica (r_boot l) (r_starts l) (node_of w))).

Definition on_world {A} (m : MW A) : M (World * P) A := fun x =>
  let '(r, w) := m x.1 in (r, (w, x.2)).
Definition on_provider {A} (m : M P A) : M (World * P) A := fun x =>
  let '(r, p) := m x.2 in (r, (x.1, p)).

Definition act {A} (m : M (World * P) A) : bproc A := Act (embed m) Done.
Definition world {A} (m : MW A) : bproc A := act (on_world m).
Definition store {A} (m : MS A) : bproc A := world (lift m).
Definition provider {A} (m : M P A) : bproc A := act (on_provider m).
Definition pfail {A} (e : error) : bproc A := Done (Err e).
Definition pcheck (e : option error) : bproc unit := match e with None => Done (Ok tt) | Some e => pfail e end.
Definition presult {A} (r : result A) : bproc A := Done r.

(** [Storage.WithLock(ctx, lockNameBootstrap, fn)]. *)
Definition with_bootstrap_lock {A} (fn : bproc A) : bproc A :=
  locked_section (Wrap "acquiring lock bootstrap" [io_error]) fn.

Definition HasCAKey (bc : BootConfig) : bproc bool :=
  if b_KeyProvider bc then
    r ← ptry (provider kp_Load);
    match r with
    | Ok _ => mret true
    | Err e => if errors_Is e ErrKeyProviderKeyNotFound then mret false else pfail e
    end
  else store storage_HasCAKey.

Definition set_CAKey (key : PublicKey) (c : CA) : CA := set_CA (CACert c) (Some key) c.
Definition set_CACert (cert : Certificate) (c : CA) : CA := set_CA (Some cert) (CAKey c) c.

Definition loadCAKeyFromDisk (bc : BootConfig) : bproc unit :=
  keyPEM ← store GetCAKey;
  match pem_Decode keyPEM with
  | (None, _) => pfail (Msg "failed to decode CA key PEM")
  | (Some block, _) =>
      key ← presult (open_stored_key bc block);
      world (upd_ca (set_CAKey key))
  end.

(** [return c.CAKey, nil] after a load. *)
Definition loaded_key : bproc PublicKey :=
  key ← world (get_ca CAKey);
  match key with Some k => mret k | None => pfail (Sentinel ErrNotInitialized) end.

(** The section of [LoadOrCreateCAKey] under the bootstrap lock: [None] when
    another process has created the key first. *)
Definition create_key_locked (bc : BootConfig) : bproc (option PublicKey) :=
  hasKey ← pwrap "checking for an existing CA key" (store storage_HasCAKey);
  if (hasKey : bool) then mret None
  else
    key ← pwrap "generating CA key" (store (fresh_key (ca_key_config bc)));
    keyPEM ← store (marshalCAKeyForStorage bc key);
    _ ← pwrap "creating CA directories" (store EnsureDirs);
    _ ← pwrap "writing CA key" (store (SaveCAKey keyPEM));
    mret (Some key).

Definition LoadOrCreateCAKey (bc : BootConfig) (create : bool) : bproc PublicKey :=
  if b_KeyProvider bc then
    r ← ptry (provider kp_Load);
    match r with
    | Ok key => mret key
    | Err e =>
        if negb (errors_Is e ErrKeyProviderKeyNotFound) then pfail e
        else if negb create then pfail e
        else provider (kp_Generate (ca_key_config bc))
    end
  else
    hasKey ← pwrap "checking for an existing CA key" (store storage_HasCAKey);
    if (hasKey : bool) then _ ← loadCAKeyFromDisk bc; loaded_key
    else if negb create then
      pfail (Wrap "no CA key in storage" [Sentinel ErrKeyProviderKeyNotFound])
    else
      created ← with_bootstrap_lock (create_key_locked bc);
      match created with
      | Some key => mret key
      | None => _ ← loadCAKeyFromDisk bc; loaded_key
      end.

Definition csrSubject (bc : BootConfig) (hostname : string) : bproc Name :=
  r ← ptry (store GetCACert);
  match r with
  | Ok certPEM =>
      match ParseCABundle certPEM with
      | Err e => pfail (Wrap "reading the existing CA certificate to reuse its subject" [e])
      | Ok [] => pfail (Msg "bundle contains no CERTIFICATE blocks")
      | Ok (cert :: _) => mret (Subject cert)
      end
  | Err e =>
      if negb (errors_Is e FsErrNotExist) then
        pfail (Wrap "reading the existing CA certificate to reuse its subject" [e])
      else if bool_decide (hostname = "") then
        pfail (Msg "hostname is required to build a certificate request when no CA certificate exists yet")
      else mret (CASubjectName hostname (b_CASubject bc))
  end.

Definition BuildCSR (bc : BootConfig) (hostname : string) (create : bool) : bproc blob :=
  subject ← csrSubject bc hostname;
  key ← LoadOrCreateCAKey bc create;
  _ ← pcheck (checkCAKeyType key);
  _ ← pwrap "creating certificate request" (world signer_available);
  mret (pem_encode [mkBlock "CERTIFICATE REQUEST" (DerCSR (mkCSR subject key [] key))]).
End Processes.
