(* ===== verification/OpenBao.v ===== *)
(** * The CA key in OpenBao

    Models internal/signer/openbao: the key provider (Load and Generate of
    signer.go), signing through the transit engine with one retry (Sign,
    withReauth, sign), and the token manager's logins (Reauth, reauthLocked and
    Close of lease.go).

    OpenBao itself is not modelled beyond what its documentation says of one
    transit key: reading it gives its versions or "not found", and creating a
    key that exists changes nothing.  Signatures, base64, PEM and the choice of
    new keys are parameters.  A request may be lost before or after it is served.

    [openbao_laws] is the contract that start-up relies on (KeyCustody.v). *)

From S2P Require Import Prelude GoStrings GoTime X509 Inventory Storage Policy CAState CRLChain CRL Lifecycle System Process KeyCustody Signer.

(** ** The transit key *)

(** The "public_key" of every version ("" if it has none), and "latest_version"
    in decimal. *)
Record transit_key := mkTransitKey { tk_versions : gmap string string; tk_latest : string }.
Inductive delivery := Delivered | RequestLost | ReplyLost.

(** What is under the configured name, and how the next requests fare. *)
Record transit := mkTransit { tr_key : option transit_key; tr_fate : list delivery }.

Definition next_fate (t : transit) : delivery * transit :=
  match tr_fate t with [] => (Delivered, t) | d :: ds => (d, mkTransit (tr_key t) ds) end.

Definition network_error : error := Msg "connection reset".

(** One request: what it does to the key, and its reply. *)
Definition request {A} (f : option transit_key -> A * option transit_key) : M transit A := fun t =>
  let '(d, t) := next_fate t in
  let '(a, k) := f (tr_key t) in
  match d with
  | Delivered => (Ok a, mkTransit k (tr_fate t))
  | RequestLost => (Err network_error, t)
  | ReplyLost => (Err network_error, mkTransit k (tr_fate t))
  end.

Definition latestKeyVersion (k : transit_key) : result string :=
  match tk_versions k !! tk_latest k with
  | Some version => Ok version
  | None => Err (Msg "transit key metadata missing entry for latest_version")
  end.

Definition transitKeyType (cfg : KeyConfig) : result string :=
  if bool_decide (key_algo cfg = KeyAlgoRSA) then
    if (kc_Size cfg =? 0) || (kc_Size cfg =? 4096) then Ok "rsa-4096"
    else if kc_Size cfg =? 2048 then Ok "rsa-2048"
    else if kc_Size cfg =? 3072 then Ok "rsa-3072" else Err (Msg "unsupported RSA key size")
  else if bool_decide (key_algo cfg = KeyAlgoECDSA) then
    if (kc_Size cfg =? 0) || (kc_Size cfg =? 256) then Ok "ecdsa-p256"
    else if kc_Size cfg =? 384 then Ok "ecdsa-p384"
    else if kc_Size cfg =? 521 then Ok "ecdsa-p521" else Err (Msg "unsupported ECDSA key size")
  else Err (Msg "unsupported key algorithm").

Section Provider.
(** pem.Decode with x509.ParsePKIXPublicKey; the key OpenBao makes for a type. *)
Context (parse_public : string -> option PublicKey) (new_key : string -> string).

Definition public_key (version : string) : result PublicKey :=
  if bool_decide (version = "") then Err (Msg "transit key has no public_key (is it an asymmetric key type?)")
  else match parse_public version with Some pub => Ok pub | None => Err (Msg "transit key: public_key cannot be parsed") end.

Definition fetchPublicKey : M transit PublicKey :=
  k ← wrapping "reading transit key" (request (fun k => (k, k)));
  match k with
  | None => fail (Wrap "key" [Sentinel ErrKeyProviderKeyNotFound])
  | Some k => version ← of_result (latestKeyVersion k); of_result (public_key version)
  end.

(** A signer is known by its public key. *)
Definition newSigner : M transit PublicKey := fetchPublicKey.


(** Creating a key that exists changes nothing. *)
Definition create (type : string) (k : option transit_key) : unit * option transit_key :=
  (tt, match k with Some k => Some k | None => Some (mkTransitKey {["1" := new_key type]} "1") end).

Definition provider_Generate (cfg : KeyConfig) : M transit PublicKey :=
  transitType ← of_result (transitKeyType cfg);
  r ← try newSigner;
  match r with
  | Ok _ => fail (Msg "refusing to generate transit key: a key with this name already exists")
  | Err e =>
      if errors_Is e ErrKeyProviderKeyNotFound then
        _ ← wrapping "creating transit key" (request (create transitType));
        newSigner
      else fail (Wrap "checking whether transit key already exists" [e])
  end.

#[local] Instance openbao_provider : KeyProvider transit :=
  {| kp_Load := newSigner; kp_Generate := provider_Generate |}.

Definition key_of (k : transit_key) : result PublicKey :=
  match latestKeyVersion k with Ok version => public_key version | Err e => Err e end.
Definition transit_pub (t : transit) : option PublicKey :=
  match tr_key t with Some k => match key_of k with Ok pub => Some pub | Err _ => None end | None => None end.

Lemma newSigner_run t :
  tr_key (newSigner t).2 = tr_key t /\
  ((newSigner t).1 = match tr_key t with
                     | None => Err (Wrap "key" [Sentinel ErrKeyProviderKeyNotFound])
                     | Some k => key_of k
                     end \/ (newSigner t).1 = Err (Wrap "reading transit key" [network_error])).
Proof.
  unfold newSigner, fetchPublicKey, wrapping, mbind, M_bind, request, next_fate.
  destruct (tr_fate t) as [|[] ds]; cbn; auto; destruct (tr_key t) as [k|] eqn:E; cbn; auto;
    unfold key_of; destruct (latestKeyVersion k) as [v|]; cbn; rewrite ?E; auto; destruct (public_key v); cbn; rewrite ?E; auto.
Qed.

Lemma newSigner_Ok t k : (newSigner t).1 = Ok k -> transit_pub t = Some k.
Proof.
  unfold transit_pub. destruct (newSigner_run t) as [_ [-> | ->]]; [|done]. destruct (tr_key t) as [x|]; [|done].
  by intros ->.
Qed.
Lemma key_of_found k e : key_of k = Err e -> errors_Is e ErrKeyProviderKeyNotFound = false.
Proof. unfold key_of, latestKeyVersion, public_key. repeat case_match; intros H'; simplify_eq; done. Qed.
Lemma newSigner_missing t e : (newSigner t).1 = Err e -> errors_Is e ErrKeyProviderKeyNotFound = true -> tr_key t = None.
Proof.
  destruct (newSigner_run t) as [_ [-> | ->]]; [|by intros [= <-]]. destruct (tr_key t) as [x|]; [|done].
  intros H1 H2. by rewrite (key_of_found _ _ H1) in H2.
Qed.
Lemma pub_of_key t t' : tr_key t' = tr_key t -> transit_pub t' = transit_pub t.
Proof. unfold transit_pub. by intros ->. Qed.

(** What became of a call to [Generate]. *)
Lemma Generate_run cfg t :
  (tr_key (provider_Generate cfg t).2 = tr_key t /\ is_ok (provider_Generate cfg t).1 = false) \/
  tr_key t = None /\ forall k, (provider_Generate cfg t).1 = Ok k -> transit_pub (provider_Generate cfg t).2 = Some k.
Proof.
  unfold provider_Generate, mbind, M_bind, try. destruct (transitKeyType cfg) as [type|e]; cbn; [|by left].
  destruct (newSigner_run t) as [Hk _]. destruct (newSigner t) as [r t1] eqn:E1. cbn in Hk.
  destruct r as [pub|e]; [left; by split; [exact Hk|]|].
  destruct (errors_Is e ErrKeyProviderKeyNotFound) eqn:Ee; [|left; by split; [exact Hk|]].
  right. assert (tr_key t = None) as Hn by (apply (newSigner_missing t e); [by rewrite E1|done]). split; [done|].
  destruct (wrapping _ _ t1) as [[[]|e2] t2]; [|done]. intros k Hok.
  pose proof (newSigner_Ok _ _ Hok) as Hp. destruct (newSigner_run t2) as [Hk2 _]. by rewrite (pub_of_key t2).
Qed.

(** The OpenBao provider keeps the contract of a key provider, with requests
    and replies lost: it returns the key that is there, says "not found" only if
    there is none, and generates one only if there is none. *)
#[local] Instance openbao_laws : KeyProviderLaws transit.
Proof.
  refine {| key_at := transit_pub |}.
  - intros t. apply pub_of_key, newSigner_run.
  - apply newSigner_Ok.
  - intros t e H1 H2. unfold transit_pub. by rewrite (newSigner_missing t e H1 H2).
  - intros cfg t k Hk. destruct (Generate_run cfg t) as [[H1 H2]|[H _]]; [by rewrite (pub_of_key t)|].
    unfold transit_pub in Hk. by rewrite H in Hk.
  - intros cfg t k H. destruct (Generate_run cfg t) as [[_ H2]|[_ H2]]; [|by apply H2]. cbn in H. by rewrite H in H2.
Qed.
End Provider.

(** ** Logging in (lease.go) *)

Definition minReauthInterval : Z := 30 * 1000000000.

Record TokenManager := mkTM {
  tm_token : string;          (* what the client sends *)
  tm_ownsToken : bool;
  tm_lastLogin : Z;
  tm_lastLoginErr : option error;
  tm_revocable : bool;
  tm_closed : bool }.

(** What a login did: the token the client has after it (a token from a file is
    set even if it is then refused), whether a token was issued and with an
    accessor, and whether its watcher could be made. *)
Record login_outcome := mkLogin { lo_token : string; lo_secret : result bool; lo_watcher : result unit }.

Definition reauthLocked (now : Z) (lo : login_outcome) (tm : TokenManager) : result unit * TokenManager :=
  match lo_secret lo with
  | Err e => (Err e, mkTM (lo_token lo) (tm_ownsToken tm) now (Some e) (tm_revocable tm) (tm_closed tm))
  | Ok accessor =>
      (match lo_watcher lo with Ok _ => Ok tt | Err e => Err (Wrap "starting OpenBao token lifetime watcher" [e]) end,
       mkTM (lo_token lo) (tm_ownsToken tm) now None accessor (tm_closed tm))
  end.

Definition throttled (now : Z) (tm : TokenManager) : bool := now - tm_lastLogin tm <? minReauthInterval.

Definition Reauth (now : Z) (rejected : string) (lo : login_outcome) (tm : TokenManager) : result unit * TokenManager :=
  if tm_closed tm then (Err (Msg "OpenBao token manager is closed"), tm)
  else if negb (bool_decide (tm_token tm = rejected)) then (Ok tt, tm)
  else if throttled now tm then
    (Err (Wrap "throttled" (Sentinel ErrReauthThrottled :: match tm_lastLoginErr tm with Some e => [e] | None => [] end)), tm)
  else reauthLocked now lo tm.

(** The token is revoked only if this process obtained it and it can be. *)
Definition Close (tm : TokenManager) : bool * TokenManager :=
  if tm_closed tm then (false, tm)
  else (tm_ownsToken tm && tm_revocable tm,
        mkTM (tm_token tm) (tm_ownsToken tm) (tm_lastLogin tm) (tm_lastLoginErr tm) (tm_revocable tm) true).

(** ** Signing (signer.go) *)

Inductive reply (A : Type) := Answer (a : A) | Denied (e : error) | Failed (e : error).
Arguments Answer {A} a.
Arguments Denied {A} e.
Arguments Failed {A} e.

Definition reply_result {A} (r : reply A) : result A :=
  match r with Answer a => Ok a | Denied e | Failed e => Err e end.

(** [op] with the token it is sent with; retried once after a 403. *)
Definition withReauth {A} (now : Z) (lo : login_outcome) (op : nat -> string -> reply A) (tm : TokenManager)
    : result A * TokenManager :=
  let sentWith := tm_token tm in
  match op 0%nat sentWith with
  | Answer a => (Ok a, tm)
  | Failed e => (Err e, tm)
  | Denied e =>
      match Reauth now sentWith lo tm with
      | (Err re, tm) => (Err (Wrap "request failed" [e; re]), tm)
      | (Ok _, tm) => (reply_result (op 1%nat (tm_token tm)), tm)
      end
  end.

Definition transitHashAlgorithm (h : Z) : result string :=
  if h =? SHA256 then Ok "sha2-256" else if h =? SHA384 then Ok "sha2-384" else if h =? SHA512 then Ok "sha2-512"
  else Err (Msg "unsupported hash algorithm").

(** crypto.SignerOpts: a hash, and whether it asks for RSA-PSS. *)
Record SignerOpts := mkOpts { opts_HashFunc : Z; opts_PSS : bool }.

Section Sign.
Context (base64 : string -> option string).
Context (VerifyPSS VerifyPKCS1v15 : PublicKey -> Z -> string -> string -> bool).
Context (VerifyASN1 : PublicKey -> string -> string -> bool).

Definition verifyTransitSignature (pub : PublicKey) (digest : string) (opts : SignerOpts) (sig : string) : result unit :=
  match pub with
  | RSAKey _ _ =>
      if opts_PSS opts then
        if VerifyPSS pub (opts_HashFunc opts) digest sig then Ok tt
        else Err (Msg "returned signature does not verify against the CA public key (RSA-PSS)")
      else if VerifyPKCS1v15 pub (opts_HashFunc opts) digest sig then Ok tt
      else Err (Msg "returned signature does not verify against the CA public key (RSA PKCS#1 v1.5)")
  | ECDSAKey _ _ =>
      if VerifyASN1 pub digest sig then Ok tt
      else Err (Msg "returned ECDSA signature does not verify against the CA public key")
  | _ => Err (Msg "unsupported public key type for signature verification")
  end.

(** What is written to the sign endpoint. *)
Record sign_request := mkSignReq { sr_input : string; sr_hash_algorithm : string; sr_signature_algorithm : option string }.
Definition sign_data (pub : PublicKey) (digest : string) (opts : SignerOpts) (hashAlgo : string) : sign_request :=
  mkSignReq digest hashAlgo
    match pub with
    | RSAKey _ _ => Some (if opts_PSS opts then "pss" else "pkcs1v15")
    | _ => None
    end.

(** After "vault:v" and a version, the signature. *)
Fixpoint after_colon (s : string) : option string :=
  match s with "" => None | String c s => if code c =? 58 then Some s else after_colon s end.
Definition decodeTransitSignature (sig : string) : result string :=
  match CutPrefix sig "vault:v" ≫= after_colon with
  | None => Err (Msg "unrecognised signature format")
  | Some b64 => match base64 b64 with Some der => Ok der | None => Err (Msg "decoding signature") end
  end.

(** [transit] answers the write to the sign endpoint: the signature field, if
    there is a response with data.  The signature is checked against the CA's
    public key. *)
Definition sign (pub : PublicKey) (digest : string) (opts : SignerOpts)
    (transit : string -> sign_request -> reply (option string)) (token : string) : reply string :=
  match transitHashAlgorithm (opts_HashFunc opts) with
  | Err e => Failed e
  | Ok hashAlgo =>
      match transit token (sign_data pub digest opts hashAlgo) with
      | Denied e => Denied (Wrap "transit sign" [e])
      | Failed e => Failed (Wrap "transit sign" [e])
      | Answer None => Failed (Msg "transit sign: empty response")
      | Answer (Some sigStr) =>
          if bool_decide (sigStr = "") then Failed (Msg "transit sign: response has no signature field")
          else match decodeTransitSignature sigStr with
          | Err e => Failed e
          | Ok sig => match verifyTransitSignature pub digest opts sig with Ok _ => Answer sig | Err e => Failed e end
          end
      end
  end.

Definition Signer_Sign (now : Z) (lo : login_outcome) (pub : PublicKey) (digest : string) (opts : SignerOpts)
    (transit : nat -> string -> sign_request -> reply (option string)) (tm : TokenManager) : result string * TokenManager :=
  withReauth now lo (fun attempt => sign pub digest opts (transit attempt)) tm.

(** A signature that is returned is one by the CA's key of this digest, whatever
    OpenBao answered and whichever attempt it was. *)
Lemma Signer_Sign_verified now lo pub digest opts transit tm sig tm' :
  Signer_Sign now lo pub digest opts transit tm = (Ok sig, tm') -> verifyTransitSignature pub digest opts sig = Ok tt.
Proof.
  assert (forall t token, sign pub digest opts t token = Answer sig -> verifyTransitSignature pub digest opts sig = Ok tt) as Hs.
  { intros t token. unfold sign. repeat case_match; intros [= <-]; by repeat match goal with u : unit |- _ => destruct u end. }
  unfold Signer_Sign, withReauth. destruct (sign pub digest opts (transit 0%nat) (tm_token tm)) eqn:E; [|destruct (Reauth _ _ _ _) as [[[]|e2] tm2]|];
    intros H; simplify_eq; [by eapply Hs|].
  unfold reply_result in *. destruct (sign pub digest opts (transit 1%nat) (tm_token tm')) eqn:E2; simplify_eq. by eapply Hs.
Qed.
End Sign.

(** ** How often it logs in *)

(** Requests that were refused, each asking for a login, and the background
    loop's own; time does not go back.  [b_logins] has when each login was made
    and whether a request made it, the last first. *)
Record bao_world := mkBao { b_tm : TokenManager; b_now : Z; b_logins : list (Z * bool) }.

Inductive bao_step : bao_world -> bao_world -> Prop :=
  | request_refused w now rejected lo tm r :
      b_now w <= now -> Reauth now rejected lo (b_tm w) = (r, tm) ->
      bao_step w (mkBao tm now
        (if negb (tm_closed (b_tm w)) && bool_decide (tm_token (b_tm w) = rejected) && negb (throttled now (b_tm w))
         then (now, true) :: b_logins w else b_logins w))
  | background_login w now lo tm r :
      b_now w <= now -> reauthLocked now lo (b_tm w) = (r, tm) -> bao_step w (mkBao tm now ((now, false) :: b_logins w))
  | manager_closed w : bao_step w (mkBao (Close (b_tm w)).2 (b_now w) (b_logins w)).

(** Every login that a request made is at least the interval after every one
    before it. *)
Fixpoint spaced (l : list (Z * bool)) : Prop :=
  match l with
  | [] => True
  | (t, by_request) :: l =>
      (forall t' b, (t', b) ∈ l -> t' <= t /\ (by_request = true -> t' + minReauthInterval <= t)) /\ spaced l
  end.
Record bao_inv (w : bao_world) : Prop := BaoInv {
  bi_spaced : spaced (b_logins w);
  bi_last : forall t b, (t, b) ∈ b_logins w -> t <= tm_lastLogin (b_tm w);
  bi_now : tm_lastLogin (b_tm w) <= b_now w }.

Lemma reauthLocked_last now lo tm r tm' : reauthLocked now lo tm = (r, tm') -> tm_lastLogin tm' = now.
Proof. unfold reauthLocked. destruct (lo_secret lo); by intros [= _ <-]. Qed.

Lemma bao_step_inv w w' : bao_step w w' -> bao_inv w -> bao_inv w'.
Proof.
  intros Hs [H1 H2 H3]. destruct Hs as [w now rejected lo tm r Hn Hr|w now lo tm r Hn Hr|w].
  - unfold Reauth in Hr. destruct (tm_closed (b_tm w)); cbn [negb andb]; [injection Hr as _ <-; split; cbn; [done|done|lia]|].
    destruct (bool_decide (tm_token (b_tm w) = rejected)); cbn [negb andb] in *; [|injection Hr as _ <-; split; cbn; [done|done|lia]].
    destruct (throttled now (b_tm w)) eqn:Et; cbn [negb] in *; [injection Hr as _ <-; split; cbn; [done|done|lia]|].
    apply reauthLocked_last in Hr. unfold throttled in Et. apply Z.ltb_ge in Et. split; cbn; rewrite ?Hr; [|intros t b [[= -> ->]|Hin]%elem_of_cons; [lia|]|lia].
    + split; [|done]. intros t b Hin. pose proof (H2 t b Hin). unfold minReauthInterval in *. lia.
    + pose proof (H2 t b Hin). lia.
  - apply reauthLocked_last in Hr. split; cbn; rewrite ?Hr; [|intros t b [[= -> ->]|Hin]%elem_of_cons; [lia|]|lia].
    + split; [|done]. intros t b Hin. pose proof (H2 t b Hin). split; [lia|done].
    + pose proof (H2 t b Hin). lia.
  - assert (tm_lastLogin (Close (b_tm w)).2 = tm_lastLogin (b_tm w)) as E by (unfold Close; by destruct (tm_closed _)).
    split; cbn; rewrite ?E; done.
Qed.

(** Logins that requests made between two moments. *)
Definition request_logins (a b : Z) (l : list (Z * bool)) : list (Z * bool) :=
  base.filter (fun x => x.2 = true /\ a <= x.1 <= b) l.

Lemma spaced_count l : forall a b, spaced l -> a <= b + minReauthInterval ->
  Z.of_nat (length (request_logins a b l)) * minReauthInterval <= b - a + minReauthInterval.
Proof.
  unfold request_logins. induction l as [|[t r] l IH]; intros a b Hs Hab; [cbn; unfold minReauthInterval in *; lia|].
  destruct Hs as [Hlt Hs]. rewrite filter_cons. case_decide as Hd; [|by apply IH]. cbn in Hd. destruct Hd as (-> & Ha & Hb).
  assert (length (base.filter (fun x : Z * bool => x.2 = true /\ (a <= x.1 <= b)%Z) l) <=
    length (base.filter (fun x : Z * bool => x.2 = true /\ (a <= x.1 <= t - minReauthInterval)%Z) l))%nat as Hle.
  { apply filter_length_le. intros [t' b'] Hin (? & ? & ?). destruct (Hlt t' b' Hin) as [_ Hsp]. specialize (Hsp eq_refl). cbn in *. repeat split; [done|lia..]. }
  specialize (IH a (t - minReauthInterval) Hs ltac:(unfold minReauthInterval in *; lia)). cbn [length].
  unfold minReauthInterval in *. lia.
Qed.

(** However many requests OpenBao refuses, and whatever the background loop does
    besides, requests cause at most one login in every thirty seconds. *)
Theorem reauth_bounded tm now w a b :
  tm_lastLogin tm <= now -> rtc bao_step (mkBao tm now []) w -> a <= b ->
  Z.of_nat (length (request_logins a b (b_logins w))) <= (b - a) / minReauthInterval + 1.
Proof.
  intros Hn Hr Hab. assert (bao_inv w) as Hi.
  { refine (rtc_ind_r bao_inv _ _ _ _ Hr); [|intros w1 w2 _ Hs IH; by apply (bao_step_inv w1 w2)].
    split; cbn; [done|by intros t x ?%not_elem_of_nil|done]. }
  pose proof (spaced_count (b_logins w) a b (bi_spaced _ Hi) ltac:(unfold minReauthInterval; lia)) as H.
  assert (Z.of_nat (length (request_logins a b (b_logins w))) - 1 <= (b - a) / minReauthInterval); [|lia].
  apply Z.div_le_lower_bound; unfold minReauthInterval in *; lia.
Qed.

Definition demo_tm : TokenManager := mkTM "old" true 0 None true false.
Definition demo_login : login_outcome := mkLogin "new" (Ok true) (Ok tt).
Definition demo_bao : bao_world :=
  mkBao (mkTM "new" true 40000000000 None true false) 45000000000 [(40000000000, true)].
Lemma demo_bao_reachable : rtc bao_step (mkBao demo_tm 0 []) demo_bao.
Proof.
  eapply rtc_l; [eapply (request_refused _ 40000000000 "old" demo_login); [cbn; lia|reflexivity]|].
  eapply rtc_l; [eapply (request_refused _ 45000000000 "new" demo_login); [cbn; lia|reflexivity]|].
  apply reflexive_eq. reflexivity.
Qed.
Lemma reauth_bounded_witness : Z.of_nat (length (request_logins 0 45000000000 (b_logins demo_bao))) <= 2.
Proof. exact (reauth_bounded demo_tm 0 demo_bao 0 45000000000 ltac:(cbn; lia) demo_bao_reachable ltac:(lia)). Defined.
