(* ===== verification/Bootstrap.v ===== *)
(** * Starting a replica: loading or creating the CA

    Models [Init], [loadCA], [finishLoadExisting], [seedSupportingState] and
    [bootstrapCA] of internal/ca/init.go as processes: one storage or provider
    call per action, the bootstrap section under the store's bootstrap lock.
    [InitHMAC], the reading of the serial index and the repair of the
    certificate index, which do not touch the CA's own objects, are one action
    each.

    Any number of replicas may start at once, and the command that emits a
    certificate signing request may create the key meanwhile; storage, the
    provider and the lock may fail at every call and a process may die at any
    point. *)

From S2P Require Import Prelude GoStrings GoTime Sha256 X509 Inventory Storage InventorySpec Policy.
From S2P Require Import CAState CRLChain CRL OCSP CRLSafety Supersede Signing Lifecycle System Growth.
From S2P Require Import Process KeyCustody.

Section Bootstrap.
Context {KC : KeyCrypto} {P : Type} {KP : KeyProvider P}.

Notation bproc := (proc (Backend * P) Replica Env).

(** ** Loading *)

(** The signer: the frontend's, the provider's, or the stored key. *)
Definition load_signer (bc : BootConfig) : bproc unit :=
  match b_ExternalSigner bc with
  | Some signer => world (upd_ca (set_CAKey signer))
  | None =>
      if b_KeyProvider bc then key ← provider kp_Load; world (upd_ca (set_CAKey key))
      else loadCAKeyFromDisk bc
  end.

(** A loaded key must be the certificate's; the frontend's signer is checked by
    the process that holds the key. *)
Definition check_key_pair (bc : BootConfig) (cert : Certificate) : bproc unit :=
  match b_ExternalSigner bc with
  | Some _ => mret tt
  | None =>
      certPub ← pwrap "failed to marshal cert public key for validation"
                  (presult (MarshalPKIXPublicKey (PubKey cert)));
      key ← loaded_key;
      keyPub ← pwrap "failed to marshal loaded key's public key for validation"
                 (presult (MarshalPKIXPublicKey key));
      if negb (bool_decide (certPub = keyPub)) then
        pfail (Msg "CA private key does not match CA certificate's public key")
      else mret tt
  end.

Definition loadCA (bc : BootConfig) : bproc unit :=
  _ ← load_signer bc;
  certPEM ← store GetCACert;
  match pem_Decode certPEM with
  | (None, _) => pfail (Msg "failed to decode CA cert PEM")
  | (Some block, _) =>
      cert ← presult (ParseCertificate (Bytes block));
      _ ← pcheck (checkCAKeyType (PubKey cert));
      _ ← check_key_pair bc cert;
      world (upd_ca (set_CACert cert))
  end.

(** [c.CACert], set on every path that reaches its use. *)
Definition own_cert : bproc Certificate :=
  cert ← world (get_ca CACert);
  match cert with Some c => mret c | None => pfail (Sentinel ErrNotInitialized) end.

Definition encode_crl (crl : RevocationList) : blob := pem_encode [mkBlock "X509 CRL" (DerCRL crl)].

(** A fresh empty CRL of the loaded certificate and key. *)
Definition initial_crl (cert : Certificate) : bproc RevocationList :=
  key ← loaded_key;
  c ← world (get_ca cfg);
  world (newEmptyCRL cert key (CRLValidityDuration c)).

Definition seedSupportingStateLocked : bproc unit :=
  cert ← own_cert;
  _ ← pwrap "writing CA public key" (store (savePubKeyPEM (PubKey cert)));
  r ← ptry (store GetCRL);
  match r with
  | Ok _ => mret tt
  | Err e =>
      if negb (errors_Is e FsErrNotExist) then pfail (Wrap "re-checking CRL" [e])
      else
        crl ← pwrap "creating initial CRL" (initial_crl cert);
        _ ← pwrap "writing initial CRL" (store (UpdateCRL (encode_crl crl)));
        _ ← pwrap "creating inventory" (store TouchInventory);
        hasSerial ← pwrap "checking serial" (store HasSerial);
        if (hasSerial : bool) then mret tt
        else pwrap "writing serial" (store (WriteSerial "0001"))
  end.

Definition seedSupportingState : bproc unit := with_bootstrap_lock seedSupportingStateLocked.

Definition finishLoadExisting (bc : BootConfig) (seed : bproc unit) : bproc unit :=
  _ ← ptry (world buildSerialIndex);
  r ← ptry (world loadCRLCache);
  match r with
  | Ok _ => world rebuildCertIndex
  | Err e =>
      if negb (errors_Is e FsErrNotExist) then pfail (Wrap "failed to load CRL into memory" [e])
      else match b_ExternalSigner bc with
      | Some _ => pfail (Wrap "failed to load CRL into memory" [e])
      | None =>
          _ ← pwrap "seeding CA supporting state" seed;
          _ ← world loadCRLCache;
          world rebuildCertIndex
      end
  end.

(** ** Creating a CA *)

Definition ca_template (bc : BootConfig) (serial : Z) (now : Time) (key : PublicKey) : Template :=
  let hostname := if bool_decide (b_Hostname bc = "") then "puppet" else b_Hostname bc in
  let caValidity := if 0 <? b_CAValidityDays bc then days_duration (b_CAValidityDays bc) else certValidity in
  mkTemplate serial (CASubjectName hostname (b_CASubject bc)) (now - 24 * Hour) (now + caValidity)
    (Z.lor KeyUsageCertSign KeyUsageCRLSign) [] true true (KeyIdSha1 key) KeyIdNone no_sans [] []
    (if 0 <=? b_CAPathLength bc then b_CAPathLength bc else 0) (b_CAPathLength bc =? 0).

Definition new_ca_key (bc : BootConfig) : bproc PublicKey :=
  pwrap "failed to generate CA key"
    (if b_KeyProvider bc then provider (kp_Generate (ca_key_config bc))
     else store (fresh_key (ca_key_config bc))).

(** The certificate of a new key. *)
Definition new_ca_cert (bc : BootConfig) (key : PublicKey) : bproc Certificate :=
  serial ← pwrap "failed to generate serial number" (store (rand_Int (2 ^ 128)));
  ski ← pwrap "failed to compute SubjectKeyIdentifier" (presult (MarshalPKIXPublicKey key));
  now ← store time_Now;
  _ ← pwrap "failed to create CA cert" (world signer_available);
  cert ← pwrap "failed to create CA cert" (presult (CreateSelfSigned (ca_template bc serial now ski) key));
  pwrap "failed to parse generated CA cert" (presult (ParseCertificate (DerCert cert))).

(** A provider keeps its key itself. *)
Definition store_ca_key (bc : BootConfig) (key : PublicKey) : bproc unit :=
  if b_KeyProvider bc then mret tt
  else
    keyPEM ← store (marshalCAKeyForStorage bc key);
    pwrap "failed to write CA key" (store (SaveCAKey keyPEM)).

(** The state around a certificate just written: public key, first CRL (also
    in memory) and inventory. *)
Definition first_state (cert : Certificate) (key : PublicKey) : bproc unit :=
  _ ← pwrap "failed to write CA public key" (store (savePubKeyPEM key));
  crl ← initial_crl cert;
  _ ← pwrap "failed to write initial CRL" (store (UpdateCRL (encode_crl crl)));
  _ ← world (upd_ca (installCachedCRLLocked crl));
  pwrap "failed to create inventory" (store TouchInventory).

Definition bootstrapCA (bc : BootConfig) : bproc unit :=
  key ← new_ca_key bc;
  cert ← new_ca_cert bc key;
  _ ← world (upd_ca (set_CA (Some cert) (Some key)));
  _ ← store_ca_key bc key;
  _ ← pwrap "failed to write CA cert" (store (SaveCACert (encode_cert cert)));
  first_state cert key.

(** ** Init *)

(** The section under the bootstrap lock; [loadErr] is what the load before it
    reported. *)
Definition init_locked (bc : BootConfig) (loadErr : error) : bproc unit :=
  r ← ptry (loadCA bc);
  match r with
  | Ok _ => finishLoadExisting bc seedSupportingStateLocked
  | Err _ =>
      hasCert ← pwrap "checking CA cert" (store HasCACert);
      hasKey ← pwrap "checking CA key" (HasCAKey bc);
      if negb hasCert && hasKey then
        pfail (Wrap "a CA key already exists but the CA certificate is missing: refusing to bootstrap" [loadErr])
      else if hasCert && negb hasKey then
        pfail (Wrap "a CA certificate exists but its key is missing: refusing to bootstrap" [loadErr])
      else if negb hasCert || negb hasKey then
        if b_NoBootstrap bc then
          pfail (Wrap "no CA exists in the configured storage, and this caller will not create one" [loadErr])
        else bootstrapCA bc
      else pfail (Wrap "failed to load existing CA" [loadErr])
  end.

Definition Init (bc : BootConfig) : bproc unit :=
  if (match b_ExternalSigner bc with Some _ => true | None => false end) && b_KeyProvider bc then
    pfail (Msg "CA misconfigured: ExternalSigner and KeyProvider are mutually exclusive")
  else
    _ ← store EnsureDirs;
    _ ← pwrap "initialising inventory integrity" (store InitHMAC);
    r ← ptry (loadCA bc);
    match r with
    | Ok _ => finishLoadExisting bc seedSupportingState
    | Err loadErr =>
        match b_ExternalSigner bc with
        | Some _ => pfail (Wrap "failed to load CA in frontend mode (signer should have bootstrapped)" [loadErr])
        | None => with_bootstrap_lock (init_locked bc loadErr)
        end
    end.
End Bootstrap.
