(* ===== verification/BootSafety.v ===== *)
(** * Starting replicas never destroys a CA and they agree on one

    The contracts of the start-up processes of Bootstrap.v and KeyCustody.v
    against each other, and what follows for every interleaving of any number
    of them. *)

From S2P Require Import Prelude GoStrings GoTime Sha256 X509 Inventory Storage InventorySpec Policy.
From S2P Require Import CAState CRLChain CRL OCSP CRLSafety Supersede Signing Lifecycle System Growth.
From S2P Require Import Process KeyCustody Bootstrap.

(** ** Actions that leave the CA's own objects alone *)

Definition objects_kept : relation Store := fun s s' =>
  blobs (be s') !! KeyCACert = blobs (be s) !! KeyCACert /\
  blobs (be s') !! KeyCAKey = blobs (be s) !! KeyCAKey /\
  blobs (be s') !! KeyCRL = blobs (be s) !! KeyCRL.
#[global] Instance objects_kept_preorder : PreOrder objects_kept.
Proof. split; [done|]. intros ? ? ? (?&?&?) (?&?&?). repeat split; congruence. Qed.

Definition ca_object (k : string) : Prop := k = KeyCACert \/ k = KeyCAKey \/ k = KeyCRL.

Lemma objects_same {A} (m : MS A) : mono same_data m -> mono objects_kept m.
Proof. apply mono_weaken. intros s s' (E & _). unfold objects_kept. by rewrite E. Qed.
Lemma objects_frame {A} K (m : MS A) :
  (forall k, ca_object k -> ~ K k) -> mono (frame K) m -> mono objects_kept m.
Proof.
  intros HK. apply mono_weaken. intros s s' (_ & _ & H).
  unfold ca_object in HK. repeat split; apply H, HK; auto.
Qed.
Lemma objects_Put key d : ~ ca_object key -> mono objects_kept (backend (be_Put key d)).
Proof.
  intros HK. apply (objects_frame (fun k => k = key)); [|by apply frame_Put].
  intros k Hk ->. by apply HK.
Qed.
#[export] Hint Resolve objects_same : mono.
#[export] Hint Extern 2 (mono objects_kept (backend (be_Put _ _))) =>
  apply objects_Put; unfold ca_object; naive_solver : mono.

Lemma objects_verify k : mono objects_kept (verifyInventoryHMACLocked k).
Proof.
  eapply objects_frame; [|apply verify_frame]. unfold ca_object. naive_solver.
Qed.
#[export] Hint Resolve objects_verify : mono.
Lemma objects_load : mono objects_kept loadHMACKey.
Proof. unfold loadHMACKey. mono_tac. Qed.
#[export] Hint Resolve objects_load : mono.
Lemma objects_InitHMAC : mono objects_kept InitHMAC.
Proof. unfold InitHMAC, EnsureHMACKey, WithLock. mono_tac. done. Qed.
Lemma objects_Touch : mono objects_kept TouchInventory.
Proof. unfold TouchInventory. mono_tac. Qed.
Lemma objects_pub pub : mono objects_kept (savePubKeyPEM pub).
Proof. unfold savePubKeyPEM, SaveCAPubKey. mono_tac. Qed.
Lemma objects_marshal {KC : KeyCrypto} bc key : mono objects_kept (marshalCAKeyForStorage bc key).
Proof. unfold marshalCAKeyForStorage, encryptAndMarshalKey, encryptKeyPEM. mono_tac. Qed.
Lemma objects_fresh cfg : mono objects_kept (fresh_key cfg).
Proof. unfold fresh_key. mono_tac. Qed.
Lemma objects_index (op : BOp unit) : (forall b, blobs (op b).2 = blobs b) -> mono objects_kept (on_index op).
Proof.
  intros H. unfold on_index, is_structured. mono_tac.
  intros s. unfold exec, objects_kept. destruct (backend op s) as [r s'] eqn:E. simpl.
  apply backend_cases in E as (_ & _ & [[_ ->]|(e & _ & [->| ->])]); by rewrite ?H.
Qed.
#[export] Hint Resolve objects_InitHMAC objects_Touch objects_pub objects_marshal objects_fresh : mono.

Lemma objects_statuses f : mono objects_kept (CertStatuses f).
Proof. unfold CertStatuses, is_structured. mono_tac. Qed.
Lemma objects_entries : mono objects_kept InventoryEntries.
Proof.
  unfold InventoryEntries, compareInventoryMACLocked, is_structured, baselineInventoryHMACLocked,
    updateInventoryHMACLocked, computeInventoryHMAC. mono_tac.
Qed.
#[export] Hint Resolve objects_statuses objects_entries : mono.

(** The certificate, the key and the CRL in memory. *)
Definition ca_kept : relation World := fun w w' =>
  objects_kept (st w) (st w') /\ CACert (ca w') = CACert (ca w) /\ CAKey (ca w') = CAKey (ca w) /\
  cachedCRL (ca w') = cachedCRL (ca w).
#[global] Instance ca_kept_preorder : PreOrder ca_kept.
Proof.
  split; [intros w; repeat split|]. intros ? ? ? (?&?&?&?) (?&?&?&?). split; [by etrans|]. repeat split; congruence.
Qed.
Lemma kept_lift {A} (m : MS A) : mono objects_kept m -> mono ca_kept (lift m).
Proof. intros H. eapply mono_lift; [exact H|]. by intros w s' Hs. Qed.
#[export] Hint Resolve kept_lift : mono.

Lemma kept_rebuild : mono ca_kept rebuildCertIndex.
Proof.
  assert (forall s t, mono objects_kept (MarkCertRevoked s t)) by (intros; by apply objects_index).
  assert (forall s, mono objects_kept (ClearCertRevoked s)) by (intros; by apply objects_index).
  assert (forall s p, mono objects_kept (SetCertProjection s p)) by (intros; by apply objects_index).
  unfold rebuildCertIndex, repair_record, backfillCertProjection, get_ca. mono_tac.
Qed.
Lemma kept_serialIndex : mono ca_kept buildSerialIndex.
Proof.
  unfold buildSerialIndex, readSerialIndex. mono_tac. apply mono_upd_ca. by intros w.
Qed.

(** The outcome of a load of the CRL. *)
Lemma load_cache_Ok w u w' :
  loadCRLCache w = (Ok u, w') ->
  be (st w') = be (st w) /\ CACert (ca w') = CACert (ca w) /\ CAKey (ca w') = CAKey (ca w) /\
  (exists b, blobs (be (st w)) !! KeyCRL = Some b) /\
  forall o, own_stored w o -> cachedCRL (ca w') = Some o.
Proof.
  unfold loadCRLCache, get_ca. intros H.
  apply bind_Ok in H as (b & w1 & H1 & H). apply wrapping_Ok in H1.
  assert (Q : quiet w w1) by (eapply (mono_run quiet); [|exact H1]; mono_tac).
  destruct (pem_Decode b) as [[block|] rest] eqn:Hb; [|done].
  destruct (ParseRevocationList (Bytes block)) as [crl|e] eqn:Hp; [|done].
  apply bind_Ok in H as (c & w2 & Hc & H). apply gets_Ok in Hc as [-> ->]. cbn [id] in H.
  apply modify_Ok in H. subst w'.
  match goal with |- context [installCachedCRLLocked ?x _] => set (chosen := x) end.
  pose proof (install_fields chosen (ca w1)) as (F1 & F2 & F3 & F4 & _).
  pose proof Q as [C (E & _)]. apply same_core_ca in C as (C1 & C2 & _). cbn [st ca set_ca].
  split; [exact E|]. split; [congruence|]. split; [congruence|]. split.
  { apply lift_Ok in H1 as (s1 & H1 & _). apply backend_Ok in H1 as (H1 & _).
    apply be_Get_Ok in H1 as [H1 _]; [by eauto|by apply on_rows_other]. }
  intros o Ho. rewrite F4. f_equal. subst chosen.
  apply (own_stored_quiet _ _ _ Q), (read_own _ _ _ _ H1) in Ho as (chain & -> & Hin & ->).
  destruct (0 <? indexOfCRL chain o) eqn:Hz; [done|]. apply Z.ltb_ge in Hz.
  destruct chain as [|lead others]; [by apply elem_of_nil in Hin|].
  assert (o = lead) as -> by (by eapply index_zero).
  injection Hb as <- _. injection Hp as ->. by destruct (newerCRL crl crl).
Qed.

Lemma load_cache_Err w e w' :
  loadCRLCache w = (Err e, w') ->
  be (st w') = be (st w) /\ CACert (ca w') = CACert (ca w) /\ CAKey (ca w') = CAKey (ca w) /\
  (errors_Is e FsErrNotExist = true -> blobs (be (st w)) !! KeyCRL = None).
Proof.
  unfold loadCRLCache, get_ca. intros H.
  apply bind_run in H as [(e0 & H & [= <-])|(b & w1 & H1 & H)].
  - unfold wrapping in H. destruct (lift GetCRL w) as [[a|e1] w1] eqn:E; simplify_eq.
    apply lift_run in E as (s1 & E & ->). cbn [st ca set_st].
    pose proof (mono_run same_data _ _ _ _ (backend_reads _ (reads_Get _)) E) as (Eb & _). split; [done|].
    split; [done|]. split; [done|]. cbn [errors_Is existsb]. rewrite orb_false_r. intros He.
    destruct (backend_Err_is _ _ _ _ _ E He) as (E2 & _).
    destruct (be_Get KeyCRL (be (st w))) as [r b'] eqn:G. cbn [fst] in E2. subst r.
    by eapply be_Get_missing.
  - apply wrapping_Ok, lift_Ok in H1 as (s1 & H1 & ->).
    pose proof (mono_run same_data _ _ _ _ (backend_reads _ (reads_Get _)) H1) as (Eb & _).
    assert (errors_Is e FsErrNotExist = false /\ w' = set_st s1 w) as [He ->].
    { destruct (pem_Decode b) as [[block|] rest]; [|by injection H as <- <-].
      destruct (Bytes block); first [done|by injection H as <- <-]. }
    cbn [st ca set_st]. by rewrite He.
Qed.

(** ** What the processes may do to the shared state *)

Section Contracts.
Context {KC : KeyCrypto} {P : Type} {KP : KeyProvider P} {KPL : KeyProviderLaws P}.
(** [X] is whether the store was in order to begin with. *)
Context (X : Prop).

Notation bproc := (proc (Backend * P) Replica Env).
Notation shared_state := (Backend * P)%type.

Definition stored (s : shared_state) (k : string) : option blob := blobs s.1 !! k.
Definition custody (s : shared_state) : option PublicKey := key_at s.2.

(** The store is empty of CA objects, or holds a certificate that may sign CRLs
    and, if any CRL, a chain with one of this CA. *)
Definition in_order (s : shared_state) : Prop :=
  (stored s KeyCACert = None -> stored s KeyCRL = None) /\
  forall b, stored s KeyCACert = Some b -> exists cert,
    decode_cert b = Some cert /\ parent_may_sign KeyUsageCRLSign cert = true /\
    forall c, stored s KeyCRL = Some c -> exists chain o,
      c = encodeCRLChain chain /\ ownCRLIn chain (Some cert) = Some o.

(** Without the lock: nothing but a key created at the provider. *)
Definition untouched (s s' : shared_state) : Prop :=
  (forall k, ca_object k -> stored s' k = stored s k) /\
  forall k, custody s = Some k -> custody s' = Some k.

(** Under the lock: objects are created, never replaced. *)
Definition only_created (s s' : shared_state) : Prop :=
  (forall b, stored s KeyCACert = Some b -> stored s' KeyCACert = Some b) /\
  (forall b, stored s KeyCAKey = Some b -> stored s' KeyCAKey = Some b) /\
  (forall k, custody s = Some k -> custody s' = Some k) /\
  (X -> in_order s -> in_order s' /\ forall b, stored s KeyCRL = Some b -> stored s' KeyCRL = Some b).

#[global] Instance untouched_preorder : PreOrder untouched.
Proof.
  split; [done|]. intros s1 s2 s3 [A1 A2] [B1 B2]. split; [|auto]. intros k Hk. by rewrite B1, A1.
Qed.
#[global] Instance only_created_preorder : PreOrder only_created.
Proof.
  split; [intros s; unfold only_created; split_and!; auto|]. intros s1 s2 s3 (A1&A2&A3&A4) (B1&B2&B3&B4). split_and!; auto.
  intros HX H1. destruct (A4 HX H1) as [H2 C2]. destruct (B4 HX H2) as [H3 C3]. auto.
Qed.
Lemma untouched_created s s' : untouched s s' -> only_created s s'.
Proof.
  intros [H1 H2]. unfold only_created. unfold ca_object in H1.
  split_and!; [intros b; rewrite H1; auto..|done|]. intros HX. unfold in_order. rewrite !H1 by auto. auto.
Qed.

Notation rely := (rely untouched only_created).
Notation guar := (guar untouched only_created).
Notation wp := (wp untouched only_created).

Lemma rely_trans h s1 s2 s3 : rely h s1 s2 -> rely h s2 s3 -> rely h s1 s3.
Proof. destruct h; apply transitivity. Qed.
Lemma untouched_rely h s s' : untouched s s' -> rely h s s'.
Proof. destruct h; [done|apply untouched_created]. Qed.
Lemma untouched_guar h s s' : untouched s s' -> guar h s s'.
Proof. destruct h; [apply untouched_created|done]. Qed.
Lemma rely_created h s s' : rely h s s' -> only_created s s'.
Proof. destruct h; [apply untouched_created|done]. Qed.
Lemma rely_refl h s : rely h s s.
Proof. by destruct h. Qed.

(** ** Rules for the actions *)

(** The same replica, its CA object now [c]. *)
Definition at_ca (l l' : Replica) (c : CA) : Prop :=
  r_boot l' = r_boot l /\ r_starts l' = r_starts l /\ n_ca (r_node l') = c.
Lemma at_ca_trans l l' l'' c c' : at_ca l l' c -> at_ca l' l'' c' -> at_ca l l'' c'.
Proof. intros (?&?&?) (?&?&?). repeat split; congruence. Qed.
Lemma at_ca_refl l : at_ca l l (n_ca (r_node l)).
Proof. by repeat split. Qed.

Lemma wp_world {A} h (m : MW A) (Q : bool -> result A -> shared_state * Replica -> Prop) x :
  (forall s w r w', rely h x.1 s -> be (st w) = s.1 -> ca w = n_ca (r_node x.2) -> m w = (r, w') ->
     guar h s (be (st w'), s.2) /\
     forall l', at_ca x.2 l' (ca w') -> Q h r ((be (st w'), s.2), l')) ->
  wp h (world m) Q x.
Proof.
  intros H [b p] Hs e. unfold embed, on_world. cbn [fst snd].
  destruct (m (world_of b (r_node x.2) e)) as [r w'] eqn:E.
  destruct (H (b, p) (world_of b (r_node x.2) e) r w' Hs eq_refl eq_refl E) as [HG HQ]. split; [exact HG|]. apply HQ. by repeat split.
Qed.

Lemma wp_provider {A} h (m : M P A) (Q : bool -> result A -> shared_state * Replica -> Prop) x :
  (forall s r p', rely h x.1 s -> m s.2 = (r, p') ->
     guar h s (s.1, p') /\ forall l', at_ca x.2 l' (n_ca (r_node x.2)) -> Q h r ((s.1, p'), l')) ->
  wp h (provider m) Q x.
Proof.
  intros H [b p] Hs e. unfold embed, on_provider. cbn [fst snd].
  destruct (m p) as [r p'] eqn:E.
  destruct (H (b, p) r p' Hs E) as [HG HQ]. split; [exact HG|]. apply HQ. by repeat split.
Qed.

Lemma objects_untouched s w' (p : P) (b : Backend) :
  objects_kept s w' -> be s = b -> untouched (b, p) (be w', p).
Proof.
  intros (E1 & E2 & E3) <-. split; [|done]. unfold stored. cbn [fst].
  by intros k [->|[->| ->]].
Qed.

(** An action that leaves the CA's objects alone. *)
Lemma wp_kept {A} h (m : MW A) (Q : bool -> result A -> shared_state * Replica -> Prop) x :
  (forall w r w', m w = (r, w') -> objects_kept (st w) (st w')) ->
  (forall s w r w' l', rely h x.1 s -> ca w = n_ca (r_node x.2) -> m w = (r, w') ->
     at_ca x.2 l' (ca w') -> Q h r (s, l')) ->
  wp h (world m) Q x.
Proof.
  intros Hm HQ. apply wp_world. intros s w r w' Hs Hb Hc E. pose proof (Hm _ _ _ E) as HO.
  pose proof (objects_untouched _ _ s.2 s.1 HO Hb) as HU. rewrite <- surjective_pairing in HU.
  split; [by apply untouched_guar|]. intros l' Hl.
  eapply HQ; [|exact Hc|exact E|exact Hl]. eapply rely_trans; [exact Hs|by apply untouched_rely].
Qed.

Lemma lift_objects {A} (m : MS A) w r w' :
  mono objects_kept m -> lift m w = (r, w') -> objects_kept (st w) (st w') /\ ca w' = ca w.
Proof.
  intros Hm H. apply lift_run in H as (s' & H & ->). split; [|done]. by eapply (mono_run objects_kept).
Qed.

Lemma wp_store_kept {A} h (m : MS A) (Q : bool -> result A -> shared_state * Replica -> Prop) x :
  mono objects_kept m ->
  (forall s r l', rely h x.1 s -> at_ca x.2 l' (n_ca (r_node x.2)) -> Q h r (s, l')) ->
  wp h (store m) Q x.
Proof.
  intros Hm HQ. apply wp_kept.
  - intros w r w' H. by apply (lift_objects _ _ _ _ Hm) in H as [? _].
  - intros s w r w' l' Hs Hc H Hl. apply (lift_objects _ _ _ _ Hm) in H as [_ E]. rewrite E, Hc in Hl. eauto.
Qed.

(** Reading a CA object. *)
Lemma wp_get h key (Q : bool -> result blob -> shared_state * Replica -> Prop) x :
  ca_object key ->
  (forall s r l', rely h x.1 s -> at_ca x.2 l' (n_ca (r_node x.2)) ->
     (forall b, r = Ok b -> stored s key = Some b) ->
     (forall e, r = Err e -> errors_Is e FsErrNotExist = true -> stored s key = None) ->
     Q h r (s, l')) ->
  wp h (store (backend (be_Get key))) Q x.
Proof.
  intros Hk HQ. apply wp_world. intros s w r w' Hs Hb Hc H. apply lift_run in H as (s' & H & ->).
  assert (be s' = s.1) as Es.
  { destruct (mono_run same_data _ _ _ _ (backend_reads _ (reads_Get _)) H) as (-> & _). done. }
  cbn [st ca set_st]. rewrite Es, <- surjective_pairing. split; [by apply untouched_guar|].
  intros l' Hl. rewrite Hc in Hl. apply HQ; [done|done|..].
  - intros b ->. apply backend_Ok in H as (H & _). rewrite Hb in H. apply be_Get_Ok in H as [H _]; [done|].
    apply on_rows_other. by destruct Hk as [->|[->| ->]].
  - intros e -> He. destruct (backend_Err_is _ _ _ _ _ H He) as (E & _). rewrite Hb in E.
    destruct (be_Get key s.1) as [r0 b0] eqn:G. cbn [fst] in E. subst r0. by eapply be_Get_missing.
Qed.

Lemma wp_exists h key (Q : bool -> result bool -> shared_state * Replica -> Prop) x :
  ca_object key ->
  (forall s r l', rely h x.1 s -> at_ca x.2 l' (n_ca (r_node x.2)) ->
     (r = Ok false -> stored s key = None) -> Q h r (s, l')) ->
  wp h (store (backend (be_Exists key))) Q x.
Proof.
  intros Hk HQ. apply wp_world. intros s w r w' Hs Hb Hc H. apply lift_run in H as (s' & H & ->).
  assert (be s' = s.1) as Es.
  { destruct (mono_run same_data _ _ _ _ (backend_reads _ (reads_Exists _)) H) as (-> & _). done. }
  cbn [st ca set_st]. rewrite Es, <- surjective_pairing. split; [by apply untouched_guar|].
  intros l' Hl. rewrite Hc in Hl. apply HQ; [done|done|]. intros ->.
  apply backend_Ok in H as (H & _). rewrite Hb in H. unfold be_Exists, guarded in H.
  assert (validateKey key = None) as E1 by (by destruct Hk as [->|[->| ->]]).
  rewrite E1 in H. injection H as H _. apply bool_decide_eq_false in H. by apply eq_None_not_Some.
Qed.

(** Writing a CA object, under the lock: the write happens or it does not, and
    it has happened when success is reported. *)
Definition written (key : string) (d : blob) (s s' : shared_state) : Prop :=
  stored s' key = Some d /\ (forall k, k <> key -> stored s' k = stored s k) /\ custody s' = custody s.

Lemma wp_put key d (Q : bool -> result unit -> shared_state * Replica -> Prop) x :
  ca_object key ->
  (forall s r s' l', untouched x.1 s -> at_ca x.2 l' (n_ca (r_node x.2)) ->
     s' = s \/ written key d s s' -> (r = Ok tt -> written key d s s') ->
     only_created s s' /\ Q true r (s', l')) ->
  wp true (store (backend (be_Put key d))) Q x.
Proof.
  intros Hk HQ. apply wp_world. intros s w r w' Hs Hb Hc H. apply lift_run in H as (t & H & ->).
  cbn [st ca set_st]. apply backend_cases in H as (_ & _ & H). rewrite Hb in H.
  assert (be_Put key d s.1 = (Ok tt, set_blobs (<[key := d]> (blobs s.1)) s.1)) as E.
  { unfold be_Put, guarded.
    assert (validateKey key = None /\ on_rows s.1 key = false) as [-> ->];
      [|by destruct Hk as [->|[->| ->]]].
    split; [by destruct Hk as [->|[->| ->]]|]. apply on_rows_other. by destruct Hk as [->|[->| ->]]. }
  rewrite E in H. cbn [fst snd] in H.
  assert (written key d s (set_blobs (<[key := d]> (blobs s.1)) s.1, s.2)) as Hw.
  { unfold written, stored, custody. cbn [fst snd blobs set_blobs].
    split; [by rewrite lookup_insert_eq|]. split; [|done]. intros k Hne. by rewrite lookup_insert_ne. }
  assert (((be t, s.2) = s \/ written key d s (be t, s.2)) /\ (r = Ok tt -> written key d s (be t, s.2))) as [H1 H2].
  { destruct H as [[-> ->]|(e & -> & [->| ->])].
    - by split; [right|].
    - split; [left; by destruct s|done].
    - by split; [right|]. }
  split; [|intros l' Hl; rewrite Hc in Hl; by apply (HQ s r _ l')].
  by eapply (HQ s r (be t, s.2) x.2); [done|apply at_ca_refl|..].
Qed.

Lemma proc_wp_mbind {A B} h (p : bproc A) (k : A -> bproc B) Q x :
  wp h p (fun h r y => match r with Ok a => wp h (k a) Q y | Err e => Q h (Err e) y end) x ->
  wp h (p ≫= k) Q x.
Proof. apply proc_wp_bind. Qed.

(** Reading or changing the CA object only. *)
Lemma wp_get_ca {A} h (f : CA -> A) (Q : bool -> result A -> shared_state * Replica -> Prop) x :
  (forall s l', rely h x.1 s -> at_ca x.2 l' (n_ca (r_node x.2)) -> Q h (Ok (f (n_ca (r_node x.2)))) (s, l')) ->
  wp h (world (get_ca f)) Q x.
Proof.
  intros HQ. apply wp_kept; [by intros w r w' [= _ <-]|].
  intros s w r w' l' Hs Hc [= <- <-] Hl. rewrite Hc in *. auto.
Qed.
Lemma wp_upd_ca h f (Q : bool -> result unit -> shared_state * Replica -> Prop) x :
  (forall s l', rely h x.1 s -> at_ca x.2 l' (f (n_ca (r_node x.2))) -> Q h (Ok tt) (s, l')) ->
  wp h (world (upd_ca f)) Q x.
Proof.
  intros HQ. apply wp_kept; [by intros w r w' [= _ <-]|].
  intros s w r w' l' Hs Hc [= <- <-] Hl. cbn [ca set_ca] in Hl. rewrite Hc in *. auto.
Qed.

Definition same_replica (l l' : Replica) : Prop := r_boot l' = r_boot l /\ r_starts l' = r_starts l.
#[local] Instance same_replica_preorder : PreOrder same_replica.
Proof. split; [done|]. intros ? ? ? [? ?] [? ?]. split; congruence. Qed.
Lemma at_ca_same l l' c : at_ca l l' c -> same_replica l l'.
Proof. by intros (?&?&_). Qed.

Lemma wp_loaded_key h (Q : bool -> result PublicKey -> shared_state * Replica -> Prop) x :
  (forall s l' r, rely h x.1 s -> at_ca x.2 l' (n_ca (r_node x.2)) ->
     (forall k, r = Ok k -> CAKey (n_ca (r_node x.2)) = Some k) -> Q h r (s, l')) ->
  wp h loaded_key Q x.
Proof.
  intros HQ. apply proc_wp_mbind, wp_get_ca. intros s l' Hs Hl.
  destruct (CAKey (n_ca (r_node x.2))) as [k|] eqn:E; cbn; apply HQ; try done. by intros k' [= <-].
Qed.

(** The key in custody, as a replica configured with [bc] reads it. *)
Definition custody_key (bc : BootConfig) (s : shared_state) (key : PublicKey) : Prop :=
  if b_KeyProvider bc then custody s = Some key
  else exists b, stored s KeyCAKey = Some b /\ ca_key_pem bc b key.

Lemma custody_later bc s s' key : only_created s s' -> custody_key bc s key -> custody_key bc s' key.
Proof.
  intros (_ & H2 & H3 & _). unfold custody_key. case_match; [apply H3|].
  intros (b & Hb & Hk). exists b. auto.
Qed.

Lemma wp_load_disk h bc (Q : bool -> result unit -> shared_state * Replica -> Prop) x :
  (forall s r l', rely h x.1 s -> same_replica x.2 l' ->
     (r = Ok tt -> exists b key, stored s KeyCAKey = Some b /\ ca_key_pem bc b key /\
        CAKey (n_ca (r_node l')) = Some key) -> Q h r (s, l')) ->
  wp h (loadCAKeyFromDisk bc) Q x.
Proof.
  intros HQ. apply proc_wp_mbind, wp_get; [by right; left|]. intros s r l' Hs Hl%at_ca_same Hok _.
  destruct r as [keyPEM|e]; [|by apply HQ]. specialize (Hok _ eq_refl).
  destruct (pem_Decode keyPEM) as [[block|] rest] eqn:Hd; [|by apply HQ].
  apply proc_wp_mbind. destruct (open_stored_key bc block) as [key|e] eqn:Ho; [|by apply HQ].
  apply wp_upd_ca. intros s' l'' Hs' Hl'. cbn [fst snd] in *.
  apply HQ; [by eapply rely_trans|etrans; [exact Hl|by eapply at_ca_same]|]. intros _.
  exists keyPEM, key. split; [|split; [by exists block, rest|by destruct Hl' as (_ & _ & ->)]].
  by eapply (rely_created h s s').
Qed.

(** ** Loading the CA *)

(** The CA object holds the stored certificate and, unless the key is the
    remote signer's, its key. *)
Definition loaded (bc : BootConfig) (s : shared_state) (c : CA) : Prop :=
  exists b cert, stored s KeyCACert = Some b /\ decode_cert b = Some cert /\ CACert c = Some cert /\
    (b_ExternalSigner bc = None -> CAKey c = Some (PubKey cert)).

Lemma loaded_later bc s s' c : only_created s s' -> loaded bc s c -> loaded bc s' c.
Proof. intros (H & _) (b & cert & Hb & Hrest). exists b, cert. auto. Qed.

Lemma loaded_same bc s c c' : CACert c' = CACert c -> CAKey c' = CAKey c -> loaded bc s c -> loaded bc s c'.
Proof. unfold loaded. by intros -> ->. Qed.

Lemma MarshalPKIX_Ok k d : MarshalPKIXPublicKey k = Ok d -> d = k.
Proof. unfold MarshalPKIXPublicKey. repeat case_match; naive_solver. Qed.

Lemma wp_provider_Load h (Q : bool -> result PublicKey -> shared_state * Replica -> Prop) x :
  (forall s r l', rely h x.1 s -> at_ca x.2 l' (n_ca (r_node x.2)) ->
     (forall k, r = Ok k -> custody s = Some k) -> Q h r (s, l')) ->
  wp h (provider kp_Load) Q x.
Proof.
  intros HQ. apply wp_provider. intros s r p' Hs Hload.
  pose proof (load_keeps s.2) as HK. pose proof (load_finds s.2) as HF. rewrite Hload in HK, HF.
  cbn [fst snd] in HK, HF.
  assert (untouched s (s.1, p')) as HU by (split; [done|]; unfold custody; cbn [snd]; by rewrite HK).
  split; [by apply untouched_guar|]. intros l' Hl.
  apply HQ; [eapply rely_trans; [exact Hs|by apply untouched_rely]|done|].
  intros k ->. unfold custody. cbn [snd]. rewrite HK. by apply HF.
Qed.

Lemma wp_load_signer h bc (Q : bool -> result unit -> shared_state * Replica -> Prop) x :
  (forall s r l', rely h x.1 s -> same_replica x.2 l' -> Q h r (s, l')) ->
  wp h (load_signer bc) Q x.
Proof.
  intros HQ. unfold load_signer. destruct (b_ExternalSigner bc) as [k|].
  { apply wp_upd_ca. intros s l' Hs Hl%at_ca_same. by apply HQ. }
  destruct (b_KeyProvider bc); [|apply wp_load_disk; auto].
  apply proc_wp_mbind, wp_provider_Load. intros s r l' Hs Hl%at_ca_same _.
  destruct r as [key|e]; [|by apply HQ]. apply wp_upd_ca. intros s2 l2 R2 L2%at_ca_same.
  apply HQ; [by eapply rely_trans|by etrans].
Qed.

Lemma wp_check_key_pair h bc cert (Q : bool -> result unit -> shared_state * Replica -> Prop) x :
  (forall s r l', rely h x.1 s -> at_ca x.2 l' (n_ca (r_node x.2)) ->
     (r = Ok tt -> b_ExternalSigner bc = None -> CAKey (n_ca (r_node x.2)) = Some (PubKey cert)) ->
     Q h r (s, l')) ->
  wp h (check_key_pair bc cert) Q x.
Proof.
  intros HQ. unfold check_key_pair. destruct x as [s0 l0]. cbn [fst snd] in HQ.
  destruct (b_ExternalSigner bc) as [k|].
  { apply HQ; [apply rely_refl|apply at_ca_refl|done]. }
  apply proc_wp_mbind. destruct (MarshalPKIXPublicKey (PubKey cert)) as [certPub|e] eqn:Hm1; cbn [presult pwrap proc_then Process.wp].
  2: { by apply HQ; [apply rely_refl|apply at_ca_refl|]. }
  apply MarshalPKIX_Ok in Hm1 as ->.
  apply proc_wp_mbind, wp_loaded_key. intros s2 l2 r R2 L2 Hk. cbn [fst snd] in *.
  destruct r as [key|e]; [|by apply HQ]. specialize (Hk _ eq_refl). apply proc_wp_mbind.
  destruct (MarshalPKIXPublicKey key) as [keyPub|e] eqn:Hm2; cbn [presult pwrap proc_then Process.wp]; [|by apply HQ].
  apply MarshalPKIX_Ok in Hm2 as ->. case_bool_decide as Heq; [|by apply HQ].
  apply HQ; [done|done|]. congruence.
Qed.

Lemma wp_loadCA h bc (Q : bool -> result unit -> shared_state * Replica -> Prop) x :
  (forall s r l', rely h x.1 s -> same_replica x.2 l' ->
     (r = Ok tt -> loaded bc s (n_ca (r_node l'))) -> Q h r (s, l')) ->
  wp h (loadCA bc) Q x.
Proof.
  intros HQ. apply proc_wp_mbind, wp_load_signer. intros s [[]|e] l Hs Hl; [|by apply HQ].
  apply proc_wp_mbind, wp_get; [by left|]. intros s1 r l1 Hs1 Hl1 Hok _.
  assert (rely h x.1 s1) as R1 by (by eapply rely_trans).
  assert (same_replica x.2 l1) as L1 by (etrans; [exact Hl|by eapply at_ca_same]).
  destruct r as [certPEM|e]; [|by apply HQ]. specialize (Hok _ eq_refl).
  destruct (pem_Decode certPEM) as [[block|] rest] eqn:Hd; [|by apply HQ].
  apply proc_wp_mbind. destruct (ParseCertificate (Bytes block)) as [cert|e] eqn:Hp; [|by apply HQ].
  assert (decode_cert certPEM = Some cert) as Hdec by (unfold decode_cert; by rewrite Hd, Hp).
  apply proc_wp_mbind. destruct (checkCAKeyType (PubKey cert)); [by apply HQ|].
  apply proc_wp_mbind, wp_check_key_pair. intros s2 r l2 R2 L2 Hk. cbn [fst snd] in *.
  assert (rely h x.1 s2) as R2' by (by eapply rely_trans).
  assert (same_replica x.2 l2) as L2' by (etrans; [exact L1|by eapply at_ca_same]).
  destruct r as [[]|e]; [|by apply HQ]. apply wp_upd_ca. intros s3 l3 R3 L3. cbn [fst snd] in *.
  apply HQ; [by eapply rely_trans|etrans; [exact L2'|by eapply at_ca_same]|]. intros _.
  destruct L3 as (_ & _ & ->), L2 as (_ & _ & E2). exists certPEM, cert. split_and!; [|done|done|].
  - eapply (rely_created h s1 s3); [by eapply rely_trans|done].
  - cbn [CAKey set_CACert set_CA]. rewrite E2. auto.
Qed.

(** ** The first CRL *)

Lemma newEmptyCRL_spec cert key validity w r w' :
  newEmptyCRL cert key validity w = (r, w') ->
  objects_kept (st w) (st w') /\ ca w' = ca w /\ forall crl, r = Ok crl -> crl_SignedBy crl = key.
Proof.
  intros H. assert (ca_kept w w' /\ ca w' = ca w) as [[HO _] Hc].
  { split.
    - eapply (mono_run ca_kept); [|exact H]. unfold newEmptyCRL, signer_available. mono_tac.
    - eapply (mono_run (fun a b : World => ca b = ca a)); [|exact H].
      assert (PreOrder (fun a b : World => ca b = ca a)) by (split; [done|intros ? ? ?; congruence]).
      assert (forall A (m : MS A), mono (fun a b => ca b = ca a) (lift m)) as Hl.
      { intros A m a. unfold exec, lift. by destruct (m (st a)). }
      unfold newEmptyCRL, signer_available. mono_tac. }
  split; [done|]. split; [done|]. intros crl ->. unfold newEmptyCRL in H. minv.
  by match goal with H : CreateRevocationList _ _ _ _ _ _ = Ok _ |- _ =>
    apply CreateRevocationList_Ok in H as (_ & _ & _ & _ & _ & ?) end.
Qed.

Lemma wp_initial_crl h cert (Q : bool -> result RevocationList -> shared_state * Replica -> Prop) x :
  (forall s r l', rely h x.1 s -> at_ca x.2 l' (n_ca (r_node x.2)) ->
     (forall crl, r = Ok crl -> CAKey (n_ca (r_node x.2)) = Some (crl_SignedBy crl)) -> Q h r (s, l')) ->
  wp h (initial_crl cert) Q x.
Proof.
  intros HQ. apply proc_wp_mbind, wp_loaded_key. intros s l r Hs Hl Hk.
  destruct r as [key|e]; [|by apply HQ]. specialize (Hk _ eq_refl).
  apply proc_wp_mbind, wp_get_ca. intros s1 l1 Hs1 Hl1. cbn [fst snd] in *. apply wp_kept.
  { intros w r w' H. by apply newEmptyCRL_spec in H as [? _]. }
  intros s2 w r w' l2 Hs2 Hc H Hl2. apply newEmptyCRL_spec in H as (_ & E & Hsig). cbn [fst snd] in *.
  destruct Hl as (A1 & A2 & A3), Hl1 as (B1 & B2 & B3). rewrite E, Hc, B3, A3 in Hl2.
  apply HQ; [eapply rely_trans; [|exact Hs2]; by eapply rely_trans| |].
  - destruct Hl2 as (C1 & C2 & C3). by repeat split; rewrite ?C1, ?C2, ?B1, ?B2.
  - intros crl ->. by rewrite (Hsig _ eq_refl).
Qed.

Lemma own_single cert crl :
  parent_may_sign KeyUsageCRLSign cert = true -> crl_SignedBy crl = PubKey cert ->
  ownCRLIn [crl] (Some cert) = Some crl.
Proof.
  intros Hp Hs. apply ownCRLIn_lead; [|by intros ? ?%elem_of_nil].
  unfold crlSignedBy, crl_CheckSignatureFrom. by rewrite Hp, Hs, bool_decide_eq_true_2.
Qed.

(** Writing the first CRL of the stored certificate. *)
Lemma wp_write_crl crl cert b (Q : bool -> result unit -> shared_state * Replica -> Prop) x :
  stored x.1 KeyCACert = Some b -> decode_cert b = Some cert -> crl_SignedBy crl = PubKey cert ->
  (X -> in_order x.1 /\ stored x.1 KeyCRL = None) ->
  (forall s r l', only_created x.1 s -> at_ca x.2 l' (n_ca (r_node x.2)) ->
     (r = Ok tt -> stored s KeyCRL = Some (encode_crl crl)) -> Q true r (s, l')) ->
  wp true (store (UpdateCRL (encode_crl crl))) Q x.
Proof.
  intros Hb Hd Hsig HX HQ. apply wp_put; [by right; right|]. intros s r s' l' Hs Hl Hw Hok.
  assert (only_created s s') as HC.
  { destruct Hw as [->|(W1 & W2 & W3)]; [done|]. unfold only_created.
    rewrite !W2, W3 by done. split_and!; auto. intros HXt _. destruct (HX HXt) as [[HI1 HI2] Hnone].
    destruct Hs as [Hs _]. unfold ca_object in Hs.
    destruct (HI2 _ Hb) as (cert' & Hd' & Hp & _). simplify_eq.
    split; [|rewrite Hs by auto; congruence]. split.
    - rewrite W2, Hs by auto. congruence.
    - rewrite W2, Hs by auto. intros b' ?. simplify_eq. exists cert. split; [done|]. split; [done|].
      rewrite W1. intros c [= <-]. exists [crl], crl. split; [done|]. by apply own_single. }
  split; [done|]. apply HQ; [etrans; [by apply untouched_created|done]|done|].
  intros ->. by apply Hok.
Qed.

(** ** Seeding and finishing a load *)

(** The CA object is the stored CA's, with its published CRL in memory. *)
Definition started (bc : BootConfig) (s : shared_state) (c : CA) : Prop :=
  loaded bc s c /\ exists cert chain o,
    CACert c = Some cert /\ stored s KeyCRL = Some (encodeCRLChain chain) /\
    ownCRLIn chain (Some cert) = Some o /\ cachedCRL c = Some o.

Lemma in_order_later s s' : (X -> in_order s) -> only_created s s' -> X -> in_order s'.
Proof. intros H (_ & _ & _ & HC) HX. by apply HC, H. Qed.

Lemma started_later bc s s' c :
  X -> in_order s -> only_created s s' -> started bc s c -> started bc s' c.
Proof.
  intros HX HI HC [HL (cert & chain & o & E1 & E2 & E3 & E4)]. split; [by eapply loaded_later|].
  exists cert, chain, o. destruct HC as (_ & _ & _ & HC). destruct (HC HX HI) as [_ HC']. auto.
Qed.

Lemma wp_own_cert h (Q : bool -> result Certificate -> shared_state * Replica -> Prop) x :
  (forall s l' r, rely h x.1 s -> at_ca x.2 l' (n_ca (r_node x.2)) ->
     (forall c, r = Ok c -> CACert (n_ca (r_node x.2)) = Some c) -> Q h r (s, l')) ->
  wp h own_cert Q x.
Proof.
  intros HQ. apply proc_wp_mbind, wp_get_ca. intros s l' Hs Hl.
  destruct (CACert (n_ca (r_node x.2))) as [k|] eqn:E; cbn; apply HQ; try done. by intros k' [= <-].
Qed.

Lemma created_rely h s1 s2 s3 : only_created s1 s2 -> rely h s2 s3 -> only_created s1 s3.
Proof. intros H1 H2. etrans; [exact H1|by eapply rely_created]. Qed.

(** Join the last action's effect on the shared state and the replica to what
    is known of the actions before it. *)
Ltac follow R L Hs Hl :=
  cbn [fst snd] in *;
  (let E := fresh in pose proof L as (_ & _ & E); rewrite E in *; clear E);
  apply (at_ca_trans _ _ _ _ _ L) in Hl;
  first [apply (rely_trans _ _ _ _ R) in Hs | apply (created_rely _ _ _ _ R) in Hs];
  clear R L; rename Hs into R; rename Hl into L.

Lemma wp_seed_locked bc (Q : bool -> result unit -> shared_state * Replica -> Prop) x :
  b_ExternalSigner bc = None -> loaded bc x.1 (n_ca (r_node x.2)) -> (X -> in_order x.1) ->
  (forall s r l', only_created x.1 s -> at_ca x.2 l' (n_ca (r_node x.2)) -> Q true r (s, l')) ->
  wp true seedSupportingStateLocked Q x.
Proof.
  intros Hext (b & cert & Hb & Hd & Hcert & Hkey) HX HQ. specialize (Hkey Hext).
  destruct x as [s0 l0]. cbn [fst snd] in *. set (c := n_ca (r_node l0)) in *.
  assert (forall s' r l', rely true s0 s' -> at_ca l0 l' c -> Q true r (s', l')) as HQ'
    by (intros; apply HQ; [by apply untouched_created|done]).
  apply proc_wp_mbind, wp_own_cert. intros s l r R L Hc. cbn [fst snd] in *. fold c in L, Hc.
  destruct r as [cert'|e]; [|by apply HQ']. specialize (Hc _ eq_refl). rewrite Hcert in Hc. injection Hc as <-.
  apply proc_wp_mbind, wp_wrap, wp_store_kept; [mono_tac|]. intros s1 r l1 R1 L1. follow R L R1 L1.
  destruct r as [[]|e]; [|by apply HQ'].
  apply proc_wp_mbind, wp_try, wp_get; [by right; right|]. intros s2 r l2 R2 L2 _ Hnone. follow R L R2 L2.
  destruct r as [?|e]; [by apply HQ'|].
  destruct (errors_Is e FsErrNotExist) eqn:He; cbn [negb]; [|by apply HQ']. specialize (Hnone _ eq_refl He).
  apply proc_wp_mbind, wp_wrap, wp_initial_crl. intros s3 r l3 R3 L3 Hsig.
  assert (stored s3 KeyCRL = None) as Hnone3 by (destruct R3 as [-> _]; [done|by right; right]).
  follow R L R3 L3. destruct r as [crl|e']; [|by apply HQ'].
  specialize (Hsig _ eq_refl). rewrite Hkey in Hsig. injection Hsig as Hsig. apply proc_wp_mbind, wp_wrap.
  apply (wp_write_crl crl cert b); cbn [fst snd]; [by destruct R as [-> _]; [|left]|done|done| |].
  { intros HXt. split; [|done]. eapply in_order_later; [exact HX|by apply untouched_created|done]. }
  intros s4 r l4 R4 L4 _. apply untouched_created in R.
  assert (only_created s0 s4) as RC by (by etrans). clear R R4.
  pose proof L as (_ & _ & E). rewrite E in L4. apply (at_ca_trans _ _ _ _ _ L) in L4. clear L E.
  destruct r as [[]|e']; [|by apply HQ].
  apply proc_wp_mbind, wp_wrap, wp_store_kept; [mono_tac|]. intros s5 r l5 R5 L5. follow RC L4 R5 L5.
  destruct r as [[]|e']; [|by apply HQ].
  apply proc_wp_mbind, wp_wrap, wp_store_kept; [unfold HasSerial; mono_tac|]. intros s6 r l6 R6 L6. follow RC L4 R6 L6.
  destruct r as [[]|e']; [by apply HQ| |by apply HQ].
  apply wp_wrap, wp_store_kept; [unfold WriteSerial; mono_tac|]. intros s7 r l7 R7 L7. follow RC L4 R7 L7.
  destruct r as [[]|e']; by apply HQ.
Qed.

Lemma wp_load_cache h bc (Q : bool -> result unit -> shared_state * Replica -> Prop) x :
  loaded bc x.1 (n_ca (r_node x.2)) -> (X -> in_order x.1) ->
  (forall s r l', rely h x.1 s -> same_replica x.2 l' -> loaded bc s (n_ca (r_node l')) ->
     (r = Ok tt -> X -> started bc s (n_ca (r_node l'))) -> Q h r (s, l')) ->
  wp h (world loadCRLCache) Q x.
Proof.
  intros HL HX HQ. apply wp_world. intros s w r w' Hs Hb Hc H.
  assert (be (st w') = s.1 /\ CACert (ca w') = CACert (ca w) /\ CAKey (ca w') = CAKey (ca w) /\
    (r = Ok tt -> (exists b, stored s KeyCRL = Some b) /\ forall o, own_stored w o -> cachedCRL (ca w') = Some o))
    as (Es & Ec & Ek & Hok).
  { destruct r as [[]|e].
    - apply load_cache_Ok in H as (E1 & E2 & E3 & E4 & E5). rewrite Hb in E1, E4. auto.
    - apply load_cache_Err in H as (E1 & E2 & E3 & _). rewrite Hb in E1. done. }
  rewrite Es, <- surjective_pairing. split; [by apply untouched_guar|]. intros l' (L1 & L2 & L3).
  assert (only_created x.1 s) as HC by (by eapply rely_created).
  assert (loaded bc s (n_ca (r_node l'))) as HL'.
  { eapply loaded_later; [exact HC|]. eapply loaded_same; [..|exact HL]; rewrite L3, ?Ec, ?Ek; by rewrite Hc. }
  apply HQ; [done|done|done|]. intros -> HXt. split; [done|].
  destruct (Hok eq_refl) as ((b & Hcrl) & Hcached).
  destruct HL' as (cb & cert & Hcb & Hd & Hcert & _).
  pose proof (in_order_later _ _ HX HC HXt) as (_ & HI). destruct (HI _ Hcb) as (cert' & Hd' & _ & HI').
  simplify_eq. destruct (HI' _ Hcrl) as (chain & o & -> & Ho). exists cert, chain, o.
  split; [done|]. split; [done|]. split; [done|]. rewrite L3. apply Hcached. exists chain.
  unfold stored_chain. rewrite Hb. split; [exact Hcrl|]. rewrite <- Ec, <- L3. by rewrite Hcert.
Qed.

Lemma wp_rebuild h bc (Q : bool -> result unit -> shared_state * Replica -> Prop) x :
  (X -> in_order x.1) -> (X -> started bc x.1 (n_ca (r_node x.2))) ->
  (forall s r l', rely h x.1 s -> same_replica x.2 l' -> (X -> started bc s (n_ca (r_node l'))) -> Q h r (s, l')) ->
  wp h (world rebuildCertIndex) Q x.
Proof.
  intros HX HS HQ. apply wp_kept.
  { intros w r w' H. by destruct (mono_run _ _ _ _ _ kept_rebuild H). }
  intros s w r w' l' Hs Hc H (L1 & L2 & L3).
  destruct (mono_run _ _ _ _ _ kept_rebuild H) as (_ & E1 & E2 & E3).
  apply HQ; [done|done|]. intros HXt.
  apply (started_later bc x.1 s); [done|auto|by eapply rely_created|].
  destruct (HS HXt) as [HL Hrest]. rewrite <- Hc in HL, Hrest. unfold started. rewrite L3, E1, E3.
  split; [by eapply loaded_same|done].
Qed.

(** The seeding step of [finishLoadExisting], with or without the lock. *)
Definition seeds (bc : BootConfig) (h : bool) (seed : bproc unit) : Prop :=
  forall (Q : bool -> result unit -> shared_state * Replica -> Prop) x,
    b_ExternalSigner bc = None -> loaded bc x.1 (n_ca (r_node x.2)) -> (X -> in_order x.1) ->
    (forall s r l', only_created x.1 s -> at_ca x.2 l' (n_ca (r_node x.2)) -> Q h r (s, l')) ->
    wp h seed Q x.

Lemma seeds_locked bc : seeds bc true seedSupportingStateLocked.
Proof. intros Q x. apply wp_seed_locked. Qed.
Lemma seeds_locking bc : seeds bc false seedSupportingState.
Proof.
  intros Q x Hext HL HX HQ. apply wp_locked_section. intros s Hs. split; [by apply HQ; [|apply at_ca_refl]|].
  apply (wp_seed_locked bc); [done|by eapply loaded_later|by eapply in_order_later|].
  intros s' r l' Hs' Hl. split; [done|]. intros s'' Hs''. apply HQ; [|done].
  etrans; [exact Hs|]. etrans; [exact Hs'|by apply untouched_created].
Qed.

Lemma wp_finish h bc seed (Q : bool -> result unit -> shared_state * Replica -> Prop) x :
  seeds bc h seed -> loaded bc x.1 (n_ca (r_node x.2)) -> (X -> in_order x.1) ->
  (forall s r l', only_created x.1 s -> same_replica x.2 l' ->
     (r = Ok tt -> X -> started bc s (n_ca (r_node l'))) -> Q h r (s, l')) ->
  wp h (finishLoadExisting bc seed) Q x.
Proof.
  intros Hseed HL HX HQ. apply proc_wp_mbind, wp_try, wp_kept.
  { intros w r w' H. by destruct (mono_run _ _ _ _ _ kept_serialIndex H). }
  intros s w r w' l Hs Hc H (L1 & L2 & L3).
  destruct (mono_run _ _ _ _ _ kept_serialIndex H) as (_ & E1 & E2 & _).
  assert (only_created x.1 s) as RC by (by eapply rely_created).
  assert (same_replica x.2 l) as L by done.
  assert (loaded bc s (n_ca (r_node l))) as HLs.
  { eapply loaded_later; [exact RC|]. eapply loaded_same; [..|exact HL]; rewrite L3, ?E1, ?E2; by rewrite Hc. }
  pose proof (in_order_later _ _ HX RC) as HXs. clear w r w' H E1 E2 Hc L1 L2 L3 Hs.
  assert (forall s' l', only_created x.1 s' -> same_replica x.2 l' -> (X -> started bc s' (n_ca (r_node l'))) ->
            wp h (world rebuildCertIndex) Q (s', l')) as Hlast.
  { intros s' l' R' L' S'. apply (wp_rebuild h bc); [by apply (in_order_later x.1)|done|].
    intros s2 r l2 R2 L2 S2. apply HQ; [by eapply created_rely|by etrans|done]. }
  apply proc_wp_mbind, wp_try, (wp_load_cache h bc); [done|done|]. intros s1 r l1 R1 L1 HL1 HS1. cbn [fst snd] in *.
  apply (created_rely _ _ _ _ RC) in R1. assert (same_replica x.2 l1) as L1' by (by etrans).
  destruct r as [[]|e]; [apply Hlast; auto|].
  destruct (negb (errors_Is e FsErrNotExist)); [by apply HQ|].
  destruct (b_ExternalSigner bc) eqn:Hext; [by apply HQ|].
  apply proc_wp_mbind, wp_wrap, Hseed; [done|done|by apply (in_order_later x.1)|]. intros s2 r l2 R2 L2. cbn [fst snd] in *.
  assert (only_created x.1 s2) as R2' by (by etrans).
  assert (same_replica x.2 l2) as L2' by (etrans; [exact L1'|by eapply at_ca_same]).
  destruct r as [[]|e']; [|by apply HQ].
  apply proc_wp_mbind, (wp_load_cache h bc); cbn [fst snd].
  - destruct L2 as (_ & _ & ->). by apply (loaded_later bc s1).
  - by apply (in_order_later x.1).
  - intros s3 r l3 R3 L3 _ HS3. apply (created_rely _ _ _ _ R2') in R3.
    assert (same_replica x.2 l3) by (by etrans).
    destruct r as [[]|e']; [|by apply HQ]. apply Hlast; auto.
Qed.

(** ** Creating a CA *)

Lemma new_cert_ok bc serial now key cert cert' :
  CreateSelfSigned (ca_template bc serial now key) key = Ok cert ->
  ParseCertificate (DerCert cert) = Ok cert' ->
  cert' = cert /\ PubKey cert = key /\ decode_cert (encode_cert cert) = Some cert /\
  parent_may_sign KeyUsageCRLSign cert = true.
Proof.
  unfold CreateSelfSigned. destruct (template_fault _); [done|]. intros [= <-]. intros [= <-].
  by repeat split.
Qed.

Lemma wp_new_cert h bc key (Q : bool -> result Certificate -> shared_state * Replica -> Prop) x :
  (forall s r l', rely h x.1 s -> at_ca x.2 l' (n_ca (r_node x.2)) ->
     (forall cert, r = Ok cert -> PubKey cert = key /\ decode_cert (encode_cert cert) = Some cert /\
        parent_may_sign KeyUsageCRLSign cert = true) -> Q h r (s, l')) ->
  wp h (new_ca_cert bc key) Q x.
Proof.
  intros HQ. destruct x as [s0 l0]. cbn [fst snd] in *.
  apply proc_wp_mbind, wp_wrap, wp_store_kept; [mono_tac|]. intros s r l R L. cbn [fst snd] in *.
  destruct r as [serial|e]; [|by apply HQ].
  apply proc_wp_mbind, wp_wrap. destruct (MarshalPKIXPublicKey key) as [ski|e] eqn:Hski; [|by apply HQ].
  apply MarshalPKIX_Ok in Hski as ->. cbn [Process.wp presult].
  apply proc_wp_mbind, wp_store_kept; [mono_tac|]. intros s1 r l1 R1 L1. follow R L R1 L1.
  destruct r as [now|e]; [|by apply HQ].
  apply proc_wp_mbind, wp_wrap, wp_store_kept; [mono_tac|]. intros s2 r l2 R2 L2. follow R L R2 L2.
  destruct r as [[]|e]; [|by apply HQ].
  apply proc_wp_mbind, wp_wrap. destruct (CreateSelfSigned _ key) as [cert|e] eqn:Hcr; [|by apply HQ].
  cbn [Process.wp presult]. apply wp_wrap.
  destruct (ParseCertificate (DerCert cert)) as [cert'|e] eqn:Hp; [|by apply HQ].
  apply HQ; [done|done|]. intros ? [= <-]. by destruct (new_cert_ok _ _ _ _ _ _ Hcr Hp) as (-> & ?).
Qed.

Lemma wp_generate h cfg (Q : bool -> result PublicKey -> shared_state * Replica -> Prop) x :
  (forall s r l', rely h x.1 s -> at_ca x.2 l' (n_ca (r_node x.2)) ->
     (forall k, r = Ok k -> custody s = Some k) -> Q h r (s, l')) ->
  wp h (provider (kp_Generate cfg)) Q x.
Proof.
  intros HQ. apply wp_provider. intros s r p' Hs Hgen.
  assert (untouched s (s.1, p')) as HU.
  { split; [done|]. intros k Hk. destruct (generate_keeps cfg s.2 k Hk) as [E _]. by rewrite Hgen in E. }
  split; [by apply untouched_guar|]. intros l' Hl.
  apply HQ; [eapply rely_trans; [exact Hs|by apply untouched_rely]|done|].
  intros k ->. pose proof (generate_creates cfg s.2 k) as HG. rewrite Hgen in HG. by apply HG.
Qed.

Lemma wp_new_key h bc (Q : bool -> result PublicKey -> shared_state * Replica -> Prop) x :
  (forall s r l', rely h x.1 s -> at_ca x.2 l' (n_ca (r_node x.2)) -> Q h r (s, l')) ->
  wp h (new_ca_key bc) Q x.
Proof.
  intros HQ. apply wp_wrap. destruct (b_KeyProvider bc); [apply wp_generate|apply wp_store_kept; [mono_tac|]];
    intros s r l' Hs Hl; intros; destruct r; by apply HQ.
Qed.

(** Creating the key blob: nothing else changes. *)
Lemma wp_put_key d (Q : bool -> result unit -> shared_state * Replica -> Prop) x :
  stored x.1 KeyCAKey = None ->
  (forall s r l', only_created x.1 s -> stored s KeyCACert = stored x.1 KeyCACert ->
     at_ca x.2 l' (n_ca (r_node x.2)) -> (r = Ok tt -> stored s KeyCAKey = Some d) -> Q true r (s, l')) ->
  wp true (store (SaveCAKey d)) Q x.
Proof.
  intros Hn HQ. apply wp_put; [by right; left|]. intros s r s' l' Hs Hl Hw Hok.
  assert (only_created s s' /\ stored s' KeyCACert = stored s KeyCACert) as [HC HE].
  { destruct Hw as [->|(_ & W2 & W3)]; [done|]. unfold only_created, in_order. rewrite !(W2 KeyCACert), !(W2 KeyCRL), W3 by done.
    destruct Hs as [Hs _]. split; [|done].
    split; [auto|]. split; [rewrite Hs by (by right; left); congruence|]. split; [auto|]. auto. }
  split; [done|]. apply HQ; [etrans; [by apply untouched_created|done]| |done|].
  - destruct Hs as [Hs _]. rewrite HE. apply Hs. by left.
  - intros ->. by apply Hok.
Qed.

Lemma wp_store_key bc key (Q : bool -> result unit -> shared_state * Replica -> Prop) x :
  (b_KeyProvider bc = false -> stored x.1 KeyCAKey = None) ->
  (forall s r l', only_created x.1 s -> stored s KeyCACert = stored x.1 KeyCACert ->
     at_ca x.2 l' (n_ca (r_node x.2)) -> Q true r (s, l')) ->
  wp true (store_ca_key bc key) Q x.
Proof.
  intros Hn HQ. unfold store_ca_key. destruct x as [s0 l0]. cbn [fst snd] in *.
  destruct (b_KeyProvider bc); [by apply HQ; [..|apply at_ca_refl]|]. specialize (Hn eq_refl).
  apply proc_wp_mbind, wp_store_kept; [mono_tac|]. intros s r l R L. cbn [fst snd] in *.
  pose proof R as [Hs _]. apply untouched_created in R. unfold ca_object in Hs.
  destruct r as [keyPEM|e]; [|apply HQ; [done|apply Hs; auto|done]].
  apply wp_wrap, wp_put_key; [cbn [fst]; rewrite Hs; auto|]. intros s1 r l1 R1 E1 L1 _. cbn [fst snd] in *.
  pose proof L as (_ & _ & EL). rewrite EL in L1. apply (at_ca_trans _ _ _ _ _ L) in L1.
  rewrite Hs in E1 by auto. assert (only_created s0 s1) by (by etrans). destruct r as [[]|e]; by apply HQ.
Qed.

(** Creating the certificate of a store that has none. *)
Lemma wp_put_cert cert (Q : bool -> result unit -> shared_state * Replica -> Prop) x :
  stored x.1 KeyCACert = None -> (X -> in_order x.1) ->
  decode_cert (encode_cert cert) = Some cert -> parent_may_sign KeyUsageCRLSign cert = true ->
  (forall s r l', only_created x.1 s -> at_ca x.2 l' (n_ca (r_node x.2)) ->
     (r = Ok tt -> stored s KeyCACert = Some (encode_cert cert) /\ (X -> stored s KeyCRL = None)) ->
     Q true r (s, l')) ->
  wp true (store (SaveCACert (encode_cert cert))) Q x.
Proof.
  intros Hn HX Hd Hp HQ. apply wp_put; [by left|]. intros s r s' l' Hs Hl Hw Hok.
  pose proof Hs as [Hs' _]. unfold ca_object in Hs'.
  assert (X -> stored s KeyCRL = None) as Hcrl.
  { intros HXt. rewrite Hs' by auto. by apply HX. }
  assert (only_created s s') as HC.
  { destruct Hw as [->|(W1 & W2 & W3)]; [done|]. unfold only_created, in_order.
    rewrite !(W2 KeyCAKey), !(W2 KeyCRL), W1, W3 by done. split_and!; auto; [rewrite Hs' by auto; congruence|].
    intros HXt _. specialize (Hcrl HXt). rewrite Hcrl. split; [|done]. split; [done|].
    intros b [= <-]. exists cert. by split_and!. }
  split; [done|]. apply HQ; [etrans; [by apply untouched_created|done]|done|].
  intros ->. destruct (Hok eq_refl) as (W1 & W2 & _). rewrite W1, W2 by done. auto.
Qed.

Lemma wp_first_state bc cert key (Q : bool -> result unit -> shared_state * Replica -> Prop) x :
  stored x.1 KeyCACert = Some (encode_cert cert) -> decode_cert (encode_cert cert) = Some cert ->
  parent_may_sign KeyUsageCRLSign cert = true -> PubKey cert = key ->
  CACert (n_ca (r_node x.2)) = Some cert -> CAKey (n_ca (r_node x.2)) = Some key ->
  (X -> in_order x.1 /\ stored x.1 KeyCRL = None) ->
  (forall s r l', only_created x.1 s -> same_replica x.2 l' ->
     (r = Ok tt -> X -> started bc s (n_ca (r_node l'))) -> Q true r (s, l')) ->
  wp true (first_state cert key) Q x.
Proof.
  intros Hc Hd Hp Hk Hcert Hkey HX HQ. destruct x as [s0 l0]. cbn [fst snd] in *.
  set (c := n_ca (r_node l0)) in *.
  assert (forall s e l', only_created s0 s -> at_ca l0 l' c -> Q true (Err e) (s, l')) as HE
    by (intros s e l' RE LE; apply HQ; [done|by eapply at_ca_same|done]).
  apply proc_wp_mbind, wp_wrap, wp_store_kept; [mono_tac|]. intros s r l R L. cbn [fst snd] in *. fold c in L.
  destruct r as [[]|e]; [|apply HE; [by apply untouched_created|done]].
  apply proc_wp_mbind, wp_initial_crl. intros s1 r l1 R1 L1 Hsig. follow R L R1 L1.
  pose proof R as [U _]. unfold ca_object in U. apply untouched_created in R.
  destruct r as [crl|e]; [|by apply HE]. specialize (Hsig _ eq_refl). rewrite Hkey in Hsig. injection Hsig as Hsig.
  apply proc_wp_mbind, wp_wrap, (wp_write_crl crl cert (encode_cert cert)); cbn [fst snd];
    [rewrite U by auto; done|done|congruence| |].
  { intros HXt. rewrite U by auto. destruct (HX HXt). split; [|done]. by apply (in_order_later s0). }
  intros s2 r l2 R2 L2 Hcrl. pose proof L as (_ & _ & EL). rewrite EL in L2.
  apply (at_ca_trans _ _ _ _ _ L) in L2. clear EL L.
  assert (only_created s0 s2) as RC by (by etrans).
  assert (stored s2 KeyCACert = Some (encode_cert cert)) as Hc2 by (destruct RC as (RC & _); auto).
  clear R R2. destruct r as [[]|e]; [|by apply HE]. specialize (Hcrl eq_refl).
  apply proc_wp_mbind, wp_upd_ca. intros s3 l3 R3 L3. pose proof R3 as [U3 _]. unfold ca_object in U3.
  follow RC L2 R3 L3.
  apply wp_wrap, wp_store_kept; [mono_tac|]. intros s4 r l4 R4 L4. pose proof R4 as [U4 _].
  unfold ca_object in U4. follow RC L2 R4 L4.
  assert (X -> started bc s4 (n_ca (r_node l4))) as HS.
  { intros _. destruct L2 as (_ & _ & ->). pose proof (install_fields crl c) as (F1 & F2 & _ & F4 & _). split.
    - exists (encode_cert cert), cert. rewrite U4, U3, F1, F2 by auto. split_and!; [done|done|done|].
      intros _. by rewrite Hk.
    - exists cert, [crl], crl. rewrite U4, U3, F1, F4 by auto. split_and!; [done|done| |done].
      apply own_single; [done|congruence]. }
  destruct r as [[]|e]; (apply HQ; [done|by eapply at_ca_same|done]).
Qed.

Lemma wp_bootstrap bc (Q : bool -> result unit -> shared_state * Replica -> Prop) x :
  stored x.1 KeyCACert = None -> (b_KeyProvider bc = false -> stored x.1 KeyCAKey = None) ->
  (X -> in_order x.1) ->
  (forall s r l', only_created x.1 s -> same_replica x.2 l' ->
     (r = Ok tt -> X -> started bc s (n_ca (r_node l'))) -> Q true r (s, l')) ->
  wp true (bootstrapCA bc) Q x.
Proof.
  intros Hnc Hnk HX HQ. destruct x as [s0 l0]. cbn [fst snd] in *.
  assert (forall s e l' c, only_created s0 s -> at_ca l0 l' c -> Q true (Err e) (s, l')) as HE
    by (intros s e l' c RE LE; apply HQ; [done|by eapply at_ca_same|done]).
  apply proc_wp_mbind, wp_new_key. intros s r l R L. cbn [fst snd] in *.
  destruct r as [key|e]; [|eapply HE; [by apply untouched_created|done]].
  apply proc_wp_mbind, wp_new_cert. intros s1 r l1 R1 L1 Hcert. follow R L R1 L1.
  destruct r as [cert|e]; [|eapply HE; [by apply untouched_created|done]].
  destruct (Hcert _ eq_refl) as (Hk & Hd & Hp). clear Hcert.
  apply proc_wp_mbind, wp_upd_ca. intros s2 l2 R2 L2. follow R L R2 L2. set (c := set_CA _ _ _) in L.
  assert (stored s2 KeyCACert = None /\ (b_KeyProvider bc = false -> stored s2 KeyCAKey = None)) as [Hnc2 Hnk2].
  { destruct R as [R _]. unfold ca_object in R. rewrite !R by auto. done. }
  apply untouched_created in R.
  apply proc_wp_mbind, wp_store_key; [done|]. intros s3 r l3 R3 E3 L3. cbn [fst snd] in *.
  pose proof L as (_ & _ & EL). rewrite EL in L3. apply (at_ca_trans _ _ _ _ _ L) in L3. clear EL L.
  assert (only_created s0 s3) as RC by (by etrans). clear R R3. rewrite Hnc2 in E3.
  destruct r as [[]|e]; [|by eapply HE].
  apply proc_wp_mbind, wp_wrap, wp_put_cert; [done|by apply (in_order_later s0)|done|done|].
  intros s4 r l4 R4 L4 Hok. cbn [fst snd] in *.
  pose proof L3 as (_ & _ & EL). rewrite EL in L4. apply (at_ca_trans _ _ _ _ _ L3) in L4. clear EL L3.
  assert (only_created s0 s4) as RC4 by (by etrans). clear RC R4.
  destruct r as [[]|e]; [|by eapply HE]. destruct (Hok eq_refl) as [Hc4 Hn4]. clear Hok.
  pose proof L4 as (_ & _ & EL).
  apply (wp_first_state bc); cbn [fst snd]; rewrite ?EL; try done.
  { intros HXt. split; [by apply (in_order_later s0)|auto]. }
  intros s5 r l5 R5 L5 HS. apply HQ; [by etrans|etrans; [by eapply at_ca_same|done]|done].
Qed.

(** ** Init *)

Lemma wp_HasCAKey h bc (Q : bool -> result bool -> shared_state * Replica -> Prop) x :
  (forall s r l', rely h x.1 s -> same_replica x.2 l' ->
     (r = Ok false -> b_KeyProvider bc = false -> stored s KeyCAKey = None) -> Q h r (s, l')) ->
  wp h (HasCAKey bc) Q x.
Proof.
  intros HQ. unfold HasCAKey. destruct (b_KeyProvider bc).
  - apply proc_wp_mbind, wp_try, wp_provider_Load. intros s r l' Hs Hl%at_ca_same _.
    destruct r as [k|e]; [by apply HQ|]. case_match; by apply HQ.
  - apply wp_exists; [by right; left|]. intros s r l' Hs Hl%at_ca_same Hn. apply HQ; auto.
Qed.

Lemma wp_init_locked bc loadErr (Q : bool -> result unit -> shared_state * Replica -> Prop) x :
  (X -> in_order x.1) ->
  (forall s r l', only_created x.1 s -> same_replica x.2 l' ->
     (r = Ok tt -> X -> started bc s (n_ca (r_node l'))) -> Q true r (s, l')) ->
  wp true (init_locked bc loadErr) Q x.
Proof.
  intros HX HQ. destruct x as [s0 l0]. cbn [fst snd] in *.
  apply proc_wp_mbind, wp_try, wp_loadCA. intros s r l R L HL. cbn [fst snd] in *.
  destruct r as [[]|e].
  { apply untouched_created in R. apply (wp_finish true bc); [apply seeds_locked|by apply HL|by apply (in_order_later s0)|].
    intros s1 r l1 R1 L1 HS. apply HQ; [by etrans|by etrans|done]. }
  clear HL. apply proc_wp_mbind, wp_wrap, wp_exists; [by left|].
  intros s1 r l1 R1 L1%at_ca_same Hnc. cbn [fst snd] in *.
  apply (rely_trans true _ _ _ R) in R1. clear R. assert (same_replica l0 l1) as L1' by (by etrans). clear L L1.
  destruct r as [hasCert|e1]; [|apply HQ; [by apply untouched_created|done|done]].
  apply proc_wp_mbind, wp_wrap, wp_HasCAKey. intros s2 r l2 R2 L2 Hnk. cbn [fst snd] in *.
  assert (hasCert = false -> stored s2 KeyCACert = None) as Hnc2.
  { intros ->. destruct R2 as [U _]. rewrite U by (by left). auto. }
  apply (rely_trans true _ _ _ R1) in R2. clear R1. assert (same_replica l0 l2) as L2' by (by etrans).
  apply untouched_created in R2.
  destruct r as [hasKey|e2]; [|by apply HQ].
  destruct (negb hasCert && hasKey) eqn:E1; [by apply HQ|].
  destruct (hasCert && negb hasKey) eqn:E2; [by apply HQ|].
  destruct (negb hasCert || negb hasKey) eqn:E3; [|by apply HQ].
  destruct (b_NoBootstrap bc); [by apply HQ|].
  assert (hasCert = false /\ hasKey = false) as [-> ->] by (by destruct hasCert, hasKey).
  apply wp_bootstrap; cbn [fst snd]; [auto|auto|by apply (in_order_later s0)|].
  intros s3 r l3 R3 L3 HS. apply HQ; [by etrans|by etrans|done].
Qed.

Lemma wp_Init bc (Q : bool -> result unit -> shared_state * Replica -> Prop) x :
  (X -> in_order x.1) ->
  (forall s r l', only_created x.1 s -> same_replica x.2 l' ->
     (r = Ok tt -> X -> started bc s (n_ca (r_node l'))) -> Q false r (s, l')) ->
  wp false (Init bc) Q x.
Proof.
  intros HX HQ. destruct x as [s0 l0]. cbn [fst snd] in *. unfold Init.
  destruct (_ && b_KeyProvider bc); [by apply HQ|].
  apply proc_wp_mbind, wp_store_kept; [unfold EnsureDirs; mono_tac|]. intros s r l R L%at_ca_same. cbn [fst snd] in *.
  destruct r as [[]|e]; [|by apply HQ].
  apply proc_wp_mbind, wp_wrap, wp_store_kept; [mono_tac|]. intros s1 r l1 R1 L1%at_ca_same. cbn [fst snd] in *.
  apply (rely_trans false _ _ _ R) in R1. clear R. assert (same_replica l0 l1) as L1' by (by etrans).
  destruct r as [[]|e]; [|by apply HQ].
  apply proc_wp_mbind, wp_try, wp_loadCA. intros s2 r l2 R2 L2 HL. cbn [fst snd] in *.
  apply (rely_trans false _ _ _ R1) in R2. clear R1. assert (same_replica l0 l2) as L2' by (by etrans).
  pose proof (in_order_later s0 s2 HX R2) as HX2. destruct r as [[]|e].
  { apply (wp_finish false bc); [apply seeds_locking|by apply HL|done|].
    intros s3 r l3 R3 L3 HS. apply HQ; [by etrans|by etrans|done]. }
  destruct (b_ExternalSigner bc); [by apply HQ|].
  apply wp_locked_section. intros s3 R3. cbn [fst snd] in *. assert (only_created s0 s3) as R3' by (by etrans).
  split; [by apply HQ|]. apply wp_init_locked; [by apply (in_order_later s0)|].
  intros s4 r l4 R4 L4 HS. split; [done|]. intros s5 R5. cbn [fst snd] in *.
  assert (only_created s0 s4) as R04 by (by etrans). apply untouched_created in R5.
  apply HQ; [by etrans|by etrans|]. intros -> HXt. apply (started_later bc s4); [done| |done|by apply HS].
  by apply (in_order_later s0).
Qed.

(** ** The key command *)

Context {KL : KeyCryptoLaws}.

Lemma wp_create_locked bc (Q : bool -> result (option PublicKey) -> shared_state * Replica -> Prop) x :
  b_KeyProvider bc = false ->
  (forall s r l', only_created x.1 s -> same_replica x.2 l' ->
     (forall key, r = Ok (Some key) -> custody_key bc s key) -> Q true r (s, l')) ->
  wp true (create_key_locked bc) Q x.
Proof.
  intros Hbc HQ. destruct x as [s0 l0]. cbn [fst snd] in *.
  assert (forall s r l' c, rely true s0 s -> at_ca l0 l' c -> (forall key, r <> Ok (Some key)) -> Q true r (s, l')) as HQ'
    by (intros s r l' c R L Hr; apply HQ; [by apply untouched_created|by eapply at_ca_same|by intros k ?%Hr]).
  apply proc_wp_mbind, wp_wrap, wp_exists; [by right; left|]. intros s r l R L Hn. cbn [fst snd] in *.
  destruct r as [[]|e]; [by eapply HQ'| |by eapply HQ']. specialize (Hn eq_refl).
  assert (stored s0 KeyCAKey = None) as Hn0 by (destruct R as [<- _]; [done|by right; left]).
  apply proc_wp_mbind, wp_wrap, wp_store_kept; [mono_tac|]. intros s1 r l1 R1 L1. follow R L R1 L1.
  destruct r as [key|e]; [|by eapply HQ'].
  apply proc_wp_mbind, wp_kept.
  { intros w r w' H. by destruct (lift_objects _ _ _ _ (objects_marshal bc key) H). }
  intros s2 w r w' l2 R2 Hc H L2. pose proof (lift_objects _ _ _ _ (objects_marshal bc key) H) as [_ Ew].
  rewrite Ew, Hc in L2. follow R L R2 L2. destruct r as [keyPEM|e]; [|by eapply HQ'].
  assert (ca_key_pem bc keyPEM key) as Hpem.
  { apply lift_Ok in H as (st' & H & _). by eapply marshal_roundtrip. }
  clear w w' H Hc Ew.
  apply proc_wp_mbind, wp_wrap, wp_store_kept; [unfold EnsureDirs; mono_tac|]. intros s3 r l3 R3 L3. follow R L R3 L3.
  destruct r as [[]|e]; [|by eapply HQ'].
  apply proc_wp_mbind, wp_wrap, wp_put_key; [destruct R as [-> _]; [done|by right; left]|].
  intros s4 r l4 R4 _ L4 Hok. cbn [fst snd] in *. apply untouched_created in R.
  assert (only_created s0 s4) by (by etrans).
  assert (same_replica l0 l4) by (etrans; [by eapply at_ca_same|by eapply at_ca_same]).
  destruct r as [[]|e]; [|by apply HQ]. apply HQ; [done|done|]. intros ? [= <-].
  unfold custody_key. rewrite Hbc. exists keyPEM. auto.
Qed.

(** Load the key from storage and return it. *)
Lemma wp_load_and_return h bc (Q : bool -> result PublicKey -> shared_state * Replica -> Prop) x :
  b_KeyProvider bc = false ->
  (forall s r l', rely h x.1 s -> same_replica x.2 l' ->
     (forall key, r = Ok key -> custody_key bc s key) -> Q h r (s, l')) ->
  wp h (_ ← loadCAKeyFromDisk bc; loaded_key) Q x.
Proof.
  intros Hbc HQ. apply proc_wp_mbind, wp_load_disk. intros s r l R L Hok.
  destruct r as [[]|e]; [|by apply HQ]. destruct (Hok eq_refl) as (b & key & Hb & Hpem & Hkey).
  apply wp_loaded_key. intros s1 l1 r R1 L1 Hk. cbn [fst snd] in *.
  apply HQ; [by eapply rely_trans|etrans; [exact L|by eapply at_ca_same]|].
  intros k ->. specialize (Hk _ eq_refl). simplify_eq. eapply custody_later; [by eapply rely_created|].
  unfold custody_key. rewrite Hbc. eauto.
Qed.

Lemma wp_LoadOrCreate bc create (Q : bool -> result PublicKey -> shared_state * Replica -> Prop) x :
  (forall s r l', only_created x.1 s -> same_replica x.2 l' ->
     (forall key, r = Ok key -> custody_key bc s key) -> Q false r (s, l')) ->
  wp false (LoadOrCreateCAKey bc create) Q x.
Proof.
  intros HQ. unfold LoadOrCreateCAKey. destruct (b_KeyProvider bc) eqn:Hbc.
  - apply proc_wp_mbind, wp_try, wp_provider_Load. intros s r l R L%at_ca_same Hk. destruct r as [key|e].
    { apply HQ; [done|done|]. intros ? [= <-]. unfold custody_key. rewrite Hbc. auto. }
    destruct (negb (errors_Is e _)); [by apply HQ|]. destruct (negb create); [by apply HQ|].
    apply wp_generate. intros s1 r l1 R1 L1%at_ca_same Hk1. cbn [fst snd] in *.
    apply HQ; [by etrans|by etrans|]. intros key ->. unfold custody_key. rewrite Hbc. auto.
  - apply proc_wp_mbind, wp_wrap, wp_exists; [by right; left|]. intros s r l R L%at_ca_same _.
    assert (forall s1 l1, only_created x.1 s1 -> same_replica x.2 l1 ->
              wp false (_ ← loadCAKeyFromDisk bc; loaded_key) Q (s1, l1)) as Hload.
    { intros s1 l1 R1 L1. apply wp_load_and_return; [done|]. intros s2 r2 l2 R2 L2 Hk.
      cbn [fst snd] in *. apply HQ; [by etrans|by etrans|done]. }
    destruct r as [[]|e]; [by apply Hload| |by apply HQ]. destruct (negb create); [by apply HQ|].
    apply proc_wp_mbind, wp_locked_section. intros s1 R1. cbn [fst snd] in *.
    assert (only_created x.1 s1) as R1' by (by etrans). split; [by apply HQ|].
    apply wp_create_locked; [done|]. intros s2 r l2 R2 L2 Hk. cbn [fst snd] in *. split; [done|].
    intros s3 R3%untouched_created. assert (only_created x.1 s3) by (etrans; [exact R1'|by etrans]).
    assert (same_replica x.2 l2) by (by etrans).
    destruct r as [[key|]|e]; [|by apply Hload|by apply HQ].
    apply HQ; [done|done|]. intros ? [= <-]. eapply custody_later; [exact R3|auto].
Qed.

(** What a request built from state [s0] on is for, seen from a later state. *)
Definition csr_for (bc : BootConfig) (hostname : string) (s0 s : shared_state) (csr : blob) : Prop :=
  exists name key,
    csr = pem_encode [mkBlock "CERTIFICATE REQUEST" (DerCSR (mkCSR name key [] key))] /\
    custody_key bc s key /\ checkCAKeyType key = None /\
    (forall b, stored s0 KeyCACert = Some b -> exists cert rest, ParseCABundle b = Ok (cert :: rest) /\ name = Subject cert) /\
    (stored s KeyCACert = None -> name = CASubjectName hostname (b_CASubject bc)).

Lemma wp_csrSubject bc hostname (Q : bool -> result Name -> shared_state * Replica -> Prop) x :
  (forall s r l', only_created x.1 s -> same_replica x.2 l' ->
     (forall name, r = Ok name ->
        (forall b, stored x.1 KeyCACert = Some b -> exists cert rest, ParseCABundle b = Ok (cert :: rest) /\ name = Subject cert) /\
        (stored s KeyCACert = None -> name = CASubjectName hostname (b_CASubject bc))) -> Q false r (s, l')) ->
  wp false (csrSubject bc hostname) Q x.
Proof.
  intros HQ. apply proc_wp_mbind, wp_try, wp_get; [by left|]. intros s r l R L%at_ca_same Hok Hmiss.
  destruct r as [certPEM|e].
  - specialize (Hok _ eq_refl). destruct (ParseCABundle certPEM) as [[|cert rest]|e] eqn:Hp; [by apply HQ| |by apply HQ].
    apply HQ; [done|done|]. intros ? [= <-]. split; [|congruence].
    intros b Hb. destruct R as (R & _). rewrite (R _ Hb) in Hok. simplify_eq. eauto.
  - destruct (errors_Is e FsErrNotExist) eqn:He; cbn [negb]; [|by apply HQ].
    specialize (Hmiss _ eq_refl He). case_bool_decide; [by apply HQ|].
    apply HQ; [done|done|]. intros ? [= <-]. split; [|done].
    intros b Hb. destruct R as (R & _). rewrite (R _ Hb) in Hmiss. done.
Qed.

Lemma wp_BuildCSR bc hostname create (Q : bool -> result blob -> shared_state * Replica -> Prop) x :
  (forall s r l', only_created x.1 s -> same_replica x.2 l' ->
     (forall csr, r = Ok csr -> csr_for bc hostname x.1 s csr) -> Q false r (s, l')) ->
  wp false (BuildCSR bc hostname create) Q x.
Proof.
  intros HQ. apply proc_wp_mbind, wp_csrSubject. intros s r l R L Hn.
  destruct r as [name|e]; [|by apply HQ]. destruct (Hn _ eq_refl) as [Hn1 Hn2]. clear Hn.
  apply proc_wp_mbind, wp_LoadOrCreate. intros s1 r l1 R1 L1 Hk. cbn [fst snd] in *.
  assert (only_created x.1 s1) as R1' by (by etrans). assert (same_replica x.2 l1) as L1' by (by etrans).
  destruct r as [key|e]; [|by apply HQ]. specialize (Hk _ eq_refl).
  apply proc_wp_mbind. destruct (checkCAKeyType key) eqn:Hct; [by apply HQ|]. cbn [pcheck Process.wp].
  apply proc_wp_mbind, wp_wrap, wp_store_kept; [mono_tac|]. intros s2 r l2 R2 L2%at_ca_same. cbn [fst snd] in *.
  assert (only_created x.1 s2) by (by etrans). assert (same_replica x.2 l2) by (by etrans).
  destruct r as [[]|e]; [|by apply HQ]. apply HQ; [done|done|]. intros ? [= <-].
  exists name, key. split_and!; [done|by apply (custody_later bc s1)|done|done|]. intros Hnone. apply Hn2.
  destruct (stored s KeyCACert) as [b|] eqn:E; [|done].
  assert (only_created s s2) as (Hc & _) by (by etrans). rewrite (Hc _ E) in Hnone. done.
Qed.
End Contracts.
