(* ===== verification/BootAgree.v ===== *)
(** * Any number of replicas starting at once

    The theorems about start-up: no process destroys a CA that exists, replicas
    that start on one store agree on one CA, the request for a parent's
    signature is for the key in custody, and every start-up comes to an end. *)

From S2P Require Import Prelude GoStrings GoTime Sha256 X509 Inventory Storage InventorySpec Policy.
From S2P Require Import CAState CRLChain CRL OCSP CRLSafety Supersede Signing Lifecycle System Growth.
From S2P Require Import Process KeyCustody Bootstrap BootSafety.

Section Agreement.
Context {KC : KeyCrypto} {KL : KeyCryptoLaws} {P : Type} {KP : KeyProvider P} {KPL : KeyProviderLaws P}.

Notation bproc := (proc (Backend * P) Replica Env).
Notation bsystem := (system (Backend * P) Replica Env).

(** The processes that run against the store: replicas starting up, and the
    command that emits a certificate signing request. *)
Inductive boot_process : Replica -> bproc unit -> Prop :=
  | starts_up l : r_starts l = true -> boot_process l (Init (r_boot l))
  | emits_csr l hostname create : r_starts l = false ->
      boot_process l (_ ← BuildCSR (r_boot l) hostname create; mret tt).

Definition killed : error := Msg "signal: killed".
Notation boot_steps := (rtc (sys_step boot_process killed)).

(** The system before any process has started. *)
Definition idle (s : Backend * P) : bsystem := mkSys s None [].

(** The replicas whose start-up has succeeded and that hold the key themselves. *)
Definition serving_node (lp : Replica * bproc unit) : option Node :=
  match lp with
  | (l, Done (Ok _)) =>
      if r_starts l && bool_decide (b_ExternalSigner (r_boot l) = None) then Some (r_node l) else None
  | _ => None
  end.
Definition serving (y : bsystem) : Cluster := mkCluster (sys_shared y).1 (omap serving_node (procs y)).

(** What a returned process has achieved. *)
Definition achieved (X : Prop) (h : bool) (r : result unit) (x : (Backend * P) * Replica) : Prop :=
  h = false /\ (X -> in_order x.1) /\
  (r = Ok tt -> r_starts x.2 = true -> X -> started (r_boot x.2) x.1 (n_ca (r_node x.2))).

Lemma process_contract X l p s :
  boot_process l p -> (X -> in_order s) -> wp untouched (only_created X) false p (achieved X) (s, l).
Proof.
  intros Hp HX. destruct Hp as [l Hl|l hostname create Hl].
  - apply wp_Init; [done|]. intros s' r l' R [L1 L2] HS. split; [done|]. cbn [fst snd] in *.
    split; [by apply (in_order_later X s)|]. intros -> _ HXt. rewrite L1. auto.
  - apply proc_wp_mbind, (wp_BuildCSR X). intros s' r l' R [L1 L2] _. cbn [fst snd] in *.
    assert (forall r', achieved X false r' (s', l')) as H.
    { intros r'. split; [done|]. split; [by apply (in_order_later X s)|]. cbn [snd]. congruence. }
    destruct r; apply H.
Qed.

Lemma boot_sound X s z :
  (X -> in_order s) -> boot_steps (idle s) z ->
  only_created X s (sys_shared z) /\
  forall i l r, procs z !! i = Some (l, Done r) -> achieved X (holds z i) r (sys_shared z, l).
Proof.
  intros HX Hsteps.
  destruct (steps_sound untouched (only_created X) (untouched_created X) boot_process killed
    (fun s => X -> in_order s) (achieved X)) with (y := idle s) (z := z) as (R & _ & Hall); try done.
  - intros s1 s2 HC H. by apply (in_order_later X s1).
  - intros h r s1 s2 l (-> & H1 & H2) HC. split; [done|]. cbn [fst snd] in *.
    split; [by apply (in_order_later X s1)|]. intros E Hst HXt.
    apply (started_later X (r_boot l) s1); auto.
  - intros l p s1 Hp H1. by apply process_contract.
  - split; [done|]. intros i l r Hi. exact (Hall i l _ Hi).
Qed.

(** C10: starting up never destroys a CA.  However many replicas start at once
    and however the command that emits a certificate signing request is run
    besides, whatever fails and whichever process dies at whatever point: a CA
    certificate that exists is not replaced, nor is a CA key, in storage or at
    the key provider; and on a store in order the published CRL is not replaced
    either, so a restart never rolls revocations back. *)
Theorem startup_never_destroys s z :
  boot_steps (idle s) z ->
  (forall b, stored s KeyCACert = Some b -> stored (sys_shared z) KeyCACert = Some b) /\
  (forall b, stored s KeyCAKey = Some b -> stored (sys_shared z) KeyCAKey = Some b) /\
  (forall k, custody s = Some k -> custody (sys_shared z) = Some k) /\
  (in_order s -> forall b, stored s KeyCRL = Some b -> stored (sys_shared z) KeyCRL = Some b).
Proof.
  intros Hsteps. destruct (boot_sound (in_order s) s z id Hsteps) as [(H1 & H2 & H3 & H4) _].
  split_and!; [done|done|done|]. intros HI. by apply H4.
Qed.

(** The replica [l] has started with success. *)
Definition has_started (z : bsystem) (l : Replica) : Prop :=
  exists i, procs z !! i = Some (l, Done (Ok tt)) /\ r_starts l = true.

Lemma started_state s z l :
  in_order s -> boot_steps (idle s) z -> has_started z l ->
  exists b cert chain o, stored (sys_shared z) KeyCACert = Some b /\ decode_cert b = Some cert /\
    CACert (n_ca (r_node l)) = Some cert /\
    (b_ExternalSigner (r_boot l) = None -> CAKey (n_ca (r_node l)) = Some (PubKey cert)) /\
    stored (sys_shared z) KeyCRL = Some (encodeCRLChain chain) /\
    ownCRLIn chain (Some cert) = Some o /\ cachedCRL (n_ca (r_node l)) = Some o.
Proof.
  intros HI Hsteps (j & Hj & Hst). destruct (boot_sound True s z (fun _ => HI) Hsteps) as [_ H].
  destruct (H j l _ Hj) as (_ & _ & HS). destruct HS as [(b & cert & Hb1 & Hd & Hc & Hk) Hcrl]; [done..|].
  destruct Hcrl as (cert' & chain & o & Hc' & Hch & Ho & Hca). cbn [fst snd] in *. simplify_eq.
  exists b, cert, chain, o. split_and!; auto.
Qed.

Lemma serving_has_started z i n : nodes (serving z) !! i = Some n ->
  exists l, has_started z l /\ r_node l = n /\ b_ExternalSigner (r_boot l) = None.
Proof.
  intros Hn. apply list_elem_of_lookup_2, list_elem_of_omap in Hn as ([l p] & Hl & Hserv).
  apply list_elem_of_lookup in Hl as [j Hj].
  destruct p as [[[]|]| | |]; try done. cbn [serving_node] in Hserv. case_match eqn:Hb; [|done]. bool_hyps. simplify_eq.
  exists l. split_and!; [by exists j|done|done].
Qed.

(** C9: replicas that start together serve one CA.  On a store that is empty or
    in order, whatever the interleaving of any number of starting replicas (and
    of the request command), whatever fails or dies: all replicas whose
    start-up succeeded hold the same certificate, the one in the store, and
    have in memory the CRL of that CA that is published in the store; those that
    hold the key themselves, which excludes frontends of an external signer,
    hold the key of that certificate.  This is the state from which the theorems
    about running replicas start. *)
Theorem starting_replicas_agree s z l0 :
  in_order s -> boot_steps (idle s) z -> has_started z l0 ->
  exists cert crl,
    (exists b, stored (sys_shared z) KeyCACert = Some b /\ decode_cert b = Some cert) /\
    (forall l, has_started z l ->
       CACert (n_ca (r_node l)) = Some cert /\ cachedCRL (n_ca (r_node l)) = Some crl) /\
    one_ca cert (serving z) /\ published cert (serving z) crl /\ none_ahead (serving z) crl.
Proof.
  intros HI Hsteps H0.
  destruct (started_state s z l0 HI Hsteps H0) as (b & cert & chain & o & Hb & Hd & _ & _ & Hch & Ho & _).
  assert (forall l, has_started z l -> CACert (n_ca (r_node l)) = Some cert /\
    (b_ExternalSigner (r_boot l) = None -> CAKey (n_ca (r_node l)) = Some (PubKey cert)) /\
    cachedCRL (n_ca (r_node l)) = Some o) as Hall.
  { intros l Hl. destruct (started_state s z l HI Hsteps Hl) as
      (b' & cert' & chain' & o' & Hb' & Hd' & Hc' & Hk' & Hch' & Ho' & Hca').
    rewrite Hb in Hb'. injection Hb' as <-. rewrite Hd in Hd'. injection Hd' as <-.
    assert (chain = chain') as <-.
    { assert (@Ok (list RevocationList) chain = Ok chain') as [= ->]; [|done].
      rewrite <- (decode_encode chain), <- (decode_encode chain'). congruence. }
    rewrite Ho in Ho'. injection Ho' as <-. done. }
  exists cert, o. split_and!; [by exists b| | |by exists chain|].
  - intros l Hl. destruct (Hall l Hl) as (? & _ & ?). done.
  - intros i n (l & Hl & <- & He)%serving_has_started. destruct (Hall l Hl) as (? & Hk & _). split; [done|by apply Hk].
  - intros i n (l & Hl & <- & _)%serving_has_started x Hx _. destruct (Hall l Hl) as (_ & _ & Hca).
    rewrite Hca in Hx. injection Hx as <-. apply grows_refl.
Qed.

(** A certificate signing request for a parent CA is for the key this CA
    will sign with.  The request carries the key that is in custody afterwards
    and is signed with it; its subject is that of the CA certificate if there
    is one (a renewal keeps the name), and the configured name if there is
    none; and neither a key nor a certificate that existed has been touched. *)
Theorem BuildCSR_for_custody_key bc hostname create env s l csr s' l' :
  run_proc (BuildCSR bc hostname create) env (s, l) = Some (Ok csr, (s', l')) ->
  csr_for bc hostname s s' csr /\
  (forall b, stored s KeyCACert = Some b -> stored s' KeyCACert = Some b) /\
  (forall key, custody_key bc s key -> custody_key bc s' key).
Proof.
  intros H. assert (wp untouched (only_created False) false (BuildCSR bc hostname create)
    (fun _ r x => only_created False s x.1 /\ forall csr, r = Ok csr -> csr_for bc hostname s x.1 csr) (s, l)) as Hw
    by (apply (wp_BuildCSR False); intros; by split).
  destruct (proc_wp_run _ _ _ _ _ _ _ _ _ Hw H) as [HC Hcsr]. cbn [fst] in *. split; [by apply Hcsr|].
  split; [apply HC|]. intros key. by apply (custody_later False).
Qed.

(** ** The key at rest *)

(** C32: a CA key written to storage can be read back.  Whatever the
    configuration stores the key as, in plain PEM or in an envelope encrypted
    under the configured passphrase, loading it from a store that answers
    yields the same key. *)
Theorem ca_key_roundtrip bc key s pem s' b (p : P) l e1 e2 :
  marshalCAKeyForStorage bc key s = (Ok pem, s') ->
  blobs b !! KeyCAKey = Some pem -> e_faults e1 = [] ->
  exists x', run_proc (loadCAKeyFromDisk bc) [e1; e2] ((b, p), l) = Some (Ok tt, x') /\
    CAKey (n_ca (r_node x'.2)) = Some key.
Proof.
  intros (block & rest & Hd & Ho)%marshal_roundtrip Hb He.
  assert (lift GetCAKey (world_of b (r_node l) e1) = (Ok pem, world_of b (r_node l) e1)) as Hget.
  { unfold lift, GetCAKey, backend, pop_fault, be_Get, guarded. cbn [st world_of faults]. rewrite He.
    cbn [be]. change (validateKey KeyCAKey) with (@None error). rewrite on_rows_other by done.
    rewrite Hb. unfold set_st, set_be, world_of. cbn. by rewrite He. }
  eexists. unfold run_proc, loadCAKeyFromDisk, store, world. cbn [act mbind proc_mbind proc_bind proc_then run_from].
  unfold embed at 1, on_world at 1. cbn [fst snd]. rewrite Hget. cbn [proc_then]. rewrite Hd.
  unfold presult. rewrite Ho. by split.
Qed.

(** ** Every start-up comes to an end *)

Lemma within_act {A} (m : M (World * P) A) h : within h 1 (act m) h.
Proof. by intros b. Qed.
Lemma within_Done {A} (r : result A) h n : within h n (Done r : bproc A) h.
Proof. done. Qed.
Lemma within_seq {A B} (p : bproc A) (k : A -> bproc B) h n a :
  within h a p h -> (a <= n)%nat -> (forall r, within h (n - a) (k r) h) -> within h n (p ≫= k) h.
Proof.
  intros Hp Ha Hk. replace n with (a + (n - a))%nat by lia. by apply within_bind.
Qed.

Create HintDb within discriminated.
Lemma within_pcheck e h n : within h n (pcheck (P := P) e) h.
Proof. by destruct e. Qed.
#[local] Hint Resolve within_try within_wrap within_locked : within.
#[local] Hint Extern 1 (within _ _ (Done _) _) => first [apply (within_Done _ _ 0)|apply within_Done] : within.
#[local] Hint Extern 1 (within _ _ (presult _) _) => first [apply (within_Done _ _ 0)|apply within_Done] : within.
#[local] Hint Extern 1 (within _ _ (pfail _) _) => first [apply (within_Done _ _ 0)|apply within_Done] : within.
#[local] Hint Extern 1 (within _ _ (mret _) _) => first [apply (within_Done _ _ 0)|apply within_Done] : within.
#[local] Hint Extern 1 (within _ _ (pcheck _) _) => first [apply (within_pcheck _ _ 0)|apply within_pcheck] : within.
#[local] Hint Extern 1 (within _ _ (act _) _) => apply within_act : within.
#[local] Hint Extern 1 (within _ _ (world _) _) => apply within_act : within.
#[local] Hint Extern 1 (within _ _ (store _) _) => apply within_act : within.
#[local] Hint Extern 1 (within _ _ (provider _) _) => apply within_act : within.

(** Count the calls of a body against the bound in the goal. *)
Ltac within_tac :=
  repeat match goal with
  | |- within _ _ (match ?x with _ => _ end) _ => destruct x
  | |- within _ _ (_ ≫= _) _ => eapply within_seq; [solve [eauto with within]|lia|intros ?]
  | |- within _ _ _ _ => solve [eauto with within | eapply within_le; [|solve [eauto with within]]; lia]
  end.

Lemma within_loaded_key h : within h 1 (loaded_key (P := P)) h.
Proof. unfold loaded_key. within_tac. Qed.
#[local] Hint Resolve within_loaded_key : within.
Lemma within_disk bc h : within h 2 (loadCAKeyFromDisk (P := P) bc) h.
Proof. unfold loadCAKeyFromDisk. within_tac. Qed.
#[local] Hint Resolve within_disk : within.
Lemma within_signer bc h : within h 2 (load_signer (P := P) bc) h.
Proof. unfold load_signer. within_tac. Qed.
Lemma within_pair bc cert h : within h 1 (check_key_pair (P := P) bc cert) h.
Proof. unfold check_key_pair. within_tac. Qed.
#[local] Hint Resolve within_signer within_pair : within.
Lemma within_loadCA bc h : within h 5 (loadCA (P := P) bc) h.
Proof. unfold loadCA. within_tac. Qed.
#[local] Hint Resolve within_loadCA : within.
Lemma within_initial_crl cert h : within h 3 (initial_crl (P := P) cert) h.
Proof. unfold initial_crl. within_tac. Qed.
Lemma within_own_cert h : within h 1 (own_cert (P := P)) h.
Proof. unfold own_cert. within_tac. Qed.
#[local] Hint Resolve within_initial_crl within_own_cert : within.
Lemma within_seed h : within h 10 (seedSupportingStateLocked (P := P)) h.
Proof. unfold seedSupportingStateLocked. within_tac. Qed.
#[local] Hint Resolve within_seed : within.
Lemma within_finish bc seed h : within h 10 seed h -> within h 14 (finishLoadExisting (P := P) bc seed) h.
Proof. intros Hs. unfold finishLoadExisting. within_tac. Qed.
#[local] Hint Resolve within_finish : within.
Lemma within_new_cert bc key h : within h 3 (new_ca_cert (P := P) bc key) h.
Proof. unfold new_ca_cert. within_tac. Qed.
Lemma within_first_state cert key h : within h 7 (first_state (P := P) cert key) h.
Proof. unfold first_state. within_tac. Qed.
#[local] Hint Resolve within_new_cert within_first_state : within.
Lemma within_new_key bc h : within h 1 (new_ca_key (P := P) bc) h.
Proof. unfold new_ca_key. apply within_wrap. within_tac. Qed.
Lemma within_store_key bc key h : within h 2 (store_ca_key (P := P) bc key) h.
Proof. unfold store_ca_key. within_tac. Qed.
#[local] Hint Resolve within_new_key within_store_key : within.
Lemma within_bootstrap bc h : within h 15 (bootstrapCA (P := P) bc) h.
Proof. unfold bootstrapCA. within_tac. Qed.
Lemma within_HasCAKey bc h : within h 1 (HasCAKey (P := P) bc) h.
Proof. unfold HasCAKey. within_tac. Qed.
#[local] Hint Resolve within_bootstrap within_HasCAKey : within.
Lemma within_init_locked bc e h : within h 22 (init_locked (P := P) bc e) h.
Proof. unfold init_locked. within_tac. Qed.
#[local] Hint Resolve within_init_locked : within.

(** Four of the actions are more than one request: setting up the integrity
    key, reading the serial index, creating the inventory and repairing the
    certificate index.  How many
    requests an action makes shows in how much of the failure script it uses up;
    [uses n m]: at most [n], however long the script is. *)
Definition uses {A} (n : nat) (m : MW A) : Prop :=
  forall w, (length (faults (st w)) <= n + length (faults (st (m w).2)))%nat.

Lemma uses_le {A} (m : MW A) n k : uses n m -> (n <= k)%nat -> uses k m.
Proof. intros H Hle w. specialize (H w). lia. Qed.
Lemma uses_bind {A B} (m : MW A) (k : A -> MW B) n a :
  uses a m -> (a <= n)%nat -> (forall x, uses (n - a) (k x)) -> uses n (m ≫= k).
Proof.
  intros Hm Ha Hk w. specialize (Hm w). unfold mbind, M_bind. destruct (m w) as [[x|e] w1]; cbn in *; [|lia].
  specialize (Hk x w1). lia.
Qed.
Lemma uses_ret {A} (x : A) n : uses n (mret x). Proof. intros w. cbn. lia. Qed.
Lemma uses_fail {A} e n : uses n (fail e : MW A). Proof. intros w. cbn. lia. Qed.
Lemma uses_get {A} (f : CA -> A) n : uses n (get_ca f). Proof. intros w. cbn. lia. Qed.
Lemma uses_upd f n : uses n (upd_ca f). Proof. intros w. cbn. lia. Qed.
Lemma uses_try {A} (m : MW A) n : uses n m -> uses n (try m).
Proof. intros H w. specialize (H w). unfold try. by destruct (m w). Qed.
Lemma uses_wrapping {A} msg (m : MW A) n : uses n m -> uses n (wrapping msg m).
Proof. intros H w. specialize (H w). unfold wrapping. by destruct (m w) as [[] ?]. Qed.
Lemma uses_when b (m : MW unit) n : uses n m -> uses n (when b m).
Proof. intros H. destruct b; [done|apply uses_ret]. Qed.
Lemma uses_ignore {A} (m : MW A) n : uses n m -> uses n (ignore m).
Proof. intros H. eapply uses_bind; [by apply uses_try|done|intros; apply uses_ret]. Qed.
Lemma uses_for_each {A} (f : A -> MW unit) n l : (forall x, uses n (f x)) -> uses (n * length l) (for_each f l).
Proof.
  intros Hf. induction l as [|x l IH]; [apply uses_ret|]. cbn [for_each length].
  eapply (uses_bind _ _ _ n); [apply Hf|lia|]. intros _. eapply uses_le; [exact IH|lia].
Qed.

Lemma uses_backend {A} (op : BOp A) : uses 1 (lift (backend op)).
Proof.
  intros w. unfold lift, backend, pop_fault. destruct (faults (st w)) as [|[] fs] eqn:E;
    try (destruct (op _) as [r b]); cbn; rewrite ?E; cbn; lia.
Qed.
Lemma uses_external e : uses 1 (lift (external e)).
Proof. intros w. unfold lift, external, pop_fault. destruct (faults (st w)) as [|[] fs] eqn:E; cbn; rewrite ?E; cbn; lia. Qed.
Lemma uses_rand max n : uses n (lift (rand_Int max)).
Proof. intros w. unfold lift, rand_Int. destruct (rands (st w)); cbn; lia. Qed.
Lemma uses_gets {A} (f : Store -> A) n : uses n (lift (gets f)). Proof. intros w. cbn. lia. Qed.
Lemma uses_set_key k n : uses n (lift (modify (set_hmacKey k))). Proof. intros w. cbn. lia. Qed.

(** An operation of the service is what its parts are. *)
Lemma lift_bind {A B} (m : MS A) (k : A -> MS B) w : lift (m ≫= k) w = (lift m ≫= (fun x => lift (k x))) w.
Proof. unfold lift, mbind, M_bind. destruct (m (st w)) as [[x|e] s]; [|done]. cbn. by destruct (k x s). Qed.
Lemma uses_lift_bind {A B} (m : MS A) (k : A -> MS B) n a :
  uses a (lift m) -> (a <= n)%nat -> (forall x, uses (n - a) (lift (k x))) -> uses n (lift (m ≫= k)).
Proof. intros H1 H2 H3 w. rewrite lift_bind. by apply (uses_bind (lift m) (fun x => lift (k x)) n a). Qed.
Lemma uses_lift_ret {A} (x : A) n : uses n (lift (mret x)). Proof. intros w. cbn. lia. Qed.
Lemma uses_lift_fail {A} e n : uses n (lift (fail e : MS A)). Proof. intros w. cbn. lia. Qed.
Lemma uses_lift_try {A} (m : MS A) n : uses n (lift m) -> uses n (lift (try m)).
Proof. intros H w. specialize (H w). unfold lift, try in *. by destruct (m (st w)). Qed.
Lemma uses_lift_wrapping {A} msg (m : MS A) n : uses n (lift m) -> uses n (lift (wrapping msg m)).
Proof. intros H w. specialize (H w). unfold lift, wrapping in *. by destruct (m (st w)) as [[] ?]. Qed.

Lemma uses_backend_le {A} (op : BOp A) n : (1 <= n)%nat -> uses n (lift (backend op)).
Proof. intros H. eapply uses_le; [apply uses_backend|done]. Qed.

Create HintDb uses discriminated.
#[local] Hint Resolve uses_backend uses_external uses_lift_try uses_lift_wrapping uses_try uses_wrapping uses_ignore uses_when : uses.
#[local] Hint Extern 1 (uses _ (lift (gets _))) => apply (uses_gets _ 0) : uses.
#[local] Hint Extern 1 (uses _ (lift (rand_Int _))) => apply (uses_rand _ 0) : uses.
#[local] Hint Extern 1 (uses _ (lift (modify _))) => apply (uses_set_key _ 0) : uses.
#[local] Hint Extern 1 (uses _ (get_ca _)) => apply (uses_get _ 0) : uses.
#[local] Hint Extern 1 (uses _ (upd_ca _)) => apply (uses_upd _ 0) : uses.

(** Count the requests of a body against the bound in the goal. *)
Ltac uses_tac :=
  repeat match goal with
  | |- uses _ (lift (_ ≫= _)) => eapply uses_lift_bind; [solve [eauto with uses]|lia|intros ?]
  | |- uses _ (_ ≫= _) => eapply uses_bind; [solve [eauto with uses]|lia|intros ?]
  | |- uses _ (lift (match ?x with _ => _ end)) => destruct x
  | |- uses _ (match ?x with _ => _ end) => destruct x
  | |- uses _ _ => first [ apply uses_lift_ret | apply uses_lift_fail | apply uses_ret | apply uses_fail | apply uses_upd
      | apply uses_lift_wrapping | apply uses_when | apply uses_ignore
      | eapply uses_le; [solve [eauto with uses]|lia] ]
  end.

Lemma uses_read : uses 1 (lift readInventoryForHMAC).
Proof. unfold readInventoryForHMAC. uses_tac. Qed.
Lemma uses_load : uses 1 (lift loadHMACKey).
Proof. unfold loadHMACKey. uses_tac. Qed.
#[local] Hint Resolve uses_read uses_load : uses.
Lemma uses_ensure : uses 4 (lift EnsureHMACKey).
Proof. unfold EnsureHMACKey, WithLock. uses_tac. Qed.
Lemma uses_compute key : uses 1 (lift (computeInventoryHMAC key)).
Proof. unfold computeInventoryHMAC, is_structured. uses_tac. Qed.
Lemma uses_compare v : uses 1 (lift (compareInventoryMACLocked v)).
Proof. unfold compareInventoryMACLocked. uses_tac. Qed.
#[local] Hint Resolve uses_ensure uses_compute uses_compare : uses.
Lemma uses_baseline key : uses 3 (lift (baselineInventoryHMACLocked key)).
Proof.
  unfold baselineInventoryHMACLocked, is_structured. eapply uses_lift_bind; [eauto with uses|lia|intros chained].
  eapply (uses_lift_bind _ _ _ 1); [destruct chained; uses_tac|lia|intros [es d]]. uses_tac.
Qed.
#[local] Hint Resolve uses_baseline : uses.
Lemma uses_InitHMAC : uses 8 (lift InitHMAC).
Proof. unfold InitHMAC, verifyInventoryHMACLocked. uses_tac. Qed.

Lemma uses_entries : uses 2 (lift InventoryEntries).
Proof.
  unfold InventoryEntries, is_structured. do 2 (eapply uses_lift_bind; [eauto with uses|lia|intros ?]).
  case_match; (eapply uses_lift_bind; [eauto with uses|lia|intros ?]);
    (eapply (uses_lift_bind _ _ _ 1); [case_match; uses_tac|lia|intros ?; uses_tac]).
Qed.
#[local] Hint Resolve uses_entries : uses.
Lemma uses_buildSerialIndex : uses 2 buildSerialIndex.
Proof. unfold buildSerialIndex, readSerialIndex. eapply (uses_bind _ _ _ 2); [uses_tac|lia|intros ?; uses_tac]. Qed.

Lemma uses_touch : uses 2 (lift TouchInventory).
Proof. unfold TouchInventory. uses_tac. Qed.
Lemma uses_on_index op : uses 1 (lift (on_index op)).
Proof. unfold on_index, is_structured. uses_tac. Qed.
#[local] Hint Resolve uses_on_index : uses.
Lemma uses_backfill rec : uses 2 (backfillCertProjection rec).
Proof. unfold backfillCertProjection, GetCert, SetCertProjection. uses_tac. Qed.
#[local] Hint Resolve uses_backfill : uses.
Lemma uses_repair revoked rec : uses 3 (repair_record revoked rec).
Proof. unfold repair_record, MarkCertRevoked, ClearCertRevoked. uses_tac. Qed.

Lemma latest_rows_length l : (length (latest_rows l) <= length l)%nat.
Proof.
  assert (forall (f : string -> option CertRecord) ks, length (omap f ks) <= length ks)%nat as Ho.
  { intros f ks. induction ks as [|k ks IH]; cbn; [lia|]. destruct (f k); cbn; lia. }
  assert (forall ks : list string, length (remove_dups ks) <= length ks)%nat as Hd.
  { intros ks. induction ks as [|k ks IH]; cbn [remove_dups]; [done|]. case_decide; cbn; lia. }
  unfold latest_rows. etrans; [apply Ho|]. rewrite merge_sort_Permutation. etrans; [apply Hd|]. by rewrite length_map.
Qed.

Lemma uses_rebuild w :
  (length (faults (st w)) <= 1 + 3 * length (rows (be (st w))) + length (faults (st (rebuildCertIndex w).2)))%nat.
Proof.
  assert (uses 1 (lift (CertStatuses None))) as Hu by (unfold CertStatuses, is_structured; uses_tac).
  unfold rebuildCertIndex, mbind at 1, M_bind, try. specialize (Hu w).
  destruct (lift (CertStatuses None) w) as [[[l|]|e] w1] eqn:E; cbn in Hu |- *; [|lia..].
  assert (length l <= length (rows (be (st w))))%nat as Hl.
  { unfold lift, CertStatuses, is_structured, mbind, M_bind, gets, backend, pop_fault, sql_Statuses in E.
    unfold mret, M_ret in E. repeat case_match; simplify_eq; cbn in *; (etrans; [apply length_filter|apply latest_rows_length]). }
  pose proof (uses_for_each (repair_record (RevokedSerials (ca w1))) 3 l (uses_repair _) w1) as H.
  change ((get_ca id ≫= _) w1) with (for_each (repair_record (RevokedSerials (ca w1))) l w1). lia.
Qed.

End Agreement.

(** ** A concrete start-up *)

(** A provider that holds at most one key, and a cipher that appends the key as
    a tag: enough to run the model. *)
#[local] Instance slot_provider : KeyProvider (option PublicKey) := {|
  kp_Load p := match p with
               | Some k => (Ok k, p)
               | None => (Err (Sentinel ErrKeyProviderKeyNotFound), p)
               end;
  kp_Generate cfg p := match p with
                       | Some k => (Err (Msg "the key already exists"), p)
                       | None => match generateKey cfg 7 with Ok k => (Ok k, Some k) | Err e => (Err e, None) end
                       end |}.
#[local] Instance slot_laws : KeyProviderLaws (option PublicKey).
Proof.
  refine {| key_at := fun p : option PublicKey => p |}; unfold kp_Load, kp_Generate, slot_provider.
  - by intros [k|].
  - by intros [k|] k' [= <-].
  - by intros [k|] e H; simplify_eq/=.
  - by intros cfg [k|] k' H; simplify_eq/=.
  - intros cfg [k|] k'; [done|]. destruct (generateKey cfg 7); naive_solver.
Defined.

Definition toy_tag (key : string) : string := (slice_at 16 (key +:+ "0123456789ABCDEF")).1.
#[local] Instance toy_crypto : KeyCrypto := {|
  deriveKey pass salt := pass;
  gcm_Seal key nonce m := toy_tag key +:+ m;
  gcm_Open key nonce c :=
    let '(tag, m) := slice_at 16 c in if bool_decide (tag = toy_tag key) then Some m else None;
  MarshalPKCS8PrivateKey k := Ok (hexX (Z.pos (encode k)));
  ParsePKCS8PrivateKey d :=
    match SetString16 d with
    | Some (Z.pos p) => match decode p with Some k => Ok k | None => Err (Msg "asn1: structure error") end
    | _ => Err (Msg "asn1: structure error")
    end |}.

Lemma slice_length n s : (n <= String.length s)%nat -> String.length (slice_at n s).1 = n.
Proof.
  revert s. induction n as [|n IH]; intros [|c s] H; cbn in *; try lia. specialize (IH s).
  destruct (slice_at n s). cbn in *. rewrite IH; lia.
Qed.
Lemma toy_tag_length key : String.length (toy_tag key) = 16%nat.
Proof. apply slice_length. rewrite length_str_app. cbn. lia. Qed.

#[local] Instance toy_laws : KeyCryptoLaws.
Proof.
  constructor; cbn [gcm_Open gcm_Seal MarshalPKCS8PrivateKey ParsePKCS8PrivateKey toy_crypto].
  - intros key nonce m. rewrite <- (toy_tag_length key), slice_at_app. by rewrite bool_decide_eq_true_2.
  - intros key nonce m. rewrite length_str_app, toy_tag_length. unfold aes_BlockSize. lia.
  - intros k d [= <-]. rewrite SetString16_hexX by done. by rewrite countable.decode_encode.
Qed.

Definition demo_host : Host := mkHost (fun _ => Err (Msg "no such file")) (fun _ => "correct horse") (fun _ => false).
(** An ECDSA key, encrypted at rest. *)
Definition demo_boot : BootConfig :=
  mkBoot "ca.example" (mkCASubject "Example" "" "" "" "") (mkKeyConfig KeyAlgoECDSA 256) 0 (-1) false true
    (mkPassCfg "" "") "/etc/puppetlabs/puppetserver/ca" demo_host None false.
Definition demo_node : Node :=
  mkNode (mkCA default_config None None None ∅ ∅ 0 0 ∅ false 0) None ∅.
Definition demo_replica : Replica := mkReplica demo_boot true demo_node.
Definition demo_env : list Env := replicate 40 (mkEnv [] (10 ^ 18) [1] [11; 12; 13] [] []).
Definition demo_shared : Backend * option PublicKey := (mkBackend false ∅ [], None).

(** A start-up on its own. *)
Definition demo_start (s : Backend * option PublicKey)
    : result unit * (Backend * option PublicKey) * Replica :=
  match run_proc (Init demo_boot) demo_env (s, demo_replica) with
  | Some (r, (s', l')) => (r, s', l')
  | None => (Err killed, s, demo_replica)
  end.

(** The first replica creates the CA, the second loads it. *)
Definition demo_one := Eval vm_compute in demo_start demo_shared.
Definition demo_two := Eval vm_compute in demo_start demo_one.1.2.

Lemma demo_step s r s' l' ps :
  demo_start s = (r, s', l') -> r = Ok tt ->
  rtc (sys_step boot_process killed) (mkSys s None ps) (mkSys s' None (ps ++ [(l', Done r)])).
Proof.
  unfold demo_start. destruct (run_proc _ _ _) as [[r0 [s0 l0]]|] eqn:E; [|by intros [= <- <- <-]].
  intros [= -> -> ->] ->. eapply rtc_l; [by apply (step_start _ _ (mkSys s None ps) demo_replica), starts_up|].
  by apply (run_reaches _ _ (Init demo_boot) ps false demo_env).
Qed.

Definition demo_serving : system (Backend * option PublicKey) Replica Env :=
  mkSys demo_two.1.2 None [(demo_one.2, Done demo_one.1.1); (demo_two.2, Done demo_two.1.1)].

Lemma demo_reaches : rtc (sys_step boot_process killed) (idle demo_shared) demo_serving.
Proof.
  etrans; [apply (demo_step demo_shared demo_one.1.1 demo_one.1.2 demo_one.2); vm_compute; reflexivity|].
  apply (demo_step demo_one.1.2 demo_two.1.1 demo_two.1.2 demo_two.2); vm_compute; reflexivity.
Qed.

Lemma demo_empty_in_order : in_order demo_shared.
Proof. split; [done|]. intros b H. by vm_compute in H. Qed.

Lemma starting_replicas_agree_witness :
  length (nodes (serving demo_serving)) = 2%nat /\
  exists cert crl,
    (exists b, stored (sys_shared demo_serving) KeyCACert = Some b /\ decode_cert b = Some cert) /\
    (forall l, has_started demo_serving l ->
       CACert (n_ca (r_node l)) = Some cert /\ cachedCRL (n_ca (r_node l)) = Some crl) /\
    one_ca cert (serving demo_serving) /\ published cert (serving demo_serving) crl /\
    none_ahead (serving demo_serving) crl.
Proof.
  split; [vm_compute; reflexivity|].
  apply (starting_replicas_agree demo_shared demo_serving demo_two.2);
    [apply demo_empty_in_order|apply demo_reaches|].
  exists 1%nat. split; vm_compute; reflexivity.
Defined.

Lemma startup_never_destroys_witness :
  is_Some (stored demo_one.1.2 KeyCACert) /\ is_Some (stored demo_one.1.2 KeyCAKey) /\
  (forall b, stored demo_one.1.2 KeyCACert = Some b -> stored demo_two.1.2 KeyCACert = Some b) /\
  (forall b, stored demo_one.1.2 KeyCAKey = Some b -> stored demo_two.1.2 KeyCAKey = Some b).
Proof.
  split; [by vm_compute; eauto|]. split; [by vm_compute; eauto|].
  destruct (startup_never_destroys demo_one.1.2 (mkSys demo_two.1.2 None ([] ++ [(demo_two.2, Done demo_two.1.1)])))
    as (H1 & H2 & _); [|by split].
  apply (demo_step demo_one.1.2 demo_two.1.1 demo_two.1.2 demo_two.2 []); vm_compute; reflexivity.
Defined.

Definition demo_csr_run :=
  Eval vm_compute in run_proc (BuildCSR demo_boot "ca.example" true) demo_env (demo_shared, demo_replica).
Definition demo_csr : blob := match demo_csr_run with Some (Ok b, _) => b | _ => empty_blob end.
Definition demo_csr_state : (Backend * option PublicKey) * Replica :=
  match demo_csr_run with Some (_, x) => x | None => (demo_shared, demo_replica) end.

Lemma BuildCSR_for_custody_key_witness :
  csr_for demo_boot "ca.example" demo_shared demo_csr_state.1 demo_csr.
Proof.
  destruct (BuildCSR_for_custody_key demo_boot "ca.example" true demo_env demo_shared demo_replica demo_csr
    demo_csr_state.1 demo_csr_state.2) as (H & _); [vm_compute; reflexivity|exact H].
Defined.

Definition demo_sealed := Eval vm_compute in
  marshalCAKeyForStorage demo_boot (ECDSAKey P256 11) (mkStore demo_shared.1 None ∅ [] 0 [] [11; 12; 13]).
Definition demo_sealed_pem : blob := match demo_sealed.1 with Ok b => b | Err _ => empty_blob end.

Lemma ca_key_roundtrip_witness :
  exists x', run_proc (loadCAKeyFromDisk demo_boot) [mkEnv [] 0 [] [] [] []; mkEnv [] 0 [] [] [] []]
      ((mkBackend false {[KeyCAKey := demo_sealed_pem]} [], None : option PublicKey), demo_replica) = Some (Ok tt, x') /\
    CAKey (n_ca (r_node x'.2)) = Some (ECDSAKey P256 11).
Proof.
  apply (ca_key_roundtrip demo_boot (ECDSAKey P256 11) (mkStore demo_shared.1 None ∅ [] 0 [] [11; 12; 13])
    demo_sealed_pem demo_sealed.2); vm_compute; reflexivity.
Defined.

