(* ===== verification/CAImport.v ===== *)
(** * Importing CA material

    Models internal/ca/caImport.go: importing a CA with its key ([ImportCA],
    [ImportCAMaterial]), installing the chain an external parent signed for a
    key held elsewhere ([ImportCACertificate]), and deciding what the published
    CRL chain becomes ([planCRLImport]); also [AssertSignerMatchesCert] of
    cabundle.go. *)

From S2P Require Import Prelude GoStrings GoTime Sha256 X509 Inventory Storage InventorySpec Policy.
From S2P Require Import CAState CRLChain CRL OCSP CRLSafety Supersede Signing Lifecycle.
From S2P Require Import System Growth Process KeyCustody Bootstrap BootSafety BootAgree.

(** ** The CRL chain of an import *)

Definition AssertSignerMatchesCert (cert : Certificate) (signer : PublicKey) : option error :=
  match MarshalPKIXPublicKey (PubKey cert), MarshalPKIXPublicKey signer with
  | Err e, _ => Some (Wrap "failed to marshal cert public key" [e])
  | _, Err e => Some (Wrap "failed to marshal signing key's public component" [e])
  | Ok a, Ok b =>
      if negb (bool_decide (a = b)) then Some (Msg "the CA key does not match the certificate's public key")
      else None
  end.

Definition storedCRLChain : MW (list RevocationList) :=
  r ← try (lift GetCRL);
  match r with
  | Err e =>
      if errors_Is e FsErrNotExist then mret []
      else fail (Wrap "reading the stored CRL before replacing it" [e])
  | Ok existing => wrapping "decoding the stored CRL before replacing it" (of_result (decodeCRLChain existing))
  end.

Definition sameCRLOrder (a b : list RevocationList) : bool := bool_decide (a = b).

(** The lead of an ordered chain gives way to a newer copy of our own CRL that
    is already stored. *)
Definition keep_newer_own (stored : list RevocationList) (caCert : Certificate)
    (ordered : list RevocationList) : list RevocationList :=
  match ownCRLIn stored (Some caCert), ordered with
  | Some stale, lead :: rest => if newerCRL stale lead then stale :: rest else ordered
  | _, _ => ordered
  end.

(** [(chain, superseded, changed)]; [crlPEM] is [None] when no chain was given. *)
Definition planCRLImport (crlPEM : option blob) (caCert : Certificate) (caKey : PublicKey)
    : MW (list RevocationList * nat * bool) :=
  stored ← storedCRLChain;
  match crlPEM with
  | None =>
      if negb (bool_decide (stored = [])) then
        let '(ordered, dropped, foundOurs) := orderCRLChain stored (Some caCert) in
        if negb foundOurs then
          fail (Msg "the stored CRL chain contains no CRL signed by the CA certificate being imported")
        else if sameCRLOrder stored ordered then mret (ordered, dropped, false)
        else mret (ordered, dropped, true)
      else
        generated ← newEmptyCRL caCert caKey CRLValidity;
        mret ([generated], O, true)
  | Some crlPEM =>
      incoming ← wrapping "crl-chain" (of_result (decodeCRLChain crlPEM));
      if bool_decide (incoming = []) then fail (Msg "crl-chain does not contain a valid X509 CRL PEM block")
      else
        let '(ordered, superseded, foundOurs) := orderCRLChain incoming (Some caCert) in
        if (foundOurs : bool) then mret (keep_newer_own stored caCert ordered, superseded, true)
        else match ownCRLIn stored (Some caCert) with
        | Some ourCRL => mret (ourCRL :: ordered, superseded, true)
        | None =>
            ourCRL ← newEmptyCRL caCert caKey CRLValidity;
            mret (ourCRL :: ordered, superseded, true)
        end
  end.

Definition writeCRLChain (chain : list RevocationList) : MW unit :=
  wrapping "failed to write CRL" (lift (UpdateCRL (encodeCRLChain chain))).

(** ** The import *)

Definition incompleteImportError {A} (m : MW A) : MW A :=
  wrapping "The CA certificate has already been written, so storage is now inconsistent" m.

(** The checks on the bundle, before anything is written: the CA's own
    certificate and the bundle. *)
Definition checked_bundle (certBundlePEM : blob) (signer : PublicKey) : MW (Certificate * list Certificate) :=
  certs ← wrapping "cert-bundle" (of_result (ParseCABundle certBundlePEM));
  now ← lift time_Now;
  _ ← wrapping "cert-bundle" (check (ValidateCABundleOrder now certs));
  match certs with
  | [] => fail (Msg "bundle contains no certificates")
  | caCert :: _ => _ ← check (AssertSignerMatchesCert caCert signer); mret (caCert, certs)
  end.

Definition lockNameBootstrap := "bootstrap".

Definition importCAMaterial (certBundlePEM : blob) (keyPEM crlPEM : option blob) (signer : PublicKey) : MW unit :=
  '(caCert, certs) ← checked_bundle certBundlePEM signer;
  _ ← wrapping "failed to create CA directories" (lift EnsureDirs);
  _ ← planCRLImport crlPEM caCert signer;
  _ ← match keyPEM with
      | Some keyPEM => wrapping "failed to write CA key" (lift (SaveCAKey keyPEM))
      | None => mret tt
      end;
  r ← try (lift (SaveCACert (EncodeCABundle certs)));
  _ ← match r with Ok _ => mret tt | Err e => fail (Wrap "" [Sentinel ErrCACertWrite; e]) end;
  _ ← incompleteImportError (wrapping "failed to write CA public key" (lift (savePubKeyPEM signer)));
  _ ← WithLockW lockNameCRL
        ('(plan, _, changed) ← planCRLImport crlPEM caCert signer;
         if negb changed then mret tt else writeCRLChain plan);
  hasSerial ← incompleteImportError (wrapping "checking serial" (lift HasSerial));
  _ ← (if (hasSerial : bool) then mret tt
       else incompleteImportError (wrapping "failed to write serial" (lift (WriteSerial "0001"))));
  incompleteImportError (wrapping "failed to create inventory" (lift TouchInventory)).

Definition ImportCAMaterial (certBundlePEM : blob) (keyPEM crlPEM : option blob) (signer : PublicKey) : MW unit :=
  importCAMaterial certBundlePEM keyPEM crlPEM signer.

Definition ImportCA (certBundlePEM keyPEM : blob) (crlPEM : option blob) : MW unit :=
  match pem_Decode keyPEM with
  | (None, _) => fail (Msg "private-key does not contain a valid PEM block")
  | (Some keyBlock, _) =>
      caKey ← wrapping "failed to parse CA private key"
                (of_result (parsePrivateKeyDER (Type_ keyBlock) (Bytes keyBlock)));
      ImportCAMaterial certBundlePEM (Some keyPEM) crlPEM caKey
  end.

(** The first half of [ImportCACertificate]'s locked section: is a certificate
    replaced, and the stored CRL re-signed under the incoming one. *)
Definition prepare_replacement (caCert : Certificate) (signer : PublicKey) (crlValidity : Duration)
    (force : bool) : MW (bool * option blob) :=
  hasCert ← wrapping "checking for an existing CA certificate" (lift HasCACert);
  if (hasCert : bool) then
    if negb force then fail (Wrap "refusing to replace it" [Sentinel ErrCACertExists])
    else crlPEM ← ResignStoredCRL caCert signer crlValidity; mret (true, crlPEM)
  else mret (false, None).

Definition ImportCACertificate (certBundlePEM : blob) (signer : PublicKey) (crlValidity : Duration)
    (force : bool) : MW bool :=
  '(caCert, _) ← checked_bundle certBundlePEM signer;
  WithLockW lockNameBootstrap
    ('(replaced, crlPEM) ← prepare_replacement caCert signer crlValidity force;
     _ ← importCAMaterial certBundlePEM None crlPEM signer;
     mret replaced).

(** ** Lemmas *)

Lemma newEmpty_same_store cert key v : mono same_store (newEmptyCRL cert key v).
Proof. unfold newEmptyCRL, signer_available. mono_tac. Qed.
#[export] Hint Resolve newEmpty_same_store : mono.
Lemma plan_same_store crlPEM caCert key : mono same_store (planCRLImport crlPEM caCert key).
Proof. unfold planCRLImport, storedCRLChain. mono_tac. Qed.
Lemma checked_same_store b signer : mono same_store (checked_bundle b signer).
Proof. unfold checked_bundle. mono_tac. Qed.

Lemma same_store_objects w w' : same_store w w' -> objects_kept (st w) (st w').
Proof. intros (E & _). unfold objects_kept. by rewrite E. Qed.

(** The bundle a successful check lets through. *)
Lemma checked_bundle_Ok b signer w caCert certs w' :
  checked_bundle b signer w = (Ok (caCert, certs), w') ->
  same_store w w' /\ ParseCABundle b = Ok certs /\ (exists rest, certs = caCert :: rest) /\
  PubKey caCert = signer /\ IsCA caCert = true /\ parent_may_sign KeyUsageCRLSign caCert = true /\
  exists now, ValidateCABundleOrder now certs = None.
Proof.
  intros H. split; [by apply (mono_run _ _ _ _ _ (checked_same_store _ _) H)|].
  unfold checked_bundle in H. apply bind_Ok in H as (cs & w1 & H1 & H).
  apply wrapping_Ok, of_result_Ok in H1 as [H1 ->].
  apply bind_Ok in H as (now & w2 & _ & H). apply bind_Ok in H as ([] & w3 & H3 & H).
  apply wrapping_Ok, check_Ok in H3 as [Hv ->]. destruct cs as [|own rest]; [done|].
  apply bind_Ok in H as ([] & w4 & H4 & H). apply check_Ok in H4 as [Ha ->]. apply ret_Ok in H as [[= -> ->] _].
  unfold AssertSignerMatchesCert in Ha.
  destruct (MarshalPKIXPublicKey (PubKey own)) as [a|] eqn:Ea; [|done].
  destruct (MarshalPKIXPublicKey signer) as [k|] eqn:Eb; [|done]. case_match eqn:Hab; [done|]. bool_hyps.
  apply MarshalPKIX_Ok in Ea as ->. apply MarshalPKIX_Ok in Eb as ->.
  split; [done|]. split; [by eauto|]. split; [done|].
  assert (IsCA own = true /\ (KeyUsage own = 0 \/ Z.land (KeyUsage own) KeyUsageCRLSign <> 0)) as [Hca Hku].
  { unfold ValidateCABundleOrder in Hv. destruct (last (own :: rest)); [|done].
    destruct (IsCA own); [|done]. split; [done|]. cbn [negb] in Hv.
    destruct (existsb _ _); [done|]. destruct (checkCAKeyType _); [done|].
    destruct (KeyUsage own =? 0) eqn:E; [left; by apply Z.eqb_eq|]. right. cbn [negb andb] in Hv.
    destruct (Z.land (KeyUsage own) KeyUsageCertSign =? 0); [done|].
    destruct (Z.land (KeyUsage own) KeyUsageCRLSign =? 0) eqn:E2; [done|]. by apply Z.eqb_neq. }
  split; [done|]. split; [|by eauto]. unfold parent_may_sign.
  assert (BasicConstraintsValid own = true) as ->.
  { unfold IsCA in Hca. unfold BasicConstraintsValid, has_ext.
    destruct (find_ext oidBasicConstraints (Extensions own)) as [v|] eqn:Ef; [|done].
    unfold find_ext in Ef. apply fmap_Some in Ef as (e & He & _). apply existsb_exists_elem. exists e.
    assert (e ∈ base.filter (fun e => ext_Id e = oidBasicConstraints) (Extensions own)) as Hin
      by (destruct (base.filter _ _); simplify_eq/=; by left).
    apply list_elem_of_filter in Hin as [? ?]. split; [done|]. by apply bool_decide_eq_true. }
  rewrite Hca, andb_false_r. cbn [negb orb andb]. destruct Hku as [->|Hku]; [done|].
  apply Z.eqb_neq in Hku. rewrite Hku. by rewrite orb_true_r.
Qed.

(** Ordering a chain picks our newest CRL and keeps the foreign ones. *)
Lemma order_spec crls cert l n found :
  orderCRLChain crls cert = (l, n, found) ->
  if found then exists o, ownCRLIn crls cert = Some o /\
                  l = o :: base.filter (fun c => crlSignedBy cert c = false) crls
  else l = crls /\ ownCRLIn crls cert = None.
Proof.
  unfold orderCRLChain. match goal with |- context [fold_left ?f crls _] => set (step := f) end.
  assert (exists m, fold_left step crls (None, O, []) =
    (ownCRLIn crls cert, m, base.filter (fun c => crlSignedBy cert c = false) crls)) as [m ->].
  { induction crls as [|c crls [m IH]] using rev_ind; [by exists O|].
    rewrite fold_left_app, IH, filter_app. unfold ownCRLIn in *. rewrite fold_left_app. cbn [fold_left].
    unfold own_step at 2. unfold step. rewrite filter_cons, filter_nil. destruct (crlSignedBy cert c) eqn:E; cbn [andb].
    - rewrite decide_False by congruence. rewrite app_nil_r.
      destruct (fold_left (own_step cert) crls None) as [o|]; [|by eauto]. destruct (newerCRL c o); by eauto.
    - rewrite decide_True by done. eauto. }
  destruct (ownCRLIn crls cert) as [o|]; intros [= <- <- <-]; eauto.
Qed.

(** The stored chain an import starts from. *)
Definition chain_at (w : World) (stored : list RevocationList) : Prop :=
  match blobs (be (st w)) !! KeyCRL with
  | Some b => decodeCRLChain b = Ok stored
  | None => stored = []
  end.

Lemma storedCRLChain_Ok w stored w' : storedCRLChain w = (Ok stored, w') -> chain_at w stored.
Proof.
  unfold storedCRLChain. intros H. apply bind_Ok in H as (r & w1 & H1 & H). apply try_Ok in H1.
  apply lift_run in H1 as (s1 & H1 & ->). unfold chain_at. destruct r as [b|e].
  - apply backend_Ok in H1 as (H1 & _). apply be_Get_Ok in H1 as [-> _]; [|by apply on_rows_other].
    by apply wrapping_Ok, of_result_Ok in H as [? _].
  - destruct (errors_Is e FsErrNotExist) eqn:He; [|done]. apply ret_Ok in H as [-> _].
    destruct (backend_Err_is _ _ _ _ _ H1 He) as (E & _).
    destruct (be_Get KeyCRL (be (st w))) as [r0 b0] eqn:G. cbn [fst] in E. subst r0.
    by rewrite (be_Get_missing _ _ _ _ G He).
Qed.

(** The planned chain leads with a CRL of the imported certificate that is not
    older than any copy of it already stored. *)
Definition plan_ok (caCert : Certificate) (stored chain : list RevocationList) (changed : bool) : Prop :=
  (exists lead rest, chain = lead :: rest /\ crlSignedBy (Some caCert) lead = true /\
     forall o, ownCRLIn stored (Some caCert) = Some o -> newerCRL o lead = false) /\
  (changed = false -> chain = stored).

Lemma empty_own caCert crl :
  parent_may_sign KeyUsageCRLSign caCert = true -> crl_SignedBy crl = PubKey caCert ->
  crlSignedBy (Some caCert) crl = true.
Proof. intros Hp Hs. unfold crlSignedBy, crl_CheckSignatureFrom. by rewrite Hp, Hs, bool_decide_eq_true_2. Qed.

Lemma newer_self o : newerCRL o o = false.
Proof. apply newer_irrefl. Qed.

Lemma keep_newer_spec stored caCert lead rest :
  crlSignedBy (Some caCert) lead = true ->
  exists lead', keep_newer_own stored caCert (lead :: rest) = lead' :: rest /\
    crlSignedBy (Some caCert) lead' = true /\
    forall o, ownCRLIn stored (Some caCert) = Some o -> newerCRL o lead' = false.
Proof.
  intros Hl. unfold keep_newer_own. destruct (ownCRLIn stored (Some caCert)) as [o|] eqn:Eo.
  - apply ownCRLIn_Some in Eo as (_ & Hs & _). destruct (newerCRL o lead) eqn:En.
    + exists o. split; [done|]. split; [done|]. intros ? [= <-]. apply newer_self.
    + exists lead. split; [done|]. split; [done|]. by intros ? [= <-].
  - exists lead. done.
Qed.

Lemma plan_spec crlPEM caCert w chain n changed w' :
  parent_may_sign KeyUsageCRLSign caCert = true ->
  planCRLImport crlPEM caCert (PubKey caCert) w = (Ok (chain, n, changed), w') ->
  exists stored, chain_at w stored /\ plan_ok caCert stored chain changed.
Proof.
  intros Hp H. unfold planCRLImport in H. apply bind_Ok in H as (stored & w1 & H1 & H).
  pose proof (storedCRLChain_Ok _ _ _ H1) as Hst. clear H1. exists stored. split; [done|].
  destruct crlPEM as [crlPEM|].
  - apply bind_Ok in H as (incoming & w2 & H2 & H). destruct (bool_decide (incoming = [])); [done|].
    destruct (orderCRLChain incoming (Some caCert)) as [[ordered superseded] found] eqn:Eo.
    apply order_spec in Eo. destruct found.
    + destruct Eo as (o & Ho & ->). apply ret_Ok in H as [[= -> -> ->] _].
      apply ownCRLIn_Some in Ho as (_ & Hs & _).
      edestruct (keep_newer_spec stored caCert o) as (lead & Ek & Hlead); [exact Hs|].
      split; [|done]. eexists lead, _. split; [exact Ek|exact Hlead].
    + destruct Eo as [-> _]. destruct (ownCRLIn stored (Some caCert)) as [o|] eqn:Es.
      * apply ret_Ok in H as [[= -> -> ->] _]. split; [|done]. exists o, incoming.
        apply ownCRLIn_Some in Es as Es'. destruct Es' as (_ & Hs & _). split; [done|]. split; [done|].
        intros o'. rewrite Es. intros [= <-]. apply newer_self.
      * apply bind_Ok in H as (crl & w3 & H3 & H). apply ret_Ok in H as [[= -> -> ->] _].
        apply newEmptyCRL_spec in H3 as (_ & _ & Hsig). split; [|done]. exists crl, incoming. split; [done|].
        split; [|by rewrite Es]. apply empty_own; auto.
  - destruct (negb (bool_decide (stored = []))) eqn:En.
    + destruct (orderCRLChain stored (Some caCert)) as [[ordered dropped] found] eqn:Eo. apply order_spec in Eo.
      destruct found; [|done]. cbn [negb] in H. destruct Eo as (o & Ho & ->).
      pose proof Ho as Ho'. apply ownCRLIn_Some in Ho' as (_ & Hs & _).
      assert (forall o', ownCRLIn stored (Some caCert) = Some o' -> newerCRL o' o = false) as Hnew.
      { intros o'. rewrite Ho. intros [= <-]. apply newer_self. }
      destruct (sameCRLOrder stored _) eqn:Esame.
      * apply ret_Ok in H as [[= -> -> ->] _]. split; [eexists _, _; by split_and!|]. intros _.
        unfold sameCRLOrder in Esame. apply bool_decide_eq_true in Esame. symmetry. exact Esame.
      * apply ret_Ok in H as [[= -> -> ->] _]. split; [eexists _, _; by split_and!|done].
    + bool_hyps. subst stored. apply bind_Ok in H as (crl & w3 & H3 & H). apply ret_Ok in H as [[= -> -> ->] _].
      apply newEmptyCRL_spec in H3 as (_ & _ & Hsig). split; [|done]. exists crl, []. split; [done|].
      split; [|done]. apply empty_own; auto.
Qed.

Lemma put_object key d w u w' :
  ca_object key -> lift (backend (be_Put key d)) w = (Ok u, w') ->
  blobs (be (st w')) = <[key := d]> (blobs (be (st w))).
Proof.
  intros Hk H. apply lift_Ok in H as (s' & H & ->). apply backend_Ok in H as (H & _).
  unfold be_Put, guarded in H.
  assert (validateKey key = None /\ on_rows (be (st w)) key = false) as [E1 E2].
  { split; [by destruct Hk as [->|[->| ->]]|]. apply on_rows_other. by destruct Hk as [->|[->| ->]]. }
  rewrite E1, E2 in H. injection H as _ H. cbn [st set_st]. by rewrite <- H.
Qed.

Lemma parse_bundle_certs bs certs c :
  parse_bundle bs = Ok certs -> c ∈ certs -> ParseCertificate (DerCert c) = Ok c.
Proof.
  revert certs. induction bs as [|b bs IH]; intros certs; cbn [parse_bundle].
  { intros [= <-] Hc. by apply elem_of_nil in Hc. }
  destruct (Contains _ _); [done|]. destruct (negb _); [by apply IH|].
  destruct (ParseCertificate (Bytes b)) as [cert|] eqn:E; [|done].
  destruct (parse_bundle bs) as [certs0|]; [|done]. intros [= <-] [->|Hc]%elem_of_cons; [|by eapply IH].
  destruct (Bytes b); try done. cbn in E. case_match; [done|]. injection E as ->. cbn. by case_match.
Qed.

Lemma decode_bundle b caCert rest :
  ParseCABundle b = Ok (caCert :: rest) -> decode_cert (EncodeCABundle (caCert :: rest)) = Some caCert.
Proof.
  intros H. unfold ParseCABundle in H. destruct (parse_bundle (pem_blocks b)) as [certs|] eqn:E; [|done].
  assert (certs = caCert :: rest) as -> by (by destruct certs; simplify_eq).
  unfold decode_cert, EncodeCABundle. cbn [map pem_encode pem_Decode Bytes].
  by rewrite (parse_bundle_certs _ _ caCert E) by (by left).
Qed.

Lemma chain_at_kept w w' stored :
  blobs (be (st w')) !! KeyCRL = blobs (be (st w)) !! KeyCRL -> chain_at w stored -> chain_at w' stored.
Proof. unfold chain_at. by intros ->. Qed.

Lemma chain_at_inj w a b : chain_at w a -> chain_at w b -> a = b.
Proof. unfold chain_at. case_match; congruence. Qed.

(** The plan carried out under the CRL lock, made from the chain stored in [w]. *)
Definition planned (crlPEM : option blob) (caCert : Certificate) (w : World)
    (chain : list RevocationList) (changed : bool) : Prop :=
  exists wa n wb, blobs (be (st wa)) !! KeyCRL = blobs (be (st w)) !! KeyCRL /\
    planCRLImport crlPEM caCert (PubKey caCert) wa = (Ok (chain, n, changed), wb).

Lemma write_plan_spec crlPEM caCert w w' :
  parent_may_sign KeyUsageCRLSign caCert = true ->
  WithLockW lockNameCRL
    ('(plan, _, changed) ← planCRLImport crlPEM caCert (PubKey caCert);
     if negb changed then mret tt else writeCRLChain plan) w = (Ok tt, w') ->
  (forall k, k <> KeyCRL -> blobs (be (st w')) !! k = blobs (be (st w)) !! k) /\
  exists chain changed, chain_at w' chain /\ planned crlPEM caCert w chain changed /\
    (changed = true -> blobs (be (st w')) !! KeyCRL = Some (encodeCRLChain chain)).
Proof.
  intros Hp H. apply WithLockW_Ok in H as (w1 & [_ S1] & H).
  apply bind_Ok in H as ([[plan n] changed] & w2 & H2 & H).
  pose proof (mono_run _ _ _ _ _ (plan_same_store _ _ _) H2) as S2.
  destruct S1 as (E1 & _), S2 as (E2 & _). rewrite E1 in E2.
  assert (planned crlPEM caCert w plan changed) as Hpl by (exists w1, n, w2; by rewrite E1).
  pose proof H2 as (stored & Hst & Hok)%plan_spec; [|done]. destruct changed; cbn [negb] in H.
  - unfold writeCRLChain in H. apply wrapping_Ok in H. apply put_object in H; [|by right; right].
    rewrite E2 in H. split; [intros k Hk; by rewrite H, lookup_insert_ne|].
    exists plan, true. split; [|split; [done|by rewrite H, lookup_insert_eq]].
    unfold chain_at. rewrite H, lookup_insert_eq. apply decode_encode.
  - apply ret_Ok in H as [_ ->]. split; [intros k _; by rewrite E2|].
    exists plan, false. split; [|done]. destruct Hok as [_ ->]; [|done].
    eapply chain_at_kept; [|exact Hst]. by rewrite E2, E1.
Qed.

(** What a successful import leaves in the store. *)
Record imported (bundle : blob) (keyPEM crlPEM : option blob) (signer : PublicKey) (w w' : World)
    (caCert : Certificate) (rest : list Certificate) (chain : list RevocationList) : Prop := {
  im_bundle : ParseCABundle bundle = Ok (caCert :: rest);
  im_valid : exists now, ValidateCABundleOrder now (caCert :: rest) = None;
  im_signer : PubKey caCert = signer;
  im_may_sign : parent_may_sign KeyUsageCRLSign caCert = true;
  im_cert : blobs (be (st w')) !! KeyCACert = Some (EncodeCABundle (caCert :: rest));
  im_decode : decode_cert (EncodeCABundle (caCert :: rest)) = Some caCert;
  im_key : blobs (be (st w')) !! KeyCAKey =
           match keyPEM with Some k => Some k | None => blobs (be (st w)) !! KeyCAKey end;
  im_chain : chain_at w' chain;
  im_planned : exists changed, planned crlPEM caCert w chain changed /\
    (changed = true -> blobs (be (st w')) !! KeyCRL = Some (encodeCRLChain chain)) }.

Lemma kept_run {A} (m : MS A) w r w' :
  mono objects_kept m -> lift m w = (r, w') -> objects_kept (st w) (st w').
Proof. intros Hm H. by apply (lift_objects _ _ _ _ Hm) in H as [? _]. Qed.

Lemma import_spec bundle keyPEM crlPEM signer w w' :
  importCAMaterial bundle keyPEM crlPEM signer w = (Ok tt, w') ->
  exists caCert rest chain, imported bundle keyPEM crlPEM signer w w' caCert rest chain.
Proof.
  intros H. unfold importCAMaterial, incompleteImportError in H.
  apply bind_Ok in H as ([caCert certs] & w1 & H1 & H).
  apply checked_bundle_Ok in H1 as (S1 & Hparse & (rest & ->) & Hsig & _ & Hp & Hv).
  apply bind_Ok in H as ([] & w2 & H2 & H). apply wrapping_Ok in H2.
  apply kept_run in H2; [|unfold EnsureDirs; mono_tac].
  apply bind_Ok in H as (pl & w3 & H3 & H).
  pose proof (mono_run _ _ _ _ _ (plan_same_store _ _ _) H3) as S3. clear H3.
  assert (objects_kept (st w) (st w3)) as K3.
  { etrans; [by apply same_store_objects|]. etrans; [exact H2|by apply same_store_objects]. }
  clear S1 H2 S3. apply bind_Ok in H as ([] & w4 & H4 & H).
  apply bind_Ok in H as (r5 & w5 & H5 & H). apply try_Ok in H5.
  apply bind_Ok in H as ([] & w5' & H5' & H). destruct r5 as [[]|e]; [|done]. apply ret_Ok in H5' as [_ ->].
  apply bind_Ok in H as ([] & w6 & H6 & H). apply wrapping_Ok, wrapping_Ok, kept_run in H6; [|mono_tac].
  apply bind_Ok in H as ([] & w7 & H7 & H). rewrite <- Hsig in H7.
  apply write_plan_spec in H7 as (F7 & chain & changed & Hch & Hpl & Hwr); [|done].
  assert (objects_kept (st w7) (st w')) as K7.
  { apply bind_Ok in H as (hs & w8 & H8 & H). apply wrapping_Ok, wrapping_Ok, kept_run in H8;
      [|unfold HasSerial; mono_tac]. etrans; [exact H8|].
    apply bind_Ok in H as ([] & w9 & H9 & H). apply wrapping_Ok, wrapping_Ok, kept_run in H; [|mono_tac].
    etrans; [|exact H]. destruct hs; [by apply ret_Ok in H9 as [_ ->]|].
    apply wrapping_Ok, wrapping_Ok in H9. eapply kept_run; [|exact H9]. unfold WriteSerial. mono_tac. }
  clear H. apply put_object in H5; [|by left].
  destruct K3 as (C3 & Y3 & L3), H6 as (C6 & Y6 & L6), K7 as (C7 & Y7 & L7).
  assert (blobs (be (st w4)) !! KeyCRL = blobs (be (st w)) !! KeyCRL /\
    blobs (be (st w4)) !! KeyCAKey = match keyPEM with Some k => Some k | None => blobs (be (st w)) !! KeyCAKey end)
    as [L4 Y4].
  { destruct keyPEM as [k|]; [|apply ret_Ok in H4 as [_ ->]; by rewrite L3, Y3].
    apply wrapping_Ok, put_object in H4; [|by right; left].
    by rewrite H4, lookup_insert_ne, lookup_insert_eq, L3. }
  exists caCert, rest, chain. constructor; try done.
  - rewrite C7, F7, C6, H5 by done. by rewrite lookup_insert_eq.
  - by eapply decode_bundle.
  - rewrite Y7, F7, Y6, H5 by done. by rewrite lookup_insert_ne.
  - eapply chain_at_kept; [exact L7|done].
  - exists changed. split; [|by rewrite L7]. destruct Hpl as (wa & n & wb & E & Hpl). exists wa, n, wb.
    split; [|done]. rewrite E, L6, H5, lookup_insert_ne by done. done.
Qed.

(** ** Theorems *)

(** C14: importing a CA never rolls its CRL back and never installs a CA that
    could not work.  After a successful import the stored bundle is the one
    given, in order, valid now and bound to the signer; the stored key is the
    one given, or the old one when none was; and the stored chain leads with a
    CRL of the imported certificate that is not older than any CRL of that
    certificate's key that was stored before. *)
Theorem import_never_rolls_back bundle keyPEM crlPEM signer w w' :
  importCAMaterial bundle keyPEM crlPEM signer w = (Ok tt, w') ->
  exists caCert rest lead others stored,
    ParseCABundle bundle = Ok (caCert :: rest) /\
    (exists now, ValidateCABundleOrder now (caCert :: rest) = None) /\ PubKey caCert = signer /\
    blobs (be (st w')) !! KeyCACert = Some (EncodeCABundle (caCert :: rest)) /\
    decode_cert (EncodeCABundle (caCert :: rest)) = Some caCert /\
    blobs (be (st w')) !! KeyCAKey =
      match keyPEM with Some k => Some k | None => blobs (be (st w)) !! KeyCAKey end /\
    chain_at w stored /\ chain_at w' (lead :: others) /\ crlSignedBy (Some caCert) lead = true /\
    forall o, o ∈ stored -> crlSignedBy (Some caCert) o = true -> newerCRL o lead = false.
Proof.
  intros H. apply import_spec in H as (caCert & rest & chain & I).
  destruct (im_planned _ _ _ _ _ _ _ _ _ I) as (changed & (wa & n & wb & E & Hpl) & _).
  apply plan_spec in Hpl as (stored & Hst & (lead & others & -> & Hown & Hnew) & _);
    [|apply (im_may_sign _ _ _ _ _ _ _ _ _ I)].
  exists caCert, rest, lead, others, stored. destruct I. split_and!; try done.
  { eapply chain_at_kept; [|exact Hst]. done. }
  intros o Ho Hs. destruct (ownCRLIn stored (Some caCert)) as [m|] eqn:Em.
  - specialize (Hnew _ eq_refl). apply ownCRLIn_Some in Em as (_ & _ & Hmax). specialize (Hmax o Ho Hs).
    by eapply not_newer_trans.
  - by rewrite (ownCRLIn_None _ _ _ Em Ho) in Hs.
Qed.

(** A CA certificate is replaced only on purpose.  Without [force], and with
    a certificate in the store, the import fails whatever else happens and the
    store is left exactly as it was. *)
Theorem import_without_force_refuses bundle signer validity w r w' :
  is_Some (blobs (be (st w)) !! KeyCACert) ->
  ImportCACertificate bundle signer validity false w = (r, w') ->
  is_ok r = false /\ same_store w w'.
Proof.
  intros [cb Hcb] H. unfold ImportCACertificate in H.
  apply bind_run in H as [(e & H & ->)|([caCert certs] & w1 & H1 & H)].
  { split; [done|]. by apply (mono_run _ _ _ _ _ (checked_same_store _ _) H). }
  pose proof (mono_run _ _ _ _ _ (checked_same_store _ _) H1) as S1. clear H1.
  unfold WithLockW in H. apply bind_run in H as [(e & H & ->)|([r1 ran] & w2 & H2 & H)].
  { unfold WithLockRan in H. apply bind_run in H as [(e0 & H & _)|(r0 & w2 & H2 & H)]; [by apply try_Err in H|].
    destruct r0; [|done]. by apply bind_run in H as [(e0 & H & _)|(? & ? & _ & ?)]; [apply try_Err in H|]. }
  unfold of_result in H. injection H as -> ->.
  apply WithLockRan_Ok in H2 as [(_ & [e ->] & _ & S2 & _)|(_ & w3 & _ & S3 & H)]; [split; [done|by etrans]|].
  assert (blobs (be (st w3)) !! KeyCACert = Some cb) as Hcb3.
  { destruct S1 as (E1 & _), S3 as (E3 & _). by rewrite E3, E1. }
  assert (is_ok r = false /\ same_store w3 w') as [Hr S4]; [|split; [done|]; etrans; [exact S1|by etrans]].
  apply bind_run in H as [(e & H & ->)|([replaced crlPEM] & w4 & H4 & H)].
  - split; [done|]. unfold prepare_replacement in H.
    apply bind_run in H as [(e0 & H & _)|(has & w4 & H4 & H)].
    + unfold wrapping in H. destruct (lift HasCACert w3) as [[a|e1] w5] eqn:E; [done|]. injection H as _ <-.
      eapply (mono_run same_store); [|exact E]. unfold HasCACert. mono_tac.
    + assert (same_store w3 w4) as S4 by (eapply (mono_run same_store); [|exact H4]; unfold HasCACert; mono_tac).
      destruct has; [|done]. cbn [negb] in H. by injection H as _ <-.
  - exfalso. unfold prepare_replacement in H4. apply bind_Ok in H4 as (has & w5 & H5 & H4).
    apply wrapping_Ok, lift_Ok in H5 as (s5 & H5 & ->). apply backend_Ok in H5 as (H5 & _).
    unfold be_Exists, guarded in H5. change (validateKey KeyCACert) with (@None error) in H5.
    injection H5 as <- _. rewrite Hcb3 in H4. by rewrite bool_decide_eq_true_2 in H4 by eauto.
Qed.

Lemma resign_Ok caCert signer validity w r w' old others :
  stored_chain w (old :: others) -> ResignStoredCRL caCert signer validity w = (Ok r, w') ->
  exists crl, r = Some (encodeCRLChain [crl]) /\ Number crl = Some (next_number old) /\
    revoked_serials crl = revoked_serials old /\ crl_SignedBy crl = signer.
Proof.
  intros Hst H. unfold ResignStoredCRL in H. apply bind_Ok in H as (rb & w1 & H1 & H). apply try_Ok in H1.
  destruct rb as [b|e].
  - apply lift_Ok in H1 as (s1 & H1 & ->). apply backend_Ok in H1 as (H1 & _).
    apply be_Get_Ok in H1 as [H1 _]; [|by apply on_rows_other]. unfold stored_chain in Hst.
    rewrite Hst in H1. injection H1 as <-. cbn [encodeCRLChain map pem_encode pem_Decode Bytes ParseRevocationList] in H.
    apply bind_Ok in H as (o & w2 & H2 & H). apply wrapping_Ok, of_result_Ok in H2 as [[= <-] ->].
    apply bind_Ok in H as (now & w3 & _ & H). apply bind_Ok in H as ([] & w4 & _ & H).
    apply bind_Ok in H as (crl & w5 & H5 & H). apply wrapping_Ok, of_result_Ok in H5 as [H5 ->].
    apply ret_Ok in H as [-> _]. apply CreateRevocationList_Ok in H5 as (H1 & _ & H3 & _ & _ & H4).
    exists crl. split; [done|]. split; [done|]. done.
  - exfalso. destruct (errors_Is e FsErrNotExist) eqn:He; [|done]. apply lift_run in H1 as (s1 & H1 & ->).
    destruct (backend_Err_is _ _ _ _ _ H1 He) as (E & _).
    destruct (be_Get KeyCRL (be (st w))) as [r0 b0] eqn:G. cbn [fst] in E. subst r0.
    unfold stored_chain in Hst. by rewrite (be_Get_missing _ _ _ _ G He) in Hst.
Qed.

(** A supplied chain of just one CRL of ours, with nothing newer stored. *)
Lemma plan_single crl caCert key w chain n changed w' stored :
  crlSignedBy (Some caCert) crl = true -> chain_at w stored ->
  (forall o, ownCRLIn stored (Some caCert) = Some o -> newerCRL o crl = false) ->
  planCRLImport (Some (encodeCRLChain [crl])) caCert key w = (Ok (chain, n, changed), w') ->
  chain = [crl] /\ changed = true.
Proof.
  intros Hs Hst Hnew H. unfold planCRLImport in H. apply bind_Ok in H as (stored' & w1 & H1 & H).
  apply storedCRLChain_Ok in H1. rewrite (chain_at_inj _ _ _ H1 Hst) in H. clear H1 stored'.
  apply bind_Ok in H as (incoming & w2 & H2 & H). apply wrapping_Ok, of_result_Ok in H2 as [H2 ->].
  rewrite decode_encode in H2. injection H2 as <-. rewrite bool_decide_eq_false_2 in H by done.
  destruct (orderCRLChain [crl] (Some caCert)) as [[ordered m] found] eqn:Eo.
  unfold orderCRLChain in Eo. cbn [fold_left] in Eo. rewrite Hs in Eo. injection Eo as <- _ <-.
  apply ret_Ok in H as [[= -> _ ->] _]. split; [|done]. unfold keep_newer_own.
  destruct (ownCRLIn stored (Some caCert)) as [o|]; [|done]. by rewrite Hnew.
Qed.

(** Replacing the CA certificate keeps every revocation.  A forced import
    over a certificate re-signs the stored CRL under the incoming one: the
    chain stored afterwards is one CRL of the imported certificate, with the
    next number and exactly the serials the stored CRL listed. *)
Theorem forced_import_keeps_revocations bundle signer validity w replaced w' old others :
  ImportCACertificate bundle signer validity true w = (Ok replaced, w') ->
  is_Some (blobs (be (st w)) !! KeyCACert) -> stored_chain w (old :: others) ->
  (forall x, x ∈ others -> crl_SignedBy x <> signer) ->
  replaced = true /\ exists caCert rest new,
    ParseCABundle bundle = Ok (caCert :: rest) /\
    blobs (be (st w')) !! KeyCACert = Some (EncodeCABundle (caCert :: rest)) /\
    stored_chain w' [new] /\ crlSignedBy (Some caCert) new = true /\
    Number new = Some (next_number old) /\ revoked_serials new = revoked_serials old.
Proof.
  intros H [cb Hcb] Hst Hoth. unfold ImportCACertificate in H.
  apply bind_Ok in H as ([caCert certs] & w1 & H1 & H).
  apply checked_bundle_Ok in H1 as (S1 & Hparse & (rest & ->) & Hsig & _ & Hp & _).
  apply WithLockW_Ok in H as (w2 & [_ S2] & H). apply bind_Ok in H as ([rep crlPEM] & w3 & H3 & H).
  apply bind_Ok in H as ([] & w4 & H4 & H). apply ret_Ok in H as [-> ->].
  assert (be (st w2) = be (st w)) as E2 by (destruct S1 as (E1 & _), S2 as (E2 & _); by rewrite E2, E1).
  unfold prepare_replacement in H3. apply bind_Ok in H3 as (has & w5 & H5 & H3).
  apply wrapping_Ok, lift_Ok in H5 as (s5 & H5 & ->).
  pose proof (mono_run same_data _ _ _ _ (backend_reads _ (reads_Exists _)) H5) as (E5 & _).
  apply backend_Ok in H5 as (H5 & _). unfold be_Exists, guarded in H5.
  change (validateKey KeyCACert) with (@None error) in H5. injection H5 as <- _.
  rewrite E2, Hcb, bool_decide_eq_true_2 in H3 by eauto. cbn [negb] in H3.
  apply bind_Ok in H3 as (crl' & w6 & H6 & H3). apply ret_Ok in H3 as [[= -> ->] ->].
  assert (be (st w6) = be (st w)) as E6.
  { assert (same_store (set_st s5 w2) w6) as (E6 & _).
    { eapply (mono_run same_store); [|exact H6]. unfold ResignStoredCRL, signer_available. mono_tac. }
    rewrite E6. cbn [st set_st]. by rewrite E5. }
  apply (resign_Ok _ _ _ _ _ _ old others) in H6 as (crl & -> & Hnum & Hser & Hs);
    [|unfold stored_chain; cbn [st set_st]; by rewrite E5, E2].
  assert (crlSignedBy (Some caCert) crl = true) as Hown by (apply empty_own; congruence).
  apply import_spec in H4 as (caCert' & rest' & chain & I).
  pose proof (im_bundle _ _ _ _ _ _ _ _ _ I) as Hb. rewrite Hparse in Hb. injection Hb as <- <-.
  destruct (im_planned _ _ _ _ _ _ _ _ _ I) as (changed & (wa & n & wb & E & Hpl) & Hwr).
  eapply (plan_single _ _ _ _ _ _ _ _ (old :: others)) in Hpl as [-> ->]; [|done| |].
  - split; [done|]. exists caCert, rest, crl. split; [done|]. split; [by destruct I|].
    split; [by apply Hwr|]. done.
  - unfold chain_at. rewrite E, E6. unfold stored_chain in Hst. rewrite Hst. apply decode_encode.
  - intros o (Ho & Hos & _)%ownCRLIn_Some. apply elem_of_cons in Ho as [->|Ho]; [by apply newer_asym, newer_next|].
    exfalso. apply (Hoth o Ho). unfold crlSignedBy, crl_CheckSignatureFrom in Hos. bool_hyps. congruence.
Qed.

(** ** A concrete CA *)

Definition demo_key : PublicKey := ECDSAKey P256 11.
Definition demo_world : World :=
  world_of demo_one.1.2.1 (r_node demo_one.2) (mkEnv [] (10 ^ 18) (replicate 20 1) [21; 22; 23; 24; 25; 26] [] []).

(** The CA certificate renewed for the same key. *)
Definition demo_renewed : Certificate :=
  Eval vm_compute in match CreateSelfSigned (ca_template demo_boot 77 (10 ^ 18) demo_key) demo_key with
                     | Ok c => c
                     | Err _ => mkCert 0 0 (mkName "" []) (mkName "" []) 0 0 demo_key [] demo_key
                     end.
Definition demo_bundle : blob := EncodeCABundle [demo_renewed].

(** An agent with a certificate. *)
Definition demo_request : blob :=
  pem_encode [mkBlock "CERTIFICATE REQUEST"
    (DerCSR (mkCSR (mkName "agent" []) (ECDSAKey P256 40) [] (ECDSAKey P256 40)))].
Definition demo_signed : World :=
  Eval vm_compute in exec (_ ← SaveRequest "agent" demo_request; SignWithTTL "agent" 0) demo_world.

(** Every serial the stored chain lists. *)
Definition stored_serials (w : World) : list Z :=
  match blobs (be (st w)) !! KeyCRL with
  | Some b => match decodeCRLChain b with Ok l => flat_map revoked_serials l | Err _ => [] end
  | None => []
  end.

Definition race_prepared := Eval vm_compute in prepare_replacement demo_renewed demo_key CRLValidity true demo_signed.
Definition race_revoked := Eval vm_compute in Revoke "agent" race_prepared.2.
Definition race_imported := Eval vm_compute in
  match race_prepared.1 with
  | Ok (_, crlPEM) => importCAMaterial demo_bundle None crlPEM demo_key race_revoked.2
  | Err e => (Err e, race_revoked.2)
  end.

(** C39: a revocation that lands while a CA certificate is being replaced can be
    lost.  [ImportCACertificate] re-signs the stored CRL before it takes the
    CRL lock, and revocations do not take the bootstrap lock it holds: in this
    run a replica revokes an agent in between, with success and published, and
    the import, also with success, then publishes the CRL re-signed before,
    which has the same number and does not list the agent. *)
Theorem forced_import_races_with_revocation :
  exists w crlPEM w1 w2 w3 n,
    prepare_replacement demo_renewed demo_key CRLValidity true w = (Ok (true, crlPEM), w1) /\
    Revoke "agent" w1 = (Ok tt, w2) /\ n ∈ stored_serials w2 /\
    importCAMaterial demo_bundle None crlPEM demo_key w2 = (Ok tt, w3) /\ n ∉ stored_serials w3.
Proof.
  exists demo_signed, (match race_prepared.1 with Ok (_, c) => c | Err _ => None end), race_prepared.2,
    race_revoked.2, race_imported.2, 21.
  split; [vm_compute; reflexivity|]. split; [vm_compute; reflexivity|].
  split; [by apply (bool_decide_unpack _); vm_compute|]. split; [vm_compute; reflexivity|].
  by apply (bool_decide_unpack _); vm_compute.
Qed.

Lemma forced_import_keeps_revocations_witness :
  is_Some (blobs (be (st race_revoked.2)) !! KeyCACert) /\ stored_serials race_revoked.2 = [21] /\
  exists caCert rest new, ParseCABundle demo_bundle = Ok (caCert :: rest) /\
    stored_chain (ImportCACertificate demo_bundle demo_key CRLValidity true race_revoked.2).2 [new] /\
    revoked_serials new = [21].
Proof.
  split; [vm_compute; by eauto|]. split; [vm_compute; reflexivity|].
  destruct (forced_import_keeps_revocations demo_bundle demo_key CRLValidity race_revoked.2 true
    (ImportCACertificate demo_bundle demo_key CRLValidity true race_revoked.2).2
    (match cachedCRL (ca race_revoked.2) with Some c => c | None => mkCRL None [] 0 0 (mkName "" []) [] demo_key end) [])
    as (_ & caCert & rest & new & H1 & _ & H2 & _ & _ & H3).
  - vm_compute. reflexivity.
  - vm_compute. by eauto.
  - vm_compute. reflexivity.
  - by intros x Hx%elem_of_nil.
  - exists caCert, rest, new. split; [exact H1|]. split; [exact H2|]. rewrite H3. vm_compute. reflexivity.
Defined.

Lemma import_without_force_refuses_witness :
  is_ok (ImportCACertificate demo_bundle demo_key CRLValidity false demo_signed).1 = false /\
  same_store demo_signed (ImportCACertificate demo_bundle demo_key CRLValidity false demo_signed).2.
Proof.
  apply (import_without_force_refuses demo_bundle demo_key CRLValidity demo_signed).
  - vm_compute. by eauto.
  - vm_compute. reflexivity.
Defined.

(** Importing onto an empty store. *)
Definition demo_fresh : World :=
  world_of demo_shared.1 demo_node (mkEnv [] (10 ^ 18) [] [] [] []).

Lemma import_never_rolls_back_witness :
  exists caCert lead others,
    blobs (be (st (importCAMaterial demo_bundle None None demo_key demo_fresh).2)) !! KeyCACert =
      Some (EncodeCABundle [caCert]) /\
    chain_at (importCAMaterial demo_bundle None None demo_key demo_fresh).2 (lead :: others) /\
    crlSignedBy (Some caCert) lead = true.
Proof.
  destruct (import_never_rolls_back demo_bundle None None demo_key demo_fresh
    (importCAMaterial demo_bundle None None demo_key demo_fresh).2)
    as (caCert & rest & lead & others & stored & H1 & _ & _ & H2 & _ & _ & _ & H3 & H4 & _).
  - vm_compute. reflexivity.
  - exists caCert, lead, others. vm_compute in H1. injection H1 as <- <-. by split_and!.
Defined.
