(* ===== verification/ClientCRL.v ===== *)
(** * CRLs of foreign client issuers

    Models internal/api/clientcrl.go: the set of CRLs of a trust domain, the
    revocation check of a client's chain, and the three guards that decide
    whether a reloaded set may replace the installed one.  Go maps are keyed by
    the encoded public key; scanning one is unordered in Go and has some order
    here, on which only the name in a log line depends. *)

From S2P Require Import Prelude GoStrings GoTime X509 CAState CRLChain CRL.

(** ** Foreign CRLs (clientcrl.go) *)

Definition RevocationRequire := "require".
Definition RevocationCheck := "check".
Definition RevocationSkip := "skip".

(** CRLs by the key that signed them, in the order they were given. *)
Record ClientCRLSet := mkCRLSet {
  bySignerKey : gmap PublicKey (list RevocationList);
  partialBySignerKey : gmap PublicKey (list RevocationList);
  crl_anchors : list Certificate;
  (** issuer and reason of each partial CRL *)
  discarded : list (Name * string) }.

Definition SignerOfCRL (crl : RevocationList) (anchors : list Certificate) : option Certificate :=
  head (base.filter (fun a => crl_CheckSignatureFrom crl a = true) anchors).
Definition VerifyCRLAgainst (crl : RevocationList) (anchors : list Certificate) : bool :=
  match SignerOfCRL crl anchors with Some _ => true | None => false end.

Definition oidDeltaCRLIndicator : OID := [2; 5; 29; 27].
Definition oidIssuingDistributionPnt : OID := [2; 5; 29; 28].
(** Why a CRL cannot attest to a certificate's status on its own, if it cannot. *)
Definition coversPartially (crl : RevocationList) : option string :=
  match head (base.filter (fun id => id = oidDeltaCRLIndicator \/ id = oidIssuingDistributionPnt)
                (crl_Extensions crl)) with
  | None => None
  | Some id => Some (if bool_decide (id = oidDeltaCRLIndicator) then "delta CRL"
                     else "issuing distribution point")
  end.

(** A missing key of a Go map of slices reads as the empty slice. *)
Definition under (key : PublicKey) (m : gmap PublicKey (list RevocationList)) : list RevocationList :=
  default [] (m !! key).
Definition file_under (key : PublicKey) (crl : RevocationList)
    (m : gmap PublicKey (list RevocationList)) : gmap PublicKey (list RevocationList) :=
  <[key := under key m ++ [crl]]> m.

Definition add_crl (anchors : list Certificate) (set : ClientCRLSet) (crl : RevocationList)
    : ClientCRLSet :=
  match SignerOfCRL crl anchors with
  | None => set
  | Some signer =>
      match coversPartially crl with
      | Some reason =>
          mkCRLSet (bySignerKey set) (file_under (PubKey signer) crl (partialBySignerKey set))
            (crl_anchors set) (discarded set ++ [(crl_Issuer crl, reason)])
      | None =>
          mkCRLSet (file_under (PubKey signer) crl (bySignerKey set)) (partialBySignerKey set)
            (crl_anchors set) (discarded set)
      end
  end.
Definition NewClientCRLSet (crls : list RevocationList) (anchors : list Certificate) : ClientCRLSet :=
  fold_left (add_crl anchors) crls (mkCRLSet ∅ ∅ anchors []).

Definition clockSkewTolerance : Duration := 5 * Minute.
Definition notYetIssued (crl : RevocationList) (now : Time) : bool :=
  now + clockSkewTolerance <? ThisUpdate crl.
Definition currentAt (crl : RevocationList) (now : Time) : bool :=
  negb (IsZero (NextUpdate crl)) && (now <? NextUpdate crl).

(** The CRLs of an issuer, and whether one of them is in force. *)
Definition forIssuer (set : option ClientCRLSet) (cert : Certificate) (now : Time)
    : list RevocationList * bool :=
  match set with
  | None => ([], false)
  | Some s =>
      let crls := under (PubKey cert) (bySignerKey s) in
      (crls, existsb (fun crl => negb (notYetIssued crl now) && currentAt crl now) crls)
  end.
Definition forRevocationLookup (set : option ClientCRLSet) (cert : Certificate) (now : Time)
    : list RevocationList * bool :=
  let '(crls, anyValid) := forIssuer set cert now in
  match set with
  | None => (crls, anyValid)
  | Some s => (crls ++ under (PubKey cert) (partialBySignerKey s), anyValid)
  end.

Fixpoint check_links (chain : list Certificate) (set : option ClientCRLSet) (require : bool)
    (now : Time) : option error :=
  match chain with
  | subject :: (issuer :: _) as rest =>
      let '(crls, anyValid) := forRevocationLookup set issuer now in
      if require && negb anyValid
      then Some (Wrap (CommonName (Subject issuer)) [Sentinel ErrNoUsableCRL])
      else if existsb (fun crl => serialInCRL crl (SerialNumber subject)) crls
      then Some (Msg "certificate is revoked")
      else check_links rest set require now
  | _ => None
  end.

(** An unknown policy is the strict one. *)
Definition checkChainRevocation (chain : list Certificate) (set : option ClientCRLSet)
    (policy : string) (now : Time) : option error :=
  let policy := if bool_decide (policy = RevocationSkip) || bool_decide (policy = RevocationCheck)
                then policy else RevocationRequire in
  if bool_decide (policy = RevocationSkip) then None
  else if bool_decide (length chain < 2)%nat then
    if bool_decide (policy = RevocationRequire)
    then Some (Wrap "the certificate is itself a trust anchor" [Sentinel ErrNoUsableCRL])
    else None
  else check_links chain set (bool_decide (policy = RevocationRequire)) now.

(** ** Guards of a reload (clientcrl.go) *)

Definition Discarded (set : option ClientCRLSet) : list (Name * string) :=
  match set with None => [] | Some s => discarded s end.

Definition CoverageGaps (set : option ClientCRLSet) (now : Time) : list string :=
  match set with
  | None => []
  | Some s => map (fun a => CommonName (Subject a))
                (List.filter (fun a => negb (forIssuer set a now).2) (crl_anchors s))
  end.

(** The anchor keys with a CRL, and those with one in force. *)
Definition Coverage (set : option ClientCRLSet) (now : Time) : gset PublicKey * gset PublicKey :=
  match set with
  | None => (∅, ∅)
  | Some s =>
      fold_left (fun '(present, current) anchor =>
          let key := PubKey anchor in
          let '(crls, anyValid) := forIssuer set anchor now in
          ((if bool_decide (crls = []) then present else {[key]} ∪ present),
           (if (anyValid : bool) then {[key]} ∪ current else current)))
        (crl_anchors s) (∅, ∅)
  end.
Definition Usable (set : option ClientCRLSet) (now : Time) : bool :=
  negb (bool_decide ((Coverage set now).2 = ∅)).

(** The highest number and the latest believable date of an anchor's CRLs. *)
Record crlFreshness := mkFresh {
  f_subject : Name;
  maxNumber : option Z;
  latest : Time;
  dated : bool }.
Definition zero_fresh : crlFreshness := mkFresh (mkName "" []) None 0 false.

Definition mark_crl (now : Time) (subject : Name) (f : crlFreshness) (crl : RevocationList)
    : crlFreshness :=
  let believed := negb (notYetIssued crl now) in
  mkFresh subject
    (match Number crl, maxNumber f with
     | Some n, Some m => if m <? n then Some n else Some m
     | Some n, None => Some n
     | None, m => m
     end)
    (if believed && (latest f <? ThisUpdate crl) then ThisUpdate crl else latest f)
    (if believed then true else dated f).

Definition mark_anchor (set : ClientCRLSet) (now : Time) (out : gmap PublicKey crlFreshness)
    (anchor : Certificate) : gmap PublicKey crlFreshness :=
  let key := PubKey anchor in
  fold_left (fun out crl =>
      <[key := mark_crl now (Subject anchor) (default zero_fresh (out !! key)) crl]> out)
    (forIssuer (Some set) anchor now).1 out.
Definition freshness (set : option ClientCRLSet) (now : Time) : gmap PublicKey crlFreshness :=
  match set with
  | None => ∅
  | Some s => fold_left (mark_anchor s now) (crl_anchors s) ∅
  end.

Definition regressedFrom (f other : crlFreshness) : bool :=
  let below := match maxNumber f, maxNumber other with
               | Some n, Some m => n <? m
               | _, _ => false
               end in
  if below then true
  else if negb (dated other) then
    match maxNumber f, maxNumber other with Some _, Some _ => false | _, _ => true end
  else if negb (dated f) then false
  else latest f <? latest other.
Definition advancedOver (f other : crlFreshness) : bool :=
  dated f && dated other && (latest other <? latest f) && negb (regressedFrom f other).

Definition Regresses (set candidate : option ClientCRLSet) (now : Time) : option Name :=
  let candidateF := freshness candidate now in
  head (omap (fun '(key, cur) =>
          match candidateF !! key with
          | None => None
          | Some cand => if regressedFrom cand cur then Some (f_subject cur) else None
          end) (map_to_list (freshness set now))).

Definition PartialsDropped (set candidate : option ClientCRLSet) (now : Time) : option Name :=
  match set with
  | None => None
  | Some s =>
      let currentF := freshness set now in
      let candidateF := freshness candidate now in
      head (omap (fun '(key, partials) =>
              let kept := match candidate with
                          | None => false
                          | Some c => bool_decide (length partials <= length (under key (partialBySignerKey c)))%nat
                          end in
              let moved := match currentF !! key, candidateF !! key with
                           | Some cur, Some cand => advancedOver cand cur
                           | _, _ => false
                           end in
              if kept || moved then None
              else match partials with crl :: _ => Some (crl_Issuer crl) | [] => None end)
            (map_to_list (partialBySignerKey s)))
  end.

(** ** Lemmas *)

(** A chain check that passes, link by link. *)
Definition link_clear (set : option ClientCRLSet) (require : bool) (now : Time)
    (subject issuer : Certificate) : Prop :=
  (require = true -> (forIssuer set issuer now).2 = true) /\
  forall crl, crl ∈ (forRevocationLookup set issuer now).1 -> SerialNumber subject ∉ revoked_serials crl.

Lemma lookup_valid set cert now : (forRevocationLookup set cert now).2 = (forIssuer set cert now).2.
Proof. unfold forRevocationLookup. by destruct set. Qed.

Lemma check_links_None chain set require now :
  check_links chain set require now = None ->
  forall i subject issuer, chain !! i = Some subject -> chain !! S i = Some issuer ->
    link_clear set require now subject issuer.
Proof.
  induction chain as [|a [|b chain] IH]; intros H i subject issuer Hi Hj; [done|by destruct i|].
  cbn [check_links] in H. destruct (forRevocationLookup set b now) as [crls ok] eqn:E.
  destruct (require && negb ok) eqn:Hr; [done|].
  destruct (existsb _ crls) eqn:Hx; [done|]. destruct i as [|i].
  - injection Hi as <-. injection Hj as <-. unfold link_clear. rewrite <- lookup_valid, E. split.
    + intros ->. by destruct ok.
    + intros crl Hc. apply serialInCRL_false. by apply existsb_false_elem with (x := crl) in Hx.
  - by apply (IH H i).
Qed.

(** *** The marks of an anchor *)

Definition full_crls (set : option ClientCRLSet) (key : PublicKey) : list RevocationList :=
  match set with None => [] | Some s => under key (bySignerKey s) end.
Definition set_anchors (set : option ClientCRLSet) : list Certificate :=
  match set with None => [] | Some s => crl_anchors s end.

(** [f] holds the marks of the CRLs in [l]. *)
Record is_mark (now : Time) (l : list RevocationList) (f : crlFreshness) : Prop := IsMark {
  mark_number : match maxNumber f with
                | None => forall c, c ∈ l -> Number c = None
                | Some m => (exists c, c ∈ l /\ Number c = Some m) /\
                            forall c n, c ∈ l -> Number c = Some n -> n <= m
                end;
  mark_dated : dated f = true <-> exists c, c ∈ l /\ notYetIssued c now = false;
  mark_bound : 0 <= latest f /\
               forall c, c ∈ l -> notYetIssued c now = false -> ThisUpdate c <= latest f;
  mark_latest : latest f = 0 \/
                exists c, c ∈ l /\ notYetIssued c now = false /\ ThisUpdate c = latest f }.

Lemma is_mark_ext now l l' f : (forall c, c ∈ l <-> c ∈ l') -> is_mark now l f -> is_mark now l' f.
Proof.
  intros E [H1 H2 [H3 H4] H5]. split.
  - destruct (maxNumber f); [|by setoid_rewrite <- E]. setoid_rewrite <- E. exact H1.
  - setoid_rewrite <- E. exact H2.
  - setoid_rewrite <- E. done.
  - setoid_rewrite <- E. exact H5.
Qed.

Lemma is_mark_nil now : is_mark now [] zero_fresh.
Proof.
  split; simpl; [by intros ? ?%elem_of_nil| |split; [lia|by intros ? ?%elem_of_nil]|by left].
  split; [done|]. by intros (? & ?%elem_of_nil & _).
Qed.

Lemma is_mark_snoc now l f subject crl :
  is_mark now l f -> is_mark now (l ++ [crl]) (mark_crl now subject f crl).
Proof.
  intros [H1 H2 [H3 H4] H5].
  assert (forall c, c ∈ l ++ [crl] <-> c ∈ l \/ c = crl) as Hin.
  { intros c. by rewrite elem_of_app, list_elem_of_singleton. }
  split; cbn [maxNumber dated latest mark_crl]; [|setoid_rewrite Hin..].
  - destruct (Number crl) as [n|] eqn:En, (maxNumber f) as [m|].
    + destruct H1 as [(c & Hc & Hm) Hle]. destruct (Z.ltb_spec m n); setoid_rewrite Hin.
      * split; [by exists crl; auto|]. intros c' n' [Hc'| ->] E; [specialize (Hle _ _ Hc' E); lia|].
        simplify_eq; lia.
      * split; [by exists c; auto|]. intros c' n' [Hc'| ->] E; [by eapply Hle|]. simplify_eq; lia.
    + setoid_rewrite Hin. split; [by exists crl; auto|].
      intros c' n' [Hc'| ->] E; [|simplify_eq; lia]. rewrite (H1 _ Hc') in E. done.
    + setoid_rewrite Hin. destruct H1 as [(c & Hc & Hm) Hle]. split; [by exists c; auto|].
      intros c' n' [Hc'| ->] E; [by eapply Hle|congruence].
    + setoid_rewrite Hin. intros c [Hc| ->]; auto.
  - destruct (notYetIssued crl now) eqn:E; cbn [negb].
    + rewrite H2. split; [intros (c & ? & ?); exists c; auto|].
      intros (c & [?| ->] & ?); [by exists c|congruence].
    + split; [|done]. intros _. exists crl. auto.
  - destruct (notYetIssued crl now) eqn:E; cbn [negb andb].
    + split; [done|]. intros c [Hc| ->] Hb; [auto|congruence].
    + destruct (Z.ltb_spec (latest f) (ThisUpdate crl)); (split; [lia|]);
        intros c [Hc| ->] Hb; try specialize (H4 _ Hc Hb); lia.
  - destruct (notYetIssued crl now) eqn:E; cbn [negb andb].
    + destruct H5 as [?|(c & ? & ?)]; [by left|right; exists c; auto].
    + destruct (Z.ltb_spec (latest f) (ThisUpdate crl)); [right; exists crl; auto|].
      destruct H5 as [?|(c & ? & ?)]; [by left|right; exists c; auto].
Qed.

Lemma is_mark_fold now subject l l0 f :
  is_mark now l0 f -> is_mark now (l0 ++ l) (fold_left (mark_crl now subject) l f).
Proof.
  revert l0 f. induction l as [|crl l IH]; intros l0 f H; simpl; [by rewrite app_nil_r|].
  rewrite (cons_middle crl l0 l), app_assoc. apply IH. by apply is_mark_snoc.
Qed.

(** Marks are maxima, so they are determined by what is in the list. *)
Lemma is_mark_inj now l f g :
  is_mark now l f -> is_mark now l g -> f_subject f = f_subject g -> f = g.
Proof.
  intros [N1 D1 [B1 U1] L1] [N2 D2 [B2 U2] L2] Hs. destruct f as [sf nf lf df], g as [sg ng lg dg].
  cbn [f_subject maxNumber latest dated] in *. f_equal; [done| | |].
  - destruct nf as [m|], ng as [m'|]; try done.
    + destruct N1 as [(c & Hc & E) M1], N2 as [(c' & Hc' & E') M2]. f_equal.
      pose proof (M1 _ _ Hc' E'). pose proof (M2 _ _ Hc E). lia.
    + destruct N1 as [(c & Hc & E) _]. by rewrite (N2 _ Hc) in E.
    + destruct N2 as [(c & Hc & E) _]. by rewrite (N1 _ Hc) in E.
  - destruct L1 as [->|(c & Hc & Hb & E)], L2 as [->|(c' & Hc' & Hb' & E')]; [done| | |].
    + specialize (U1 _ Hc' Hb'). lia.
    + specialize (U2 _ Hc Hb). lia.
    + specialize (U1 _ Hc' Hb'). specialize (U2 _ Hc Hb). lia.
  - apply eq_true_iff_eq. by rewrite D1, D2.
Qed.

Lemma mark_fold_lookup now subject (key k : PublicKey) l (out : gmap PublicKey crlFreshness) :
  fold_left (fun out crl => <[key := mark_crl now subject (default zero_fresh (out !! key)) crl]> out)
    l out !! k =
  if decide (key = k /\ l <> [])
  then Some (fold_left (mark_crl now subject) l (default zero_fresh (out !! k))) else out !! k.
Proof.
  revert out. induction l as [|crl l IH]; intros out; cbn [fold_left]; [by case_decide as E; [destruct E|]|].
  rewrite IH. destruct (decide (key = k)) as [->|Hne].
  - rewrite (decide_True (P := k = k /\ crl :: l <> [])) by done. rewrite lookup_insert_eq. simpl.
    case_decide as E; [done|]. destruct l; [done|]. by destruct E.
  - rewrite !decide_False by naive_solver. by rewrite lookup_insert_ne.
Qed.

(** What [freshness] records for a key. *)
Lemma freshness_lookup set now k :
  match freshness set now !! k with
  | None => full_crls set k = [] \/ k ∉ map PubKey (set_anchors set)
  | Some f => full_crls set k <> [] /\ is_mark now (full_crls set k) f /\
              exists a, last (base.filter (fun a => PubKey a = k) (set_anchors set)) = Some a /\
                f_subject f = Subject a
  end.
Proof.
  destruct set as [s|]; [|by left]. unfold freshness, set_anchors, full_crls.
  induction (crl_anchors s) as [|a anchors IH] using rev_ind; [right; apply not_elem_of_nil|].
  rewrite fold_left_app. cbn [fold_left]. unfold mark_anchor at 1. cbn [forIssuer fst].
  rewrite mark_fold_lookup.
  destruct (decide (PubKey a = k)) as [Ek|Hne].
  - rewrite Ek. destruct (under k (bySignerKey s)) as [|c l] eqn:El.
    + rewrite decide_False by naive_solver. destruct (fold_left _ anchors ∅ !! k); [|by left].
      by destruct IH as [? _].
    + rewrite decide_True by done. split; [done|]. split.
      * eapply is_mark_ext; [|apply is_mark_fold with (l0 := default [] (fold_left (mark_anchor s now) anchors ∅ !! k ≫= fun _ => Some (c :: l)))].
        -- intros x. rewrite elem_of_app. destruct (fold_left _ anchors ∅ !! k); simpl; set_solver.
        -- destruct (fold_left _ anchors ∅ !! k) as [f|]; simpl; [by apply IH|apply is_mark_nil].
      * exists a. split.
        -- rewrite filter_app, filter_cons, decide_True by done. by rewrite filter_nil, last_snoc.
        -- rewrite <- (rev_involutive (c :: l)). destruct (rev (c :: l)) as [|x r] eqn:Er.
           { apply (f_equal (@length _)) in Er. rewrite length_rev in Er. done. }
           cbn [rev]. by rewrite fold_left_app.
  - rewrite decide_False by naive_solver. destruct (fold_left _ anchors ∅ !! k).
    { by rewrite filter_app, filter_cons, decide_False, filter_nil, app_nil_r by done. }
    rewrite map_app. cbn [map]. rewrite elem_of_app, list_elem_of_singleton.
    destruct IH as [IH|IH]; [by left|right; naive_solver].
Qed.

Lemma freshness_is_Some set now k :
  is_Some (freshness set now !! k) <-> full_crls set k <> [] /\ k ∈ map PubKey (set_anchors set).
Proof.
  pose proof (freshness_lookup set now k) as H. destruct (freshness set now !! k) as [f|].
  - destruct H as (H & _ & a & Ha & _). split; [|by eauto]. intros _. split; [done|].
    apply last_Some_elem_of in Ha. apply list_elem_of_filter in Ha as [<- Ha]. by apply list_elem_of_fmap_2.
  - split; [by intros []|]. by intros [? ?]; destruct H.
Qed.

(** *** What a set files where *)

(** [crl] is complete and the first anchor that verifies it has key [k]. *)
Definition filed (anchors : list Certificate) (k : PublicKey) (crl : RevocationList) : Prop :=
  PubKey <$> SignerOfCRL crl anchors = Some k /\ coversPartially crl = None.
#[global] Instance filed_dec anchors k crl : Decision (filed anchors k crl).
Proof. unfold filed. apply _. Defined.

Lemma under_file k key crl m :
  under k (file_under key crl m) = under k m ++ (if decide (key = k) then [crl] else []).
Proof.
  unfold file_under, under at 1. destruct (decide (key = k)) as [->|Hne].
  - by rewrite lookup_insert_eq.
  - rewrite lookup_insert_ne by done. by rewrite app_nil_r.
Qed.

Lemma crl_anchors_new crls anchors : crl_anchors (NewClientCRLSet crls anchors) = anchors.
Proof.
  unfold NewClientCRLSet. induction crls as [|crl crls IH] using rev_ind; [done|].
  rewrite fold_left_app. cbn [fold_left]. unfold add_crl at 1. by repeat case_match.
Qed.
Lemma full_crls_new crls anchors k :
  full_crls (Some (NewClientCRLSet crls anchors)) k = base.filter (filed anchors k) crls.
Proof.
  unfold full_crls, NewClientCRLSet. induction crls as [|crl crls IH] using rev_ind; [done|].
  rewrite fold_left_app, filter_app, <- IH, filter_cons, filter_nil. cbn [fold_left].
  set (s0 := fold_left _ crls _). unfold add_crl.
  case_decide as F; unfold filed in F;
    destruct (SignerOfCRL crl anchors) as [signer|]; try (destruct (coversPartially crl));
    cbn [bySignerKey fmap option_fmap option_map] in *;
    first [by rewrite app_nil_r|rewrite under_file; f_equal; case_decide; naive_solver|naive_solver].
Qed.

(** *** The guards *)

Lemma Coverage_spec set now k :
  (k ∈ (Coverage set now).1 <-> full_crls set k <> [] /\ k ∈ map PubKey (set_anchors set)) /\
  (k ∈ (Coverage set now).2 <->
   (exists c, c ∈ full_crls set k /\ notYetIssued c now = false /\ currentAt c now = true) /\
   k ∈ map PubKey (set_anchors set)).
Proof.
  destruct set as [s|]; [|split; set_solver]. unfold Coverage, set_anchors, full_crls, forIssuer.
  induction (crl_anchors s) as [|a l IH] using rev_ind; [split; set_solver|].
  rewrite fold_left_app, map_app. cbn [fold_left map].
  destruct (fold_left _ l (∅, ∅)) as [present current]. cbn [fst snd] in *. destruct IH as [IH1 IH2].
  rewrite elem_of_app, list_elem_of_singleton. split.
  - case_bool_decide as E.
    + rewrite IH1. split; [naive_solver|]. intros [N [H| ->]]; [by split|]. by destruct N.
    + rewrite elem_of_union, elem_of_singleton, IH1. split; [|naive_solver].
      intros [->|[? ?]]; [by split; [|right]|by split; [|left]].
  - destruct (existsb _ (under (PubKey a) _)) eqn:E.
    + apply existsb_exists_elem in E as (c & Hc & Hok). rewrite elem_of_union, elem_of_singleton, IH2.
      apply andb_true_iff in Hok as [Hn%negb_true_iff Hcur]. split; [|naive_solver].
      intros [->|?]; [|naive_solver]. split; [by exists c|by right].
    + rewrite IH2. split; [naive_solver|]. intros [(c & Hc & Hn & Hcur) [?| ->]]; [by eauto|].
      pose proof (proj1 (existsb_false_elem _ _) E c Hc) as Hf. simpl in Hf. by rewrite Hn, Hcur in Hf.
Qed.

(** If no anchor regresses, the marks of an anchor present in both compare. *)
Lemma Regresses_None set candidate now k f g :
  Regresses set candidate now = None ->
  freshness set now !! k = Some f -> freshness candidate now !! k = Some g ->
  regressedFrom g f = false.
Proof.
  unfold Regresses. intros H Hf Hg. apply head_None in H.
  destruct (regressedFrom g f) eqn:E; [exfalso|done].
  apply (elem_of_nil (f_subject f)). rewrite <- H. apply list_elem_of_omap.
  exists (k, f). split; [by apply elem_of_map_to_list|]. by rewrite Hg, E.
Qed.

(** ** Theorems *)

(** A client of another CA under the strict policy.  If the revocation
    check passes, the client's certificate is not itself an anchor, and for
    every certificate of the chain below the anchor, its issuer has a CRL in
    force and no CRL of the issuer, complete or partial, lists it. *)
Theorem checkChainRevocation_require chain set policy now :
  policy <> RevocationSkip -> policy <> RevocationCheck ->
  checkChainRevocation chain set policy now = None ->
  (2 <= length chain)%nat /\
  forall i subject issuer, chain !! i = Some subject -> chain !! S i = Some issuer ->
    link_clear set true now subject issuer.
Proof.
  intros H1 H2. unfold checkChainRevocation. rewrite !(bool_decide_eq_false_2 (policy = _)) by done.
  cbn [orb]. case_bool_decide; [done|]. case_bool_decide as Hlen; [done|].
  intros Hc. split; [lia|]. by apply check_links_None.
Qed.


(** The marks of a set do not depend on the order of the CRLs in the file:
    any two files with the same CRLs give every anchor the same highest number,
    the same latest date and the same name, so the guards of a reload decide
    the same for both. *)
Theorem freshness_order crls crls' anchors now :
  crls ≡ₚ crls' ->
  freshness (Some (NewClientCRLSet crls anchors)) now =
  freshness (Some (NewClientCRLSet crls' anchors)) now.
Proof.
  intros Hp. apply map_eq. intros k.
  pose proof (freshness_lookup (Some (NewClientCRLSet crls anchors)) now k) as H1.
  pose proof (freshness_lookup (Some (NewClientCRLSet crls' anchors)) now k) as H2.
  pose proof (freshness_is_Some (Some (NewClientCRLSet crls anchors)) now k) as E1.
  pose proof (freshness_is_Some (Some (NewClientCRLSet crls' anchors)) now k) as E2.
  rewrite !full_crls_new in H1, H2, E1, E2. cbn [set_anchors] in H1, H2, E1, E2.
  rewrite !crl_anchors_new in H1, H2, E1, E2.
  assert (base.filter (filed anchors k) crls ≡ₚ base.filter (filed anchors k) crls') as E by (by rewrite Hp).
  assert (base.filter (filed anchors k) crls <> [] <-> base.filter (filed anchors k) crls' <> []) as N.
  { split; intros H C; apply H; rewrite C in E; [by apply Permutation_nil_r in E|by apply Permutation_nil_l in E]. }
  rewrite N, <- E2 in E1. clear E2 N.
  destruct (freshness (Some (NewClientCRLSet crls anchors)) now !! k) as [f|],
    (freshness (Some (NewClientCRLSet crls' anchors)) now !! k) as [g|]; [| | |done].
  - destruct H1 as (_ & M1 & a & La & S1), H2 as (_ & M2 & a' & La' & S2). f_equal.
    eapply is_mark_inj; [exact M1| |congruence]. eapply is_mark_ext; [|exact M2]. intros c. by rewrite E.
  - by destruct (proj1 E1 (mk_is_Some _ _ eq_refl)).
  - by destruct (proj2 E1 (mk_is_Some _ _ eq_refl)).
Qed.
