(* ===== verification/Auth.v ===== *)
(** * Authorisation of API requests

    Models internal/api/auth.go (route tiers and the middleware) and
    trustdomain.go (trust domains and attribution).  A request is its method,
    path and the certificates its client presented.  The middleware's log lines
    and the refusal metric are left out. *)

From S2P Require Import Prelude GoStrings GoTime X509 Inventory Storage InventorySpec Policy.
From S2P Require Import CAState CRLChain CRL OCSP CRLSafety Supersede Signing Lifecycle.
From S2P Require Import System Growth Verify ClientCRL.

(** ** Trust domains (trustdomain.go) *)

Record TrustDomain := mkDomain {
  td_Name : string;
  td_Roots : list Certificate;
  (** the names allowed to administer, if the domain can have any *)
  td_admins : option (gmap string bool);
  td_own : bool;
  td_PpCliAuth : bool;
  td_Anchors : list Certificate;
  (** the holder of the CRLs, absent in our own domain, and its contents *)
  td_CRLs : option (option ClientCRLSet) }.

Definition IsOwn (d : TrustDomain) : bool := td_own d.
Definition IsAdminCN (d : TrustDomain) (cn : string) : bool :=
  match td_admins d with None => false | Some cns => default false (cns !! cn) end.
Definition SetAdminCNs (cns : gmap string bool) (d : TrustDomain) : option (gmap string bool) * TrustDomain :=
  match td_admins d with
  | None => (None, d)
  | Some previous =>
      (Some previous, mkDomain (td_Name d) (td_Roots d) (Some cns) (td_own d) (td_PpCliAuth d)
                        (td_Anchors d) (td_CRLs d))
  end.
Definition RevocationSet (d : TrustDomain) : option ClientCRLSet :=
  match td_CRLs d with None => None | Some set => set end.
Definition SetRevocationSet (set : option ClientCRLSet) (d : TrustDomain) : TrustDomain :=
  match td_CRLs d with
  | None => d
  | Some _ => mkDomain (td_Name d) (td_Roots d) (td_admins d) (td_own d) (td_PpCliAuth d)
                (td_Anchors d) (Some set)
  end.

Definition OwnTrustDomain (caCert : option Certificate) (adminCNs : gmap string bool) (ppCliAuth : bool)
    : TrustDomain :=
  mkDomain "" (match caCert with Some c => [c] | None => [] end) (Some adminCNs) true ppCliAuth [] None.
Definition NewForeignTrustDomain (name : string) (roots anchors : list Certificate)
    (adminCNs : gmap string bool) (ppCliAuth : bool) : TrustDomain :=
  mkDomain name roots (Some adminCNs) false ppCliAuth anchors (Some None).

Record verifiedChain := mkVerified { v_Domain : TrustDomain; v_Chain : list Certificate }.

(** The first domain that verifies the certificate, in the configured order. *)
Fixpoint attribute (domains : list TrustDomain) (cert : Certificate) (presented : list Certificate)
    : MW verifiedChain :=
  match domains with
  | [] => fail (Msg "no trust domains are configured")
  | d :: domains =>
      now ← lift time_Now;
      match cert_Verify (td_Roots d) presented EKUClientAuth now cert with
      | chain :: _ => mret (mkVerified d chain)
      | [] => attribute domains cert presented
      end
  end.

(** ** Tiers and the middleware (auth.go) *)

Record AuthConfig := mkAuthConfig {
  Domains : list TrustDomain;
  AllowPublicStatus : bool;
  ClientRevocationPolicy : string }.
Definition revocationPolicy (cfg : AuthConfig) : string :=
  if bool_decide (ClientRevocationPolicy cfg = "") then RevocationRequire
  else ClientRevocationPolicy cfg.

Inductive authTier := tierPublic | tierOwnClient | tierSelfOrAdmin | tierAdminOnly.
#[global] Instance authTier_eq_dec : EqDecision authTier.
Proof. solve_decision. Defined.

Definition apiPrefix := "/puppet-ca/v1".

Definition lookupTier (method path : string) (cfg : option AuthConfig) : authTier :=
  let p := TrimPrefix path apiPrefix in
  let meth m := bool_decide (method = m) in
  if meth "GET" && HasPrefix p "/healthz/" then tierPublic
  else if meth "GET" && HasPrefix p "/certificate/" then tierPublic
  else if meth "GET" && HasPrefix p "/certificate_revocation_list/" then tierPublic
  else if meth "PUT" && HasPrefix p "/certificate_request/" then tierPublic
  else if HasPrefix p "/ocsp" then tierPublic
  else if meth "GET" && HasPrefix p "/certificate_status/" then
    match cfg with
    | Some c => if AllowPublicStatus c then tierPublic else tierAdminOnly
    | None => tierAdminOnly
    end
  else if meth "GET" && bool_decide (p = "/expirations") then tierPublic
  else if meth "GET" && HasPrefix p "/certificate_request/" then tierSelfOrAdmin
  else if meth "POST" && bool_decide (p = "/certificate_renewal") then tierOwnClient
  else tierAdminOnly.

Definition extractPathSubject (path : string) : string :=
  let p := TrimPrefix path apiPrefix in
  match head (base.filter (fun prefix => HasPrefix p prefix = true)
                ["/certificate/"; "/certificate_status/"; "/certificate_request/"]) with
  | Some prefix => TrimPrefix p prefix
  | None => ""
  end.

(** The first extension with the OID decides. *)
Definition hasPpCliAuth (cert : Certificate) : bool :=
  match find_ext OIDPpCliAuth (Extensions cert) with
  | Some (AString v) => bool_decide (v = "true")
  | _ => false
  end.
Definition isAdmin (d : TrustDomain) (cert : Certificate) (cn : string) : bool :=
  IsAdminCN d cn || (td_PpCliAuth d && hasPpCliAuth cert).

Record Request := mkRequest {
  r_Method : string;
  r_Path : string;
  (** [None] without TLS *)
  r_PeerCertificates : option (list Certificate) }.

Definition forbidden : error := Msg "access denied".

Definition clientCN (r : Request) : string :=
  match r_PeerCertificates r with Some (cert :: _) => CommonName (Subject cert) | _ => "" end.

(** Who made a request: a name, and the domain that vouched for it, if
    attribution has run (principal.go). *)
Record clientPrincipal := mkPrincipal { p_cn : string; p_domain : option TrustDomain }.

(** [Ok p]: the request of [p] reaches its handler; an error is a 403. *)
Definition authMiddleware (cfg : option AuthConfig) (r : Request) : MW clientPrincipal :=
  let unattributed := mkPrincipal (clientCN r) None in
  match cfg with
  | None => mret unattributed
  | Some c =>
      let tier := lookupTier (r_Method r) (r_Path r) cfg in
      if bool_decide (tier = tierPublic) then mret unattributed
      else match r_PeerCertificates r with
      | None | Some [] => fail (Msg "client certificate required")
      | Some (clientCert :: presented) =>
          verified ← attribute (Domains c) clientCert presented;
          let domain := v_Domain verified in
          let clientCN := CommonName (Subject clientCert) in
          let principal := mkPrincipal clientCN (Some domain) in
          _ ← (if IsOwn domain then
                 revoked ← IsRevokedSerial (SerialNumber clientCert);
                 if (revoked : bool) then fail forbidden else mret tt
               else
                 now ← lift time_Now;
                 check (checkChainRevocation (v_Chain verified) (RevocationSet domain)
                          (revocationPolicy c) now));
          match tier with
          | tierOwnClient => if IsOwn domain then mret principal else fail forbidden
          | tierSelfOrAdmin =>
              let subject := extractPathSubject (r_Path r) in
              let selfMatch := IsOwn domain && negb (bool_decide (subject = ""))
                               && bool_decide (clientCN = subject) in
              if isAdmin domain clientCert clientCN || selfMatch then mret principal else fail forbidden
          | tierAdminOnly => if isAdmin domain clientCert clientCN then mret principal else fail forbidden
          | tierPublic => fail forbidden
          end
      end
  end.

(** ** Lemmas *)

(** Reading the clock. *)
Lemma now_spec w now w1 :
  lift time_Now w = (Ok now, w1) -> ca w1 = ca w /\ clock (st w) <= now /\ now = clock (st w1).
Proof.
  intros (s1 & H & ->)%lift_Ok. unfold time_Now in H. cbn [ca st set_st].
  destruct (ticks (st w)); simplify_eq/=; split; [done|lia|done|lia].
Qed.

Lemma attribute_spec domains cert presented w v w' :
  attribute domains cert presented w = (Ok v, w') ->
  ca w' = ca w /\
  exists now, clock (st w) <= now <= clock (st w') /\ v_Domain v ∈ domains /\
    v_Chain v ∈ cert_Verify (td_Roots (v_Domain v)) presented EKUClientAuth now cert.
Proof.
  revert w. induction domains as [|d domains IH]; intros w H; [by minv|]. cbn [attribute] in H.
  apply bind_Ok in H as (now & w1 & Ht & H). apply now_spec in Ht as (C1 & T1 & T2).
  destruct (cert_Verify (td_Roots d) presented EKUClientAuth now cert) as [|chain l] eqn:E.
  - apply IH in H as (Hca & t & Ht & Hd & Hv). split; [congruence|].
    exists t. split; [lia|]. split; [by right|done].
  - apply ret_Ok in H as [-> ->]. cbn [v_Domain v_Chain]. split; [done|]. exists now. rewrite E.
    split; [lia|]. split; by left.
Qed.

(** ** Theorems *)

(** Who may use a tier. *)
Definition entitled (tier : authTier) (d : TrustDomain) (cert : Certificate) (path : string) : Prop :=
  let cn := CommonName (Subject cert) in
  match tier with
  | tierPublic => True
  | tierOwnClient => IsOwn d = true
  | tierSelfOrAdmin =>
      isAdmin d cert cn = true \/ (IsOwn d = true /\ cn <> "" /\ extractPathSubject path = cn)
  | tierAdminOnly => isAdmin d cert cn = true
  end.

Lemma middleware_admits c r w p w' :
  authMiddleware (Some c) r w = (Ok p, w') ->
  lookupTier (r_Method r) (r_Path r) (Some c) <> tierPublic ->
  exists cert presented d chain now,
    r_PeerCertificates r = Some (cert :: presented) /\ d ∈ Domains c /\
    clock (st w) <= now <= clock (st w') /\
    chain ∈ cert_Verify (td_Roots d) presented EKUClientAuth now cert /\
    (if IsOwn d
     then exists crl, cachedCRL (ca w) = Some crl /\ SerialNumber cert ∉ revoked_serials crl
     else checkChainRevocation chain (RevocationSet d) (revocationPolicy c) (clock (st w')) = None) /\
    entitled (lookupTier (r_Method r) (r_Path r) (Some c)) d cert (r_Path r).
Proof.
  unfold authMiddleware. intros H Ht. rewrite bool_decide_eq_false_2 in H by done.
  destruct (r_PeerCertificates r) as [[|cert presented]|]; [by minv| |by minv].
  apply bind_Ok in H as (v & w1 & Ha & H). apply attribute_spec in Ha as (C1 & now & Hn & Hd & Hv).
  apply bind_Ok in H as (u & w2 & Hr & H).
  exists cert, presented, (v_Domain v), (v_Chain v), now.
  assert (w2 = w') as ->.
  { destruct (lookupTier _ _ _); try done; repeat case_match; by minv. }
  split; [done|]. split; [done|].
  assert (clock (st w1) <= clock (st w') /\
    (if IsOwn (v_Domain v)
     then exists crl, cachedCRL (ca w) = Some crl /\ SerialNumber cert ∉ revoked_serials crl
     else checkChainRevocation (v_Chain v) (RevocationSet (v_Domain v)) (revocationPolicy c)
            (clock (st w')) = None)) as [Hclk Hrev].
  { destruct (IsOwn (v_Domain v)).
    - apply bind_Ok in Hr as (revoked & w3 & Hr & Hk). unfold IsRevokedSerial, get_ca in Hr.
      apply bind_Ok in Hr as (crl & w4 & Hg & Hr). apply gets_Ok in Hg as [-> ->]. rewrite C1 in Hr.
      destruct (cachedCRL (ca w)) as [crl|]; [|by minv]. apply ret_Ok in Hr as [-> ->].
      destruct (serialInCRL crl (SerialNumber cert)) eqn:Es; [by minv|].
      apply ret_Ok in Hk as [_ ->]. split; [lia|]. exists crl. split; [done|]. by apply serialInCRL_false.
    - apply bind_Ok in Hr as (t & w3 & Hnow & Hk). apply now_spec in Hnow as (_ & T1 & ->).
      apply check_Ok in Hk as [Hk ->]. done. }
  split; [lia|]. split; [done|]. split; [done|]. unfold entitled.
  destruct (lookupTier _ _ _); [done| | |].
  - by destruct (IsOwn (v_Domain v)).
  - destruct (isAdmin _ _ _); [by left|]. destruct (IsOwn (v_Domain v)); [|by minv]. cbn [andb orb] in H.
    right. case_bool_decide as E1; [by minv|]. case_bool_decide as E2; [|by minv].
    split; [done|]. split; congruence.
  - destruct (isAdmin _ _ _); [done|by minv].
Qed.

(** C8: who gets past the middleware.  With authorisation configured, a request
    on a route that is not public reaches its handler only if the client
    presented a certificate that chains to an anchor of a trust domain, each
    link signed, in its validity period and fit for client use at a time
    during the request; the certificate is not on the CRL in memory (our own
    domain) or passes the revocation policy (a foreign one); and the client is
    entitled to the route's tier: for the certificate it asks about it must be
    of our own domain, and for the rest an administrator of its domain. *)
Theorem authMiddleware_admits c r w p w' :
  authMiddleware (Some c) r w = (Ok p, w') ->
  lookupTier (r_Method r) (r_Path r) (Some c) <> tierPublic ->
  exists cert presented d chain now,
    r_PeerCertificates r = Some (cert :: presented) /\ d ∈ Domains c /\
    clock (st w) <= now <= clock (st w') /\
    head chain = Some cert /\ path_ok (td_Roots d) now chain /\
    checkChainForKeyUsage chain EKUClientAuth = true /\
    (if IsOwn d
     then exists crl, cachedCRL (ca w) = Some crl /\ SerialNumber cert ∉ revoked_serials crl
     else checkChainRevocation chain (RevocationSet d) (revocationPolicy c) (clock (st w')) = None) /\
    entitled (lookupTier (r_Method r) (r_Path r) (Some c)) d cert (r_Path r).
Proof.
  intros H Ht. destruct (middleware_admits _ _ _ _ _ H Ht)
    as (cert & presented & d & chain & now & H1 & H2 & H3 & H4 & H5 & H6).
  apply cert_Verify_sound in H4 as (Hh & Hp & Hk).
  exists cert, presented, d, chain, now. by split_and!; try apply H3.
Qed.

(** C17: a revoked client is shut out.  A client whose serial has been published
    as revoked is refused on every route that is not public by every replica
    that has since reloaded the CRL with success, whatever operations ran in
    between except the cleanup of expired certificates.  The one exception is a
    certificate that a foreign trust domain verifies and whose chain passes that
    domain's own revocation check.  Where only this CA's certificates
    are accepted there is none. *)
Theorem revoked_client_refused cacert cl cl' crl i nd e u w c r cert presented e' res w' :
  one_ca cacert cl -> published cacert cl crl -> none_ahead cl crl ->
  SerialNumber cert ∈ revoked_serials crl ->
  steps not_cleanup cl cl' -> nodes cl' !! i = Some nd ->
  SyncCRLCache (world_of (shared cl') nd e) = (Ok u, w) ->
  r_PeerCertificates r = Some (cert :: presented) ->
  lookupTier (r_Method r) (r_Path r) (Some c) <> tierPublic ->
  authMiddleware (Some c) r (world_of (be (st w)) (node_of w) e') = (res, w') ->
  (exists x, res = Err x) \/
  (exists d chain now, d ∈ Domains c /\ IsOwn d = false /\
     chain ∈ cert_Verify (td_Roots d) presented EKUClientAuth now cert /\
     checkChainRevocation chain (RevocationSet d) (revocationPolicy c) (clock (st w')) = None).
Proof.
  intros Hone Hpub Ha Hn Hsteps Hi Hsync Hr Ht E.
  destruct (synced_crl _ _ _ _ _ _ _ _ _ _ Hone Hpub Ha Hn Hsteps Hi Hsync) as (o & Hcached & Hin).
  destruct res as [p|x]; [right|left; by exists x].
  destruct (middleware_admits _ _ _ _ _ E Ht) as (cert' & p' & d & chain & now & H1 & H2 & H3 & H4 & H5 & _).
  rewrite Hr in H1. injection H1 as <- <-. destruct (IsOwn d) eqn:Ed; [|by exists d, chain, now].
  destruct H5 as (o' & Ho & Hno). change (ca (world_of _ _ _)) with (ca w) in Ho.
  rewrite Hcached in Ho. injection Ho as <-. done.
Qed.

(** Our certificates cannot be captured.  If the first trust domain, which
    is this CA's own, verifies a certificate at the time it is presented, the
    certificate is attributed to that domain, whatever other domains are
    configured and whatever intermediates the client sent along. *)
Theorem attribute_own_first d domains cert presented w now s1 :
  time_Now (st w) = (Ok now, s1) ->
  cert_Verify (td_Roots d) presented EKUClientAuth now cert <> [] ->
  exists chain, attribute (d :: domains) cert presented w = (Ok (mkVerified d chain), set_st s1 w).
Proof.
  intros Ht Hv. cbn [attribute]. unfold mbind, M_bind, lift. rewrite Ht.
  destruct (cert_Verify _ _ _ _ _) as [|chain l]; [done|]. by exists chain.
Qed.

(** The registered routes that need an administrator; a path that ends in a
    slash is completed by its parameter. *)
Definition admin_routes : list (string * string) :=
  [("GET", "/certificate_statuses/"); ("PUT", "/certificate_status/");
   ("DELETE", "/certificate_status/"); ("PUT", "/certificate_status_by_serial/");
   ("DELETE", "/certificate_request/"); ("PUT", "/certificate/");
   ("PUT", "/certificate_revocation_list/ca"); ("POST", "/sign"); ("POST", "/sign/all");
   ("PUT", "/clean"); ("POST", "/generate/")].

(** The routes that change the CA.  Signing, revoking, cleaning, generating,
    importing, deleting a request, re-issuing the CRL and listing all statuses
    need an administrator under both URL prefixes and for every parameter;
    renewal needs a certificate of this CA. *)
Theorem admin_routes_guarded method path pfx param cfg :
  (method, path) ∈ admin_routes -> pfx ∈ [""; apiPrefix] ->
  lookupTier method (pfx +:+ path +:+ param) cfg = tierAdminOnly /\
  lookupTier "POST" (pfx +:+ "/certificate_renewal") cfg = tierOwnClient.
Proof.
  intros Hr Hp. unfold admin_routes in Hr. rewrite !elem_of_cons in Hp.
  destruct Hp as [->|[->|[]%elem_of_nil]]; (split; [|reflexivity]);
    rewrite !elem_of_cons in Hr; decompose [or] Hr; simplify_eq; try reflexivity;
    match goal with H : _ ∈ [] |- _ => by apply elem_of_nil in H end.
Qed.
