(* ===== verification/ClientReload.v ===== *)
(** * Foreign trust domains: set-up and reload

    Models cmd/openvox-ca/clientca.go: the anchors and CRLs of the configured
    client CAs are read when the server starts, and the CRLs again on a timer.
    What [os.ReadFile] returns at a pass is the argument [ReadFile], any
    function at all.  Warnings and gauges are left out. *)

From S2P Require Import Prelude GoStrings GoTime X509 Inventory Storage InventorySpec Policy.
From S2P Require Import CAState CRLChain CRL Verify ClientCRL Auth.

(** ** Configuration (internal/config/clientca.go) *)

Record ClientCA := mkClientCA {
  cc_Name : string;
  cc_File : string;
  cc_CRLFile : string;
  cc_AdminCNs : list string;
  cc_AllowPpCliAuth : bool }.

(** ** Reading the files *)

Fixpoint parse_anchors (blocks : list pem_block) : result (list Certificate) :=
  match blocks with
  | [] => Ok []
  | b :: bs =>
      if negb (bool_decide (Type_ b = "CERTIFICATE")) then parse_anchors bs
      else match ParseCertificate (Bytes b) with
           | Err e => Err (Wrap "parsing certificate" [e])
           | Ok cert => match parse_anchors bs with Ok certs => Ok (cert :: certs) | Err e => Err e end
           end
  end.

(** The CRLs of a file that an anchor of the entry signed. *)
Fixpoint verified_crls (anchors : list Certificate) (blocks : list pem_block)
    : result (list RevocationList) :=
  match blocks with
  | [] => Ok []
  | b :: bs =>
      if negb (bool_decide (Type_ b = "X509 CRL")) then verified_crls anchors bs
      else match ParseRevocationList (Bytes b) with
           | Err e => Err (Wrap "parsing CRL" [e])
           | Ok crl =>
               match verified_crls anchors bs with
               | Err e => Err e
               | Ok out => Ok (if VerifyCRLAgainst crl anchors then crl :: out else out)
               end
           end
  end.

Section Files.
Variable ReadFile : string -> result blob.

Definition parseAnchorBundle (path : string) : result (list Certificate) :=
  match ReadFile path with
  | Err e => Err (Wrap "reading" [e])
  | Ok data =>
      match parse_anchors (pem_blocks data) with
      | Ok [] => Err (Msg "the file contains no certificates")
      | r => r
      end
  end.

Definition loadDomainCRLs (entry : ClientCA) (anchors : list Certificate)
    : result (list RevocationList) :=
  if bool_decide (cc_CRLFile entry = "") then Ok []
  else match ReadFile (cc_CRLFile entry) with
       | Err e => Err (Wrap "reading crl_file" [e])
       | Ok data => verified_crls anchors (pem_blocks data)
       end.

(** ** Set-up *)

Definition foreign_domain (entry : ClientCA) : result TrustDomain :=
  match parseAnchorBundle (cc_File entry) with
  | Err e => Err (Wrap (cc_Name entry) [e])
  | Ok anchors =>
      let admins := list_to_map (map (fun cn => (cn, true)) (cc_AdminCNs entry)) : gmap string bool in
      let domain := NewForeignTrustDomain (cc_Name entry) anchors anchors admins (cc_AllowPpCliAuth entry) in
      match loadDomainCRLs entry anchors with
      | Err e => Err (Wrap (cc_Name entry) [e])
      | Ok crls => Ok (SetRevocationSet (Some (NewClientCRLSet crls anchors)) domain)
      end
  end.
Fixpoint foreign_domains (entries : list ClientCA) : result (list TrustDomain) :=
  match entries with
  | [] => Ok []
  | entry :: entries =>
      match foreign_domain entry with
      | Err e => Err e
      | Ok d => match foreign_domains entries with Ok ds => Ok (d :: ds) | Err e => Err e end
      end
  end.

(** Our own domain first, then the entries in their order. *)
Definition buildTrustDomains (noPpCliAuth : bool) (entries : list ClientCA)
    (ownCert : option Certificate) (adminCNs : gmap string bool) : result (list TrustDomain) :=
  match foreign_domains entries with
  | Err e => Err e
  | Ok ds => Ok (OwnTrustDomain ownCert adminCNs (negb noPpCliAuth) :: ds)
  end.

(** ** Reload *)

Definition losesCoverage (current candidate : option ClientCRLSet) (now : Time) : bool :=
  match candidate with
  | None => true
  | Some _ =>
      let '(wasPresent, wasCurrent) := Coverage current now in
      let '(isPresent, isCurrent) := Coverage candidate now in
      negb (bool_decide (wasPresent ⊆ isPresent)) || negb (bool_decide (wasCurrent ⊆ isCurrent))
  end.

(** One entry of a pass: the new set is installed unless it cannot be read,
    covers less, is older, or drops a partial CRL. *)
Definition refresh_domain (now : Time) (entry : ClientCA) (domain : TrustDomain) : TrustDomain :=
  let current := RevocationSet domain in
  let hasFile := negb (bool_decide (cc_CRLFile entry = "")) in
  match loadDomainCRLs entry (td_Anchors domain) with
  | Err _ => domain
  | Ok crls =>
      let candidate := Some (NewClientCRLSet crls (td_Anchors domain)) in
      let regressed := if hasFile then Regresses current candidate now else None in
      let dropped := if hasFile then PartialsDropped current candidate now else None in
      if hasFile && losesCoverage current candidate now then domain
      else match regressed, dropped with
           | None, None => SetRevocationSet candidate domain
           | _, _ => domain
           end
  end.

(** [domains[i+1]] does not exist: the program panics. *)
Fixpoint refresh_each (entries : list ClientCA) (foreign : list TrustDomain) : MW (list TrustDomain) :=
  match entries, foreign with
  | [], _ => mret foreign
  | _ :: _, [] => fail (Msg "index out of range")
  | entry :: entries, domain :: foreign =>
      now ← lift time_Now;
      rest ← refresh_each entries foreign;
      mret (refresh_domain now entry domain :: rest)
  end.
Definition refreshClientCRLs (entries : list ClientCA) (domains : list TrustDomain)
    : MW (list TrustDomain) :=
  match domains with
  | [] => refresh_each entries []
  | own :: foreign => rest ← refresh_each entries foreign; mret (own :: rest)
  end.
End Files.

(** ** Lemmas *)

Lemma signer_key crl anchors a :
  SignerOfCRL crl anchors = Some a -> a ∈ anchors /\ crl_SignedBy crl = PubKey a.
Proof.
  unfold SignerOfCRL. intros H. apply head_Some_elem_of, list_elem_of_filter in H as [Hs Hin].
  split; [done|]. unfold crl_CheckSignatureFrom in Hs. repeat case_match; by bool_hyps.
Qed.

Lemma verified_crls_Ok anchors blocks out crl :
  verified_crls anchors blocks = Ok out -> crl ∈ out ->
  VerifyCRLAgainst crl anchors = true /\
  exists b, b ∈ blocks /\ ParseRevocationList (Bytes b) = Ok crl.
Proof.
  revert out. induction blocks as [|b bs IH]; intros out H Hin; cbn in H.
  { injection H as <-. by apply elem_of_nil in Hin. }
  assert (forall out', verified_crls anchors bs = Ok out' -> crl ∈ out' ->
    VerifyCRLAgainst crl anchors = true /\ exists b', b' ∈ b :: bs /\ ParseRevocationList (Bytes b') = Ok crl)
    as IH'.
  { intros out' H' Hin'. destruct (IH _ H' Hin') as (V & b' & ? & ?). split; [done|]. exists b'. by split; [right|]. }
  case_bool_decide; cbn [negb] in H; [|by eapply IH'].
  destruct (ParseRevocationList (Bytes b)) as [c|] eqn:Ep; [|done].
  destruct (verified_crls anchors bs) as [out'|] eqn:E; [|done]. injection H as <-.
  destruct (VerifyCRLAgainst c anchors) eqn:Ev; [|by eapply IH'].
  apply elem_of_cons in Hin as [->|Hin]; [|by eapply IH']. split; [done|]. exists b. by split; [left|].
Qed.

Lemma loaded_genuine ReadFile entry anchors crls crl :
  loadDomainCRLs ReadFile entry anchors = Ok crls -> crl ∈ crls ->
  exists data b, ReadFile (cc_CRLFile entry) = Ok data /\ b ∈ pem_blocks data /\
    ParseRevocationList (Bytes b) = Ok crl.
Proof.
  unfold loadDomainCRLs. case_bool_decide as Hf; [intros [= <-] Hx; by apply elem_of_nil in Hx|].
  destruct (ReadFile (cc_CRLFile entry)) as [data|]; [|done]. intros H Hin.
  destruct (verified_crls_Ok _ _ _ _ H Hin) as (_ & b & Hb & Hp). by exists data, b.
Qed.

Lemma losesCoverage_false current candidate now k :
  losesCoverage current candidate now = false ->
  full_crls current k <> [] -> k ∈ map PubKey (set_anchors current) -> full_crls candidate k <> [].
Proof.
  unfold losesCoverage. destruct candidate as [c|]; [|done]. intros H Hf Hk.
  pose proof (Coverage_spec current now k) as [C1 _]. pose proof (Coverage_spec (Some c) now k) as [C2 _].
  destruct (Coverage current now) as [p cur], (Coverage (Some c) now) as [p' cur']. cbn [fst snd] in *.
  apply orb_false_iff in H as [H _]. case_bool_decide as Hs; [|done]. apply C2, Hs, C1. done.
Qed.

(** *** Replays of an honest issuer's CRLs *)

(** What the issuer published keeps serial [n] once it lists it, by date and,
    if it numbers its CRLs, by number; it numbers all of them or none. *)
Record keeps_listing (published : RevocationList -> Prop) (n : Z) : Prop := KeepsListing {
  kl_dates : forall c, published c -> 0 < ThisUpdate c;
  kl_by_date : forall c c', published c -> published c' -> ThisUpdate c <= ThisUpdate c' ->
    n ∈ revoked_serials c -> n ∈ revoked_serials c';
  kl_numbers : (forall c, published c -> Number c = None) \/
    (forall c, published c -> is_Some (Number c)) /\
    forall c c' m m', published c -> published c' -> Number c = Some m -> Number c' = Some m' -> m <= m' ->
      n ∈ revoked_serials c -> n ∈ revoked_serials c' }.

(** The CRLs [l] refuse [n], and no replay can undo it. *)
Definition protected (n : Z) (now : Time) (l : list RevocationList) : Prop :=
  (exists c, c ∈ l /\ n ∈ revoked_serials c /\ (is_Some (Number c) \/ notYetIssued c now = false)) \/
  (l <> [] /\ forall c, c ∈ l -> n ∈ revoked_serials c).

Lemma protected_listed n now l : protected n now l -> exists c, c ∈ l /\ n ∈ revoked_serials c.
Proof.
  intros [(c & ? & ? & _)|[H Hall]]; [by exists c|]. destruct l as [|c l]; [done|]. exists c.
  split; [by left|]. apply Hall. by left.
Qed.

Lemma issued_later c now now' :
  now <= now' -> notYetIssued c now = false -> notYetIssued c now' = false.
Proof. unfold notYetIssued. rewrite !Z.ltb_ge. lia. Qed.

Lemma protected_later n now now' l : now <= now' -> protected n now l -> protected n now' l.
Proof.
  intros Ht [(c & H1 & H2 & H3)|H]; [left|by right]. exists c. split; [done|]. split; [done|].
  destruct H3 as [?|H3]; [by left|right]. by eapply issued_later.
Qed.

Section Replay.
Context (published : RevocationList -> Prop) (n : Z).
Context (Hkeeps : keeps_listing published n).
Context (now : Time) (l l' : list RevocationList) (f g : crlFreshness).
Context (Hl : forall c, c ∈ l -> published c) (Hl' : forall c, c ∈ l' -> published c).
Context (Hf : is_mark now l f) (Hg : is_mark now l' g) (Hne : l' <> []).
Context (Hr : regressedFrom g f = false).

Lemma protected_numbered :
  (forall c, published c -> is_Some (Number c)) ->
  (forall c c' m m', published c -> published c' -> Number c = Some m -> Number c' = Some m' -> m <= m' ->
     n ∈ revoked_serials c -> n ∈ revoked_serials c') ->
  protected n now l -> protected n now l'.
Proof.
  intros Hnum Hcum (c & Hc & Hn)%protected_listed. destruct (Hnum c (Hl _ Hc)) as [m Hm].
  destruct l' as [|c0 rest] eqn:El; [done|]. rewrite <- El in *.
  assert (c0 ∈ l') as Hc0 by (rewrite El; by left). destruct (Hnum c0 (Hl' _ Hc0)) as [m0 Hm0].
  pose proof (mark_number _ _ _ Hf) as Nf. pose proof (mark_number _ _ _ Hg) as Ng. unfold regressedFrom in Hr.
  destruct (maxNumber f) as [mf|]; [|by rewrite (Nf _ Hc) in Hm].
  destruct (maxNumber g) as [mg|]; [|by rewrite (Ng _ Hc0) in Hm0].
  destruct Nf as [_ Nf]. destruct Ng as [(c' & Hc' & Ec') _]. specialize (Nf _ _ Hc Hm).
  destruct (Z.ltb_spec mg mf); [done|]. left. exists c'. split; [done|]. split; [|by left; eauto].
  eapply (Hcum c c'); [by apply Hl|by apply Hl'|exact Hm|exact Ec'|lia|done].
Qed.

Lemma protected_unnumbered :
  (forall c, published c -> Number c = None) -> protected n now l -> protected n now l'.
Proof.
  intros Hnum Hp.
  assert (maxNumber f = None) as Nf.
  { pose proof (mark_number _ _ _ Hf) as N. destruct (maxNumber f) as [m|]; [|done].
    destruct N as [(c & Hc & E) _]. by rewrite (Hnum _ (Hl _ Hc)) in E. }
  unfold regressedFrom in Hr. rewrite Nf in Hr.
  assert (dated f = true /\ (dated g = true -> latest f <= latest g)) as [Df Dg].
  { destruct (maxNumber g), (dated f), (dated g); cbn [negb] in Hr; try done;
      apply Z.ltb_ge in Hr; by split. }
  assert (exists c, c ∈ l /\ notYetIssued c now = false /\ n ∈ revoked_serials c) as (c & Hc & Hb & Hn).
  { destruct Hp as [(c & Hc & Hn & [[m Hm]|Hb])|[_ Hall]].
    - by rewrite (Hnum _ (Hl _ Hc)) in Hm.
    - by exists c.
    - apply (mark_dated _ _ _ Hf) in Df as (c & Hc & Hb). exists c. auto. }
  pose proof (proj2 (mark_bound _ _ _ Hf) c Hc Hb) as Hle. pose proof (kl_dates _ _ Hkeeps _ (Hl _ Hc)) as Hpos.
  destruct (dated g) eqn:Eg.
  - specialize (Dg eq_refl). destruct (mark_latest _ _ _ Hg) as [?|(c' & Hc' & Hb' & E)]; [lia|].
    left. exists c'. split; [done|]. split; [|by right].
    eapply (kl_by_date _ _ Hkeeps c c'); [by apply Hl|by apply Hl'|lia|done].
  - right. split; [done|]. intros c' Hc'. eapply (kl_by_date _ _ Hkeeps c c'); [by apply Hl|by apply Hl'| |done].
    destruct (notYetIssued c' now) eqn:Eb; [unfold notYetIssued in *; lia|].
    assert (dated g = true) by (apply (mark_dated _ _ _ Hg); by exists c'). congruence.
Qed.

Lemma protected_step : protected n now l -> protected n now l'.
Proof.
  destruct (kl_numbers _ _ Hkeeps) as [?|[? ?]]; [by apply protected_unnumbered|by apply protected_numbered].
Qed.
End Replay.

(** The domain's installed set enforces the revocation of [n] by key [k]. *)
Definition enforces (published : RevocationList -> Prop) (k : PublicKey) (n : Z) (now : Time)
    (d : TrustDomain) : Prop :=
  exists s, td_CRLs d = Some (Some s) /\ crl_anchors s = td_Anchors d /\
    k ∈ map PubKey (td_Anchors d) /\ (forall c, c ∈ full_crls (Some s) k -> published c) /\
    protected n now (full_crls (Some s) k).

(** Whatever in the entry's file carries the signature of [k] was published. *)
Definition genuine (published : RevocationList -> Prop) (k : PublicKey) (entry : ClientCA)
    (ReadFile : string -> result blob) : Prop :=
  forall data b crl, ReadFile (cc_CRLFile entry) = Ok data -> b ∈ pem_blocks data ->
    ParseRevocationList (Bytes b) = Ok crl -> crl_SignedBy crl = k -> published crl.

Lemma refresh_enforces published k n now now' entry ReadFile d :
  keeps_listing published n -> cc_CRLFile entry <> "" -> genuine published k entry ReadFile ->
  now <= now' -> enforces published k n now d ->
  enforces published k n now' (refresh_domain ReadFile now' entry d).
Proof.
  intros Hkeeps Hfile Hgen Ht (s & Hs & Ha & Hk & Hpub & Hp). apply (protected_later _ _ _ _ Ht) in Hp.
  assert (enforces published k n now' d) as Hsame by (by exists s).
  unfold refresh_domain. rewrite bool_decide_eq_false_2 by done. cbn [negb andb].
  destruct (loadDomainCRLs ReadFile entry (td_Anchors d)) as [crls|] eqn:El; [|done].
  set (c := NewClientCRLSet crls (td_Anchors d)).
  assert (RevocationSet d = Some s) as Hset by (unfold RevocationSet; by rewrite Hs). rewrite Hset.
  destruct (losesCoverage _ _ _) eqn:Ecov; [done|].
  destruct (Regresses _ _ _) eqn:Er; [done|]. destruct (PartialsDropped _ _ _); [done|].
  unfold SetRevocationSet. rewrite Hs. exists c. cbn [td_CRLs td_Anchors].
  assert (full_crls (Some s) k <> []) as Hne.
  { apply protected_listed in Hp as (x & Hx & _). by destruct (full_crls (Some s) k); [apply elem_of_nil in Hx|]. }
  assert (set_anchors (Some s) = td_Anchors d) as Hsa by done.
  pose proof (losesCoverage_false _ _ _ k Ecov Hne) as Hne'. rewrite Hsa in Hne'. specialize (Hne' Hk).
  assert (crl_anchors c = td_Anchors d) as Hca by apply crl_anchors_new.
  assert (forall x, x ∈ full_crls (Some c) k -> published x) as Hpub'.
  { intros x. unfold c. rewrite full_crls_new. intros [[Hsig _] Hx]%list_elem_of_filter.
    destruct (loaded_genuine _ _ _ _ _ El Hx) as (data & b & Hd & Hb & Hparse).
    apply fmap_Some in Hsig as (a & Hsig & ->). apply signer_key in Hsig as [_ Hsig]. by eapply Hgen. }
  split; [done|]. split; [done|]. split; [done|]. split; [done|].
  destruct (proj2 (freshness_is_Some (Some s) now' k)) as [f Hf]; [by rewrite Hsa|].
  destruct (proj2 (freshness_is_Some (Some c) now' k)) as [g Hg]; [cbn [set_anchors]; by rewrite Hca|].
  pose proof (freshness_lookup (Some s) now' k) as Mf. rewrite Hf in Mf. destruct Mf as (_ & Mf & _).
  pose proof (freshness_lookup (Some c) now' k) as Mg. rewrite Hg in Mg. destruct Mg as (_ & Mg & _).
  eapply protected_step; [exact Hkeeps|exact Hpub|exact Hpub'|exact Mf|exact Mg|exact Hne'| |exact Hp].
  by eapply Regresses_None.
Qed.

Lemma refresh_each_spec ReadFile entries foreign w ds w' :
  refresh_each ReadFile entries foreign w = (Ok ds, w') ->
  clock (st w) <= clock (st w') /\
  forall i entry d, entries !! i = Some entry -> foreign !! i = Some d ->
    exists now, clock (st w) <= now <= clock (st w') /\
      ds !! i = Some (refresh_domain ReadFile now entry d).
Proof.
  revert foreign w ds. induction entries as [|e es IH]; intros foreign w ds H; cbn [refresh_each] in H.
  { apply ret_Ok in H as [-> ->]. split; [lia|]. by intros i ? ? Hi. }
  destruct foreign as [|d0 foreign]; [by minv|].
  apply bind_Ok in H as (now & w1 & Hn & H). apply now_spec in Hn as (_ & T1 & ->).
  apply bind_Ok in H as (rest & w2 & Hr & H). apply ret_Ok in H as [-> ->].
  apply IH in Hr as [T2 Hr]. split; [lia|]. intros [|i] entry d He Hd.
  - injection He as <-. injection Hd as <-. exists (clock (st w1)). split; [lia|done].
  - destruct (Hr i entry d He Hd) as (now & ? & ?). exists now. split; [lia|done].
Qed.

(** Passes of the reload job, with any amount of time between them and any
    file contents in which everything signed with [k] was published. *)
Definition reload (published : RevocationList -> Prop) (k : PublicKey) (entries : list ClientCA) (i : nat)
    : relation (Time * list TrustDomain) := fun '(t, ds) '(t', ds') =>
  exists ReadFile w w',
    (forall entry, entries !! i = Some entry -> genuine published k entry ReadFile) /\
    t <= clock (st w) /\ t' = clock (st w') /\
    refreshClientCRLs ReadFile entries ds w = (Ok ds', w').

Lemma reload_enforces published k n entries i entry s s' :
  keeps_listing published n -> entries !! i = Some entry -> cc_CRLFile entry <> "" ->
  rtc (reload published k entries i) s s' ->
  (exists d, s.2 !! S i = Some d /\ enforces published k n s.1 d) ->
  exists d, s'.2 !! S i = Some d /\ enforces published k n s'.1 d.
Proof.
  intros Hkeeps He Hfile. induction 1 as [s|[t ds] [t' ds'] s'' Hstep _ IH]; [done|].
  intros (d & Hd & Henf). apply IH. destruct Hstep as (ReadFile & w & w' & Hgen & Ht & -> & H).
  destruct ds as [|own foreign]; [done|]. cbn [refreshClientCRLs] in H. cbn [fst snd] in *.
  apply bind_Ok in H as (rest & w1 & Hr & H). apply ret_Ok in H as [-> ->].
  apply refresh_each_spec in Hr as [_ Hr]. destruct (Hr i entry d He Hd) as (now & Hn & Hi).
  exists (refresh_domain ReadFile now entry d). split; [exact Hi|].
  assert (enforces published k n now (refresh_domain ReadFile now entry d)) as E.
  { eapply refresh_enforces; [done..|by apply Hgen| |exact Henf]. lia. }
  destruct E as (s & E1 & E2 & E3 & E4 & E5). exists s. split_and!; [done..|].
  eapply protected_later; [|exact E5]. lia.
Qed.

Lemma enforced_refused published k n t d chain j subject issuer policy now :
  enforces published k n t d ->
  chain !! j = Some subject -> chain !! S j = Some issuer ->
  SerialNumber subject = n -> PubKey issuer = k -> policy <> RevocationSkip ->
  is_Some (checkChainRevocation chain (RevocationSet d) policy now).
Proof.
  intros (s & Hs & _ & _ & _ & (c & Hc & Hn)%protected_listed) Hj Hj' <- <- Hpol.
  destruct (checkChainRevocation _ _ _ _) eqn:E; [done|exfalso].
  assert (exists require, check_links chain (RevocationSet d) require now = None) as [require E'].
  { unfold checkChainRevocation in E. apply lookup_lt_Some in Hj'.
    rewrite (bool_decide_eq_false_2 (policy = RevocationSkip)) in E by done. cbn [orb] in E.
    rewrite (bool_decide_eq_false_2 (length chain < 2)%nat) in E by lia.
    rewrite (bool_decide_eq_false_2 (_ = RevocationSkip)) in E; [by eexists|].
    by destruct (bool_decide (policy = RevocationCheck)). }
  apply (check_links_None _ _ _ _ E' j subject issuer Hj) in Hj' as [_ Hclear].
  apply (Hclear c); [|done]. unfold RevocationSet. rewrite Hs. cbn [forRevocationLookup forIssuer fst].
  apply elem_of_app. by left.
Qed.

(** ** Theorems *)

(** C18: a replayed CRL re-admits nobody.  Suppose an issuer's CRLs keep a
    revocation once they list it, and the installed set of a trust domain
    lists the serial on a CRL this host believes to have been issued, or on a
    numbered one.  Then, after any number of passes of the reload job, over
    any files whose CRLs with the issuer's signature were once published by
    the issuer (older, fewer, reordered or truncated as they may be), every
    chain with that certificate under that issuer is still refused, under
    every policy that checks. *)
Theorem reload_cannot_readmit published k n entries i entry t ds t' ds' d :
  keeps_listing published n -> entries !! i = Some entry -> cc_CRLFile entry <> "" ->
  ds !! S i = Some d -> enforces published k n t d ->
  rtc (reload published k entries i) (t, ds) (t', ds') ->
  exists d', ds' !! S i = Some d' /\
    forall chain j subject issuer policy now,
      chain !! j = Some subject -> chain !! S j = Some issuer ->
      SerialNumber subject = n -> PubKey issuer = k -> policy <> RevocationSkip ->
      is_Some (checkChainRevocation chain (RevocationSet d') policy now).
Proof.
  intros Hkeeps He Hfile Hd Henf Hrun.
  destruct (reload_enforces _ _ _ _ _ _ _ _ Hkeeps He Hfile Hrun) as (d' & Hd' & Henf'); [by exists d|].
  exists d'. split; [done|]. intros chain j subject issuer policy now Hs Hi Hn Hk Hp.
  eapply enforced_refused; [exact Henf'|exact Hs|exact Hi|exact Hn|exact Hk|exact Hp].
Qed.

(** What a configured entry may contribute. *)
Definition domain_of_entry (ReadFile : string -> result blob) (entry : ClientCA) (d : TrustDomain) : Prop :=
  IsOwn d = false /\ td_Name d = cc_Name entry /\ td_Roots d = td_Anchors d /\ td_Anchors d <> [] /\
  parseAnchorBundle ReadFile (cc_File entry) = Ok (td_Anchors d) /\
  td_PpCliAuth d = cc_AllowPpCliAuth entry /\
  (forall cn, IsAdminCN d cn = true <-> cn ∈ cc_AdminCNs entry) /\
  exists s, RevocationSet d = Some s /\ crl_anchors s = td_Anchors d /\
    forall k crl, crl ∈ full_crls (Some s) k ->
      exists a, a ∈ td_Anchors d /\ PubKey a = k /\ crl_SignedBy crl = k.

Lemma admins_lookup (cns : list string) cn :
  (list_to_map (map (fun cn => (cn, true)) cns) : gmap string bool) !! cn = Some true <-> cn ∈ cns.
Proof.
  induction cns as [|x cns IH]; cbn [map list_to_map foldr]; [by split; [|intros ?%elem_of_nil]|].
  rewrite elem_of_cons, <- IH. cbn [fst snd]. destruct (decide (x = cn)) as [->|Hne].
  - rewrite lookup_insert_eq. naive_solver.
  - rewrite lookup_insert_ne by done. naive_solver.
Qed.

Lemma foreign_domain_spec ReadFile entry d :
  foreign_domain ReadFile entry = Ok d -> domain_of_entry ReadFile entry d.
Proof.
  unfold foreign_domain. destruct (parseAnchorBundle ReadFile (cc_File entry)) as [anchors|] eqn:Ea; [|done].
  destruct (loadDomainCRLs ReadFile entry anchors) as [crls|] eqn:El; [|done]. intros [= <-].
  unfold domain_of_entry. cbn -[full_crls]. split_and!; try done.
  - unfold parseAnchorBundle in Ea. repeat case_match; by simplify_eq.
  - intros cn. unfold IsAdminCN. cbn [td_admins]. rewrite <- admins_lookup.
    destruct (_ !! cn) as [b|]; [destruct b|]; cbn [default from_option]; naive_solver.
  - eexists. split; [done|]. split; [apply crl_anchors_new|]. intros k crl. rewrite full_crls_new.
    intros [[Hs _] _]%list_elem_of_filter. apply fmap_Some in Hs as (a & Hs & ->).
    apply signer_key in Hs as [? ?]. by exists a.
Qed.

Lemma foreign_domains_spec ReadFile entries ds :
  foreign_domains ReadFile entries = Ok ds -> Forall2 (domain_of_entry ReadFile) entries ds.
Proof.
  revert ds. induction entries as [|entry entries IH]; intros ds H; cbn in H.
  { by injection H as <-. }
  destruct (foreign_domain ReadFile entry) as [d|] eqn:E; [|done].
  destruct (foreign_domains ReadFile entries) as [ds'|]; [|done]. injection H as <-.
  constructor; [by apply foreign_domain_spec|by apply IH].
Qed.

(** What a configuration grants.  The trust domains are this CA's own,
    first, and one per configured entry in order.  An entry's domain trusts the
    certificates of its own file and at least one of them, grants
    administration to the names of that entry and no others, honours the
    authorisation extension only if the entry says so, and enforces only CRLs
    that an anchor of that same entry signed. *)
Theorem buildTrustDomains_grants ReadFile noPp entries ownCert admins ds :
  buildTrustDomains ReadFile noPp entries ownCert admins = Ok ds ->
  exists foreign, ds = OwnTrustDomain ownCert admins (negb noPp) :: foreign /\
    Forall2 (domain_of_entry ReadFile) entries foreign.
Proof.
  unfold buildTrustDomains. destruct (foreign_domains ReadFile entries) as [foreign|] eqn:E; [|done].
  intros [= <-]. exists foreign. split; [done|]. by apply foreign_domains_spec.
Qed.
