(* ===== verification/RateLimit.v ===== *)
(** * Rate limiting of the API

    Models internal/api/ratelimit.go: the fixed-window limiter in front of the
    public request route, and the tracker that raises an alarm when one client
    performs many destructive operations.  Both read the clock before they take
    their mutex, so the times they work with, an argument here, need not be in
    the order in which the calls are served. *)

From S2P Require Import Prelude GoStrings GoTime.

Record rlEntry := mkEntry { rl_start : Time; rl_count : Z }.

(** ** The limiter *)

Record ipRateLimiter := mkLimiter {
  rl_window : Duration; rl_maxReqs : Z; rl_entries : gmap string rlEntry }.

Definition newIPRateLimiter (maxReqs : Z) (window : Duration) : ipRateLimiter := mkLimiter window maxReqs ∅.
Definition maxRateLimitEntries : nat := Z.to_nat 100000.

Definition expired (now : Time) (window : Duration) (e : rlEntry) : bool :=
  window <=? time_Sub now (rl_start e).
Definition evictExpired (now : Time) (window : Duration) (entries : gmap string rlEntry) : gmap string rlEntry :=
  base.filter (fun kv => expired now window kv.2 = false) entries.

Definition Allow (ip : string) (now : Time) (l : ipRateLimiter) : bool * ipRateLimiter :=
  let set m := mkLimiter (rl_window l) (rl_maxReqs l) m in
  let fresh :=
    let entries := if bool_decide (maxRateLimitEntries <= size (rl_entries l))%nat
                   then evictExpired now (rl_window l) (rl_entries l) else rl_entries l in
    (true, set (<[ip := mkEntry now 1]> entries)) in
  match rl_entries l !! ip with
  | None => fresh
  | Some e =>
      if expired now (rl_window l) e then fresh
      else if rl_maxReqs l <=? rl_count e then (false, l)
      else (true, set (<[ip := mkEntry (rl_start e) (rl_count e + 1)]> (rl_entries l)))
  end.

(** ** The tracker of destructive operations *)

(** Who acted: the domain that vouched for the name, and the name.  The code
    joins the two into one string with the name quoted. *)
Notation principalKey := (string * string)%type.

Record destructiveOpTracker := mkTracker {
  dt_window : Duration; dt_threshold : Z; dt_entries : gmap principalKey rlEntry }.

Definition newDestructiveOpTracker (threshold : Z) (window : Duration) : destructiveOpTracker :=
  mkTracker window threshold ∅.

(** [true] raises the alarm. *)
Definition Record_ (identity : principalKey) (now : Time) (t : destructiveOpTracker) : bool * destructiveOpTracker :=
  let set e := mkTracker (dt_window t) (dt_threshold t) (<[identity := e]> (dt_entries t)) in
  let fresh := (false, set (mkEntry now 1)) in
  match dt_entries t !! identity with
  | None => fresh
  | Some e =>
      if expired now (dt_window t) e then fresh
      else let count := rl_count e + 1 in
           (dt_threshold t <? count, set (mkEntry (rl_start e) count))
  end.

(** ** The bound *)

(** A request: who, the time [Allow] read, and when it then held the mutex. *)
Record call := mkCall { c_ip : string; c_read : Time; c_locked : Time }.

(** The requests of [ip] that are let through with a time from [lo] up to [hi],
    of a history in the order in which they held the mutex. *)
Fixpoint allowed_between (ip : string) (lo hi : Time) (calls : list call) (l : ipRateLimiter) : Z :=
  match calls with
  | [] => 0
  | c :: calls =>
      let '(ok, l') := Allow (c_ip c) (c_read c) l in
      (if bool_decide (c_ip c = ip) && ok && (lo <=? c_read c) && (c_read c <? hi) then 1 else 0)
      + allowed_between ip lo hi calls l'
  end.

(** Nobody waits longer than [delay] for the mutex. *)
Definition served_within (delay : Z) (calls : list call) : Prop :=
  Sorted Z.le (map c_locked calls) /\ forall c, c ∈ calls -> c_read c <= c_locked c <= c_read c + delay.

Section Bound.
Context (ip : string) (lo : Time) (window : Duration) (maxReqs delay : Z).
Hypothesis Hwindow : 0 < window <= int64_max.
Hypothesis Hmax : 0 < maxReqs.
Hypothesis Hdelay : 0 <= delay < window.

Lemma expired_spec now e : expired now window e = true <-> rl_start e + window <= now.
Proof. unfold expired, time_Sub, int64_min, int64_max in *. rewrite Z.leb_le. lia. Qed.
Lemma expired_false now e : expired now window e = false <-> now < rl_start e + window.
Proof. rewrite <- not_true_iff_false, expired_spec. lia. Qed.

Definition sane (e : option rlEntry) : Prop :=
  match e with None => True | Some e => 1 <= rl_count e <= maxReqs end.

(** What a call leaves of the entry of [ip]. *)
Lemma Allow_entry who now m ok l' :
  Allow who now (mkLimiter window maxReqs m) = (ok, l') ->
  sane (m !! ip) ->
  exists m', l' = mkLimiter window maxReqs m' /\ sane (m' !! ip) /\
    (who <> ip -> m' !! ip = m !! ip \/ (m' !! ip = None /\ exists e, m !! ip = Some e /\ rl_start e + window <= now)) /\
    (who = ip ->
      (ok = true /\ m' !! ip = Some (mkEntry now 1) /\
         forall e, m !! ip = Some e -> rl_start e + window <= now) \/
      (exists e, m !! ip = Some e /\ ok = false /\ m' !! ip = m !! ip) \/
      (exists e, m !! ip = Some e /\ ok = true /\ now < rl_start e + window /\
         m' !! ip = Some (mkEntry (rl_start e) (rl_count e + 1)))).
Proof.
  unfold Allow. cbn [rl_entries rl_window rl_maxReqs]. intros H Hs.
  set (m0 := if bool_decide _ then _ else m) in H.
  assert (m0 !! ip = m !! ip \/ (m0 !! ip = None /\ exists e, m !! ip = Some e /\ rl_start e + window <= now)) as Hm0.
  { subst m0. case_bool_decide; [|by left]. unfold evictExpired. rewrite map_lookup_filter.
    destruct (m !! ip) as [e|]; [|by left]. simpl. unfold guard. case_decide as E; [by left|].
    right. split; [done|]. exists e. split; [done|]. apply expired_spec. simpl in E. by destruct (expired now window e). }
  assert (sane (m0 !! ip)) as Hs0. { destruct Hm0 as [->|[-> _]]; done. }
  destruct (decide (who = ip)) as [->|Hne].
  - destruct (m !! ip) as [e|] eqn:Ee.
    + destruct (expired now window e) eqn:Ex; [|destruct (Z.leb_spec maxReqs (rl_count e))]; injection H as <- <-;
        eexists; (split; [done|]); rewrite ?lookup_insert_eq, ?Ee; (split; [cbn in *; lia|]); (split; [done|]); intros _.
      * left. split; [done|]. split; [done|]. intros ? [= <-]. by apply expired_spec.
      * right; left. by exists e.
      * right; right. exists e. by rewrite <- expired_false.
    + injection H as <- <-. eexists. split; [done|]. rewrite lookup_insert_eq. split; [cbn; lia|]. split; [done|].
      intros _. by left.
  - assert (forall v, <[who := v]> m !! ip = m !! ip /\ <[who := v]> m0 !! ip = m0 !! ip) as Hi.
    { intros v. by rewrite !lookup_insert_ne. }
    destruct (m !! who) as [e|]; [destruct (expired now window e); [|destruct (maxReqs <=? rl_count e)]|];
      injection H as <- <-; eexists; (split; [done|]); rewrite ?(proj1 (Hi _)), ?(proj2 (Hi _));
      (split; [done|]); (split; [auto|done]).
Qed.

(** *** Counting windows *)

(** Windows of one address start at least [spacing] apart: a window is replaced
    when it has passed, or evicted by a call that read the clock when it had, and
    the next call may have read it [delay] earlier.  [windows x]: how many may
    start from [x] on and still admit a request before [lo + window]. *)
Definition spacing : Z := window - delay.
Definition horizon : Z := lo + window + delay.
Definition windows (x : Z) : Z := Z.max 0 ((horizon - 1 - x) / spacing + 1).

Lemma windows_next x : x < horizon -> windows x = 1 + windows (x + spacing).
Proof.
  intros Hx. unfold windows. replace (horizon - 1 - (x + spacing)) with (horizon - 1 - x + (-1) * spacing) by lia.
  rewrite Z.div_add by (unfold spacing; lia). pose proof (Z.div_pos (horizon - 1 - x) spacing). unfold spacing in *. lia.
Qed.
Lemma windows_mono x y : x <= y -> windows y <= windows x.
Proof.
  intros H. unfold windows. pose proof (Z.div_le_mono (horizon - 1 - y) (horizon - 1 - x) spacing). unfold spacing in *. lia.
Qed.
Lemma windows_pos x : 0 <= windows x.
Proof. unfold windows. lia. Qed.
Lemma windows_none x : horizon <= x -> windows x = 0.
Proof.
  intros H. unfold windows. pose proof (Z.div_lt_upper_bound (horizon - 1 - x) spacing 0). unfold spacing in *. lia.
Qed.

(** What the address may still obtain, when the mutex was last taken at [last]. *)
Definition first_window : Z := lo - window + 1.
Definition budget (e : option rlEntry) (last : Time) : Z :=
  match e with
  | None => maxReqs * windows (Z.max (last - delay) first_window)
  | Some e =>
      if rl_start e <? first_window then maxReqs * windows first_window
      else if rl_start e <? horizon then maxReqs - rl_count e + maxReqs * windows (rl_start e + spacing)
      else 0
  end.
Definition begun (e : option rlEntry) (last : Time) : Prop :=
  match e with None => True | Some e => rl_start e <= last end.

Lemma budget_pos e last : sane e -> 0 <= budget e last.
Proof.
  intros Hs. destruct e as [e|]; cbn in *; [|pose proof (windows_pos (Z.max (last - delay) first_window)); nia].
  repeat case_match; pose proof (windows_pos first_window); pose proof (windows_pos (rl_start e + spacing)); nia.
Qed.

(** A new window at [now] is paid for by any budget from which it may start. *)
Lemma budget_new now last x :
  x <= Z.max now first_window ->
  (if (lo <=? now) && (now <? lo + window) then 1 else 0) + budget (Some (mkEntry now 1)) last <= maxReqs * windows x.
Proof.
  intros Hx. pose proof (windows_pos x) as Hp. cbn. unfold first_window, horizon in *.
  destruct (Z.ltb_spec now (lo - window + 1)).
  - destruct (Z.leb_spec lo now); [lia|]. cbn. pose proof (windows_mono x (lo - window + 1)). nia.
  - pose proof (windows_mono x now ltac:(lia)). destruct (Z.ltb_spec now (lo + window + delay)).
    + rewrite (windows_next now) in * by done. destruct ((lo <=? now) && _); nia.
    + destruct (Z.ltb_spec now (lo + window)); [lia|]. rewrite andb_false_r. nia.
Qed.

(** Serving a request is paid for by the budget. *)
Lemma spend c m ok l' last :
  Allow (c_ip c) (c_read c) (mkLimiter window maxReqs m) = (ok, l') -> sane (m !! ip) -> begun (m !! ip) last ->
  last <= c_locked c -> c_read c <= c_locked c <= c_read c + delay ->
  exists m', l' = mkLimiter window maxReqs m' /\ sane (m' !! ip) /\ begun (m' !! ip) (c_locked c) /\
    (if bool_decide (c_ip c = ip) && ok && (lo <=? c_read c) && (c_read c <? lo + window) then 1 else 0)
      + budget (m' !! ip) (c_locked c) <= budget (m !! ip) last.
Proof.
  intros H Hs Hb Hl Hc. destruct (Allow_entry _ _ _ _ _ H Hs) as (m' & -> & Hs' & Hother & Hown).
  exists m'. split; [done|]. split; [done|]. case_bool_decide as E; cbn [andb].
  - destruct (Hown E) as [(-> & -> & He)|[(e & Ee & -> & ->)|(e & Ee & -> & Hn & ->)]]; cbn [andb].
    + split; [cbn; lia|]. destruct (m !! ip) as [e|].
      * specialize (He e eq_refl). cbn in Hs, Hb.
        destruct (Z.ltb_spec (rl_start e) first_window) as [Hf|Hf]; [|destruct (Z.ltb_spec (rl_start e) horizon) as [Hh|Hh]].
        -- etrans; [apply (budget_new _ _ first_window); lia|]. cbn [budget]. by rewrite (proj2 (Z.ltb_lt _ _) Hf).
        -- etrans; [apply (budget_new _ _ (rl_start e + spacing)); unfold spacing; lia|]. cbn [budget].
           rewrite (proj2 (Z.ltb_ge _ _) Hf), (proj2 (Z.ltb_lt _ _) Hh). lia.
        -- etrans; [apply (budget_new _ _ (c_read c)); lia|]. rewrite windows_none by lia. cbn [budget].
           rewrite (proj2 (Z.ltb_ge _ _) Hf), (proj2 (Z.ltb_ge _ _) Hh). lia.
      * etrans; [apply (budget_new _ _ (Z.max (last - delay) first_window)); lia|]. done.
    + rewrite Ee in *. split; [cbn in *; lia|]. cbn [budget]. lia.
    + rewrite Ee in *. cbn in Hb. split; [cbn; lia|]. cbn [budget rl_start rl_count]. unfold first_window, horizon in *.
      destruct (Z.ltb_spec (rl_start e) (lo - window + 1)); [destruct (Z.leb_spec lo (c_read c)); cbn; lia|].
      destruct (Z.ltb_spec (rl_start e) (lo + window + delay)); [destruct ((lo <=? c_read c) && _); lia|].
      destruct (Z.ltb_spec (c_read c) (lo + window)); [lia|]. rewrite andb_false_r. lia.
  - destruct (Hother E) as [->|[-> (e & Ee & He)]].
    + destruct (m !! ip) as [e|]; cbn in *; [split; lia|]. split; [done|].
      pose proof (windows_mono (Z.max (last - delay) first_window) (Z.max (c_locked c - delay) first_window)). nia.
    + split; [done|]. rewrite Ee in Hs |- *. cbn in *. unfold spacing.
      destruct (Z.ltb_spec (rl_start e) first_window).
      { pose proof (windows_mono first_window (Z.max (c_locked c - delay) first_window)). nia. }
      destruct (Z.ltb_spec (rl_start e) horizon).
      { pose proof (windows_mono (rl_start e + (window - delay)) (Z.max (c_locked c - delay) first_window)). nia. }
      rewrite windows_none by lia. lia.
Qed.

Lemma within_budget calls : forall m last,
  served_within delay calls -> (forall c, c ∈ calls -> last <= c_locked c) -> sane (m !! ip) -> begun (m !! ip) last ->
  allowed_between ip lo (lo + window) calls (mkLimiter window maxReqs m) <= budget (m !! ip) last.
Proof.
  induction calls as [|c calls IH]; intros m last [Hsort Hin] Hlast Hs Hb; [by apply (budget_pos (m !! ip) last)|].
  cbn [allowed_between]. destruct (Allow _ _ _) as [ok l'] eqn:Ea.
  destruct (spend c m ok l' last Ea Hs Hb) as (m' & -> & Hs' & Hb' & Hpay); [apply Hlast; by left|apply Hin; by left|].
  etrans; [|exact Hpay]. apply Z.add_le_mono_l, IH; [| |done|done].
  - split; [by inversion_clear Hsort|]. intros x Hx. apply Hin. by right.
  - apply Sorted_StronglySorted in Hsort; [|intros ???; lia]. inversion_clear Hsort as [|? ? _ Hf].
    rewrite Forall_forall in Hf. intros x Hx. apply Hf, list_elem_of_fmap. by exists x.
Qed.

Lemma within_windows calls : served_within delay calls ->
  allowed_between ip lo (lo + window) calls (newIPRateLimiter maxReqs window) <= maxReqs * windows first_window.
Proof.
  intros H. destruct calls as [|c calls]; [cbn; pose proof (windows_pos first_window); nia|].
  etrans; [apply (within_budget _ ∅ (c_locked c)); [done| |done|done]|].
  - destruct H as [Hsort _]. apply Sorted_StronglySorted in Hsort; [|intros ???; lia]. inversion_clear Hsort as [|? ? _ Hf].
    rewrite Forall_forall in Hf. intros x [->|Hx]%elem_of_cons; [lia|]. apply Hf, list_elem_of_fmap. by exists x.
  - cbn [lookup budget]. rewrite lookup_empty. cbn [budget].
    pose proof (windows_mono first_window (Z.max (c_locked c - delay) first_window)). nia.
Qed.
End Bound.

(** C33: the limiter limits.  Whatever requests arrive, from whatever addresses
    and in whatever order of addresses, no address is let through more than
    twice the configured number of times in any interval as long as the window,
    if each call holds the mutex at the moment for which it read the clock; and
    no more than three times that number if calls wait for the mutex, so that
    their times are out of order, as long as none waits longer than a quarter of
    the window.  Evicting expired entries of a full table grants nobody more. *)
Theorem rate_limit_bound maxReqs window delay ip lo calls :
  0 < maxReqs -> 0 < window <= int64_max -> 0 <= delay -> served_within delay calls ->
  (delay = 0 -> allowed_between ip lo (lo + window) calls (newIPRateLimiter maxReqs window) <= 2 * maxReqs) /\
  (4 * delay <= window -> allowed_between ip lo (lo + window) calls (newIPRateLimiter maxReqs window) <= 3 * maxReqs).
Proof.
  intros Hm Hw Hd Hc.
  assert (forall n, delay < window -> 0 <= n -> 2 * window + delay - 2 < n * (window - delay) ->
    allowed_between ip lo (lo + window) calls (newIPRateLimiter maxReqs window) <= n * maxReqs) as H.
  { intros n Hlt Hn Hk. etrans; [apply (within_windows ip lo window maxReqs delay); [done|done|lia|done]|].
    unfold windows, horizon, first_window, spacing.
    pose proof (Z.div_lt_upper_bound (lo + window + delay - 1 - (lo - window + 1)) (window - delay) n). nia. }
  split; intros Hdel; [apply H; nia|apply H; lia].
Qed.

(** A limit of three a minute.  The seventh call starts a third window; two calls
    that read the clock two seconds before it are served after it.  Seven
    requests have times in the minute from 60 on: three windows had a part in it. *)
Definition demo_calls : list call :=
  let at_ read locked := mkCall "10.0.0.1" (read * Second) (locked * Second) in
  [at_ 1 1; at_ 60 60; at_ 60 60; at_ 61 61; at_ 62 62; at_ 63 63; at_ 121 121; at_ 119 121; at_ 119 121].

Lemma rate_limit_bound_witness :
  allowed_between "10.0.0.1" (60 * Second) (60 * Second + Minute) demo_calls (newIPRateLimiter 3 Minute) = 7 /\
  allowed_between "10.0.0.1" (60 * Second) (60 * Second + Minute) demo_calls (newIPRateLimiter 3 Minute) <= 3 * 3.
Proof.
  split; [vm_compute; reflexivity|].
  apply (rate_limit_bound 3 Minute (2 * Second) "10.0.0.1" (60 * Second) demo_calls);
    [reflexivity|split; [reflexivity|discriminate]|discriminate| |discriminate].
  split; [repeat constructor; discriminate|].
  intros c Hc. unfold demo_calls in Hc. rewrite !elem_of_cons, elem_of_nil in Hc. destruct_or! Hc; subst c; by vm_compute.
Defined.
