(* ===== verification/Status.v ===== *)
(** * Certificate status documents

    Models internal/api/serial.go and the status responses of
    internal/api/handlers.go: how one certificate, index record or request is
    described, and the listing of all of them.  Fingerprints are symbolic: the
    DER bytes they are computed from, [None] for the empty string. *)

From S2P Require Import Prelude GoStrings GoTime X509 Inventory Storage InventorySpec Policy.
From S2P Require Import CAState CRLChain CRL OCSP CRLSafety Supersede Signing Lifecycle.
From Stdlib Require Import Ascii.

(** ** Serial numbers (serial.go) *)

Definition SerialNumberAsNumber := "number".
Definition SerialNumberAsHex := "hex".

Definition ParseSerialNumberFormat (s : string) : result string :=
  let f := ToLower (TrimSpace s) in
  if bool_decide (f = "") then Ok SerialNumberAsNumber
  else if bool_decide (f = SerialNumberAsNumber) || bool_decide (f = SerialNumberAsHex) then Ok f
  else Err (Msg "unknown serial number format").

(** [n.Bytes()]: the magnitude, big-endian; [Z.log2 n + 1] bytes are enough. *)
Fixpoint magnitude_bytes (fuel : nat) (n : Z) (acc : list Z) : list Z :=
  match fuel with
  | O => acc
  | S fuel => if n =? 0 then acc else magnitude_bytes fuel (n / 256) (n mod 256 :: acc)
  end.
Definition big_Bytes (n : Z) : list Z := magnitude_bytes (Z.to_nat (Z.log2 (Z.abs n) + 1)) (Z.abs n) [].

(** [fmt.Sprintf("%02X", c)] for a byte. *)
Definition hex2 (b : Z) : string := String (hex_digit (b / 16)) (String (hex_digit (b mod 16)) "").

Definition colonHex (n : Z) : string :=
  let b := big_Bytes n in
  let hex := Join ":" (map hex2 (if bool_decide (b = []) then [0] else b)) in
  if n <? 0 then "-" +:+ hex else hex.

Record CertSerial := newCertSerial { cs_Int : Z; cs_format : string }.
Inductive serial_json := JNumber (n : Z) | JString (s : string).
Definition MarshalJSON (s : CertSerial) : serial_json :=
  if bool_decide (cs_format s = SerialNumberAsHex) then JString (colonHex (cs_Int s))
  else JNumber (cs_Int s).

(** ** One document *)

Record CertStatusResponse := mkStatus {
  s_Name : string;
  s_State : string;
  s_Fingerprint : option der;
  s_Fingerprints : list (string * option der);
  s_DNSAltNames : list string;
  s_SubjectAltNames : list string;
  s_AuthorizationExtensions : gmap string string;
  s_SerialNumber : option CertSerial;
  s_NotBefore : option string;
  s_NotAfter : option string }.

Definition set_State (state : string) (r : CertStatusResponse) : CertStatusResponse :=
  mkStatus (s_Name r) state (s_Fingerprint r) (s_Fingerprints r) (s_DNSAltNames r) (s_SubjectAltNames r)
    (s_AuthorizationExtensions r) (s_SerialNumber r) (s_NotBefore r) (s_NotAfter r).

Definition fingerprint (data : blob) : option der :=
  match pem_Decode data with (Some block, _) => Some (Bytes block) | (None, _) => None end.
Definition fingerprints (fp : option der) : list (string * option der) := [("SHA256", fp); ("default", fp)].

Definition dnsAltNames (names : list string) : list string := map (fun n => "DNS:" +:+ n) names.
Definition subjectAltNames_of (ipAddrs dnsNames : list string) : list string :=
  map (fun ip => "IP:" +:+ ip) ipAddrs ++ dnsAltNames dnsNames.

(** The two layouts differ in how they write UTC. *)
Definition format_RFC3339 : Time -> string := format_stamp "Z".
Definition timeFormat (puppet : bool) (t : Time) : string :=
  if puppet then format_time t else format_RFC3339 t.

Definition parseCSR (pemData : blob) : result CertificateRequest :=
  match pem_Decode pemData with
  | (None, _) => Err (Msg "failed to decode CSR PEM")
  | (Some block, _) =>
      match ParseCertificateRequest (Bytes block) with
      | Ok c => Ok c
      | Err e => Err (Wrap "failed to parse CSR" [e])
      end
  end.

Section Render.
(** The server's settings: the Puppet date layout and the serial format. *)
Context (puppet : bool) (serialFmt : string).

Definition certStatusFromCert (subject : string) (certPEM : blob) (state : string) : CertStatusResponse :=
  let fp := fingerprint certPEM in
  match decode_cert certPEM with
  | None => mkStatus subject state fp (fingerprints fp) [] [] ∅ None None None
  | Some cert =>
      mkStatus subject state fp (fingerprints fp) (dnsAltNames (DNSNames (cert_sans cert)))
        (subjectAltNames_of (IPAddresses (cert_sans cert)) (DNSNames (cert_sans cert)))
        (AuthExtensionMap (Extensions cert)) (Some (newCertSerial (SerialNumber cert) serialFmt))
        (Some (timeFormat puppet (NotBefore cert))) (Some (timeFormat puppet (NotAfter cert)))
  end.

Definition certStatusFromCSR (subject : string) (csrPEM : blob) : CertStatusResponse :=
  let fp := fingerprint csrPEM in
  match parseCSR csrPEM with
  | Err _ => mkStatus subject "requested" fp (fingerprints fp) [] [] ∅ None None None
  | Ok csr =>
      mkStatus subject "requested" fp (fingerprints fp) (dnsAltNames (DNSNames (csr_sans csr)))
        (subjectAltNames_of (IPAddresses (csr_sans csr)) (DNSNames (csr_sans csr)))
        (AuthExtensionMap (csr_Extensions csr)) None None None
  end.

Definition state_text (s : CertState) : string :=
  match s with CertStateSigned => "signed" | CertStateRevoked => "revoked" | CertStateUnknown => "" end.

Definition certStatusFromRecord (rec : CertRecord) : option CertStatusResponse :=
  let e := cr_entry rec in
  match Fingerprint (cr_proj rec), SetString16 (ie_Serial e), parse_time (ie_NotBefore e), parse_time (ie_NotAfter e) with
  | Some cert, Some serial, Some nb, Some na =>
      let fp := Some (DerCert cert) in
      Some (mkStatus (ie_Subject e) (state_text (State rec)) fp (fingerprints fp)
              (dnsAltNames (DNSAltNames (cr_proj rec)))
              (subjectAltNames_of (IPAltNames (cr_proj rec)) (DNSAltNames (cr_proj rec)))
              (AuthExtensions (cr_proj rec)) (Some (newCertSerial serial serialFmt))
              (Some (timeFormat puppet nb)) (Some (timeFormat puppet na)))
  | _, _, _, _ => None
  end.

(** ** The listing *)

Definition normaliseSerial (serial : string) : option string := hexX <$> SetString16 serial.
Definition certSerialIs (cert : Certificate) (serial : string) : bool :=
  match SetString16 serial with Some want => want =? SerialNumber cert | None => false end.

Definition revoked_state (revoked : gmap string Time) (key : option string) : string :=
  match key with
  | Some k => match revoked !! k with Some _ => "revoked" | None => "signed" end
  | None => "signed"
  end.

(** An empty filter keeps every state. *)
Definition keeps (stateFilter state : string) : bool :=
  bool_decide (stateFilter = "") || bool_decide (state = stateFilter).

(** An index record is described from the index, or from the stored
    certificate where the record lacks what is needed. *)
Definition record_status (revoked : gmap string Time) (rec : CertRecord) : MW (option CertStatusResponse) :=
  let serial := ie_Serial (cr_entry rec) in
  let subject := ie_Subject (cr_entry rec) in
  let state := revoked_state revoked (normaliseSerial serial) in
  match certStatusFromRecord rec with
  | Some resp => mret (Some (set_State state resp))
  | None =>
      r ← try (lift (GetCert subject));
      match r with
      | Err _ => mret None
      | Ok certPEM =>
          let state := match decode_cert certPEM with
                       | Some cert => if certSerialIs cert serial then state
                                      else revoked_state revoked (Some (hexX (SerialNumber cert)))
                       | None => state
                       end in
          mret (Some (certStatusFromCert subject certPEM state))
      end
  end.

Fixpoint record_statuses (stateFilter : string) (revoked : gmap string Time) (records : list CertRecord)
    : MW (list CertStatusResponse) :=
  match records with
  | [] => mret []
  | rec :: records =>
      r ← record_status revoked rec;
      rest ← record_statuses stateFilter revoked records;
      mret (match r with
            | Some resp => if keeps stateFilter (s_State resp) then resp :: rest else rest
            | None => rest
            end)
  end.

(** Stored certificates.  With an index, only those it has no row for. *)
Fixpoint cert_statuses (stateFilter : string) (indexed : bool) (seen : gset string) (certs : list string)
    : MW (list CertStatusResponse * gset string) :=
  match certs with
  | [] => mret ([], seen)
  | subject :: certs =>
      if indexed && bool_decide (subject ∈ seen) then cert_statuses stateFilter indexed seen certs
      else
        let seen := {[subject]} ∪ seen in
        r ← try (lift (GetCert subject));
        match r with
        | Err _ => cert_statuses stateFilter indexed seen certs
        | Ok certPEM =>
            revoked ← IsRevoked subject;
            let state := if (revoked : bool) then "revoked" else "signed" in
            '(rest, seen) ← cert_statuses stateFilter indexed seen certs;
            mret (if keeps stateFilter state then certStatusFromCert subject certPEM state :: rest else rest, seen)
        end
  end.

Fixpoint csr_statuses (stateFilter : string) (seen : gset string) (csrs : list string)
    : MW (list CertStatusResponse) :=
  match csrs with
  | [] => mret []
  | subject :: csrs =>
      if bool_decide (subject ∈ seen) || negb (keeps stateFilter "requested")
      then csr_statuses stateFilter seen csrs
      else
        r ← try (lift (GetCSR subject));
        rest ← csr_statuses stateFilter seen csrs;
        mret (match r with Ok csrPEM => certStatusFromCSR subject csrPEM :: rest | Err _ => rest end)
  end.

(** The body of the listing; an error is a 500. *)
Definition list_statuses (stateFilter : string) : MW (list CertStatusResponse) :=
  records ← lift (CertStatuses None);
  '(from_index, seen, indexed) ←
    (match records with
     | Some records =>
         revoked ← get_ca RevokedSerials;
         l ← record_statuses stateFilter revoked records;
         mret (l, list_to_set (map (fun rec => ie_Subject (cr_entry rec)) records) : gset string, true)
     | None => mret ([], ∅, false)
     end);
  certs ← lift ListCerts;
  '(from_certs, seen) ← cert_statuses stateFilter indexed seen certs;
  csrs ← lift ListCSRs;
  from_csrs ← csr_statuses stateFilter seen csrs;
  mret (from_index ++ from_certs ++ from_csrs).
End Render.

(** ** Lemmas: serials in hex *)

Fixpoint without_colons (s : string) : string :=
  match s with
  | "" => ""
  | String c s => if Ascii.eqb c ":"%char then without_colons s else String c (without_colons s)
  end.

Lemma without_colons_app a b : without_colons (a +:+ b) = without_colons a +:+ without_colons b.
Proof. induction a as [|c a IH]; simpl; [done|]. destruct (Ascii.eqb c ":"); simpl; by rewrite IH. Qed.

Definition is_byte (b : Z) : Prop := 0 <= b < 256.

Lemma hex2_bytes b : is_byte b -> all_bytes isHexX (hex2 b) = true /\ without_colons (hex2 b) = hex2 b.
Proof.
  intros Hb. unfold is_byte in Hb. assert (0 <= b / 16 < 16 /\ 0 <= b mod 16 < 16) as [H1 H2] by dlia.
  assert (forall d, 0 <= d < 16 -> Ascii.eqb (hex_digit d) ":"%char = false) as Hc.
  { intros d Hd. destruct (Ascii.eqb_spec (hex_digit d) ":"%char) as [E|]; [|done].
    pose proof (hex_digit_isHexX d Hd) as Hx. by rewrite E in Hx. }
  cbn [hex2 all_bytes without_colons]. rewrite !Hc, !hex_digit_isHexX by done. done.
Qed.

Lemma hex2_value b acc : is_byte b -> hex_acc acc (hex2 b) = Some (256 * acc + b).
Proof.
  intros Hb. unfold is_byte in Hb. assert (0 <= b / 16 < 16 /\ 0 <= b mod 16 < 16) as [H1 H2] by dlia.
  cbn [hex2 hex_acc]. rewrite hex_val_digit by done. cbn. rewrite hex_val_digit by done. cbn. f_equal. dlia.
Qed.

Definition value (acc : Z) (bs : list Z) : Z := fold_left (fun a b => 256 * a + b) bs acc.

(** Joined with colons and stripped of them again, the bytes read as their
    value. *)
Lemma joined_value bs : Forall is_byte bs -> forall acc,
  let s := without_colons (Join ":" (map hex2 bs)) in
  hex_acc acc s = Some (value acc bs) /\ all_bytes isHexX s = true /\ (bs <> [] -> s <> "").
Proof.
  induction 1 as [|b bs Hb Hbs IH]; intros acc; [done|]. cbv zeta.
  destruct (hex2_bytes b Hb) as [B1 B2].
  assert (without_colons (Join ":" (map hex2 (b :: bs))) = hex2 b +:+ without_colons (Join ":" (map hex2 bs))) as ->.
  { cbn [map]. destruct bs as [|b' bs']; cbn [map Join].
    - rewrite B2. cbn [without_colons]. by rewrite app_empty_r.
    - rewrite !without_colons_app, B2. done. }
  destruct (IH (256 * acc + b)) as (I1 & I2 & _). rewrite hex_acc_app, hex2_value by done.
  split; [exact I1|]. split; [|done]. by rewrite all_bytes_app, B1, I2.
Qed.

Lemma magnitude_spec fuel n acc :
  0 <= n -> n < 2 ^ Z.of_nat fuel -> Forall is_byte acc ->
  Forall is_byte (magnitude_bytes fuel n acc) /\
  (forall a, value a (magnitude_bytes fuel n acc) = value (value a (magnitude_bytes fuel n [])) acc) /\
  value 0 (magnitude_bytes fuel n []) = n.
Proof.
  revert n acc. induction fuel as [|fuel IH]; intros n acc Hn Hlt Hacc.
  { simpl in Hlt. cbn. split_and!; [done..|]. cbn. lia. }
  cbn [magnitude_bytes]. destruct (Z.eqb_spec n 0) as [->|Hnz]; [done|].
  assert (n / 256 < 2 ^ Z.of_nat fuel).
  { rewrite Nat2Z.inj_succ, Z.pow_succ_r in Hlt by lia. apply Z.div_lt_upper_bound; lia. }
  assert (is_byte (n mod 256)) by (unfold is_byte; dlia).
  destruct (IH (n / 256) (n mod 256 :: acc)) as (A1 & A2 & A3); [dlia|done|by constructor|].
  destruct (IH (n / 256) [n mod 256]) as (_ & B2 & _); [dlia|done|by apply Forall_singleton|].
  split; [done|]. split.
  - intros a. rewrite A2, B2. done.
  - rewrite B2, A3. cbn. dlia.
Qed.

Lemma big_Bytes_value n : Forall is_byte (big_Bytes n) /\ value 0 (big_Bytes n) = Z.abs n.
Proof.
  unfold big_Bytes. destruct (magnitude_spec (Z.to_nat (Z.log2 (Z.abs n) + 1)) (Z.abs n) []) as (H1 & _ & H3);
    [lia| |done|done].
  rewrite Z2Nat.id by (pose proof (Z.log2_nonneg (Z.abs n)); lia).
  destruct (Z.eq_dec (Z.abs n) 0) as [->|]; [done|]. apply Z.log2_spec. lia.
Qed.

(** No serial is lost in print.  The colon-separated form of a serial, its
    colons removed, parses back to the serial, whatever its size and sign. *)
Theorem colonHex_roundtrip n : SetString16 (without_colons (colonHex n)) = Some n.
Proof.
  destruct (big_Bytes_value n) as [Hb Hv]. unfold colonHex.
  set (bs := if bool_decide _ then _ else _).
  assert (Forall is_byte bs /\ value 0 bs = Z.abs n /\ bs <> []) as (Hbs & Hval & Hne).
  { subst bs. case_bool_decide as E; [|done]. rewrite E in Hv. split; [by apply Forall_singleton|]. done. }
  destruct (joined_value bs Hbs 0) as (J1 & J2 & J3). rewrite Hval in J1. specialize (J3 Hne).
  destruct (Z.ltb_spec n 0).
  - cbn [String.append without_colons]. change (Ascii.eqb "-" ":"%char) with false. cbn [SetString16].
    change (Ascii.eqb "-" "-"%char) with true. cbv iota. rewrite bool_decide_eq_false_2 by done.
    rewrite J1. cbn. f_equal. lia.
  - rewrite SetString16_digits by done. rewrite J1. f_equal. lia.
Qed.

(** ** Lemmas: the listing, when the storage answers *)

Lemma backend_answers {A} (op : BOp A) s : faults s = [] -> reads op -> backend op s = ((op (be s)).1, s).
Proof.
  intros Hf Hr. unfold backend, pop_fault. rewrite Hf. specialize (Hr (be s)).
  destruct (op (be s)) as [r b]. cbn in *. subst b. by destruct s.
Qed.
Lemma set_st_id w : set_st (st w) w = w.
Proof. by destruct w. Qed.

Lemma listed_map_complete entries n :
  n ∈ map rle_SerialNumber entries -> is_Some (listed_map entries !! serialHexStr n).
Proof.
  unfold listed_map. generalize (∅ : gmap string Time) as m.
  assert (forall l (m : gmap string Time) k, is_Some (m !! k) ->
    is_Some (fold_left (fun m e => <[serialHexStr (rle_SerialNumber e) := RevocationTime e]> m) l m !! k)) as Hkeep.
  { induction l as [|e l IH]; intros m k Hk; [done|]. cbn [fold_left]. apply IH.
    rewrite lookup_insert. by case_decide. }
  induction entries as [|e entries IH]; intros m Hn; [by apply elem_of_nil in Hn|]. cbn [map fold_left] in *.
  apply elem_of_cons in Hn as [->|Hn]; [|by apply IH]. apply Hkeep. rewrite lookup_insert_eq. by eexists.
Qed.

Section Listing.
Context (puppet : bool) (serialFmt : string) (w : World).
Hypothesis Hfaults : faults (st w) = [].

Lemma lift_answers {A} (op : BOp A) : reads op -> lift (backend op) w = ((op (be (st w))).1, w).
Proof. intros Hr. unfold lift. rewrite backend_answers by done. by rewrite set_st_id. Qed.

(** The certificate stored for a subject, as [GetCert] reads it. *)
Definition stored_cert (subject : string) : result blob := (be_Get (CertKey subject) (be (st w))).1.
Lemma get_stored subject : lift (GetCert subject) w = (stored_cert subject, w).
Proof. apply lift_answers, reads_Get. Qed.

Definition crl_lists (n : Z) : Prop := exists crl, cachedCRL (ca w) = Some crl /\ n ∈ revoked_serials crl.

(** The state reported agrees with the CRL in memory. *)
Definition truthful (r : CertStatusResponse) : Prop :=
  forall s, s_SerialNumber r = Some s ->
    (s_State r = "revoked" /\ crl_lists (cs_Int s)) \/ (s_State r = "signed" /\ ~ crl_lists (cs_Int s)).

Lemma revoked_state_spec n :
  (revoked_state (RevokedSerials (ca w)) (Some (hexX n)) = "revoked" /\ crl_lists n) \/
  (revoked_state (RevokedSerials (ca w)) (Some (hexX n)) = "signed" /\ ~ crl_lists n).
Proof.
  unfold revoked_state, RevokedSerials, crl_lists. destruct (cachedCRL (ca w)) as [crl|].
  - destruct (listed_map (RevokedCertificateEntries crl) !! hexX n) eqn:E.
    + left. split; [done|]. exists crl. split; [done|].
      destruct (listed_map_lookup (RevokedCertificateEntries crl) (hexX n)) as (m & Hm & Hx); [by eexists|].
      apply hexX_inj in Hx as ->. exact Hm.
    + right. split; [done|]. intros (? & [= <-] & Hn). apply listed_map_complete in Hn as [? Hn].
      unfold serialHexStr in Hn. congruence.
  - rewrite lookup_empty. right. split; [done|]. by intros (? & ? & _).
Qed.

Lemma from_cert_truthful subject pem state :
  (forall cert, decode_cert pem = Some cert ->
     (state = "revoked" /\ crl_lists (SerialNumber cert)) \/ (state = "signed" /\ ~ crl_lists (SerialNumber cert))) ->
  truthful (certStatusFromCert puppet serialFmt subject pem state) /\
  s_Name (certStatusFromCert puppet serialFmt subject pem state) = subject.
Proof.
  intros H. unfold certStatusFromCert, truthful. destruct (decode_cert pem) as [cert|]; [|done].
  cbn [s_SerialNumber s_State s_Name]. split; [|done]. intros s [= <-]. by apply H.
Qed.

Lemma record_status_spec rec :
  let subject := ie_Subject (cr_entry rec) in
  exists o, record_status puppet serialFmt (RevokedSerials (ca w)) rec w = (Ok o, w) /\
    (forall r, o = Some r -> truthful r /\ s_Name r = subject) /\
    (is_ok (stored_cert subject) = true -> is_Some o).
Proof.
  cbv zeta. unfold record_status. destruct (certStatusFromRecord puppet serialFmt rec) as [resp|] eqn:E.
  - eexists. split; [done|]. split; [|by eexists]. intros r [= <-]. unfold certStatusFromRecord in E.
    destruct (Fingerprint _); [|done]. unfold normaliseSerial.
    destruct (SetString16 _) as [n|]; [|done]. destruct (parse_time _); [|done]. destruct (parse_time _); [|done].
    injection E as <-. cbn. split; [|done]. intros s [= <-]. cbn [s_State set_State cs_Int].
    destruct (revoked_state_spec n) as [H|H]; [by left|by right].
  - unfold mbind, M_bind, try. rewrite get_stored. destruct (stored_cert _) as [pem|e]; [|by eexists].
    eexists. split; [done|]. split; [|by eexists]. intros r [= <-]. apply from_cert_truthful.
    intros cert ->. unfold certSerialIs, normaliseSerial.
    destruct (SetString16 _) as [n|]; [|apply revoked_state_spec].
    destruct (Z.eqb_spec n (SerialNumber cert)) as [->|]; apply revoked_state_spec.
Qed.

Lemma record_statuses_spec filter records :
  exists l, record_statuses puppet serialFmt filter (RevokedSerials (ca w)) records w = (Ok l, w) /\
    (forall r, r ∈ l -> truthful r) /\
    (filter = "" -> forall rec, rec ∈ records -> is_ok (stored_cert (ie_Subject (cr_entry rec))) = true ->
       exists r, r ∈ l /\ s_Name r = ie_Subject (cr_entry rec)).
Proof.
  induction records as [|rec records (l & E & Ht & Hc)].
  { exists []. split; [done|]. split; [by intros r Hr%elem_of_nil|by intros _ rec Hr%elem_of_nil]. }
  destruct (record_status_spec rec) as (o & E1 & Ho & Hs). cbn [record_statuses].
  eexists. unfold mbind, M_bind. rewrite E1, E. split; [done|]. split.
  - intros r. destruct o as [r0|]; [|apply Ht]. destruct (keeps filter (s_State r0)); [|apply Ht].
    intros [->|Hr]%elem_of_cons; [|by apply Ht]. by apply Ho.
  - intros -> rec' [->|Hr]%elem_of_cons Hk.
    + destruct (Hs Hk) as [r0 ->]. unfold keeps. rewrite bool_decide_eq_true_2 by done. cbn [orb].
      exists r0. split; [by left|]. by apply Ho.
    + destruct (Hc eq_refl rec' Hr Hk) as (r0 & Hr0 & Hn). exists r0. split; [|done].
      destruct o as [r1|]; [|done]. destruct (keeps "" (s_State r1)); [by right|done].
Qed.

Lemma IsRevoked_spec subject pem :
  stored_cert subject = Ok pem ->
  exists b, IsRevoked subject w = (Ok b, w) /\
    forall cert, decode_cert pem = Some cert -> (b = true <-> crl_lists (SerialNumber cert)).
Proof.
  intros Hp. unfold IsRevoked, mbind, M_bind, try. rewrite get_stored, Hp. unfold get_ca, gets, crl_lists.
  destruct (decode_cert pem) as [cert|]; [|by eexists]. eexists. split; [done|]. intros ? [= <-].
  destruct (cachedCRL (ca w)) as [crl|]; [|split; [done|by intros (? & ? & _)]].
  rewrite serialInCRL_spec. split; [by exists crl|]. by intros (? & [= <-] & ?).
Qed.

Lemma cert_statuses_spec filter indexed certs : forall seen,
  exists l seen', cert_statuses puppet serialFmt filter indexed seen certs w = (Ok (l, seen'), w) /\
    (forall r, r ∈ l -> truthful r) /\
    (filter = "" -> forall subject, subject ∈ certs -> is_ok (stored_cert subject) = true ->
       (indexed = true /\ subject ∈ seen) \/ exists r, r ∈ l /\ s_Name r = subject).
Proof.
  induction certs as [|subject certs IH]; intros seen.
  { exists [], seen. split; [done|]. split; [by intros r Hr%elem_of_nil|by intros _ ? Hr%elem_of_nil]. }
  cbn [cert_statuses]. destruct (indexed && bool_decide (subject ∈ seen)) eqn:Eskip.
  { destruct (IH seen) as (l & seen' & E & Ht & Hc). exists l, seen'. split; [done|]. split; [done|].
    intros Hf s [->|Hs]%elem_of_cons Hk; [|by apply Hc]. left. by bool_hyps. }
  destruct (IH ({[subject]} ∪ seen)) as (l & seen' & E & Ht & Hc).
  unfold mbind, M_bind, try. rewrite get_stored. destruct (stored_cert subject) as [pem|e] eqn:Es.
  - destruct (IsRevoked_spec _ _ Es) as (b & -> & Hb). rewrite E.
    set (r0 := certStatusFromCert puppet serialFmt subject pem (if b then "revoked" else "signed")).
    assert (truthful r0 /\ s_Name r0 = subject) as [Ht0 Hn0].
    { apply from_cert_truthful. intros cert Hd. specialize (Hb cert Hd). destruct b; [left|right]; split; naive_solver. }
    eexists _, _. split; [done|]. split.
    + intros r. destruct (keeps filter _); [|apply Ht]. intros [->|Hr]%elem_of_cons; [done|by apply Ht].
    + intros -> s Hs Hk. assert (keeps "" (if b then "revoked" else "signed") = true) as -> by done.
      apply elem_of_cons in Hs as [->|Hs]; [right; exists r0; split; [by left|done]|].
      destruct (Hc eq_refl s Hs Hk) as [[Hi Hin]|(r & Hr & Hn)]; [|right; exists r; split; [by right|done]].
      apply elem_of_union in Hin as [->%elem_of_singleton|Hin]; [right; exists r0; split; [by left|done]|by left].
  - exists l, seen'. rewrite E. split; [done|]. split; [done|].
    intros Hf s [->|Hs]%elem_of_cons Hk; [by rewrite Es in Hk|].
    destruct (Hc Hf s Hs Hk) as [[Hi Hin]|?]; [|by right].
    apply elem_of_union in Hin as [->%elem_of_singleton|Hin]; [by rewrite Es in Hk|by left].
Qed.

Lemma csr_statuses_spec filter seen csrs :
  exists l, csr_statuses filter seen csrs w = (Ok l, w) /\ (forall r, r ∈ l -> s_SerialNumber r = None).
Proof.
  induction csrs as [|subject csrs (l & E & Ht)].
  { exists []. split; [done|]. by intros r Hr%elem_of_nil. }
  cbn [csr_statuses]. case_match; [by exists l|].
  unfold mbind, M_bind, try, GetCSR. rewrite lift_answers, E by apply reads_Get.
  eexists. split; [done|]. destruct (be_Get _ _).1 as [pem|]; [|done].
  intros r [->|Hr]%elem_of_cons; [|by apply Ht]. unfold certStatusFromCSR. by case_match.
Qed.

Lemma list_names : exists l, lift ListCerts w = (Ok l, w) /\
  forall subject, is_Some (blobs (be (st w)) !! CertKey subject) -> subject ∈ l.
Proof.
  unfold ListCerts, lift, mbind, M_bind. rewrite backend_answers by (done || apply reads_List).
  unfold be_List. change (bool_decide (certPrefix = csrPrefix) || bool_decide (certPrefix = certPrefix)) with true.
  cbn [fst]. unfold mret, M_ret. rewrite set_st_id. eexists. split; [reflexivity|]. intros subject [pem Hs].
  rewrite map_map. apply list_elem_of_fmap. exists subject. split.
  { unfold TrimPrefix. by rewrite CutPrefix_app. }
  rewrite merge_sort_Permutation. apply list_elem_of_omap. exists (CertKey subject, pem). split.
  - by apply elem_of_map_to_list.
  - apply CutPrefix_app.
Qed.
Lemma list_requests : exists l, lift ListCSRs w = (Ok l, w).
Proof.
  unfold ListCSRs, lift, mbind, M_bind, mret, M_ret. rewrite backend_answers by (done || apply reads_List).
  unfold be_List. change (bool_decide (csrPrefix = csrPrefix) || bool_decide (csrPrefix = certPrefix)) with true.
  cbn [fst]. rewrite set_st_id. by eexists.
Qed.

Lemma stored_readable subject pem :
  blobs (be (st w)) !! CertKey subject = Some pem -> validateKey (CertKey subject) = None ->
  is_ok (stored_cert subject) = true.
Proof.
  intros Hs Hv. unfold stored_cert, be_Get, guarded. rewrite Hv, Hs. by destruct (on_rows _ _).
Qed.
End Listing.

(** The listing tells the truth and leaves nobody out.  When the storage
    answers, listing the certificate statuses succeeds and changes nothing;
    every certificate in it is reported revoked exactly if the CRL in memory
    lists the serial reported with it, and signed otherwise, whichever of the
    index and the stored certificates it was described from; and without a
    filter every stored certificate's subject is in it. *)
Theorem list_statuses_truthful puppet serialFmt filter w :
  faults (st w) = [] ->
  exists l, list_statuses puppet serialFmt filter w = (Ok l, w) /\
    (forall r, r ∈ l -> truthful w r) /\
    (filter = "" -> forall subject pem, blobs (be (st w)) !! CertKey subject = Some pem ->
       validateKey (CertKey subject) = None -> exists r, r ∈ l /\ s_Name r = subject).
Proof.
  intros Hf. unfold list_statuses.
  assert (exists o, lift (CertStatuses None) w = (Ok o, w)) as [records E0].
  { unfold CertStatuses, is_structured, lift, mbind, M_bind, gets, mret, M_ret.
    destruct (structured (be (st w))); [|rewrite set_st_id; by eexists].
    rewrite backend_answers by (done || apply reads_Statuses). unfold sql_Statuses. cbn [fst].
    rewrite set_st_id. by eexists. }
  destruct (list_names w Hf) as (certs & E2 & Hall). destruct (list_requests w Hf) as (csrs & E4).
  unfold mbind, M_bind, mret, M_ret. rewrite E0. destruct records as [records|].
  - destruct (record_statuses_spec puppet serialFmt w Hf filter records) as (l1 & E1 & Ht1 & Hc1).
    unfold get_ca, gets. rewrite E1, E2.
    destruct (cert_statuses_spec puppet serialFmt w Hf filter true certs
      (list_to_set (map (fun rec => ie_Subject (cr_entry rec)) records))) as (l2 & seen & E3 & Ht2 & Hc2).
    rewrite E3, E4. destruct (csr_statuses_spec w Hf filter seen csrs) as (l3 & -> & Ht3).
    eexists. split; [done|]. split.
    + intros r [Hr|[Hr|Hr]%elem_of_app]%elem_of_app; [by apply Ht1|by apply Ht2|].
      intros s Hs. by rewrite (Ht3 r Hr) in Hs.
    + intros Hfl subject pem Hs Hv. pose proof (stored_readable w subject pem Hs Hv) as Hk.
      destruct (Hc2 Hfl subject (Hall _ ltac:(by eexists)) Hk) as [[_ Hin]|(r & Hr & Hn)].
      * apply elem_of_list_to_set, list_elem_of_fmap in Hin as (rec & -> & Hrec).
        destruct (Hc1 Hfl rec Hrec Hk) as (r & Hr & Hn). exists r. split; [|done]. apply elem_of_app. by left.
      * exists r. split; [|done]. apply elem_of_app. right. apply elem_of_app. by left.
  - rewrite E2.
    destruct (cert_statuses_spec puppet serialFmt w Hf filter false certs ∅) as (l2 & seen & E3 & Ht2 & Hc2).
    rewrite E3, E4. destruct (csr_statuses_spec w Hf filter seen csrs) as (l3 & -> & Ht3).
    exists (l2 ++ l3). split; [done|]. split.
    + intros r [Hr|Hr]%elem_of_app; [by apply Ht2|]. intros s Hs. by rewrite (Ht3 r Hr) in Hs.
    + intros Hfl subject pem Hs Hv. pose proof (stored_readable w subject pem Hs Hv) as Hk.
      destruct (Hc2 Hfl subject (Hall _ ltac:(by eexists)) Hk) as [[? _]|(r & Hr & Hn)]; [done|].
      exists r. split; [|done]. apply elem_of_app. by left.
Qed.
