(* ===== verification/Handlers.v ===== *)
(** * The HTTP API

    Models internal/api/handlers.go (the routes and their handlers),
    ocsp_handler.go and health_handler.go, behind the middleware of [Auth].
    An exchange is a request as the handlers see it: its method, its path cut
    into unescaped segments, the client's certificates, and what
    encoding/json, encoding/base64 and the body reader made of its body.  Log
    lines and content types are left out. *)

From S2P Require Import Prelude GoStrings GoTime X509 Inventory Storage InventorySpec Policy.
From S2P Require Import CAState CRLChain CRL OCSP CRLSafety Supersede Signing Lifecycle Import.
From S2P Require Import System Growth Verify Generate ClientCRL Auth RateLimit Status.

(** ** Requests *)

(** The fields of the JSON bodies; a field is an error if it has the wrong
    type, and its zero value if absent. *)
Record json_fields := mkFields {
  j_desired_state : result string;
  j_cert_ttl : result (option Z);
  j_force : result bool;
  j_certnames : result (list string) }.
Inductive json_body := JTooLarge | JMalformed | JObject (fields : json_fields).

Inductive ocsp_body := OBadBase64 | OUnreadable | OMalformed | ORequest (req : OCSPRequest).

Record Exchange := mkExchange {
  x_Method : string;
  x_Segments : list string;
  (** the path is clean: otherwise the mux redirects to the clean form *)
  x_Canonical : bool;
  x_PeerCertificates : option (list Certificate);
  x_clientIP : string;
  x_json : json_body;
  x_raw : result blob;
  x_ocsp : ocsp_body;
  x_query_state : string;
  x_query_dns : list string;
  (** a parsable If-Modified-Since header *)
  x_since : option Time;
  (** what the backend reports as the CRL's time of modification *)
  x_CRLModTime : option Time }.

Definition url_Path (segments : list string) : string := foldr (fun s p => "/" +:+ s +:+ p) "" segments.
Definition auth_request (x : Exchange) : Request :=
  mkRequest (x_Method x) (url_Path (x_Segments x)) (x_PeerCertificates x).

(** ** Responses *)

Inductive ocsp_error := TryLater | Unauthorized | InternalError | MalformedRequest.

Inductive body :=
  | BNone
  | BText_ (text : string)
  (** the text of an error *)
  | BError (e : error)
  | BRaw (data : blob)
  | BStatus (s : CertStatusResponse)
  | BStatuses (l : list CertStatusResponse)
  | BImport (subject serial notBefore notAfter : string) (imported : bool)
  | BGenerated (privateKey certificate : blob)
  | BSigned (r : SignResult)
  | BCleaned (r : CleanResult)
  | BExpirations (caCerts crls : gmap string string) (nextUpdate expiration : string)
  (** an OCSP response, with the seconds a GET answer may be cached *)
  | BOCSP (resp : OCSPResponse) (cache : option Z)
  | BOCSPError (e : ocsp_error)
  | BHealth (status : string).

Record Response := mkResp { code_ : Z; body_ : body }.

Definition StatusOK := 200.
Definition StatusNoContent := 204.
Definition StatusMovedPermanently := 301.
Definition StatusNotModified := 304.
Definition StatusBadRequest := 400.
Definition StatusForbidden := 403.
Definition StatusNotFound := 404.
Definition StatusMethodNotAllowed := 405.
Definition StatusConflict := 409.
Definition StatusRequestEntityTooLarge := 413.
Definition StatusUnprocessableEntity := 422.
Definition StatusTooManyRequests := 429.
Definition StatusInternalServerError := 500.
Definition StatusServiceUnavailable := 503.

Definition answer (code : Z) (text : string) : Response := mkResp code (BText_ text).
Definition internal_error : Response := answer StatusInternalServerError "internal server error".
Definition invalid_subject : Response := answer StatusBadRequest "invalid subject".

(** ** The server *)

Record ServerConfig := mkServerConfig {
  sv_AuthConfig : option AuthConfig;
  PlainHTTP : bool;
  SignBatchLimit : Z;
  PuppetDateTimeFormat : bool;
  SerialNumberFormat : string }.

Record Server := mkServer {
  sv_world : World;
  csrLimiter : option ipRateLimiter;
  destructiveOps : option destructiveOpTracker }.

Notation MH := (M Server).

Definition set_world (w : World) (s : Server) : Server := mkServer w (csrLimiter s) (destructiveOps s).
Definition set_limiter (l : ipRateLimiter) (s : Server) : Server := mkServer (sv_world s) (Some l) (destructiveOps s).
Definition set_tracker (t : destructiveOpTracker) (s : Server) : Server := mkServer (sv_world s) (csrLimiter s) (Some t).

(** Run an operation of the CA and hand its outcome to the handler. *)
Definition call {A} (m : MW A) : MH (result A) := fun s =>
  let '(r, w) := m (sv_world s) in (Ok r, set_world w s).

(** [Routes] makes the limiter when a limit is configured, [New] the tracker. *)
Definition newServer (w : World) (csrRateLimit : Z) : Server :=
  mkServer w (if 0 <? csrRateLimit then Some (newIPRateLimiter csrRateLimit Minute) else None)
    (Some (newDestructiveOpTracker 5 Minute)).

Definition limiter_allows (ip : string) : MH bool := fun s =>
  match csrLimiter s with
  | None => (Ok true, s)
  | Some l =>
      match lift time_Now (sv_world s) with
      | (Ok now, w) => let '(ok, l) := Allow ip now l in (Ok ok, set_limiter l (set_world w s))
      | (Err e, w) => (Err e, set_world w s)
      end
  end.

(** Principals (principal.go). *)
Definition Describe (d : TrustDomain) : string := if IsOwn d then "this CA" else "client_ca " +:+ td_Name d.
Definition where_ (p : clientPrincipal) : string :=
  match p_domain p with None => "unattributed" | Some d => Describe d end.
Definition Key (p : clientPrincipal) : principalKey := (where_ p, p_cn p).

(** The alarm the tracker may raise is a log line. *)
Definition note_destructive (p : clientPrincipal) : MH unit := fun s =>
  match destructiveOps s with
  | Some t =>
      if bool_decide (p_cn p = "") then (Ok tt, s)
      else match lift time_Now (sv_world s) with
           | (Ok now, w) => (Ok tt, set_tracker (Record_ (Key p) now t).2 (set_world w s))
           | (Err e, w) => (Err e, set_world w s)
           end
  | None => (Ok tt, s)
  end.

(** ** Texts of errors, where a handler looks for a phrase in one *)

Definition sentinel_text (s : sentinel) : string :=
  match s with
  | FsErrNotExist => "file does not exist"
  | ErrDuplicateSerial => "serial number already exists in inventory"
  | ErrMalformedSerial => "malformed serial"
  | ErrInventoryTampered => "inventory file integrity check failed: HMAC mismatch (possible tampering)"
  | ErrDestinationNotEmpty => "destination backend already contains a CA certificate (use --force to overwrite)"
  | ErrSourceUnverified => "refusing to migrate a source inventory that does not verify"
  | ErrReservedSubject => "the subject 'ca' is reserved"
  | ErrInvalidAuthGrant => "invalid authorisation grant"
  | ErrKeyPolicy => "public key does not meet the CA key-strength policy"
  | ErrCAKeyType => "unsupported CA key type"
  | ErrCertExists => "certificate already exists"
  | ErrCertRevoked => "certificate is revoked"
  | ErrCertSuperseded => "certificate is revoked: superseded and awaiting revocation"
  | ErrNotInitialized => "CA not initialized"
  | ErrForeignCertificate => "certificate was not issued by this CA"
  | ErrRenewalSubjectMismatch => "presented certificate is for a different subject"
  | ErrDisallowedSubjectAltNames =>
      "CSR requests subject alternative names that are not allowed; set allow_subject_alt_names to permit them"
  | ErrDisallowedExtensions => "found extensions that disallow signing"
  | ErrNotFound => "certificate or CSR not found"
  | ErrNoCSR => "no pending CSR"
  | ErrSubjectUnknown => "no inventory entry for this subject"
  | ErrSerialUnknown => "serial number not found in inventory"
  | ErrSerialIsCurrent => "serial belongs to the certificate currently in use"
  | ErrSerialStateUnknown => "cannot determine whether the serial is the certificate currently in use"
  | ErrForeignStoredCRL => "the stored CRL was not signed by the CA certificate this process is using"
  | ErrSigningBusy => "CA signing concurrency limit reached"
  | ErrInternal => "internal CA error"
  | ErrNotAuthoritative => "OCSP request names an issuer this CA is not authoritative for"
  | ErrInvalidDNSAltName => "invalid DNS alt name"
  | ErrChainFileFault => "chain file fault"
  | ErrNoUsableCRL => "revocation status unavailable"
  | ErrImportInvalid => "invalid certificate for import"
  | ErrSerialExists => "serial number already tracked in inventory"
  | ErrKeyProviderKeyNotFound => "key provider: key not found"
  | ErrCACertExists => "a CA certificate already exists"
  | ErrCACertWrite => "writing the CA certificate"
  | ErrCAKeyConflict => "two different CA keys in the cadir"
  | ErrCAKeyLinkBroken => "the CA key file is a link that leads nowhere"
  | ErrSameHostLockingUnsupported => "same-host locking unsupported by this backend"
  | ErrReauthThrottled => "OpenBao re-authentication throttled"
  end.

Fixpoint error_text (e : error) : string :=
  match e with
  | Sentinel s => sentinel_text s
  | DuplicateCertError subject state =>
      subject +:+ " already has a " +:+ state +:+ " certificate; ignoring certificate request"
  | Msg m => m
  | Wrap m es => m +:+ foldr (fun e acc => ": " +:+ error_text e +:+ acc) "" es
  end.

Definition csrValidationError (err : error) : bool :=
  let s := error_text err in
  Contains s "does not match requested key" || Contains s "failed to decode CSR PEM" ||
  Contains s "failed to parse CSR" || Contains s "invalid CSR signature".

(** ** Handlers *)

Section Handlers.
Context (cfg : ServerConfig).

Definition validSubject (subject : string) : bool :=
  match ValidateSubject subject with None => true | Some _ => false end.

(** [decodeJSONBody]: the decoded body, or the answer that refuses it. *)
Definition decodeJSONBody {A} (pick : json_fields -> result A) (b : json_body) : A + Response :=
  match b with
  | JTooLarge => inr (answer StatusRequestEntityTooLarge "request body too large")
  | JMalformed => inr (answer StatusBadRequest "invalid request body")
  | JObject f =>
      match pick f with
      | Ok a => inl a
      | Err _ => inr (answer StatusBadRequest "invalid request body")
      end
  end.
Definition pick_status (f : json_fields) : result (string * option Z) :=
  match j_desired_state f, j_cert_ttl f with Ok s, Ok t => Ok (s, t) | Err e, _ | _, Err e => Err e end.
Definition pick_by_serial (f : json_fields) : result (string * bool) :=
  match j_desired_state f, j_force f with Ok s, Ok b => Ok (s, b) | Err e, _ | _, Err e => Err e end.

Definition status_of_cert (subject : string) (pem : blob) (state : string) : CertStatusResponse :=
  certStatusFromCert (PuppetDateTimeFormat cfg) (SerialNumberFormat cfg) subject pem state.

Definition handleGetStatus (subject : string) : MH Response :=
  if negb (validSubject subject) then mret invalid_subject
  else
    r ← call (lift (GetCert subject));
    match r with
    | Ok certPEM =>
        revoked ← call (IsRevoked subject);
        let state := match revoked with Ok true => "revoked" | _ => "signed" end in
        mret (mkResp StatusOK (BStatus (status_of_cert subject certPEM state)))
    | Err _ =>
        r ← call (lift (GetCSR subject));
        mret (match r with
              | Ok csrPEM => mkResp StatusOK (BStatus (certStatusFromCSR subject csrPEM))
              | Err _ => answer StatusNotFound "not found"
              end)
    end.

Definition unreadable : string := "could not read the certificate request for this subject; see the server log".

(** Whether the subject has a certificate or an inventory entry. *)
Definition subjectIssued (subject : string) : MW bool :=
  r ← try (lift (GetCert subject));
  match r with
  | Ok _ => mret true
  | Err e =>
      if negb (errors_Is e FsErrNotExist) then fail e
      else
        r ← try (lift (LatestSerialForSubject subject));
        match r with
        | Ok _ => mret true
        | Err e => if errors_Is e FsErrNotExist then mret false else fail e
        end
  end.

Definition answerSignWithoutCSR (subject : string) (signErr : error) : MH Response :=
  if negb (errors_Is signErr FsErrNotExist) then mret (answer StatusServiceUnavailable unreadable)
  else
    issued ← call (subjectIssued subject);
    mret (match issued with
          | Err _ => answer StatusServiceUnavailable
                       "could not read this subject's certificate or inventory entry; see the server log"
          | Ok false => answer StatusNotFound "CSR not found"
          | Ok true => answer StatusConflict
                         ("Cannot sign certificate for host " +:+ subject +:+ " without a certificate request")
          end).

(** Seconds as a [time.Duration], which wraps. *)
Definition ttl_seconds (ttl : Z) : Duration := wrap64 (ttl * Second).

Definition put_signed (subject : string) (ttl : option Z) : MH Response :=
  r ← call (match ttl with
            | Some t => if 0 <? t then SignWithTTL subject (ttl_seconds t) else Sign subject
            | None => Sign subject
            end);
  match r with
  | Ok _ => mret (mkResp StatusNoContent BNone)
  | Err e =>
      if Contains (error_text e) "CSR not found" then answerSignWithoutCSR subject e
      else if errors_Is e ErrDisallowedSubjectAltNames then
        mret (mkResp StatusConflict (BError (Sentinel ErrDisallowedSubjectAltNames)))
      else if errors_Is e ErrDisallowedExtensions then mret (mkResp StatusConflict (BError e))
      else mret (answer StatusConflict "conflict")
  end.

Definition put_revoked (p : clientPrincipal) (subject : string) : MH Response :=
  r ← call (Revoke subject);
  match r with
  | Ok _ => _ ← note_destructive p; mret (mkResp StatusNoContent BNone)
  | Err e =>
      if errors_Is e ErrForeignStoredCRL then mret (mkResp StatusConflict (BError e))
      else if errors_Is e ErrSubjectUnknown then
        csr ← call (lift (GetCSR subject));
        mret (match csr with
              | Ok _ => answer StatusConflict ("could not revoke unsigned csr for " +:+ subject +:+
                           ": sign it first, or clean it to discard the request")
              | Err csrErr =>
                  if errors_Is csrErr FsErrNotExist then mkResp StatusNotFound (BError e)
                  else answer StatusServiceUnavailable unreadable
              end)
      else mret (answer StatusConflict "conflict")
  end.

Definition handlePutStatus (p : clientPrincipal) (x : Exchange) (subject : string) : MH Response :=
  if negb (validSubject subject) then mret invalid_subject
  else match decodeJSONBody pick_status (x_json x) with
  | inr resp => mret resp
  | inl (state, ttl) =>
      if bool_decide (state = "signed") then put_signed subject ttl
      else if bool_decide (state = "revoked") then put_revoked p subject
      else mret (answer StatusBadRequest "desired_state must be 'signed' or 'revoked'")
  end.

Definition handlePutStatusBySerial (p : clientPrincipal) (x : Exchange) (serial : string) : MH Response :=
  match NormaliseSerial serial with
  | Err e => mret (mkResp StatusBadRequest (BError e))
  | Ok normalised =>
      match decodeJSONBody pick_by_serial (x_json x) with
      | inr resp => mret resp
      | inl (state, force) =>
          if negb (bool_decide (state = "revoked")) then
            mret (answer StatusBadRequest "desired_state must be 'revoked'")
          else
            r ← call (RevokeSerial normalised force);
            match r with
            | Ok _ => _ ← note_destructive p; mret (mkResp StatusNoContent BNone)
            | Err e =>
                mret (if errors_Is e ErrSerialUnknown then mkResp StatusNotFound (BError e)
                      else if errors_Is e ErrSerialIsCurrent then mkResp StatusConflict (BError e)
                      else if errors_Is e ErrSerialStateUnknown then mkResp StatusConflict (BError e)
                      else if errors_Is e ErrForeignStoredCRL then mkResp StatusConflict (BError e)
                      else answer StatusServiceUnavailable
                             "the CA could not service this request; see the server log")
            end
      end
  end.

Definition handleGetCert (subject : string) : MH Response :=
  if bool_decide (subject = "ca") then
    r ← call (lift GetCACert);
    mret (match r with
          | Ok pem => mkResp StatusOK (BRaw pem)
          | Err _ => answer StatusNotFound "CA cert not found"
          end)
  else if negb (validSubject subject) then mret invalid_subject
  else
    r ← call (lift (GetCert subject));
    mret (match r with
          | Ok pem => mkResp StatusOK (BRaw pem)
          | Err _ => answer StatusNotFound "certificate not found"
          end).

Definition handlePutCert (x : Exchange) (subject : string) : MH Response :=
  if negb (validSubject subject) then mret invalid_subject
  else match x_raw x with
  | Err _ => mret internal_error
  | Ok certPEM =>
      r ← call (ImportCertificate subject certPEM);
      mret (match r with
            | Ok res =>
                mkResp StatusOK (BImport (im_Subject res) (im_Serial res)
                  (timeFormat (PuppetDateTimeFormat cfg) (im_NotBefore res))
                  (timeFormat (PuppetDateTimeFormat cfg) (im_NotAfter res)) (Imported res))
            | Err e =>
                if errors_Is e ErrNotInitialized then answer StatusServiceUnavailable "CA not ready"
                else if errors_Is e ErrImportInvalid then mkResp StatusBadRequest (BError e)
                else if errors_Is e ErrSerialExists || errors_Is e ErrCertExists
                then mkResp StatusConflict (BError e)
                else internal_error
            end)
  end.

Definition send_crl : MH Response :=
  r ← call (lift GetCRL);
  mret (match r with
        | Ok pem => mkResp StatusOK (BRaw pem)
        | Err _ => answer StatusNotFound "CRL not found"
        end).

Definition handleGetCRL (x : Exchange) : MH Response :=
  match x_since x, x_CRLModTime x with
  | Some t, Some mt => if mt <=? t then mret (mkResp StatusNotModified BNone) else send_crl
  | _, _ => send_crl
  end.

Definition handleReissueCRL : MH Response :=
  r ← call ReissueCRL;
  match r with
  | Ok _ => send_crl
  | Err e => mret (if errors_Is e ErrForeignStoredCRL then mkResp StatusConflict (BError e)
                   else answer StatusInternalServerError "failed to reissue CRL")
  end.

Definition handleGetRequest (subject : string) : MH Response :=
  if negb (validSubject subject) then mret invalid_subject
  else
    r ← call (lift (GetCSR subject));
    mret (match r with
          | Ok pem => mkResp StatusOK (BRaw pem)
          | Err _ => answer StatusNotFound "CSR not found"
          end).

(** [errors.As] for a duplicate: the first one in the tree of wrapped errors. *)
Fixpoint as_duplicate (e : error) : option error :=
  match e with
  | DuplicateCertError _ _ => Some e
  | Wrap _ es => foldr (fun e acc => match as_duplicate e with Some d => Some d | None => acc end) None es
  | _ => None
  end.

Definition saveRequest_error (e : error) : Response :=
  match as_duplicate e with
  | Some dup => mkResp StatusBadRequest (BError dup)
  | None =>
      if errors_Is e ErrDisallowedSubjectAltNames then
        mkResp StatusBadRequest (BError (Sentinel ErrDisallowedSubjectAltNames))
      else if errors_Is e ErrDisallowedExtensions then mkResp StatusBadRequest (BError e)
      else if csrValidationError e then mkResp StatusBadRequest (BError e)
      else internal_error
  end.

Definition handlePutRequest (x : Exchange) (subject : string) : MH Response :=
  allowed ← limiter_allows (x_clientIP x);
  if negb allowed then mret (answer StatusTooManyRequests "rate limit exceeded")
  else if negb (validSubject subject) then mret invalid_subject
  else match x_raw x with
  | Err _ => mret internal_error
  | Ok csrPEM =>
      r ← call (SaveRequest subject csrPEM);
      mret (match r with Ok _ => mkResp StatusOK BNone | Err e => saveRequest_error e end)
  end.

Definition handleDeleteRequest (subject : string) : MH Response :=
  if negb (validSubject subject) then mret invalid_subject
  else
    r ← call (DeleteRequest subject);
    mret (match r with
          | Ok _ => mkResp StatusNoContent BNone
          | Err e => if errors_Is e ErrNoCSR then answer StatusNotFound "CSR not found"
                     else answer StatusServiceUnavailable
                            "the CA could not service this request; see the server log"
          end).

Definition handlePostGenerate (x : Exchange) (subject : string) : MH Response :=
  if PlainHTTP cfg then mret (answer StatusForbidden "private key delivery requires TLS")
  else if negb (validSubject subject) then mret invalid_subject
  else match CheckKeySubject subject with
  | Some e => mret (mkResp StatusBadRequest (BError e))
  | None =>
      r ← call (Lifecycle.Generate subject (x_query_dns x));
      mret (match r with
            | Ok res => mkResp StatusOK (BGenerated (PrivateKeyPEM res) (CertificatePEM res))
            | Err e =>
                if errors_Is e ErrCertExists then answer StatusConflict "certificate already exists"
                else if errors_Is e ErrInvalidDNSAltName then mkResp StatusBadRequest (BError e)
                else internal_error
            end)
  end.

Definition merge_signed (a b : SignResult) : SignResult :=
  mkSignResult (Signed a ++ Signed b) (NoCSR a ++ NoCSR b) (SigningErrors a ++ SigningErrors b).

(** The batches of the loop; [fuel] bounds their number, and the number of
    subjects is enough. *)
Fixpoint sign_batches (fuel : nat) (limit : nat) (subjects : list string) (merged : SignResult) : MW SignResult :=
  match fuel, subjects with
  | _, [] => mret merged
  | O, _ => mret merged
  | S fuel, _ =>
      batch ← SignMultiple (take limit subjects);
      sign_batches fuel limit (drop limit subjects) (merge_signed merged batch)
  end.
Definition signInBatches (subjects : list string) : MW SignResult :=
  if (SignBatchLimit cfg <=? 0) || (Z.of_nat (length subjects) <=? SignBatchLimit cfg)
  then SignMultiple subjects
  else sign_batches (length subjects) (Z.to_nat (SignBatchLimit cfg)) subjects (mkSignResult [] [] []).

Definition signed_answer (r : result SignResult) : Response :=
  match r with Ok res => mkResp StatusOK (BSigned res) | Err _ => internal_error end.

Definition handlePostSign (x : Exchange) : MH Response :=
  match decodeJSONBody j_certnames (x_json x) with
  | inr resp => mret resp
  | inl certnames =>
      if bool_decide (certnames = []) then mret (answer StatusBadRequest "certnames must not be empty")
      else r ← call (signInBatches certnames); mret (signed_answer r)
  end.

Definition handlePostSignAll : MH Response :=
  pending ← call (lift ListCSRs);
  match pending with
  | Err _ => mret internal_error
  | Ok pending => r ← call (signInBatches pending); mret (signed_answer r)
  end.

Definition handlePutClean (p : clientPrincipal) (x : Exchange) : MH Response :=
  match decodeJSONBody j_certnames (x_json x) with
  | inr resp => mret resp
  | inl certnames =>
      if bool_decide (certnames = []) then mret (answer StatusBadRequest "certnames must not be empty")
      else
        r ← call (CleanMultiple certnames);
        _ ← note_destructive p;
        mret (match r with Ok res => mkResp StatusOK (BCleaned res) | Err _ => internal_error end)
  end.

Definition handleDeleteStatus (p : clientPrincipal) (subject : string) : MH Response :=
  if negb (validSubject subject) then mret invalid_subject
  else
    r ← call (Clean subject);
    match r with
    | Ok _ => _ ← note_destructive p; mret (mkResp StatusNoContent BNone)
    | Err e => mret (if errors_Is e ErrNotFound then answer StatusNotFound "not found"
                     else answer StatusConflict "conflict")
    end.

Definition handleGetStatuses (x : Exchange) : MH Response :=
  r ← call (list_statuses (PuppetDateTimeFormat cfg) (SerialNumberFormat cfg) (x_query_state x));
  mret (match r with Ok l => mkResp StatusOK (BStatuses l) | Err _ => internal_error end).

Definition handleGetExpirations : MH Response :=
  c ← gets (fun s => ca (sv_world s));
  match CACert c, IsReady c with
  | Some caCert, true =>
      let fmt := timeFormat (PuppetDateTimeFormat cfg) in
      let certExp := fmt (NotAfter caCert) in
      bundle ← call (lift GetCACert);
      let certs := match bundle with
                   | Ok pem => match ParseCABundle pem with Ok l => l | Err _ => [] end
                   | Err _ => []
                   end in
      let caCerts := fold_left (fun m cert => <[CommonName (Subject cert) := fmt (NotAfter cert)]> m) certs
                       {[CommonName (Subject caCert) := certExp]} in
      crl ← call (lift GetCRL);
      let chain := match crl with
                   | Ok pem => match decodeCRLChain pem with Ok l => l | Err _ => [] end
                   | Err _ => []
                   end in
      let crls := fold_left (fun m crl => <[CommonName (crl_Issuer crl) := fmt (NextUpdate crl)]> m) chain ∅ in
      let next := match chain with crl :: _ => fmt (NextUpdate crl) | [] => "" end in
      mret (mkResp StatusOK (BExpirations caCerts crls next certExp))
  | _, _ => mret (answer StatusServiceUnavailable "CA not ready")
  end.

Definition blank (b : blob) : bool :=
  match b with
  | BText s => bool_decide (TrimSpace s = "")
  | BPem [] t => bool_decide (TrimSpace t = "")
  | _ => false
  end.

Definition renewal_error (key_policy : string) (mismatch : bool) (e : error) : Response :=
  if errors_Is e ErrCertRevoked then answer StatusForbidden "access denied"
  else if errors_Is e ErrKeyPolicy then answer StatusUnprocessableEntity key_policy
  else if mismatch && errors_Is e ErrRenewalSubjectMismatch then
    answer StatusForbidden "certificate not eligible for renewal"
  else if errors_Is e ErrForeignCertificate then answer StatusForbidden "certificate not eligible for renewal"
  else if errors_Is e ErrNotInitialized then answer StatusServiceUnavailable "CA not ready"
  else internal_error.

Definition handlePostCertificateRenewal (x : Exchange) : MH Response :=
  let cn := clientCN (auth_request x) in
  if bool_decide (cn = "") then mret (answer StatusForbidden "client certificate required for renewal")
  else match x_raw x with
  | Err _ => mret internal_error
  | Ok body =>
      let presented := match x_PeerCertificates x with Some (cert :: _) => Some cert | _ => None end in
      if blank body then
        r ← call (AutoRenew presented);
        mret (match r with
              | Ok pem => mkResp StatusOK (BRaw pem)
              | Err e => renewal_error "certificate key does not meet policy; renew with a new CSR" false e
              end)
      else
        match parseCSR body with
        | Err e => mret (mkResp StatusBadRequest (BError e))
        | Ok csr =>
            if negb (bool_decide (CommonName (csr_Subject csr) = cn)) then
              mret (answer StatusForbidden "CSR CN does not match authenticated client CN")
            else
              r ← call (Renew cn body presented);
              mret (match r with
                    | Ok pem => mkResp StatusOK (BRaw pem)
                    | Err e => renewal_error "CSR key does not meet policy" true e
                    end)
        end
  end.

(** OCSP (ocsp_handler.go). *)
Definition ocspErrorResponse (e : error) : Response :=
  if errors_Is e ErrSigningBusy then mkResp StatusServiceUnavailable (BOCSPError TryLater)
  else if errors_Is e ErrNotAuthoritative then mkResp StatusForbidden (BOCSPError Unauthorized)
  else if errors_Is e ErrInternal then mkResp StatusInternalServerError (BOCSPError InternalError)
  else mkResp StatusBadRequest (BOCSPError MalformedRequest).

(** Whole seconds, capped to what a header value may hold. *)
Definition max_age_seconds (d : Duration) : Z := Z.max 0 (Z.min (2 ^ 31 - 1) (d / Second)).

Definition answer_ocsp (get : bool) (o : ocsp_body) : MH Response :=
  match o with
  | OBadBase64 => mret (answer StatusBadRequest "invalid base64 in OCSP GET request path")
  | OUnreadable => mret internal_error
  | OMalformed => mret (ocspErrorResponse (Msg "parsing OCSP request"))
  | ORequest req =>
      r ← call (AnswerOCSP req);
      mret (match r with
            | Err e => ocspErrorResponse e
            | Ok a => mkResp StatusOK (BOCSP (DER a)
                        (if get && (0 <? MaxAge a) then Some (max_age_seconds (MaxAge a)) else None))
            end)
  end.
Definition handleOCSP (x : Exchange) : MH Response :=
  if bool_decide (x_Method x = "GET") then answer_ocsp true (x_ocsp x)
  else if bool_decide (x_Method x = "POST") then answer_ocsp false (x_ocsp x)
  else mret (answer StatusMethodNotAllowed "method not allowed").

(** Health (health_handler.go). *)
Definition handleLive : MH Response := mret (mkResp StatusOK (BHealth "ok")).
Definition handleReady : MH Response :=
  c ← gets (fun s => ca (sv_world s));
  mret (if IsReady c then mkResp StatusOK (BHealth "ok") else mkResp StatusServiceUnavailable (BHealth "not_ready")).
Definition handleStartup : MH Response := handleReady.

(** ** Routes *)

Inductive route :=
  | RGetStatus | RPutStatus | RDeleteStatus | RPutStatusBySerial | RGetStatuses
  | RGetRequest | RPutRequest | RDeleteRequest | RGetCert | RPutCert
  | RGetCRL | RReissueCRL | ROCSP | RGetExpirations | RPostSign | RPostSignAll
  | RPutClean | RPostGenerate | RPostRenewal | RLive | RReady | RStartup.

Inductive seg := Lit (s : string) | Wild.

Definition api_routes : list (string * list seg * route) :=
  [("GET", [Lit "certificate_status"; Wild], RGetStatus);
   ("PUT", [Lit "certificate_status"; Wild], RPutStatus);
   ("DELETE", [Lit "certificate_status"; Wild], RDeleteStatus);
   ("PUT", [Lit "certificate_status_by_serial"; Wild], RPutStatusBySerial);
   ("GET", [Lit "certificate_statuses"; Wild], RGetStatuses);
   ("GET", [Lit "certificate_request"; Wild], RGetRequest);
   ("PUT", [Lit "certificate_request"; Wild], RPutRequest);
   ("DELETE", [Lit "certificate_request"; Wild], RDeleteRequest);
   ("GET", [Lit "certificate"; Wild], RGetCert);
   ("PUT", [Lit "certificate"; Wild], RPutCert);
   ("GET", [Lit "certificate_revocation_list"; Lit "ca"], RGetCRL);
   ("PUT", [Lit "certificate_revocation_list"; Lit "ca"], RReissueCRL);
   ("POST", [Lit "ocsp"], ROCSP);
   ("GET", [Lit "ocsp"; Wild], ROCSP);
   ("GET", [Lit "expirations"], RGetExpirations);
   ("POST", [Lit "sign"], RPostSign);
   ("POST", [Lit "sign"; Lit "all"], RPostSignAll);
   ("PUT", [Lit "clean"], RPutClean);
   ("POST", [Lit "generate"; Wild], RPostGenerate);
   ("POST", [Lit "certificate_renewal"], RPostRenewal)].
Definition health_routes : list (string * list seg * route) :=
  [("GET", [Lit "healthz"; Lit "live"], RLive); ("GET", [Lit "healthz"; Lit "ready"], RReady);
   ("GET", [Lit "healthz"; Lit "startup"], RStartup)].
Definition prefixes : list (list seg) := [[]; [Lit "puppet-ca"; Lit "v1"]].
Definition mux : list (string * list seg * route) :=
  concat (map (fun r => map (fun pfx => (r.1.1, pfx ++ r.1.2, r.2)) prefixes) api_routes) ++ health_routes.

(** A wildcard takes one non-empty segment, which its value is. *)
Fixpoint match_segs (pattern : list seg) (segments : list string) (value : string) : option string :=
  match pattern, segments with
  | [], [] => Some value
  | Lit l :: pattern, s :: segments => if bool_decide (l = s) then match_segs pattern segments value else None
  | Wild :: pattern, s :: segments =>
      if bool_decide (s = "") || bool_decide (s = "/") then None else match_segs pattern segments s
  | _, _ => None
  end.
(** A GET pattern matches HEAD requests too. *)
Definition match_method (pattern method : string) : bool :=
  bool_decide (pattern = method) || (bool_decide (pattern = "GET") && bool_decide (method = "HEAD")).

Fixpoint find_route (table : list (string * list seg * route)) (method : string) (segments : list string)
    : option (route * string) :=
  match table with
  | [] => None
  | (m, pattern, rt) :: table =>
      if match_method m method then
        match match_segs pattern segments "" with
        | Some v => Some (rt, v)
        | None => find_route table method segments
        end
      else find_route table method segments
  end.
Definition path_known (segments : list string) : bool :=
  existsb (fun e => match match_segs e.1.2 segments "" with Some _ => true | None => false end) mux.

Definition handle (rt : route) (v : string) (p : clientPrincipal) (x : Exchange) : MH Response :=
  match rt with
  | RGetStatus => handleGetStatus v
  | RPutStatus => handlePutStatus p x v
  | RDeleteStatus => handleDeleteStatus p v
  | RPutStatusBySerial => handlePutStatusBySerial p x v
  | RGetStatuses => handleGetStatuses x
  | RGetRequest => handleGetRequest v
  | RPutRequest => handlePutRequest x v
  | RDeleteRequest => handleDeleteRequest v
  | RGetCert => handleGetCert v
  | RPutCert => handlePutCert x v
  | RGetCRL => handleGetCRL x
  | RReissueCRL => handleReissueCRL
  | ROCSP => handleOCSP x
  | RGetExpirations => handleGetExpirations
  | RPostSign => handlePostSign x
  | RPostSignAll => handlePostSignAll
  | RPutClean => handlePutClean p x
  | RPostGenerate => handlePostGenerate x v
  | RPostRenewal => handlePostCertificateRenewal x
  | RLive => handleLive
  | RReady => handleReady
  | RStartup => handleStartup
  end.

(** The middleware, then the mux. *)
Definition ServeHTTP (x : Exchange) : MH Response :=
  auth ← call (authMiddleware (sv_AuthConfig cfg) (auth_request x));
  match auth with
  | Err e => mret (mkResp StatusForbidden (BError e))
  | Ok p =>
      if negb (x_Canonical x) then mret (mkResp StatusMovedPermanently BNone)
      else match find_route mux (x_Method x) (x_Segments x) with
      | Some (rt, v) => handle rt v p x
      | None => mret (if path_known (x_Segments x) then answer StatusMethodNotAllowed "Method Not Allowed"
                      else answer StatusNotFound "404 page not found")
      end
  end.
End Handlers.
