(* ===== verification/HandlerSafety.v ===== *)
(** * What requests can do

    Theorems about the handlers behind the middleware: which requests can
    change what is stored, what the answers to a signing, a revocation and a
    renewal mean, and that signing in batches is signing. *)

From S2P Require Import Prelude GoStrings GoTime X509 Inventory Storage InventorySpec Policy.
From S2P Require Import CAState CRLChain CRL OCSP CRLSafety Supersede Signing Lifecycle Import.
From S2P Require Import System Growth Verify Generate ClientCRL Auth RateLimit Status Handlers.

(** ** Running an operation of the CA *)

Lemma call_Ok {A} (m : MW A) s r s' :
  call m s = (Ok r, s') -> exists w', m (sv_world s) = (r, w') /\ s' = set_world w' s.
Proof. unfold call. destruct (m (sv_world s)) as [r0 w0]. intros [= <- <-]. eauto. Qed.

(** What is stored is as before. *)
Definition keeps_store : relation Server := fun s s' => same_store (sv_world s) (sv_world s').
#[global] Instance keeps_store_preorder : PreOrder keeps_store.
Proof. split; unfold keeps_store; [done|]. intros ? ? ? ? ?. by etrans. Qed.

Lemma keeps_call {A} (m : MW A) : mono same_store m -> mono keeps_store (call m).
Proof.
  intros Hm s. specialize (Hm (sv_world s)). unfold exec, keeps_store, call in *.
  by destruct (m (sv_world s)) as [r w].
Qed.
#[export] Hint Resolve keeps_call : mono.

(** ** The routes that only read *)

Lemma IsRevoked_same subject : mono same_store (IsRevoked subject).
Proof. unfold IsRevoked, get_ca. mono_tac. Qed.
#[export] Hint Resolve IsRevoked_same : mono.

Lemma record_status_same p f rv rec : mono same_store (record_status p f rv rec).
Proof. unfold record_status. mono_tac. Qed.
#[export] Hint Resolve record_status_same : mono.
Lemma record_statuses_same p f fl rv recs : mono same_store (record_statuses p f fl rv recs).
Proof. induction recs; simpl; mono_tac. Qed.
Lemma cert_statuses_same p f fl ix certs : forall seen, mono same_store (cert_statuses p f fl ix seen certs).
Proof. induction certs as [|? ? IH]; intros seen; simpl; mono_tac; apply IH. Qed.
Lemma csr_statuses_same fl seen csrs : mono same_store (csr_statuses fl seen csrs).
Proof. induction csrs; simpl; mono_tac. Qed.
Lemma list_statuses_same p f fl : mono same_store (list_statuses p f fl).
Proof.
  unfold list_statuses, CertStatuses, ListCerts, ListCSRs, is_structured, get_ca.
  repeat first [ apply record_statuses_same | apply cert_statuses_same | apply csr_statuses_same | mono_step
               | apply same_store_lift; mono_tac ].
Qed.
Lemma shed_same : mono same_store acquireSigningSlotOrShed.
Proof.
  intros w. unfold exec, acquireSigningSlotOrShed. destruct (pop_fault (st w)) as [f s] eqn:E.
  apply pop_fault_same in E. by destruct f.
Qed.
Lemma internal_same {A} (m : MW A) : mono same_store m -> mono same_store (internal m).
Proof. intros. unfold internal. mono_tac. Qed.
#[export] Hint Resolve shed_same internal_same : mono.
Lemma ocsp_sign_same req key known crl : mono same_store (ocsp_sign req key known crl).
Proof. unfold ocsp_sign, signer_available. repeat first [mono_step | apply internal_same]. Qed.
#[export] Hint Resolve ocsp_sign_same : mono.
Lemma AnswerOCSP_same req : mono same_store (AnswerOCSP req).
Proof. unfold AnswerOCSP, ocsp_lookup, ocsp_store, get_ca. mono_tac. Qed.
#[export] Hint Resolve list_statuses_same AnswerOCSP_same : mono.

(** The routes whose handlers only read. *)
Definition read_only (rt : route) : bool :=
  match rt with
  | RGetStatus | RGetStatuses | RGetRequest | RGetCert | RGetCRL | ROCSP | RGetExpirations
  | RLive | RReady | RStartup => true
  | _ => false
  end.

Lemma read_only_keeps cfg rt v p x : read_only rt = true -> mono keeps_store (handle cfg rt v p x).
Proof.
  destruct rt; try done; intros _; cbn [handle];
    unfold handleGetStatus, handleGetStatuses, handleGetRequest, handleGetCert, handleGetCRL, send_crl, handleOCSP,
      answer_ocsp, handleGetExpirations, handleLive, handleStartup, handleReady; mono_tac.
Qed.

(** ** The routes that write, and their tiers *)

Lemma find_route_elem table method segments rt v :
  find_route table method segments = Some (rt, v) ->
  exists m pattern, (m, pattern, rt) ∈ table /\ match_method m method = true /\
    match_segs pattern segments "" = Some v.
Proof.
  induction table as [|[[m pattern] r] table IH]; [done|]. cbn [find_route].
  destruct (match_method m method) eqn:Em.
  - destruct (match_segs pattern segments "") as [u|] eqn:Es.
    + intros [= -> ->]. exists m, pattern. split; [by left|done].
    + intros H. destruct (IH H) as (m' & p' & ? & ?). exists m', p'. split; [by right|done].
  - intros H. destruct (IH H) as (m' & p' & ? & ?). exists m', p'. split; [by right|done].
Qed.

Lemma match_lit l pattern segments u v :
  match_segs (Lit l :: pattern) segments u = Some v ->
  exists rest, segments = l :: rest /\ match_segs pattern rest u = Some v.
Proof. destruct segments as [|s rest]; [done|]. cbn. case_bool_decide; [|done]. subst. eauto. Qed.
Lemma match_wild pattern segments u v :
  match_segs (Wild :: pattern) segments u = Some v ->
  exists s rest, segments = s :: rest /\ match_segs pattern rest s = Some v.
Proof. destruct segments as [|s rest]; [done|]. cbn. case_match; [done|]. eauto. Qed.
Lemma match_nil segments u v : match_segs [] segments u = Some v -> segments = [] /\ v = u.
Proof. destruct segments; naive_solver. Qed.

Ltac match_inv :=
  repeat match goal with
  | H : match_segs (Lit _ :: _) _ _ = Some _ |- _ => apply match_lit in H as (? & -> & H)
  | H : match_segs (Wild :: _) _ _ = Some _ |- _ => apply match_wild in H as (? & ? & -> & H)
  | H : match_segs [] _ _ = Some _ |- _ => apply match_nil in H as [-> ->]
  end.

(** The path of the public route that submits a request. *)
Definition request_path (subject : string) (segments : list string) : Prop :=
  segments = ["certificate_request"; subject] \/ segments = ["puppet-ca"; "v1"; "certificate_request"; subject].

Definition renewal_path (segments : list string) : Prop :=
  segments = ["certificate_renewal"] \/ segments = ["puppet-ca"; "v1"; "certificate_renewal"].

Lemma route_tier method segments rt v cfg :
  find_route mux method segments = Some (rt, v) ->
  match rt with
  | RPutRequest => method = "PUT" /\ request_path v segments
  | RPostRenewal =>
      method = "POST" /\ renewal_path segments /\ lookupTier method (url_Path segments) cfg = tierOwnClient
  | _ => read_only rt = true \/ lookupTier method (url_Path segments) cfg = tierAdminOnly
  end.
Proof.
  intros (m & pattern & Hin & Hm & Hs)%find_route_elem.
  unfold mux, api_routes, prefixes, health_routes in Hin. cbn [map concat app fst snd] in Hin.
  repeat (apply elem_of_cons in Hin as [[= -> -> ->]|Hin];
    [match_inv; unfold match_method in Hm; cbn in Hm;
     first [ by left
           | case_bool_decide; [subst method|done]; first [right; reflexivity
               | split; [done|]; first [by left | by right | split; [by left|reflexivity]
                                       | split; [by right|reflexivity] ]] ] |]).
  by apply elem_of_nil in Hin.
Qed.

(** ** Submitting a request *)

(** As long as the autosign policy approves nothing, only the request stored
    for the subject may change. *)
Definition unsigned (subject : string) : relation World := fun w w' =>
  Ok true ∉ autosigns w -> only_key (CSRKey subject) (st w) (st w') /\ Ok true ∉ autosigns w'.
#[global] Instance unsigned_preorder subject : PreOrder (unsigned subject).
Proof.
  split; [done|]. intros w1 w2 w3 H12 H23 H1. destruct (H12 H1) as [A H2]. destruct (H23 H2) as [B H3].
  split; [by etrans|done].
Qed.

Lemma unsigned_lift {A} subject (m : MS A) : mono (only_key (CSRKey subject)) m -> mono (unsigned subject) (lift m).
Proof. intros Hm. eapply mono_lift; [exact Hm|]. done. Qed.
Lemma unsigned_SaveCSR subject pem : mono (only_key (CSRKey subject)) (SaveCSR subject pem).
Proof. by apply only_Put. Qed.
#[export] Hint Resolve unsigned_lift unsigned_SaveCSR : mono.

Lemma unsigned_autosign subject msg (yes : MW bool) :
  mono (unsigned subject) (wrapping msg CheckAutosign ≫= fun b : bool => if b then yes else mret false).
Proof.
  intros w Hn. unfold exec, mbind, M_bind, wrapping, CheckAutosign in *.
  destruct (autosigns w) as [|[[]|e] rs] eqn:E; cbn; [by rewrite E| |..].
  - destruct Hn. by left.
  - split; [done|]. set_solver.
  - split; [done|]. set_solver.
Qed.
Lemma unsigned_SaveRequest subject pem : mono (unsigned subject) (SaveRequest subject pem).
Proof.
  unfold SaveRequest, WithLockW, WithLockRan, checkDuplicateLocked, storedCertLocked, get_ca.
  repeat first [ apply unsigned_autosign | mono_step ].
  apply unsigned_lift, only_same, WithLock_same. mono_tac.
Qed.

Lemma unsigned_same w w' subject : same_store w w' -> autosigns w' = autosigns w -> unsigned subject w w'.
Proof. intros (E & K & _) Ha Hn. rewrite Ha. unfold only_key. by rewrite E, K. Qed.

(** Reading the clock keeps the store and the autosign script. *)
Lemma now_run w r w' :
  lift time_Now w = (r, w') -> same_store w w' /\ autosigns w' = autosigns w /\ ca w' = ca w.
Proof.
  intros H. split; [by eapply (mono_run same_store); [|exact H]; mono_tac|].
  apply lift_run in H as (s & _ & ->). done.
Qed.
Lemma limiter_run ip s ok s' :
  limiter_allows ip s = (Ok ok, s') ->
  same_store (sv_world s) (sv_world s') /\ autosigns (sv_world s') = autosigns (sv_world s).
Proof.
  unfold limiter_allows. destruct (csrLimiter s) as [l|]; [|by intros [= _ <-]].
  destruct (lift time_Now (sv_world s)) as [[now|e] w] eqn:E; [|done].
  apply now_run in E as (H1 & H2 & _). destruct (Allow ip now l). by intros [= _ <-].
Qed.

Lemma PutRequest_unsigned x subject s resp s' :
  handlePutRequest x subject s = (Ok resp, s') -> unsigned subject (sv_world s) (sv_world s').
Proof.
  unfold handlePutRequest. intros H. apply bind_Ok in H as (ok & s1 & H1 & H).
  apply limiter_run in H1 as [S1 A1]. etrans; [by apply unsigned_same|].
  destruct (negb ok); [by apply ret_Ok in H as [_ ->]|].
  destruct (negb (validSubject subject)); [by apply ret_Ok in H as [_ ->]|].
  destruct (x_raw x) as [pem|]; [|by apply ret_Ok in H as [_ ->]].
  apply bind_Ok in H as (r & s2 & H2 & H). apply ret_Ok in H as [_ ->].
  apply call_Ok in H2 as (w2 & H2 & ->). by eapply mono_run; [apply unsigned_SaveRequest|].
Qed.

(** ** The middleware *)

Lemma attribute_same domains cert presented : mono same_store (attribute domains cert presented).
Proof. induction domains; simpl; mono_tac. Qed.
#[export] Hint Resolve attribute_same : mono.
Lemma middleware_same c r : mono same_store (authMiddleware c r).
Proof. unfold authMiddleware, IsRevokedSerial, get_ca. mono_tac. Qed.
Lemma middleware_autosigns c r : mono (fun w w' => autosigns w' = autosigns w /\ ca w' = ca w) (authMiddleware c r).
Proof.
  assert (PreOrder (fun w w' => autosigns w' = autosigns w /\ ca w' = ca w)).
  { split; [done|]. intros ? ? ? [] []. split; congruence. }
  assert (forall A (m : MS A), mono (fun w w' => autosigns w' = autosigns w /\ ca w' = ca w) (lift m)) as Hl.
  { intros A m. eapply mono_lift with (RS := fun _ _ => True); done. }
  assert (forall d cert p, mono (fun w w' => autosigns w' = autosigns w /\ ca w' = ca w) (attribute d cert p)) as Ha.
  { intros d cert p. induction d; simpl; mono_tac; apply Hl. }
  unfold authMiddleware, IsRevokedSerial, get_ca. repeat first [apply Hl | apply Ha | mono_step].
Qed.

(** The client is known to a trust domain, its certificate is in order, and it
    is entitled to the tier. *)
Definition admitted (c : AuthConfig) (x : Exchange) (w : World) (tier : authTier) : Prop :=
  exists cert presented d chain now later,
    x_PeerCertificates x = Some (cert :: presented) /\ d ∈ Domains c /\ clock (st w) <= now <= later /\
    head chain = Some cert /\ path_ok (td_Roots d) now chain /\
    checkChainForKeyUsage chain EKUClientAuth = true /\
    (if IsOwn d
     then exists crl, cachedCRL (ca w) = Some crl /\ SerialNumber cert ∉ revoked_serials crl
     else checkChainRevocation chain (RevocationSet d) (revocationPolicy c) later = None) /\
    entitled tier d cert (url_Path (x_Segments x)).

Lemma middleware_admitted c x w p w' tier :
  authMiddleware (Some c) (auth_request x) w = (Ok p, w') ->
  lookupTier (x_Method x) (url_Path (x_Segments x)) (Some c) = tier -> tier <> tierPublic ->
  admitted c x w tier.
Proof.
  intros H Ht Hp. destruct (middleware_admits _ _ _ _ _ H) as (cert & presented & d & chain & now & H1 & H2 & H3 & H4 & H5 & H6).
  { cbn [r_Method r_Path auth_request]. congruence. }
  apply cert_Verify_sound in H4 as (Hh & Hpath & Hk). cbn [r_Method r_Path auth_request] in H6. rewrite Ht in H6.
  exists cert, presented, d, chain, now, (clock (st w')). by split_and!; try apply H3.
Qed.

(** C16: who can change what is stored.  With authorisation configured, serving
    a request leaves the store as it was, unless the client is an
    administrator of a trust domain, or a client with a certificate of this CA
    on the renewal route, its certificate in order in either case; or the
    request submits a signing request on the public route, and then, as long
    as the autosign policy does not approve, only the request stored for that
    subject can change: no certificate, no inventory entry, no CRL. *)
Theorem requests_cannot_write cfg c x s resp s' :
  sv_AuthConfig cfg = Some c -> ServeHTTP cfg x s = (Ok resp, s') ->
  same_store (sv_world s) (sv_world s') \/
  admitted c x (sv_world s) tierAdminOnly \/
  (x_Method x = "POST" /\ renewal_path (x_Segments x) /\ admitted c x (sv_world s) tierOwnClient) \/
  (exists subject, x_Method x = "PUT" /\ request_path subject (x_Segments x) /\
     (Ok true ∉ autosigns (sv_world s) -> only_key (CSRKey subject) (st (sv_world s)) (st (sv_world s')))).
Proof.
  intros Hc H. unfold ServeHTTP in H. rewrite Hc in H.
  apply bind_Ok in H as (auth & s1 & H1 & H). apply call_Ok in H1 as (w1 & H1 & ->).
  pose proof (mono_run _ _ _ _ _ (middleware_same _ _) H1) as S1.
  pose proof (mono_run _ _ _ _ _ (middleware_autosigns _ _) H1) as [A1 _].
  destruct auth as [p|e]; [|apply ret_Ok in H as [_ ->]; by left].
  destruct (negb (x_Canonical x)); [apply ret_Ok in H as [_ ->]; by left|].
  destruct (find_route mux (x_Method x) (x_Segments x)) as [[rt v]|] eqn:Er; [|apply ret_Ok in H as [_ ->]; by left].
  pose proof (route_tier _ _ _ _ (Some c) Er) as Ht.
  destruct (read_only rt) eqn:Ero.
  { left. etrans; [exact S1|]. exact (mono_run keeps_store _ _ _ _ (read_only_keeps cfg rt v p x Ero) H). }
  assert (forall tier, lookupTier (x_Method x) (url_Path (x_Segments x)) (Some c) = tier -> tier <> tierPublic ->
    admitted c x (sv_world s) tier) as Had by (intros; by eapply middleware_admitted).
  destruct rt; try done; try (destruct Ht as [?|Ht]; [done|right; left; by apply Had]).
  - destruct Ht as [Hm Hp]. right; right; right. exists v. split; [done|]. split; [done|]. intros Hn.
    apply PutRequest_unsigned in H. cbn [sv_world set_world] in H. unfold unsigned in H. rewrite A1 in H.
    destruct (H Hn) as [Ho _]. etrans; [|exact Ho]. destruct S1 as (E & K & _). unfold only_key. by rewrite E, K.
  - right; right; left. destruct Ht as (Hm & Hp & Ht). split; [done|]. split; [done|]. by apply Had.
Qed.

(** ** Signing in batches *)

Lemma HasCSR_total subject w : exists b w', lift (HasCSR subject) w = (Ok b, w').
Proof.
  unfold lift, HasCSR, mbind, M_bind, try, mret, M_ret. destruct (CSRExists subject (st w)) as [r s].
  eexists _, _. reflexivity.
Qed.

Lemma SignMultiple_total l : forall w, exists r w', SignMultiple l w = (Ok r, w').
Proof.
  induction l as [|s l IH]; intros w; cbn [SignMultiple]; unfold mbind, M_bind, mret, M_ret; [eexists _, _; reflexivity|].
  destruct (HasCSR_total s w) as (b & w1 & ->). destruct b; cbn [negb].
  - unfold try. destruct (Sign s w1) as [x w2]. destruct (IH w2) as (r & w3 & ->). eexists _, _. reflexivity.
  - destruct (IH w1) as (r & w2 & ->). eexists _, _. reflexivity.
Qed.

Lemma SignMultiple_app l1 l2 w :
  SignMultiple (l1 ++ l2) w = (a ← SignMultiple l1; b ← SignMultiple l2; mret (merge_signed a b)) w.
Proof.
  revert w. induction l1 as [|s l1 IH]; intros w.
  { cbn. unfold mbind, M_bind, mret, M_ret. destruct (SignMultiple_total l2 w) as (r & w' & ->). by destruct r. }
  cbn [SignMultiple app]. unfold mbind, M_bind, mret, M_ret in *. destruct (HasCSR_total s w) as (b & w1 & ->).
  destruct b; cbn [negb].
  - unfold try. destruct (Sign s w1) as [x w2]. rewrite IH. destruct (SignMultiple_total l1 w2) as (a & w3 & ->).
    cbn. destruct (SignMultiple_total l2 w3) as (r & w4 & E). destruct x; cbn; rewrite E; done.
  - rewrite IH. destruct (SignMultiple_total l1 w1) as (a & w3 & ->).
    cbn. destruct (SignMultiple_total l2 w3) as (r & w4 & E). rewrite E. done.
Qed.

Lemma merge_assoc a b c : merge_signed (merge_signed a b) c = merge_signed a (merge_signed b c).
Proof. unfold merge_signed. cbn. by rewrite <- !app_assoc. Qed.

Lemma sign_batches_spec limit : (0 < limit)%nat -> forall fuel subjects merged w,
  (length subjects <= fuel)%nat ->
  sign_batches fuel limit subjects merged w = (r ← SignMultiple subjects; mret (merge_signed merged r)) w.
Proof.
  intros Hl fuel.
  assert (forall merged w, (mret merged : MW SignResult) w = (r ← SignMultiple []; mret (merge_signed merged r)) w) as Hnil.
  { intros merged w. cbn. unfold mbind, M_bind, mret, M_ret, merge_signed. cbn. rewrite !app_nil_r. by destruct merged. }
  induction fuel as [|fuel IH]; intros subjects merged w Hf.
  - destruct subjects; [apply Hnil|cbn in Hf; lia].
  - destruct subjects as [|x xs]; [apply Hnil|].
    cbn [sign_batches]. set (l := x :: xs) in *. 
    pose proof (SignMultiple_app (take limit l) (drop limit l) w) as E. rewrite take_drop in E.
    unfold mbind, M_bind, mret, M_ret in *. rewrite E.
    destruct (SignMultiple_total (take limit l) w) as (a & w1 & ->).
    rewrite IH; [|rewrite length_drop; subst l; cbn in *; lia].
    destruct (SignMultiple_total (drop limit l) w1) as (b & w2 & ->). cbn. by rewrite merge_assoc.
Qed.

(** Batching is invisible.  Whatever the configured batch size, signing a
    list of requests in batches gives the same certificates, the same report
    and the same final state as signing the list in one go. *)
Theorem signInBatches_equiv cfg subjects w : signInBatches cfg subjects w = SignMultiple subjects w.
Proof.
  unfold signInBatches. destruct (Z.leb_spec (SignBatchLimit cfg) 0); [done|]. cbn [orb].
  destruct (Z.of_nat (length subjects) <=? SignBatchLimit cfg); [done|].
  rewrite sign_batches_spec; [|lia|done]. unfold mbind, M_bind, mret, M_ret.
  destruct (SignMultiple_total subjects w) as (r & w' & ->). by destruct r.
Qed.

(** ** What the answers mean *)

Lemma latest_inv_same subject : mono inv_same (LatestSerialForSubject subject).
Proof.
  unfold LatestSerialForSubject, ReadInventory, is_structured.
  repeat first [ solve [apply inv_same_of_same; mono_tac] | apply verify_inv_same | mono_step ].
Qed.

(** The subject has neither a stored certificate nor an inventory entry. *)
Definition never_issued (subject : string) (w : World) : Prop :=
  blobs (be (st w)) !! CertKey subject = None /\
  last_match (fun e => bool_decide (ie_Subject e = subject)) (inv_view (be (st w))) = None.

Lemma subjectIssued_false subject w w' : subjectIssued subject w = (Ok false, w') -> never_issued subject w'.
Proof.
  unfold subjectIssued. intros H. apply bind_Ok in H as (r & w1 & H1 & H). apply try_Ok in H1.
  destruct r as [pem|e]; [by apply ret_Ok in H as [? _]|].
  destruct (errors_Is e FsErrNotExist) eqn:E; cbn [negb] in H; [|by apply fail_Ok in H].
  pose proof (mono_run same_store _ _ _ _ (same_store_lift _ (GetCert_same subject)) H1) as (S1 & _).
  apply lift_run in H1 as (s1 & H1 & ->). apply (backend_Err_is _ _ _ _ FsErrNotExist) in H1 as [H1 _]; [|done].
  destruct (be_Get (CertKey subject) (be (st w))) as [r0 b0] eqn:G. simpl in H1. subst r0.
  apply be_Get_missing in G; [|done].
  apply bind_Ok in H as (r & w2 & H2 & H). apply try_Ok in H2. destruct r as [ser|e2]; [by apply ret_Ok in H as [? _]|].
  destruct (errors_Is e2 FsErrNotExist) eqn:E2; [|by apply fail_Ok in H]. apply ret_Ok in H as [_ ->].
  apply lift_run in H2 as (s2 & H2 & ->). cbn [st set_st] in H2 |- *.
  pose proof (mono_run _ _ _ _ _ (latest_inv_same subject) H2) as HS.
  pose proof (mono_run _ _ _ _ _ (latest_frame subject) H2) as (_ & _ & F).
  apply LatestSerialForSubject_none in H2; [|done]. destruct (inv_same_view _ _ HS) as [V _].
  cbn [st set_st] in S1. split.
  - cbn [st set_st]. rewrite F by done. by rewrite S1.
  - cbn [st set_st]. by rewrite V.
Qed.

Lemma note_run p s u s' : note_destructive p s = (Ok u, s') ->
  same_store (sv_world s) (sv_world s') /\ ca (sv_world s') = ca (sv_world s).
Proof.
  unfold note_destructive. destruct (destructiveOps s) as [t|]; [|by intros [= _ <-]].
  case_bool_decide; [by intros [= _ <-]|]. destruct (lift time_Now (sv_world s)) as [[now|e] w] eqn:E; [|done].
  apply now_run in E as (H1 & _ & H2). by intros [= _ <-].
Qed.

Lemma put_signed_404 subject ttl s resp s' :
  put_signed subject ttl s = (Ok resp, s') -> code_ resp = StatusNotFound -> never_issued subject (sv_world s').
Proof.
  unfold put_signed. intros H Hc. apply bind_Ok in H as (r & s1 & _ & H).
  destruct r as [pem|e]; [by apply ret_Ok in H as [-> _]|].
  destruct (Contains _ _).
  - unfold answerSignWithoutCSR in H. destruct (negb _); [by apply ret_Ok in H as [-> _]|].
    apply bind_Ok in H as (issued & s2 & H2 & H). apply ret_Ok in H as [-> ->].
    apply call_Ok in H2 as (w2 & H2 & ->). destruct issued as [[]|]; [done| |done].
    by apply subjectIssued_false in H2.
  - repeat case_match; by apply ret_Ok in H as [-> _].
Qed.

(** The serial of the subject's last inventory entry is on the stored CRL. *)
Definition latest_revoked (subject : string) (w w' : World) : Prop :=
  exists e n,
    last_match (fun e => bool_decide (ie_Subject e = subject)) (inv_view (be (st w))) = Some e /\
    SetString16 (ie_Serial e) = Some n /\ on_crl w' n.

Lemma put_revoked_204 p subject s resp s' o :
  put_revoked p subject s = (Ok resp, s') -> code_ resp = StatusNoContent ->
  key_matches (ca (sv_world s)) -> own_stored (sv_world s) o ->
  latest_revoked subject (sv_world s) (sv_world s').
Proof.
  unfold put_revoked. intros H Hc Hm Ho. apply bind_Ok in H as (r & s1 & H1 & H). apply call_Ok in H1 as (w1 & H1 & ->).
  destruct r as [[]|e].
  - apply bind_Ok in H as (u & s2 & H2 & H). apply ret_Ok in H as [-> ->]. apply note_run in H2 as [S2 C2].
    destruct (Revoke_latest _ _ _ _ Hm Ho H1) as (e & n & He & Hn & Hl). exists e, n. split; [done|]. split; [done|].
    cbn [sv_world set_world] in S2, C2. destruct Hl as (o' & Hown & Hin). exists o'. split; [|done].
    eapply own_stored_quiet; [|exact Hown]. split; [unfold same_core; by rewrite C2|done].
  - destruct (errors_Is e ErrForeignStoredCRL); [by apply ret_Ok in H as [-> _]|].
    destruct (errors_Is e ErrSubjectUnknown); [|by apply ret_Ok in H as [-> _]].
    apply bind_Ok in H as (csr & s2 & _ & H). apply ret_Ok in H as [-> _]. repeat case_match; done.
Qed.

(** A request the mux hands to [rt], with what is left of it behind the
    middleware. *)
Lemma serve_routed cfg x s resp s' rt v :
  ServeHTTP cfg x s = (Ok resp, s') -> find_route mux (x_Method x) (x_Segments x) = Some (rt, v) ->
  (code_ resp = StatusForbidden \/ code_ resp = StatusMovedPermanently) \/
  exists p s1, authMiddleware (sv_AuthConfig cfg) (auth_request x) (sv_world s) = (Ok p, sv_world s1) /\
    same_store (sv_world s) (sv_world s1) /\ ca (sv_world s1) = ca (sv_world s) /\
    handle cfg rt v p x s1 = (Ok resp, s').
Proof.
  unfold ServeHTTP. intros H Er. apply bind_Ok in H as (auth & s1 & H1 & H). apply call_Ok in H1 as (w1 & H1 & ->).
  pose proof (mono_run _ _ _ _ _ (middleware_same _ _) H1) as S1.
  pose proof (mono_run _ _ _ _ _ (middleware_autosigns _ _) H1) as [_ C1].
  destruct auth as [p|e]; [|apply ret_Ok in H as [-> _]; left; by left].
  destruct (negb (x_Canonical x)); [apply ret_Ok in H as [-> _]; left; by right|].
  rewrite Er in H. right. by exists p, (set_world w1 s).
Qed.

(** The answers to a status request can be believed.  A 204 to a revocation
    means that the serial the inventory lists last for the subject is on the
    CRL this CA has stored; a 404 to a signing means that the subject has
    neither a stored certificate nor an inventory entry, so that trouble with
    the storage is never reported as "not found". *)
Theorem put_status_answers cfg x s resp s' subject state ttl o :
  ServeHTTP cfg x s = (Ok resp, s') -> find_route mux (x_Method x) (x_Segments x) = Some (RPutStatus, subject) ->
  decodeJSONBody pick_status (x_json x) = inl (state, ttl) ->
  key_matches (ca (sv_world s)) -> own_stored (sv_world s) o ->
  (state = "revoked" -> code_ resp = StatusNoContent -> latest_revoked subject (sv_world s) (sv_world s')) /\
  (state = "signed" -> code_ resp = StatusNotFound -> never_issued subject (sv_world s')).
Proof.
  intros H Er Hj Hm Ho. destruct (serve_routed _ _ _ _ _ _ _ H Er) as [[Hf|Hf]|(p & s1 & _ & S1 & C1 & Hh)];
    [split; intros _ Hc; rewrite Hf in Hc; discriminate..|].
  cbn [handle] in Hh. unfold handlePutStatus in Hh. rewrite Hj in Hh.
  destruct (negb (validSubject subject)); [apply ret_Ok in Hh as [-> _]; done|]. split; intros -> Hc.
  - rewrite bool_decide_eq_false_2, bool_decide_eq_true_2 in Hh by done.
    destruct (put_revoked_204 _ _ _ _ _ o Hh Hc) as (e & n & He & Hn & Hl).
    + by rewrite C1.
    + eapply own_stored_quiet; [|exact Ho]. split; [unfold same_core; by rewrite C1|done].
    + exists e, n. destruct S1 as (E & _). by rewrite E in He.
  - rewrite bool_decide_eq_true_2 in Hh by done. by eapply put_signed_404.
Qed.

(** ** Renewal over the API *)

Lemma acceptable_same w w' cert :
  same_store w w' -> ca w' = ca w -> acceptable w' cert -> acceptable w cert.
Proof.
  intros (E & _) C. unfold acceptable, selected, pending_list. rewrite E, C. done.
Qed.

(** The answer is a certificate for the one the client presented. *)
Definition renewed (x : Exchange) (w : World) (pem : blob) : Prop :=
  exists cert presented, x_PeerCertificates x = Some (cert :: presented) /\ acceptable w cert /\
    exists body, x_raw x = Ok body /\
      ((blank body = true /\ renewal_of w cert (PubKey cert) pem) \/
       (exists csr, decode_csr body = Ok csr /\ CommonName (csr_Subject csr) = CommonName (Subject cert) /\
          renewal_of w cert (csr_PublicKey csr) pem)).

Lemma handle_renewal x s pem s' :
  handlePostCertificateRenewal x s = (Ok (mkResp StatusOK (BRaw pem)), s') -> renewed x (sv_world s) pem.
Proof.
  unfold handlePostCertificateRenewal, clientCN. cbn [r_PeerCertificates auth_request]. intros H.
  destruct (x_PeerCertificates x) as [[|cert presented]|] eqn:Ep; [by apply ret_Ok in H as [? _]| |by apply ret_Ok in H as [? _]].
  case_bool_decide as Ee; [by apply ret_Ok in H as [? _]|].
  destruct (x_raw x) as [body|] eqn:Eb; [|by apply ret_Ok in H as [? _]].
  destruct (blank body) eqn:Ebl.
  - apply bind_Ok in H as (r & s1 & H1 & H). apply ret_Ok in H as [Hr _]. apply call_Ok in H1 as (w1 & H1 & ->).
    destruct r as [pem'|e]; [|unfold renewal_error in Hr; repeat case_match; done]. injection Hr as ->.
    apply AutoRenew_spec in H1 as (Ha & Hr & _). exists cert, presented.
    split; [done|]. split; [done|]. exists body. split; [done|]. by left.
  - destruct (parseCSR body) as [csr|e]; [|by apply ret_Ok in H as [? _]].
    case_bool_decide as Ecn; cbn [negb] in H; [|by apply ret_Ok in H as [? _]].
    apply bind_Ok in H as (r & s1 & H1 & H). apply ret_Ok in H as [Hr _]. apply call_Ok in H1 as (w1 & H1 & ->).
    destruct r as [pem'|e]; [|unfold renewal_error in Hr; repeat case_match; done]. injection Hr as ->.
    apply Renew_spec in H1 as (Ha & _ & csr' & Hd & Hcn & Hr). exists cert, presented.
    split; [done|]. split; [done|]. exists body. split; [done|]. right. by exists csr'.
Qed.

(** Renewal over the API.  A certificate is handed out on the renewal route
    only to a client whose own certificate was issued by this CA, verified at
    the time, and neither revoked nor awaiting revocation; the new certificate
    has the subject of the presented one, its key or the key of a signed
    request for the same name, no new authority and no longer life than the
    CA. *)
Theorem renewal_request_sound cfg c x s pem s' :
  sv_AuthConfig cfg = Some c -> x_Method x = "POST" -> renewal_path (x_Segments x) ->
  ServeHTTP cfg x s = (Ok (mkResp StatusOK (BRaw pem)), s') ->
  admitted c x (sv_world s) tierOwnClient /\ renewed x (sv_world s) pem.
Proof.
  intros Hc Hm Hp H.
  assert (find_route mux (x_Method x) (x_Segments x) = Some (RPostRenewal, "")) as Er.
  { rewrite Hm. destruct Hp as [->| ->]; reflexivity. }
  destruct (serve_routed _ _ _ _ _ _ _ H Er) as [[?|?]|(p & s1 & Ha & S1 & C1 & Hh)]; [done..|]. split.
  - rewrite Hc in Ha. eapply middleware_admitted; [exact Ha| |done].
    destruct (route_tier _ _ _ _ (Some c) Er) as (_ & _ & Ht). exact Ht.
  - cbn [handle] in Hh. apply handle_renewal in Hh as (cert & presented & H1 & H2 & H3).
    assert (same_ca (sv_world s) (sv_world s1)) as Hsame by (unfold same_ca; by rewrite C1).
    exists cert, presented. split; [done|]. split; [by eapply acceptable_same|].
    destruct H3 as (body & Hb & H3). exists body. split; [done|].
    destruct H3 as [[Hbl Hr]|(csr & Hd & Hn & Hr)]; [left|right].
    + split; [done|]. by eapply renewal_same.
    + exists csr. split; [done|]. split; [done|]. by eapply renewal_same.
Qed.
