(* ===== verification/Witnesses.v ===== *)
(** * A concrete CA

    A small CA with a stored chain, an inventory, a pending request and a
    pending supersession, on which the theorems of the other files are applied
    with every hypothesis evaluated. *)

From S2P Require Import Prelude GoStrings GoTime X509 Inventory Storage InventorySpec Policy.
From S2P Require Import CAState CRLChain CRL OCSP CRLSafety Supersede Signing Lifecycle Import System Growth Verify.
From S2P Require Import ManagedCert ManagedSafety Generate ClientCRL Auth ClientReload RateLimit Status Handlers HandlerSafety.

Definition demo_now : Time := 739000 * 86400 * 10 ^ 9.
Definition demo_days (n : Z) : Duration := n * 86400 * 10 ^ 9.

(** ** Certificates and CRLs *)

Definition ca_exts (k : PublicKey) : list Extension :=
  [Ext oidKeyUsage true (AKeyUsage 96); Ext oidBasicConstraints true (ABasicConstraints true 0);
   Ext oidSubjectKeyId false (AKeyId (KeyIdSha1 k))].
Definition demo_root_key : PublicKey := RSAKey 4096 1.
Definition demo_ca_key : PublicKey := ECDSAKey P256 2.
Definition demo_root : Certificate :=
  mkCert 3 1 (mkName "Demo root" []) (mkName "Demo root" []) (demo_now - demo_days 100)
    (demo_now + demo_days 9000) demo_root_key (ca_exts demo_root_key) demo_root_key.
Definition demo_ca : Certificate :=
  mkCert 3 2 (mkName "Puppet CA: demo" []) (mkName "Demo root" []) (demo_now - demo_days 100)
    (demo_now + demo_days 3650) demo_ca_key (ca_exts demo_ca_key) demo_root_key.

(** The CA's own CRL, number 7, with serial 66 revoked; and the root's. *)
Definition demo_crl : RevocationList :=
  mkCRL (Some 7) [RLE 66 (demo_now - demo_days 3)] (demo_now - demo_days 1) (demo_now + demo_days 29)
    (Subject demo_ca) [] demo_ca_key.
Definition root_crl (n : Z) : RevocationList :=
  mkCRL (Some n) [] (demo_now - demo_days 1) (demo_now + demo_days 29) (Subject demo_root) []
    demo_root_key.

Definition demo_agent_key : PublicKey := ECDSAKey P256 10.
Definition demo_agent : Certificate :=
  mkCert 3 42 (mkName "web01.example.com" []) (Subject demo_ca) (demo_now - demo_days 10)
    (demo_now + demo_days 300) demo_agent_key
    [Ext oidBasicConstraints true (ABasicConstraints false (-1));
     Ext (OIDPpCliAuth) false (AString "true")] demo_ca_key.
(** The same agent under the serial the CRL lists. *)
Definition demo_revoked : Certificate :=
  mkCert 3 66 (mkName "web01.example.com" []) (Subject demo_ca) (demo_now - demo_days 10)
    (demo_now + demo_days 300) demo_agent_key [] demo_ca_key.

Definition demo_csr : CertificateRequest :=
  mkCSR (mkName "web01.example.com" []) (RSAKey 4096 11)
    [Ext OIDPpCliAuth false (AString "true");
     Ext [1; 3; 6; 1; 4; 1; 34380; 1; 1; 1] false (AString "uuid")] (RSAKey 4096 11).
Definition demo_csr_pem : blob := pem_encode [mkBlock "CERTIFICATE REQUEST" (DerCSR demo_csr)].

(** ** The store and the CA *)

Definition demo_pending : supersededEntry := mkSuperseded "1F" "db01.example.com" (demo_now - 1).

Definition demo_blobs : gmap string blob :=
  <[KeyCRL := encodeCRLChain [demo_crl; root_crl 3]]>
  (<[KeyCACert := EncodeCABundle [demo_ca; demo_root]]>
  (<[KeySuperseded := BSuperseded true [demo_pending]]>
  (<[CSRKey "web01.example.com" := demo_csr_pem]>
  (<[CertKey "web01.example.com" := encode_cert demo_agent]>
     (blobs (be (demo_store_with false))))))).

Definition demo_config : Config :=
  mkConfig 90 0 0 0 true false false true ["http://ca.example.com/ocsp"] [] "/etc/chain.pem"
    (mkKeyConfig "" 0).

Definition demo_world : World :=
  mkWorld
    (mkStore (mkBackend false demo_blobs []) (Some demo_key) ∅ [] demo_now [5; 5; 5] [77; 78; 79; 80])
    (mkCA demo_config (Some demo_ca) (Some demo_ca_key) (Some demo_crl)
       (<["2A" := "web01.example.com"]> (<["42" := "web01.example.com"]> ∅)) ∅ 0 0 ∅ false 0)
    [Ok (encodeCRLChain [root_crl 4]); Ok (encodeCRLChain [root_crl 4])] [].

Definition ok_of {A} (d : A) (r : result A) : A := match r with Ok a => a | Err _ => d end.
Definition pem_of (m : MW blob) : blob := ok_of empty_blob (m demo_world).1.

Lemma run_is {S A} (m : M S A) w x : (m w).1 = x -> m w = (x, exec m w).
Proof. unfold exec. destruct (m w). by intros <-. Qed.

Lemma demo_key_matches : key_matches (ca demo_world).
Proof. intros cert key [= <-] [= <-]. reflexivity. Qed.
Lemma demo_stored : stored_chain demo_world [demo_crl; root_crl 3].
Proof. vm_compute. reflexivity. Qed.
Lemma demo_own : own_stored demo_world demo_crl.
Proof. exists [demo_crl; root_crl 3]. split; vm_compute; reflexivity. Qed.
Lemma demo_coherent : coherent (ca demo_world).
Proof. intros k h entry H. vm_compute in H. discriminate. Qed.

Lemma demo_inventory_ok : inventory_ok (be (st demo_world)).
Proof.
  intros _. right. exists (openVoxInventoryLine demo_entry (canonicalInventoryLine demo_entry)).
  vm_compute. reflexivity.
Qed.

(** ** Signing *)

Definition demo_issue : MW blob :=
  issueLeafLocked "app01.example.com" (mkName "app01.example.com" []) (ECDSAKey P384 12)
    (SANs ["app01.example.com"] [] [] []) [] [] 0.

Lemma issueLeafLocked_bounds_witness :
  exists caCert cert, CACert (ca demo_world) = Some caCert /\ pem_of demo_issue = encode_cert cert /\
    NotAfter cert <= NotAfter caCert /\
    serialIndex (ca (exec demo_issue demo_world)) !! serialHexStr (SerialNumber cert) =
      Some "app01.example.com".
Proof.
  destruct (issueLeafLocked_bounds "app01.example.com" (mkName "app01.example.com" []) (ECDSAKey P384 12)
    (SANs ["app01.example.com"] [] [] []) [] [] 0 demo_world (pem_of demo_issue)
    (exec demo_issue demo_world)) as (caCert & cert & H1 & H2 & _ & _ & _ & _ & _ & H3 & _ & H4).
  - apply run_is. vm_compute. reflexivity.
  - reflexivity.
  - exists caCert, cert. repeat split; assumption.
Defined.

Lemma issueLeafLocked_recorded_witness :
  exists cert, pem_of demo_issue = encode_cert cert /\
    spec_append (cert_entry cert "app01.example.com") (inv_view (be (st demo_world))) =
      Some (inv_view (be (st (exec demo_issue demo_world)))).
Proof.
  destruct (issueLeafLocked_recorded "app01.example.com" (mkName "app01.example.com" [])
    (ECDSAKey P384 12) (SANs ["app01.example.com"] [] [] []) [] [] 0 demo_world (pem_of demo_issue)
    (exec demo_issue demo_world)) as (cert & H1 & H2 & _).
  - apply run_is. vm_compute. reflexivity.
  - exact demo_inventory_ok.
  - vm_compute. reflexivity.
  - vm_compute. discriminate.
  - vm_compute. reflexivity.
  - intros caCert [= <-]. vm_compute. reflexivity.
  - exists cert. split; assumption.
Defined.

Lemma signWithDuration_authority_witness :
  exists csrPEM csr caCert cert,
    blobs (be (st demo_world)) !! CSRKey "web01.example.com" = Some csrPEM /\
    decode_csr csrPEM = Ok csr /\ CACert (ca demo_world) = Some caCert /\
    pem_of (signWithDuration "web01.example.com" 0) = encode_cert cert /\
    (forall e, e ∈ Extensions cert -> IsAuthOID (ext_Id e) = false).
Proof.
  destruct (signWithDuration_authority "web01.example.com" 0 demo_world
    (pem_of (signWithDuration "web01.example.com" 0))
    (exec (signWithDuration "web01.example.com" 0) demo_world))
    as (csrPEM & csr & caCert & cert & H1 & H2 & H3 & H4 & _ & _ & _ & _ & _ & _ & H5 & _).
  - apply run_is. vm_compute. reflexivity.
  - exists csrPEM, csr, caCert, cert. repeat split; assumption.
Defined.

Lemma Renew_sound_witness :
  acceptable demo_world demo_agent /\
  exists csr, decode_csr demo_csr_pem = Ok csr /\
    renewal_of demo_world demo_agent (csr_PublicKey csr)
      (pem_of (Renew "web01.example.com" demo_csr_pem (Some demo_agent))).
Proof.
  destruct (Renew_sound "web01.example.com" demo_csr_pem demo_agent demo_world
    (pem_of (Renew "web01.example.com" demo_csr_pem (Some demo_agent)))
    (exec (Renew "web01.example.com" demo_csr_pem (Some demo_agent)) demo_world))
    as (H1 & _ & csr & H2 & _ & H3).
  - apply run_is. vm_compute. reflexivity.
  - split; [assumption|]. exists csr. split; assumption.
Defined.

Lemma revoked_cannot_renew_witness :
  exists e w', AutoRenew (Some demo_revoked) demo_world = (Err e, w') /\ same_store demo_world w'.
Proof.
  refine (proj1 (revoked_cannot_renew demo_revoked demo_world demo_crl _ demo_own _ _)).
  - reflexivity.
  - intros c [= <-]. left. reflexivity.
  - vm_compute. left.
Defined.

(** The tenth environment call of an automatic renewal is the append to the
    inventory; here it fails. *)
Definition failing_world (k : nat) : World :=
  set_st (set_faults (repeat FOk k ++ [FBefore]) (st demo_world)) demo_world.

Definition demo_reissue : MW blob :=
  issueLeafLocked "web01.example.com" (mkName "web01.example.com" []) demo_agent_key no_sans [] [] 0.
Definition error_of {A} (r : result A) : error := match r with Err e => e | Ok _ => Msg "" end.

Lemma issueLeafLocked_failure_witness :
  cert_slot "web01.example.com"
    (attempted (ca (failing_world 4)) (mkName "web01.example.com" []) demo_agent_key)
    (failing_world 4) (exec demo_reissue (failing_world 4)).
Proof.
  apply (issueLeafLocked_failure "web01.example.com" (mkName "web01.example.com" []) demo_agent_key
    no_sans [] [] 0 (failing_world 4) (error_of (demo_reissue (failing_world 4)).1)).
  apply run_is. vm_compute. reflexivity.
Defined.

(** A renewal whose inventory append fails removes the certificate that was
    stored before it: the agent's certificate is still valid and still in the
    inventory, but no longer stored. *)
Lemma failed_renewal_drops_certificate :
  let w := failing_world 9 in
  let w' := exec (AutoRenew (Some demo_agent)) w in
  blobs (be (st w)) !! CertKey "web01.example.com" = Some (encode_cert demo_agent) /\
  is_ok (AutoRenew (Some demo_agent) w).1 = false /\
  blobs (be (st w')) !! CertKey "web01.example.com" = None /\
  inv_view (be (st w')) = [demo_entry].
Proof. vm_compute. auto. Qed.

(** ** Import *)

(** A certificate this CA signed, of which it has no record. *)
Definition demo_lost : Certificate :=
  mkCert 3 99 (mkName "db01.example.com" []) (Subject demo_ca) (demo_now - demo_days 10)
    (demo_now + demo_days 300) demo_agent_key [] demo_ca_key.
Definition demo_import : MW ImportResult := ImportCertificate "db01.example.com" (encode_cert demo_lost).
Definition demo_imported : ImportResult := ok_of (mkImport "" "" 0 0 false) (demo_import demo_world).1.

Lemma ImportCertificate_recorded_witness :
  exists cert, decode_cert (encode_cert demo_lost) = Some cert /\
    recorded "db01.example.com" (encode_cert demo_lost) cert demo_world (exec demo_import demo_world).
Proof.
  destruct (ImportCertificate_recorded "db01.example.com" (encode_cert demo_lost) demo_world demo_imported
    (exec demo_import demo_world)) as (caCert & cert & _ & H1 & _ & _ & _ & _ & H2).
  - apply run_is. vm_compute. reflexivity.
  - exact demo_inventory_ok.
  - intros cert [= <-]. split; [vm_compute; discriminate|vm_compute; reflexivity].
  - exists cert. split; [exact H1|exact H2].
Defined.

(** ** Revocation *)

Lemma upstreamCRLs_monotone_witness :
  exists issuers published,
    ParseCABundle (EncodeCABundle [demo_ca; demo_root]) = Ok issuers /\
    publishedUpstream (ca demo_world) (encodeCRLChain [demo_crl; root_crl 3]) = Ok published /\
    NoDup (omap (signerOf issuers) [root_crl 4]).
Proof.
  destruct (upstreamCRLs_monotone (encodeCRLChain [demo_crl; root_crl 3]) publishingUpstream demo_world
    [root_crl 4]
    (exec (upstreamCRLs (encodeCRLChain [demo_crl; root_crl 3]) publishingUpstream) demo_world))
    as (bundle & issuers & published & H1 & H2 & H3 & _ & H4).
  - apply run_is. vm_compute. reflexivity.
  - exists issuers, published. assert (bundle = EncodeCABundle [demo_ca; demo_root]) as ->.
    { vm_compute in H1. injection H1 as <-. reflexivity. }
    repeat split; assumption.
Defined.

Lemma revokeSerialLocked_publishes_witness :
  exists chain' new, stored_chain (exec (revokeSerialLocked "2a") demo_world) chain' /\
    ownCRLIn chain' (Some demo_ca) = Some new /\ 42 ∈ revoked_serials new /\ 66 ∈ revoked_serials new.
Proof.
  destruct (revokeSerialLocked_publishes "2a" 42 demo_world (exec (revokeSerialLocked "2a") demo_world)
    [demo_crl; root_crl 3] demo_crl) as (chain' & new & H1 & H2 & H3 & H4 & _).
  - exact demo_key_matches.
  - exact demo_stored.
  - vm_compute. reflexivity.
  - vm_compute. reflexivity.
  - apply run_is. vm_compute. reflexivity.
  - exists chain', new. split; [exact H1|]. split; [exact H2|]. split; [exact H3|]. apply H4. vm_compute. left.
Defined.

Lemma ReconcileSuperseded_accounts_witness :
  accounted (exec ReconcileSuperseded demo_world) demo_pending.
Proof.
  apply (ReconcileSuperseded_accounts demo_world (ReconcileSuperseded demo_world).1
    (exec ReconcileSuperseded demo_world) demo_crl demo_key_matches demo_own).
  - apply run_is. reflexivity.
  - vm_compute. left.
Defined.


(** ** OCSP *)

Definition demo_req : OCSPRequest :=
  mkReq 66 SHA1 (SHA1, Subject demo_ca) (SHA1, demo_ca_key) None.
Definition no_answer : OCSPAnswer := mkAnswer (mkOCSP 0 Good 0 0 None SHA1 None demo_ca_key) 0.
Definition demo_answer : OCSPAnswer := ok_of no_answer (AnswerOCSP demo_req demo_world).1.

Lemma AnswerOCSP_correct_witness :
  answer_ok (ca demo_world) demo_req (DER demo_answer) /\ o_Status (DER demo_answer) = Revoked.
Proof.
  destruct (AnswerOCSP_correct demo_req demo_world demo_answer (exec (AnswerOCSP demo_req) demo_world))
    as [H _].
  - exact demo_coherent.
  - apply run_is. vm_compute. reflexivity.
  - split; [exact H|vm_compute; reflexivity].
Defined.

(** ** Two replicas

    The second one still remembers CRL number 6, without the revocation. *)

Definition old_crl : RevocationList :=
  mkCRL (Some 6) [] (demo_now - demo_days 9) (demo_now + demo_days 21) (Subject demo_ca) [] demo_ca_key.
Definition late_ca : CA := set_cachedCRL (Some old_crl) (ca demo_world).
Definition demo_cluster : Cluster :=
  mkCluster (be (st demo_world))
    [node_of demo_world; mkNode late_ca (Some demo_key) ∅].
Definition demo_env : Env :=
  mkEnv [] demo_now [5; 5] [81; 82] [Ok (encodeCRLChain [root_crl 4])] [].
(** The first replica revokes an agent. *)
Definition demo_cluster' : Cluster :=
  step_on 0 (node_of demo_world) (OpRevoke "web01.example.com") demo_env demo_cluster.

Lemma demo_steps (P : op -> Prop) :
  P (OpRevoke "web01.example.com") -> steps P demo_cluster demo_cluster'.
Proof.
  intros HP. eapply Steps_step; [exact HP| |apply Steps_refl]. by apply Step.
Qed.

Lemma demo_nodes (P : Node -> Prop) :
  P (node_of demo_world) -> P (mkNode late_ca (Some demo_key) ∅) ->
  forall i n, nodes demo_cluster !! i = Some n -> P n.
Proof. intros H1 H2 [|[|i]] n H; simpl in H; by simplify_eq. Qed.

Lemma demo_all_coherent : all_coherent demo_cluster.
Proof.
  refine (demo_nodes (fun n => coherent (n_ca n)) _ _); intros k h entry H; vm_compute in H; discriminate.
Qed.
Lemma demo_one_ca : one_ca demo_ca demo_cluster.
Proof.
  by refine (demo_nodes (fun n => CACert (n_ca n) = Some demo_ca /\ CAKey (n_ca n) = Some (PubKey demo_ca)) _ _).
Qed.
Lemma demo_published : published demo_ca demo_cluster demo_crl.
Proof. exists [demo_crl; root_crl 3]. split; vm_compute; reflexivity. Qed.
Lemma demo_none_ahead : none_ahead demo_cluster demo_crl.
Proof.
  refine (demo_nodes (fun n => behind (n_ca n) demo_crl) _ _); intros x [= <-] _; [apply grows_refl|].
  split; [by right|]. intros n Hn. by apply elem_of_nil in Hn.
Qed.

Lemma replicas_coherent_witness : all_coherent demo_cluster'.
Proof.
  apply (replicas_coherent demo_cluster demo_cluster').
  - exact demo_all_coherent.
  - apply demo_steps. exact I.
Defined.

Lemma published_crl_grows_witness :
  exists crl', published demo_ca demo_cluster' crl' /\ 66 ∈ revoked_serials crl'.
Proof.
  destruct (published_crl_grows demo_ca demo_cluster demo_cluster' demo_crl) as (crl' & H1 & _ & H2).
  - exact demo_one_ca.
  - exact demo_published.
  - apply demo_steps. reflexivity.
  - exists crl'. split; [exact H1|]. apply H2. vm_compute. left.
Defined.

Definition late_node : Node := mkNode late_ca (Some demo_key) ∅.
Definition late_world : World := world_of (shared demo_cluster') late_node demo_env.
Definition synced : World := exec SyncCRLCache late_world.
Definition late_answer : OCSPAnswer :=
  ok_of no_answer (AnswerOCSP demo_req (world_of (be (st synced)) (node_of synced) demo_env)).1.

Lemma revocation_reaches_replica_witness : o_Status (DER late_answer) = Revoked.
Proof.
  rewrite (revocation_reaches_replica demo_ca demo_cluster demo_cluster' demo_crl 66 1 late_node demo_env
    true synced demo_req demo_env late_answer
    (exec (AnswerOCSP demo_req) (world_of (be (st synced)) (node_of synced) demo_env))).
  - vm_compute. reflexivity.
  - exact demo_all_coherent.
  - exact demo_one_ca.
  - exact demo_published.
  - exact demo_none_ahead.
  - vm_compute. left.
  - apply demo_steps. reflexivity.
  - reflexivity.
  - apply run_is. vm_compute. reflexivity.
  - reflexivity.
  - apply run_is. vm_compute. reflexivity.
Defined.

(** ** Authorisation *)

Definition demo_auth : AuthConfig :=
  mkAuthConfig [OwnTrustDomain (Some demo_ca) {["admin.example.com" := true]} true] false "".
Definition demo_request (cert : Certificate) : Request := mkRequest "PUT" "/clean" (Some [cert]).

Lemma checkChainRevocation_require_witness :
  link_clear (Some (NewClientCRLSet [root_crl 3] [demo_root])) true demo_now demo_ca demo_root.
Proof.
  apply (checkChainRevocation_require [demo_ca; demo_root] (Some (NewClientCRLSet [root_crl 3] [demo_root]))
    RevocationRequire demo_now) with (i := 0%nat).
  - discriminate.
  - discriminate.
  - vm_compute. reflexivity.
  - reflexivity.
  - reflexivity.
Defined.

Lemma authMiddleware_admits_witness :
  exists cert presented d, r_PeerCertificates (demo_request demo_agent) = Some (cert :: presented) /\
    d ∈ Domains demo_auth /\ entitled tierAdminOnly d cert "/clean".
Proof.
  destruct (authMiddleware_admits demo_auth (demo_request demo_agent) demo_world
    (mkPrincipal "web01.example.com" (Some (OwnTrustDomain (Some demo_ca) {["admin.example.com" := true]} true)))
    (exec (authMiddleware (Some demo_auth) (demo_request demo_agent)) demo_world))
    as (cert & presented & d & chain & now & H1 & H2 & _ & _ & _ & _ & _ & H3).
  - apply run_is. vm_compute. reflexivity.
  - vm_compute. discriminate.
  - exists cert, presented, d. split; [exact H1|]. split; [exact H2|exact H3].
Defined.

Lemma revoked_client_refused_witness :
  exists x w', authMiddleware (Some demo_auth) (demo_request demo_revoked)
    (world_of (be (st synced)) (node_of synced) demo_env) = (Err x, w').
Proof.
  destruct (authMiddleware (Some demo_auth) (demo_request demo_revoked) (world_of (be (st synced)) (node_of synced) demo_env))
    as [res w'] eqn:E.
  destruct (revoked_client_refused demo_ca demo_cluster demo_cluster' demo_crl 1 late_node demo_env true synced
    demo_auth (demo_request demo_revoked) demo_revoked [] demo_env res w') as [[x ->]|(d & chain & now & Hd & Hf & _)].
  - exact demo_one_ca.
  - exact demo_published.
  - exact demo_none_ahead.
  - vm_compute. left.
  - apply demo_steps. reflexivity.
  - reflexivity.
  - apply run_is. vm_compute. reflexivity.
  - reflexivity.
  - vm_compute. discriminate.
  - exact E.
  - by exists x, w'.
  - exfalso. apply list_elem_of_singleton in Hd. subst d. discriminate.
Defined.

Lemma attribute_own_first_witness :
  exists chain,
    attribute [OwnTrustDomain (Some demo_ca) ∅ true; NewForeignTrustDomain "root" [demo_root] [] ∅ false]
      demo_agent [] demo_world =
    (Ok (mkVerified (OwnTrustDomain (Some demo_ca) ∅ true) chain), set_st (exec time_Now (st demo_world)) demo_world).
Proof.
  apply (attribute_own_first (OwnTrustDomain (Some demo_ca) ∅ true)
    [NewForeignTrustDomain "root" [demo_root] [] ∅ false] demo_agent [] demo_world (demo_now + 5)).
  - vm_compute. reflexivity.
  - vm_compute. discriminate.
Defined.

Lemma admin_routes_guarded_witness :
  lookupTier "PUT" "/puppet-ca/v1/certificate_status/web01.example.com" (Some demo_auth) = tierAdminOnly.
Proof.
  apply (admin_routes_guarded "PUT" "/certificate_status/" apiPrefix "web01.example.com" (Some demo_auth)).
  - right. left.
  - right. left.
Defined.

(** ** Generation *)

Definition demo_replace : MW GenerateResult :=
  GenerateWithOptions "web01.example.com"
    (mkGenOpts ["web01.example.com"] [PpCliAuth] 0 true true false).
Definition demo_generated : GenerateResult :=
  ok_of (mkGenResult empty_blob empty_blob false) (demo_replace demo_world).1.

(** Replacing the agent's certificate revokes serial 42. *)
Lemma GenerateWithOptions_sound_witness :
  generated demo_world "web01.example.com"
    (mkGenOpts ["web01.example.com"] [PpCliAuth] 0 true true false) demo_generated /\
  exists pem cert, blobs (be (st demo_world)) !! CertKey "web01.example.com" = Some pem /\
    decode_cert pem = Some cert /\ on_crl (exec demo_replace demo_world) (SerialNumber cert).
Proof.
  destruct (GenerateWithOptions_sound "web01.example.com"
    (mkGenOpts ["web01.example.com"] [PpCliAuth] 0 true true false) demo_world demo_generated
    (exec demo_replace demo_world) demo_crl demo_key_matches demo_own) as (_ & _ & G & R).
  - intros g Hg. by apply list_elem_of_singleton in Hg.
  - apply run_is. vm_compute. reflexivity.
  - split; [exact G|]. apply R. vm_compute. reflexivity.
Defined.

(** ** Managed certificates *)

(** A one-hour certificate with a renewal window of thirty days. *)
Definition demo_spec : CertSpec :=
  mkCertSpec "ca.example.com" ["ca.example.com"] ["192.0.2.1"] [] [Some "spiffe://example.com/ca"] []
    Hour (demo_days 30) (mkKeyConfig "" 0) true None.
Definition demo_managed : ManagedCert := mkManagedCert demo_spec (Some "tls").
Definition demo_stores_empty : Managed := mkManaged demo_world ∅ ∅.
Definition demo_pass : result bool * Managed := reconcileManagedCert demo_managed demo_now demo_stores_empty.


Definition without_failures (s : Managed) : Managed :=
  mkManaged (set_st (set_faults [] (st (mc_world s))) (mc_world s)) (material s) ∅.
Lemma without_failures_held s : material (without_failures s) = material s.
Proof. reflexivity. Qed.
Lemma without_failures_faults s : faults (st (mc_world (without_failures s))) = [].
Proof. reflexivity. Qed.
Definition demo_later : Managed := without_failures demo_pass.2.

(** The certificate the first pass stored. *)
Definition demo_tls : Certificate :=
  match material demo_pass.2 !! "tls" with
  | Some (BPem [mkBlock _ (DerCert cert)] _, _) => cert
  | _ => demo_ca
  end.

Lemma managed_certificate_settles_witness :
  reconcileManagedCert demo_managed (demo_now + Minute) demo_later = (Ok false, demo_later).
Proof.
  assert (demo_pass.1 = Ok true) as Hd by (vm_compute; reflexivity).
  destruct (managed_certificate_settles demo_managed demo_now demo_stores_empty demo_pass.2 demo_ca)
    as (place & cert & key & at_ & Hp & Hm & _ & Hrest & _).
  - reflexivity.
  - vm_compute. reflexivity.
  - vm_compute. discriminate.
  - rewrite <- Hd. apply surjective_pairing.
  - injection Hp as <-.
    assert (cert = demo_tls) as -> by (unfold demo_tls; rewrite Hm; reflexivity). apply Hrest.
    + constructor.
      * reflexivity.
      * vm_compute. reflexivity.
      * exists demo_ca_key. vm_compute. reflexivity.
      * vm_compute. reflexivity.
      * unfold demo_later. rewrite without_failures_held. exact Hm.
      * intros crl Hc.
        assert (cachedCRL (ca (mc_world demo_later)) = Some demo_crl) as E by (vm_compute; reflexivity).
        rewrite E in Hc. injection Hc as <-. vm_compute. reflexivity.
      * apply without_failures_faults.
    + vm_compute. discriminate.
    + vm_compute. reflexivity.
Defined.

(** The store has refused three writes in a row, the last a minute ago. *)
Definition demo_refusing : Managed :=
  mkManaged demo_world ∅ (<["ca.example.com" := mkSaveFailure 3 (demo_now - Minute)]> ∅).

Lemma managed_write_backoff_witness :
  reconcileManagedCert demo_managed demo_now demo_refusing = (Ok false, demo_refusing) /\
  unmoved demo_refusing (reconcileManagedCert demo_managed demo_now demo_refusing).2 /\
  save_wait 3 = 30 * Minute.
Proof.
  destruct (managed_write_backoff demo_managed demo_now demo_refusing
    (reconcileManagedCert demo_managed demo_now demo_refusing).1
    (reconcileManagedCert demo_managed demo_now demo_refusing).2
    (mkSaveFailure 3 (demo_now - Minute))) as (_ & H & _).
  - reflexivity.
  - vm_compute. discriminate.
  - vm_compute. split; [discriminate|reflexivity].
  - apply surjective_pairing.
  - split; [vm_compute; reflexivity|]. split; [exact H|reflexivity].
Defined.

(** ** Foreign clients *)

Definition root_crl_revoking : RevocationList :=
  mkCRL (Some 5) [RLE 2 (demo_now - demo_days 1)] (demo_now - 1) (demo_now + demo_days 29)
    (Subject demo_root) [] demo_root_key.

Lemma freshness_order_witness :
  freshness (Some (NewClientCRLSet [root_crl 3; root_crl_revoking] [demo_root])) demo_now =
  freshness (Some (NewClientCRLSet [root_crl_revoking; root_crl 3] [demo_root])) demo_now.
Proof. apply freshness_order. apply Permutation_swap. Defined.

Definition demo_entry_ca : ClientCA := mkClientCA "root" "/etc/root.pem" "/etc/root-crl.pem" ["ops"] false.
Definition demo_files (crls : list RevocationList) (path : string) : result blob :=
  if bool_decide (path = "/etc/root.pem") then Ok (EncodeCABundle [demo_root])
  else Ok (encodeCRLChain crls).
Definition demo_domains : list TrustDomain :=
  ok_of [] (buildTrustDomains (demo_files [root_crl_revoking]) false [demo_entry_ca] (Some demo_ca) ∅).

Lemma buildTrustDomains_grants_witness :
  exists foreign, demo_domains = OwnTrustDomain (Some demo_ca) ∅ true :: foreign /\
    Forall2 (domain_of_entry (demo_files [root_crl_revoking])) [demo_entry_ca] foreign.
Proof.
  apply (buildTrustDomains_grants (demo_files [root_crl_revoking]) false [demo_entry_ca] (Some demo_ca) ∅).
  vm_compute. reflexivity.
Defined.

(** A replay of the older CRL, which does not list serial 2 yet. *)
Definition root_published (c : RevocationList) : Prop := c = root_crl_revoking \/ c = root_crl 3.
Definition replayed : list TrustDomain :=
  ok_of [] (refreshClientCRLs (demo_files [root_crl 3]) [demo_entry_ca] demo_domains demo_world).1.

Lemma root_keeps_listing : keeps_listing root_published 2.
Proof.
  split.
  - intros c [->| ->]; reflexivity.
  - intros c c' [->| ->] [->| ->]; intros Hle Hn; first [exact Hn|vm_compute in Hle; done|vm_compute in Hn; by apply elem_of_nil in Hn].
  - right. split; [intros c [->| ->]; by eexists|].
    intros c c' m m' [->| ->] [->| ->] [= <-] [= <-] Hle Hn; first [exact Hn|vm_compute in Hle; done|
      vm_compute in Hn; by apply elem_of_nil in Hn].
Qed.

Lemma reload_cannot_readmit_witness :
  exists d', replayed !! 1%nat = Some d' /\
    is_Some (checkChainRevocation [demo_ca; demo_root] (RevocationSet d') RevocationCheck demo_now).
Proof.
  destruct (demo_domains !! 1%nat) as [d|] eqn:Hd; [|vm_compute in Hd; discriminate].
  destruct (reload_cannot_readmit root_published demo_root_key 2 [demo_entry_ca] 0 demo_entry_ca
    demo_now demo_domains (clock (st (exec (refreshClientCRLs (demo_files [root_crl 3]) [demo_entry_ca]
      demo_domains) demo_world))) replayed d root_keeps_listing) as (d' & Hd' & Href).
  - reflexivity.
  - discriminate.
  - exact Hd.
  - vm_compute in Hd. injection Hd as <-. eexists. split; [reflexivity|]. split; [reflexivity|].
    split; [left|]. split.
    + intros c Hc. vm_compute in Hc. apply list_elem_of_singleton in Hc. left. exact Hc.
    + left. eexists. split; [vm_compute; left|]. split; [left|]. left. eexists. reflexivity.
  - apply rtc_once. exists (demo_files [root_crl 3]), demo_world. eexists. split; [|split; [|split; [reflexivity|]]].
    + intros entry [= <-] data b crl Hdata Hb Hp _. vm_compute in Hdata. injection Hdata as <-.
      vm_compute in Hb.
      apply list_elem_of_singleton in Hb. subst b. injection Hp as <-. right. reflexivity.
    + reflexivity.
    + apply run_is. vm_compute. reflexivity.
  - exists d'. split; [exact Hd'|].
    apply (Href [demo_ca; demo_root] 0%nat demo_ca demo_root); try reflexivity. discriminate.
Defined.

(** ** The API *)

Definition demo_server_config : ServerConfig := mkServerConfig (Some demo_auth) false 2 false SerialNumberAsHex.
Definition demo_server : Server := newServer demo_world 10.
Definition demo_exchange (method : string) (segments : list string) (peers : list Certificate)
    (json : json_body) (raw : result blob) : Exchange :=
  mkExchange method segments true (Some peers) "10.0.0.1" json raw OBadBase64 "" [] None None.
Definition serve (x : Exchange) : Response := ok_of internal_error (ServeHTTP demo_server_config x demo_server).1.

(** A stranger submits a signing request for a new host. *)
Definition new_host_pem : blob :=
  pem_encode [mkBlock "CERTIFICATE REQUEST"
    (DerCSR (mkCSR (mkName "app01.example.com" []) (RSAKey 4096 12) [] (RSAKey 4096 12)))].
Definition demo_submit : Exchange :=
  demo_exchange "PUT" ["certificate_request"; "app01.example.com"] [] JMalformed (Ok new_host_pem).
Definition after (x : Exchange) : Server := exec (ServeHTTP demo_server_config x) demo_server.

Lemma requests_cannot_write_witness :
  code_ (serve demo_submit) = StatusOK /\
  only_key (CSRKey "app01.example.com") (st demo_world) (st (sv_world (after demo_submit))).
Proof.
  split; [vm_compute; reflexivity|].
  destruct (requests_cannot_write demo_server_config demo_auth demo_submit demo_server (serve demo_submit)
    (after demo_submit)) as [H|[H|[H|(subject & _ & Hp & H)]]].
  - reflexivity.
  - apply (run_is (ServeHTTP demo_server_config demo_submit)). vm_compute. reflexivity.
  - exfalso. destruct H as (E & _).
    assert (blobs (be (st (sv_world (after demo_submit)))) !! CSRKey "app01.example.com" =
      blobs (be (st demo_world)) !! CSRKey "app01.example.com") as E' by (rewrite E; reflexivity).
    vm_compute in E'. discriminate.
  - exfalso. destruct H as (cert & presented & d & chain & now & later & H & _). discriminate.
  - exfalso. destruct H as (H & _). discriminate.
  - destruct Hp as [Hp|Hp]; [|discriminate]. injection Hp as <-. apply H. apply not_elem_of_nil.
Defined.

Definition status_json (state : string) : json_body := JObject (mkFields (Ok state) (Ok None) (Ok false) (Ok [])).
(** An administrator revokes the agent. *)
Definition demo_revoke : Exchange :=
  demo_exchange "PUT" ["puppet-ca"; "v1"; "certificate_status"; "web01.example.com"] [demo_agent]
    (status_json "revoked") (Err (Msg "")).

Lemma put_status_answers_witness : latest_revoked "web01.example.com" demo_world (sv_world (after demo_revoke)).
Proof.
  refine (proj1 (put_status_answers demo_server_config demo_revoke demo_server (serve demo_revoke) (after demo_revoke)
    "web01.example.com" "revoked" None demo_crl _ _ _ demo_key_matches demo_own) _ _).
  - apply (run_is (ServeHTTP demo_server_config demo_revoke)). vm_compute. reflexivity.
  - vm_compute. reflexivity.
  - reflexivity.
  - reflexivity.
  - vm_compute. reflexivity.
Defined.

Definition demo_renewal : Exchange :=
  demo_exchange "POST" ["certificate_renewal"] [demo_agent] JMalformed (Ok (BText "")).
Definition demo_renewed : blob := match body_ (serve demo_renewal) with BRaw pem => pem | _ => empty_blob end.

Lemma renewal_request_sound_witness :
  admitted demo_auth demo_renewal demo_world tierOwnClient /\ renewed demo_renewal demo_world demo_renewed.
Proof.
  apply (renewal_request_sound demo_server_config demo_auth demo_renewal demo_server demo_renewed (after demo_renewal)).
  - reflexivity.
  - reflexivity.
  - left. reflexivity.
  - apply (run_is (ServeHTTP demo_server_config demo_renewal)). vm_compute. reflexivity.
Defined.

Definition demo_listing : list CertStatusResponse :=
  ok_of [] (list_statuses false SerialNumberAsHex "" demo_world).1.

Lemma list_statuses_truthful_witness :
  map s_State demo_listing = ["signed"] /\ forall r, r ∈ demo_listing -> truthful demo_world r.
Proof.
  split; [vm_compute; reflexivity|].
  destruct (list_statuses_truthful false SerialNumberAsHex "" demo_world) as (l & E & H & _).
  - reflexivity.
  - unfold demo_listing. rewrite E. exact H.
Defined.
